(* ===== verification/_CoqProject ===== *)
-Q . S2P
Prelude.v
Endian.v
Buffer.v
StdContainers.v
Format.v
Http.v
Calendar.v
Timestamp.v
TimerQueue.v
Date.v
TimeZone.v
LogStream.v
Logging.v
Channel.v
Poller.v
EventLoop.v
TcpConnection.v
Monitor.v
Queues.v
ThreadPool.v
Connector.v
Acceptor.v
LoopPool.v
TcpServer.v
LogFile.v
AsyncLogging.v
Codec.v
Rpc.v
TcpClient.v
Inspector.v
InetAddress.v
StringPiece.v
ProcessInfo.v
Stream.v
Services.v
Thread.v
ZlibStream.v
Singletons.v
LoopLife.v
SystemInspector.v
Sockets.v
Logger.v
Condition.v
HttpStream.v
LogPipeline.v
PerformanceInspector.v
CodecStream.v
