(* ===== verification/Prelude.v ===== *)
(** * A verified model of muduo

    The program is the network library muduo under
    src/linux_multithread_server/muduo (directories base and net), with the small
    services of examples/simple: a multi-threaded C++ reactor library with its
    utilities.  This development
    translates its classes into executable definitions and proves the properties
    a user relies on.

    ** Parts and files

    Reactor core.
    - Channel.v: net/Channel (event masks, dispatch of received events).
    - Poller.v: net/Poller, net/poller/EPollPoller, PollPoller, DefaultPoller; the
      virtual interface is the class [Poller], its contract the class
      [PollerLaws], and both implementations are instances, with the kernel's
      side of epoll and poll written out.
    - EventLoop.v: net/EventLoop; module [Loop] is the loop over any poller
      (updateChannel, removeChannel, poll, dispatch), module [Functors] the
      functor queue, wakeup descriptor and quit flag as atomic actions of the
      loop thread and of other threads.
    - TimerQueue.v: net/TimerQueue, Timer, TimerId over a heap of Timer objects
      and std::set (StdContainers.v).
    - LoopLife.v: the constructors and destructors of EventLoop and TimerQueue, one
      loop per thread, and runAt, runAfter, runEvery, cancel.
    - LoopPool.v: net/EventLoopThread, EventLoopThreadPool.

    TCP.
    - Buffer.v, Endian.v: net/Buffer, net/Endian.
    - TcpConnection.v: net/TcpConnection on [Loop] and two buffers.
    - InetAddress.v: net/InetAddress with the address functions of net/SocketsOps.
    - Sockets.v: net/Socket and the rest of net/SocketsOps, in the builds with and
      without accept4, over a table of sockets and errno.
    - Acceptor.v, Connector.v: net/Acceptor (with sockets::accept), net/Connector.
    - TcpServer.v, TcpClient.v: net/TcpServer over LoopPool.v, net/TcpClient over
      Connector.v.

    Protocols.
    - Http.v: net/http (HttpRequest, HttpContext, HttpResponse, HttpServer).
    - Inspector.v: net/inspect/Inspector over Http.v.
    - ZlibStream.v: net/ZlibStream over zlib (class [Zlib], contract [ZlibLaws]) and
      net/protobuf/BufferStream.
    - Stream.v, Services.v: a connection as the stream its user sees, with the
      refinement from TcpConnection.v, and on it echo, discard, chargen, daytime,
      time and their clients (examples/simple), and the default callbacks.
    - HttpStream.v: the HTTP server as a service on its connections.
    - Codec.v: net/protobuf/ProtobufCodecLite.
    - CodecStream.v: the codec, ProtobufCodecLiteT and RpcCodec as a service on a
      connection, with the default error callback.
    - Rpc.v: net/protorpc (RpcChannel, RpcServer), base/Atomic.

    Threads.
    - Thread.v: base/Thread, CurrentThread, Exception: owners and started threads as
      interleaved actions.
    - Singletons.v: base/Singleton, ThreadLocal, ThreadLocalSingleton, WeakCallback.
    - Condition.v: the timed wait of base/Condition.
    - Monitor.v: base/Mutex, base/Condition, as a machine that interleaves any
      number of threads over one mutex, with spurious wakeups; its class
      [Resource] states what a method body promises about the waiters of a
      condition.
    - Queues.v: base/BlockingQueue, BoundedBlockingQueue, CountDownLatch.
    - ThreadPool.v: base/ThreadPool.

    Time and logging.
    - Calendar.v, Timestamp.v, Date.v, TimeZone.v: the Gregorian calendar and
      gmtime, base/Timestamp, base/Date, base/TimeZone.
    - Format.v, LogStream.v, Logging.v: printf conversions, base/LogStream,
      base/Logging.
    - Logger.v: the LOG_ macros and the globals of base/Logging.
    - LogFile.v, AsyncLogging.v: base/FileUtil, base/LogFile, base/AsyncLogging.
    - LogPipeline.v: log statements, the asynchronous logger and its files together.

    Texts and the process.
    - StringPiece.v: base/StringPiece, as pointers into shared blocks.
    - ProcessInfo.v: the directory scans and text readers of base/ProcessInfo and
      net/inspect/ProcessInspector, with the thread table.
    - SystemInspector.v: the pages of net/inspect/SystemInspector and
      ProcessInspector from what the system answers, and the constructor of the
      Inspector that registers them.
    - PerformanceInspector.v: the commands of net/inspect/PerformanceInspector, from
      what gperftools answers.

    Prelude.v (this file) holds the outcome monad, machine integers, byte strings
    and the list lemmas the other files share; StdContainers.v the ordered set and
    map of the C++ library.

    ** How code is represented

    A class is a record with the source's fields, a method a function on it; calls
    that may fail return an [outcome]: [Ok], or a [Fault] that says how the process
    stops (assertion, LOG_FATAL, exception, use of a dead object, signed overflow,
    ...).  The program is taken as built with assertions on.  Integers are [Z] with
    the wrap-around of their C type written out; size_t is 64 bits.  Objects that
    are shared or deleted live in a heap by address.  What the kernel, the clock,
    the allocator, other libraries and user callbacks answer are arguments, so
    theorems quantify over every behaviour of theirs; where a contract is needed it
    is a named hypothesis ([kernel_ok], [attempt_ok], [sendable], ...).
    Concurrency is a list of atomic actions of the threads, and theorems hold for
    every list.

    Loops have fuel, and each has a theorem that its fuel is enough: the HTTP
    parser and the codec use one unit per readable byte, the retry loop of fwrite
    and the read loop of a small file one per byte of the line or the file, the
    loops around deflate more than the bound of the compressed size, the number
    formatters one per digit.  Bounds in hypotheses are those of the types:
    2^62 bytes for streams (below the maximal size of a vector), 2^31 - 2
    connections and 2^63 calls for counters.

    ** What the theorems show

    - Refinement and equivalence: a Buffer is a byte queue under every sequence of
      operations (Buffer.v); the HTTP parser's result does not depend on how the
      bytes arrive (Http.v); the two pollers report the same events unless the
      batch of epoll is full (EventLoop.v);
      every remote call gets the answer to its own request (Rpc.v); the inspector
      answers as its table of commands says (Inspector.v), and its pages show the
      facts of the system's files and of the allocator (SystemInspector.v,
      PerformanceInspector.v); a service on a connection is its function on streams
      (Stream.v, Services.v): requests and messages that arrive in any pieces are
      answered in order, each once, a pipelined request only when more arrives
      (HttpStream.v, CodecStream.v); all builds of the socket calls make the same
      sockets (Sockets.v); the zone search and toUtcTime agree
      with their definitions (TimeZone.v).
    - Safety: no assertion fails and no dead object is used, whatever the
      interleaving, in timers, connections, server, client, connector, queues,
      thread pool, asynchronous logger, RPC, threads, singletons, weak callbacks and
      the life of a loop, within the protocols their files state, but for one read:
      addTimer from another thread may use a Timer the loop has deleted
      (TimerQueue.v).
    - Invariants: functors run once and in order (EventLoop.v), the two timer sets
      agree and every Timer is owned (TimerQueue.v), bytes accepted are bytes on
      the wire followed by the output buffer (TcpConnection.v), the server's map is
      the set of live connections (TcpServer.v), files hold the lines in order
      (LogFile.v, AsyncLogging.v).
    - Progress: a turn of the loop completes, armed timers, shutdown after the last
      byte; a pool in which nothing can move has done its work, or all its workers
      wait in run() for room in a full queue (ThreadPool.v); the parser and codec
      loops end, accept never spins without descriptors.
    - Logs: in any interleaving of log statements exactly the enabled lines are
      written, until abort() of a fatal one (Logger.v), also through the asynchronous
      logger as long as its back end keeps up, where a run shows that the line of the
      fatal statement may not reach the file (LogPipeline.v).
    - Round trips: integers through buffers, requests, codec streams, compressed
      streams, addresses, the text of tcp_info, timestamps, dates, zone files.
    - Errors: what bad input does to the codec and the parser, and runs that show
      defects: uses outside the protocols, and inputs from a peer that stop the
      process.

    ** Not modelled

    The memory behind a StringPiece handed to a system call; connect, read, readv
    and write of SocketsOps as functions of their own (their answers are inputs of
    the components that call them); ZlibInputStream, which is declared and never
    defined, as is PerformanceInspector::symbol; the lint annotations of
    base/Mutex.h; the text of a failed GOOGLE_CHECK; tests.  epoll_ctl is answered
    by the kernel's table alone (no ENOMEM or ENOSPC); the Acceptor's handler is one
    action, so no other thread takes the descriptor it frees for a moment; a log
    setting (level, output, flush) is read and written as one access.  In the monitors a timed
    wait is a wait that may end at any moment; Condition.v has its deadline.  What
    is left of the sources besides are declarations and accessors. *)

From stdpp Require Export base list gmap strings.
From Stdlib Require Export ZArith Lia Ascii.
Global Open Scope Z_scope.

(** ** Outcomes: a C++ call either returns or stops the process

    [AssertFailed] is a failing [assert] (the program is modelled as built
    without NDEBUG); [LengthError] is [std::length_error] of a container asked
    to exceed its maximal size; [FatalLog] is LOG_FATAL / LOG_SYSFATAL, whose
    logger aborts; [LogicError] is a thrown [std::logic_error];
    [UndefinedBehaviour] is a use of a deleted object or an access out of
    range; [Overflow] is a signed overflow or an out-of-range conversion;
    [BadAlloc] is [operator new] without a usable address; [Aborted] is a call
    of [abort()]; [OutOfFuel] is a loop still running when the model's fuel
    ends. *)
Inductive fault :=
| AssertFailed
| LengthError
| FatalLog
| LogicError
| UndefinedBehaviour
| Overflow
| BadAlloc
| Aborted
| OutOfFuel.

Inductive outcome (A : Type) :=
| Ok (a : A)
| Fault (f : fault).
Arguments Ok {A} _.
Arguments Fault {A} _.

#[export] Instance fault_eq_dec : EqDecision fault.
Proof. solve_decision. Defined.

#[export] Instance outcome_ret : MRet outcome := fun A a => Ok a.
#[export] Instance outcome_bind : MBind outcome := fun A B f m =>
  match m with
  | Ok a => f a
  | Fault e => Fault e
  end.

#[export] Instance outcome_fmap : FMap outcome := fun A B f m =>
  match m with
  | Ok a => Ok (f a)
  | Fault e => Fault e
  end.

(** The C [assert] macro, and LOG_FATAL guarded by a condition that must hold. *)
Definition c_assert (b : bool) : outcome unit :=
  if b then Ok tt else Fault AssertFailed.

Definition log_fatal_unless (b : bool) : outcome unit :=
  if b then Ok tt else Fault FatalLog.

Definition get_or {A} (e : fault) (o : option A) : outcome A :=
  match o with
  | Some a => Ok a
  | None => Fault e
  end.

Definition is_ok {A} (o : outcome A) : bool :=
  match o with Ok _ => true | Fault _ => false end.

Fixpoint foldM {A S} (f : S -> A -> outcome S) (s : S) (l : list A) : outcome S :=
  match l with
  | [] => Ok s
  | x :: l' => s' ← f s x; foldM f s' l'
  end.

Lemma outcome_bind_ok {A B} (m : outcome A) (k : A -> outcome B) b :
  m ≫= k = Ok b <-> exists a, m = Ok a /\ k a = Ok b.
Proof.
  destruct m; simpl; split.
  - intros H; eauto.
  - by intros (a' & [= ->] & H).
  - discriminate.
  - by intros (a' & [=] & _).
Qed.

Lemma outcome_fmap_ok {A B} (f : A -> B) (m : outcome A) b :
  f <$> m = Ok b <-> exists a, m = Ok a /\ b = f a.
Proof.
  destruct m; simpl; split.
  - intros [= <-]; eauto.
  - by intros (a' & [= ->] & ->).
  - discriminate.
  - by intros (a' & [=] & _).
Qed.

(** The outcomes allowed: [P] of a result, [E] of a fault. *)
Definition post {A} (P : A -> Prop) (E : fault -> Prop) (m : outcome A) : Prop :=
  match m with
  | Ok a => P a
  | Fault e => E e
  end.

Lemma post_ok {A} (P : A -> Prop) E a : P a -> post P E (Ok a).
Proof. done. Qed.

Lemma post_bind {A B} (P : A -> Prop) (Q : B -> Prop) E (m : outcome A) (k : A -> outcome B) :
  post P E m -> (forall a, m = Ok a -> P a -> post Q E (k a)) -> post Q E (m ≫= k).
Proof. destruct m; simpl; auto. Qed.

Lemma post_fmap {A B} (P : A -> Prop) (Q : B -> Prop) E (m : outcome A) (f : A -> B) :
  post P E m -> (forall a, P a -> Q (f a)) -> post Q E (f <$> m).
Proof. destruct m; simpl; auto. Qed.

Lemma post_mono {A} (P Q : A -> Prop) (E : fault -> Prop) (m : outcome A) :
  post P E m -> (forall a, P a -> Q a) -> post Q E m.
Proof. destruct m; simpl; auto. Qed.

Lemma post_conj {A} (P Q : A -> Prop) (E F : fault -> Prop) (m : outcome A) :
  post P E m -> post Q F m -> post (fun a => P a /\ Q a) E m.
Proof. destruct m; simpl; auto. Qed.

Lemma post_assert {B} (Q : B -> Prop) E b (k : outcome B) :
  b = true -> post Q E k -> post Q E (c_assert b ;; k).
Proof. by intros ->. Qed.

Lemma c_assert_ok b : c_assert b = Ok tt <-> b = true.
Proof. by destruct b. Qed.

Lemma c_assert_bind_true {B} b (k : outcome B) :
  b = true -> (c_assert b ;; k) = k.
Proof. by intros ->. Qed.

Lemma foldM_app {A S} (f : S -> A -> outcome S) s l1 l2 :
  foldM f s (l1 ++ l2) = s' ← foldM f s l1; foldM f s' l2.
Proof.
  revert s; induction l1 as [|x l1 IH]; intros s; simpl; [done|].
  destruct (f s x); simpl; [apply IH|done].
Qed.

(** An invariant kept by every step is kept by the fold. *)
Lemma foldM_invariant {A S} (P : S -> Prop) (f : S -> A -> outcome S) l :
  (forall s x s', P s -> x ∈ l -> f s x = Ok s' -> P s') ->
  forall s s', P s -> foldM f s l = Ok s' -> P s'.
Proof.
  induction l as [|x l IH]; intros Hstep s s' HP Hf; simpl in Hf.
  - by simplify_eq.
  - apply outcome_bind_ok in Hf as (s1 & H1 & H2).
    eapply IH; [|by eapply Hstep; [|left|]|done].
    intros; eapply Hstep; [done|by right|done].
Qed.

Lemma foldM_post {A S} (P : list A -> S -> Prop) E (f : S -> A -> outcome S) l :
  (forall s x rest, P (x :: rest) s -> post (P rest) E (f s x)) ->
  forall s, P l s -> post (P []) E (foldM f s l).
Proof.
  intros Hstep. induction l as [|x l IH]; intros s HP; simpl; [done|].
  eapply post_bind; [by apply Hstep|]. intros s' _ HP'. by apply IH.
Qed.

Lemma Ok_inj {A} (a b : A) : Ok a = Ok b -> a = b.
Proof. by intros [= ->]. Qed.

(** Invert every successful bind and assertion among the hypotheses. *)
Ltac inv_ok :=
  repeat match goal with
  | H : mbind _ _ = Ok _ |- _ =>
      apply outcome_bind_ok in H as (? & ? & ?)
  | H : c_assert _ = Ok _ |- _ => apply c_assert_ok in H
  | H : fmap _ _ = Ok _ |- _ => apply outcome_fmap_ok in H as (? & ? & ?)
  | H : mret _ = Ok _ |- _ => apply Ok_inj in H
  | H : Ok _ = Ok _ |- _ => apply Ok_inj in H
  | H : (_, _) = (_, _) |- _ => apply pair_equal_spec in H as [? ?]
  | H : Fault _ = Ok _ |- _ => discriminate H
  | H : Ok _ = Fault _ |- _ => discriminate H
  end.

(** ** Machine integers

    A w-bit value is a [Z]; [wrapU]/[wrapS] reduce it to the unsigned and the
    two's-complement range, as a conversion to that type does. *)
Definition wrapU (w z : Z) : Z := z mod 2 ^ w.
Definition wrapS (w z : Z) : Z := (z + 2 ^ (w - 1)) mod 2 ^ w - 2 ^ (w - 1).

Abbreviation u8 := (wrapU 8).
Abbreviation u16 := (wrapU 16).
Abbreviation u32 := (wrapU 32).
Abbreviation u64 := (wrapU 64).
Abbreviation i8 := (wrapS 8).
Abbreviation i16 := (wrapS 16).
Abbreviation i32 := (wrapS 32).
Abbreviation i64 := (wrapS 64).

Definition in_u (w z : Z) : Prop := 0 <= z < 2 ^ w.
Definition in_s (w z : Z) : Prop := - 2 ^ (w - 1) <= z < 2 ^ (w - 1).

Lemma pow2_pos w : 0 <= w -> 0 < 2 ^ w.
Proof. intros; apply Z.pow_pos_nonneg; lia. Qed.

Lemma pow2_half w : 1 <= w -> 2 ^ w = 2 * 2 ^ (w - 1).
Proof.
  intros. replace w with (Z.succ (w - 1)) at 1 by lia.
  apply Z.pow_succ_r. lia.
Qed.

Lemma wrapU_id w z : in_u w z -> wrapU w z = z.
Proof. apply Z.mod_small. Qed.

Lemma wrapU_range w z : 0 <= w -> in_u w (wrapU w z).
Proof. intros; apply Z.mod_pos_bound, pow2_pos; lia. Qed.

Lemma wrapS_id w z : 1 <= w -> in_s w z -> wrapS w z = z.
Proof.
  unfold in_s, wrapS; intros Hw Hz.
  rewrite Z.mod_small; [lia|]. rewrite (pow2_half w) by lia. lia.
Qed.

Lemma wrapS_range w z : 1 <= w -> in_s w (wrapS w z).
Proof.
  unfold in_s, wrapS; intros Hw.
  pose proof (Z.mod_pos_bound (z + 2 ^ (w - 1)) (2 ^ w) (pow2_pos w ltac:(lia))).
  rewrite (pow2_half w) in * by lia. lia.
Qed.

(** Reading an unsigned image back as signed loses nothing. *)
Lemma wrapS_wrapU w z : 1 <= w -> wrapS w (wrapU w z) = wrapS w z.
Proof.
  unfold wrapS, wrapU; intros Hw. f_equal.
  rewrite <- Zplus_mod_idemp_l. rewrite Z.mod_mod by (pose proof (pow2_pos w); lia).
  by rewrite Zplus_mod_idemp_l.
Qed.

(** A signed and an unsigned reading have the same image. *)
Lemma wrapU_wrapS w z : 1 <= w -> wrapU w (wrapS w z) = wrapU w z.
Proof.
  unfold wrapS, wrapU; intros Hw. rewrite Zminus_mod_idemp_l. f_equal. lia.
Qed.

Create HintDb mach.
#[export] Hint Unfold in_u in_s : mach.

(** C++ [/] and [%] truncate towards zero. *)
Abbreviation cdiv := Z.quot.
Abbreviation cmod := Z.rem.

(** ** Sequences addressed by machine integers *)
Definition zlen {A} (l : list A) : Z := Z.of_nat (length l).
Definition ztake {A} (n : Z) (l : list A) : list A := take (Z.to_nat n) l.
Definition zdrop {A} (n : Z) (l : list A) : list A := drop (Z.to_nat n) l.

(** The half-open range [lo, hi) of [l]. *)
Definition zslice {A} (lo hi : Z) (l : list A) : list A := ztake (hi - lo) (zdrop lo l).

(** [std::copy] of [data] to position [off] of an array that has room for it. *)
Definition zwrite {A} (off : Z) (data l : list A) : list A :=
  ztake off l ++ data ++ zdrop (off + zlen data) l.

(** [vector::resize]: cut, or pad with value-initialised elements. *)
Definition zresize {A} (d : A) (n : Z) (l : list A) : list A :=
  if n <=? zlen l then ztake n l else l ++ replicate (Z.to_nat (n - zlen l)) d.

(** [v[i]] of a vector: [None] out of range. *)
Definition zget {A} (l : list A) (i : Z) : option A :=
  if i <? 0 then None else l !! Z.to_nat i.

Definition zset {A} (l : list A) (i : Z) (x : A) : list A :=
  if i <? 0 then l else <[Z.to_nat i := x]> l.

Lemma zlen_nonneg {A} (l : list A) : 0 <= zlen l.
Proof. unfold zlen; lia. Qed.

Lemma zlen_nil {A} : zlen (@nil A) = 0.
Proof. done. Qed.

Ltac znil :=
  repeat match goal with
  | |- context [@zlen ?A (@nil ?A)] => change (@zlen A (@nil A)) with 0
  | H : context [@zlen ?A (@nil ?A)] |- _ => change (@zlen A (@nil A)) with 0 in H
  end.

Lemma zlen_cons {A} (x : A) l : zlen (x :: l) = 1 + zlen l.
Proof. unfold zlen; simpl; lia. Qed.

Lemma zlen_app {A} (l1 l2 : list A) : zlen (l1 ++ l2) = zlen l1 + zlen l2.
Proof. unfold zlen; rewrite length_app; lia. Qed.

Lemma zlen_replicate {A} n (x : A) : 0 <= n -> zlen (replicate (Z.to_nat n) x) = n.
Proof. unfold zlen; rewrite length_replicate; lia. Qed.

Lemma zlen_ztake {A} n (l : list A) : 0 <= n <= zlen l -> zlen (ztake n l) = n.
Proof. unfold zlen, ztake; rewrite length_take; lia. Qed.

Lemma zlen_zdrop {A} n (l : list A) : 0 <= n <= zlen l -> zlen (zdrop n l) = zlen l - n.
Proof. unfold zlen, zdrop; rewrite length_drop; lia. Qed.

Lemma zlen_zslice {A} lo hi (l : list A) :
  0 <= lo <= hi -> hi <= zlen l -> zlen (zslice lo hi l) = hi - lo.
Proof. intros; unfold zslice; rewrite zlen_ztake; rewrite ?zlen_zdrop; lia. Qed.

Lemma zlen_zwrite {A} off (data l : list A) :
  0 <= off -> off + zlen data <= zlen l -> zlen (zwrite off data l) = zlen l.
Proof.
  intros; pose proof (zlen_nonneg data). unfold zwrite.
  rewrite !zlen_app, zlen_ztake, zlen_zdrop; lia.
Qed.

Lemma zlen_rev {A} (l : list A) : zlen (rev l) = zlen l.
Proof. unfold zlen; by rewrite length_rev. Qed.

Lemma zlen_map {A B} (f : A -> B) l : zlen (map f l) = zlen l.
Proof. unfold zlen; by rewrite length_map. Qed.

Lemma zlen_0_nil {A} (l : list A) : zlen l = 0 -> l = [].
Proof. destruct l; unfold zlen; simpl; [done|lia]. Qed.

Lemma ztake_0 {A} (l : list A) : ztake 0 l = [].
Proof. done. Qed.

Lemma zdrop_0 {A} (l : list A) : zdrop 0 l = l.
Proof. done. Qed.

Lemma ztake_all {A} n (l : list A) : zlen l <= n -> ztake n l = l.
Proof. unfold ztake, zlen; intros; apply take_ge; lia. Qed.

Lemma zdrop_all {A} n (l : list A) : zlen l <= n -> zdrop n l = [].
Proof. unfold zdrop, zlen; intros; apply drop_ge; lia. Qed.

Lemma ztake_zdrop {A} n (l : list A) : ztake n l ++ zdrop n l = l.
Proof. apply take_drop. Qed.

Lemma ztake_app_exact {A} (l1 l2 : list A) n : n = zlen l1 -> ztake n (l1 ++ l2) = l1.
Proof. unfold ztake, zlen; intros ->; rewrite Nat2Z.id; apply take_app_length. Qed.

Lemma zdrop_app_exact {A} (l1 l2 : list A) n : n = zlen l1 -> zdrop n (l1 ++ l2) = l2.
Proof. unfold zdrop, zlen; intros ->; rewrite Nat2Z.id; apply drop_app_length. Qed.

(** Past a separator. *)
Lemma zdrop_app_cons {A} (l1 l2 : list A) x : zdrop (zlen l1 + 1) (l1 ++ x :: l2) = l2.
Proof.
  change (x :: l2) with ([x] ++ l2). rewrite app_assoc. apply zdrop_app_exact.
  by rewrite zlen_app.
Qed.

Lemma ztake_app_le {A} (l1 l2 : list A) n : n <= zlen l1 -> ztake n (l1 ++ l2) = ztake n l1.
Proof. unfold ztake, zlen; intros; apply take_app_le; lia. Qed.

Lemma zdrop_app_le {A} (l1 l2 : list A) n : n <= zlen l1 -> zdrop n (l1 ++ l2) = zdrop n l1 ++ l2.
Proof. unfold zdrop, zlen; intros; apply drop_app_le; lia. Qed.

Lemma zdrop_zdrop {A} n m (l : list A) : 0 <= n -> 0 <= m -> zdrop n (zdrop m l) = zdrop (m + n) l.
Proof. unfold zdrop; intros; rewrite drop_drop; f_equal; lia. Qed.

Lemma ztake_ztake {A} n m (l : list A) : n <= m -> ztake n (ztake m l) = ztake n l.
Proof. unfold ztake; intros; rewrite take_take; f_equal; lia. Qed.

Lemma ztake_add {A} n m (l : list A) :
  0 <= n -> 0 <= m -> ztake (n + m) l = ztake n l ++ ztake m (zdrop n l).
Proof.
  unfold ztake, zdrop; intros. rewrite Z2Nat.inj_add by lia.
  generalize (Z.to_nat n) (Z.to_nat m); clear. intros a b.
  rewrite <- (take_drop a (take (a + b) l)), take_take.
  f_equal; [f_equal; lia|].
  rewrite <- take_drop_commute. done.
Qed.

Lemma zslice_split {A} lo mid hi (l : list A) :
  0 <= lo <= mid -> mid <= hi -> zslice lo hi l = zslice lo mid l ++ zslice mid hi l.
Proof.
  intros; unfold zslice.
  replace (hi - lo) with ((mid - lo) + (hi - mid)) by lia.
  rewrite ztake_add by lia. rewrite zdrop_zdrop by lia.
  do 3 f_equal; lia.
Qed.

Lemma zslice_nil {A} n (l : list A) : zslice n n l = [].
Proof. unfold zslice; by rewrite Z.sub_diag. Qed.

Lemma zslice_app_l {A} lo hi (l1 l2 : list A) :
  0 <= lo <= hi -> hi <= zlen l1 -> zslice lo hi (l1 ++ l2) = zslice lo hi l1.
Proof.
  intros; unfold zslice.
  rewrite zdrop_app_le by lia. rewrite ztake_app_le; [done|].
  rewrite zlen_zdrop; lia.
Qed.

Lemma zslice_app_r {A} lo hi (l1 l2 : list A) :
  zlen l1 <= lo -> zslice lo hi (l1 ++ l2) = zslice (lo - zlen l1) (hi - zlen l1) l2.
Proof.
  intros; unfold zslice. replace (hi - zlen l1 - (lo - zlen l1)) with (hi - lo) by lia.
  f_equal. unfold zdrop, zlen in *. rewrite drop_app_ge by lia. f_equal; lia.
Qed.

Lemma zslice_zdrop {A} n lo hi (l : list A) :
  0 <= n -> 0 <= lo -> zslice lo hi (zdrop n l) = zslice (n + lo) (n + hi) l.
Proof.
  intros; unfold zslice. rewrite zdrop_zdrop by lia. f_equal; lia.
Qed.

Lemma zdrop_zslice {A} n lo hi (l : list A) :
  0 <= n -> 0 <= lo -> n <= hi - lo -> zdrop n (zslice lo hi l) = zslice (lo + n) hi l.
Proof.
  intros; unfold zslice, ztake, zdrop.
  replace (Z.to_nat (hi - lo)) with (Z.to_nat n + Z.to_nat (hi - (lo + n)))%nat by lia.
  rewrite <- take_drop_commute. rewrite drop_drop.
  do 2 f_equal; lia.
Qed.

Lemma ztake_zslice {A} n lo hi (l : list A) :
  0 <= n -> 0 <= lo -> n <= hi - lo -> ztake n (zslice lo hi l) = zslice lo (lo + n) l.
Proof.
  intros; unfold zslice. rewrite ztake_ztake by lia. f_equal; lia.
Qed.

Lemma zslice_zwrite_same {A} off hi (data l : list A) :
  0 <= off -> hi = off + zlen data -> hi <= zlen l ->
  zslice off hi (zwrite off data l) = data.
Proof.
  intros ? -> ?; pose proof (zlen_nonneg data). unfold zwrite.
  rewrite zslice_app_r; rewrite zlen_ztake by lia; [|lia].
  unfold zslice. rewrite Z.sub_diag, zdrop_0.
  apply ztake_app_exact; lia.
Qed.

Lemma zslice_zwrite_before {A} lo hi off (data l : list A) :
  0 <= lo <= hi -> hi <= off -> off + zlen data <= zlen l ->
  zslice lo hi (zwrite off data l) = zslice lo hi l.
Proof.
  intros; pose proof (zlen_nonneg data). unfold zwrite.
  rewrite zslice_app_l; rewrite ?zlen_ztake by lia; try lia.
  rewrite <- (ztake_zdrop off l) at 2.
  rewrite zslice_app_l; rewrite ?zlen_ztake by lia; try lia. done.
Qed.

Lemma zslice_zwrite_after {A} lo hi off (data l : list A) :
  0 <= off -> off + zlen data <= lo -> lo <= hi -> hi <= zlen l ->
  zslice lo hi (zwrite off data l) = zslice lo hi l.
Proof.
  intros; pose proof (zlen_nonneg data). unfold zwrite.
  rewrite app_assoc. rewrite zslice_app_r by (rewrite zlen_app, zlen_ztake; lia).
  rewrite zlen_app, zlen_ztake by lia. rewrite zslice_zdrop by lia.
  f_equal; lia.
Qed.

Lemma zlen_zresize {A} (d : A) n l : 0 <= n -> zlen (zresize d n l) = n.
Proof.
  intros; unfold zresize. destruct (n <=? zlen l) eqn:E.
  - rewrite zlen_ztake; lia.
  - rewrite zlen_app, zlen_replicate; lia.
Qed.

Lemma zslice_zresize {A} (d : A) lo hi n l :
  0 <= lo <= hi -> hi <= n -> hi <= zlen l -> zslice lo hi (zresize d n l) = zslice lo hi l.
Proof.
  intros; unfold zresize. destruct (n <=? zlen l) eqn:E.
  - rewrite <- (ztake_zdrop n l) at 2.
    rewrite zslice_app_l; rewrite ?zlen_ztake; lia || done.
  - apply zslice_app_l; lia.
Qed.

Lemma zget_lookup {A} (l : list A) i x : zget l i = Some x -> 0 <= i < zlen l /\ l !! Z.to_nat i = Some x.
Proof.
  unfold zget, zlen; destruct (i <? 0) eqn:E; [done|].
  intros H; pose proof (lookup_lt_Some _ _ _ H). split; [lia|done].
Qed.

Lemma zget_app_first {A} (l1 l2 : list A) x : zget (l1 ++ x :: l2) (zlen l1) = Some x.
Proof.
  unfold zget. pose proof (zlen_nonneg l1). rewrite (proj2 (Z.ltb_ge _ _)) by lia.
  unfold zlen. rewrite Nat2Z.id. by rewrite list_lookup_middle.
Qed.

Lemma filter_all {A} (P : A -> Prop) `{forall x, Decision (P x)} (l : list A) :
  (forall t, t ∈ l -> P t) -> filter P l = l.
Proof.
  induction l as [|t l IH]; intros Hp; [done|]. rewrite filter_cons_True by (apply Hp; left).
  f_equal. apply IH. intros t' Ht. apply Hp. by right.
Qed.

Lemma filter_none {A} (P : A -> Prop) `{forall x, Decision (P x)} (l : list A) :
  (forall t, t ∈ l -> ~ P t) -> filter P l = [].
Proof.
  induction l as [|t l IH]; intros Hp; [done|]. rewrite filter_cons_False by (apply Hp; left).
  apply IH. intros t' Ht. apply Hp. by right.
Qed.

Create Rewrite HintDb zlist.
#[export] Hint Rewrite @zlen_cons @zlen_app @zlen_rev @zlen_map : zlist.

(** Closes length side conditions. *)
Ltac zlia := autorewrite with zlist in *; znil; lia.

(** ** Characters and byte strings *)
Abbreviation bytes := (list ascii).

Definition char_code (c : ascii) : Z := Z.of_N (N_of_ascii c).
Definition code_char (z : Z) : ascii := ascii_of_N (Z.to_N (z mod 256)).

(** A string literal of the source. *)
Definition lit (s : string) : bytes := String.list_ascii_of_string s.

Definition nul : ascii := code_char 0.
Definition cr : ascii := code_char 13.
Definition lf : ascii := code_char 10.

Lemma char_code_range c : 0 <= char_code c < 256.
Proof. unfold char_code. pose proof (N_ascii_bounded c). lia. Qed.

Lemma char_code_code_char z : char_code (code_char z) = z mod 256.
Proof.
  unfold char_code, code_char.
  pose proof (Z.mod_pos_bound z 256 ltac:(lia)).
  rewrite N_ascii_embedding by lia. lia.
Qed.

Lemma code_char_char_code c : code_char (char_code c) = c.
Proof.
  unfold code_char. rewrite Z.mod_small by apply char_code_range.
  unfold char_code. rewrite N2Z.id. apply ascii_N_embedding.
Qed.

Definition ceqb (a b : ascii) : bool := bool_decide (a = b).

Lemma ceqb_eq a b : ceqb a b = true <-> a = b.
Proof. apply bool_decide_eq_true. Qed.

Lemma ceqb_neq a b : ceqb a b = false <-> a <> b.
Proof. apply bool_decide_eq_false. Qed.

Definition bytes_eqb (a b : bytes) : bool := bool_decide (a = b).

(** [std::find(begin, end, c)] as the number of characters before the match;
    the length of the range when there is none. *)
Fixpoint find_char (c : ascii) (l : bytes) : Z :=
  match l with
  | [] => 0
  | x :: l' => if ceqb x c then 0 else 1 + find_char c l'
  end.

Lemma find_char_bounds c l : 0 <= find_char c l <= zlen l.
Proof.
  induction l as [|x l IH]; cbn [find_char]; znil; rewrite ?zlen_cons; [lia|].
  destruct (ceqb x c); pose proof (zlen_nonneg l); lia.
Qed.

Lemma find_char_before c l : c ∉ ztake (find_char c l) l.
Proof.
  induction l as [|x l IH]; cbn [find_char]; [set_solver|].
  destruct (ceqb x c) eqn:E; [rewrite ztake_0; set_solver|].
  apply ceqb_neq in E. pose proof (find_char_bounds c l).
  unfold ztake in *. rewrite Z2Nat.inj_add by lia. simpl.
  set_solver.
Qed.

Lemma find_char_hit c l :
  find_char c l < zlen l -> zdrop (find_char c l) l = c :: zdrop (find_char c l + 1) l.
Proof.
  induction l as [|x l IH]; cbn [find_char]; znil; rewrite ?zlen_cons; [lia|].
  destruct (ceqb x c) eqn:E.
  - intros _. apply ceqb_eq in E as ->. done.
  - intros H. pose proof (find_char_bounds c l).
    unfold zdrop in *. rewrite !Z2Nat.inj_add by lia. simpl in *.
    rewrite IH by lia. rewrite Z2Nat.inj_add by lia. done.
Qed.

Lemma find_char_none c l : c ∉ l -> find_char c l = zlen l.
Proof.
  induction l as [|x l IH]; cbn [find_char]; [done|]. intros H.
  rewrite zlen_cons, IH by set_solver.
  destruct (ceqb x c) eqn:E; [|lia]. apply ceqb_eq in E; set_solver.
Qed.

Lemma find_char_app c l1 l2 : c ∉ l1 -> find_char c (l1 ++ c :: l2) = zlen l1.
Proof.
  induction l1 as [|x l1 IH]; cbn [find_char app]; intros H.
  - unfold ceqb. by rewrite bool_decide_eq_true_2.
  - rewrite zlen_cons, IH by set_solver.
    destruct (ceqb x c) eqn:E; [|lia]. apply ceqb_eq in E; set_solver.
Qed.

(** The fields of a text between separators. *)
Fixpoint fields_of (sep : ascii) (l : bytes) : list bytes :=
  match l with
  | [] => [[]]
  | c :: l =>
      if ceqb c sep then [] :: fields_of sep l
      else match fields_of sep l with
           | f :: fs => (c :: f) :: fs
           | [] => [[c]]
           end
  end.

Lemma fields_find sep l :
  fields_of sep l = let i := find_char sep l in
             if i <? zlen l then ztake i l :: fields_of sep (zdrop (i + 1) l) else [l].
Proof.
  induction l as [|c l IH]; [done|]. cbn [fields_of find_char]. rewrite zlen_cons. pose proof (zlen_nonneg l).
  destruct (ceqb c sep); [rewrite (proj2 (Z.ltb_lt _ _)) by lia; done|]. rewrite IH. cbn zeta.
  pose proof (find_char_bounds sep l). destruct (Z.ltb_spec (find_char sep l) (zlen l)).
  - rewrite (proj2 (Z.ltb_lt _ _)) by lia. unfold ztake, zdrop. rewrite Z2Nat.inj_add, Z2Nat.inj_add by lia.
    change (Z.to_nat 1) with 1%nat. cbn [Nat.add]. rewrite !Z2Nat.inj_add by lia. done.
  - rewrite (proj2 (Z.ltb_ge _ _)) by lia. done.
Qed.

Lemma fields_app sep p l : sep ∉ p -> fields_of sep (p ++ sep :: l) = p :: fields_of sep l.
Proof.
  induction p as [|c p IH]; intros Hp; [cbn [fields_of app]; by rewrite (proj2 (ceqb_eq sep sep) eq_refl)|]. apply not_elem_of_cons in Hp as [Hc Hp]. cbn [fields_of app]. rewrite (IH Hp).
  rewrite (proj2 (ceqb_neq c sep)) by done. done.
Qed.

Lemma fields_plain sep p : sep ∉ p -> fields_of sep p = [p].
Proof.
  induction p as [|c p IH]; intros Hp; [done|]. apply not_elem_of_cons in Hp as [Hc Hp]. cbn [fields_of]. rewrite (IH Hp).
  rewrite (proj2 (ceqb_neq c sep)) by done. done.
Qed.
