(* ===== verification/Endian.v ===== *)
(** * Endian: net/Endian.h

    The byte-order conversions of muduo::net::sockets on a little-endian host
    (x86-64, the target of the build files): [htobeNN]/[beNNtoh] reverse the
    bytes of the value, and the memory image of an n-byte integer is its
    little-endian byte list.  [htobe_image] is the fact every codec relies on:
    storing [hostToNetworkNN(x)] writes the big-endian bytes of [x]. *)

From S2P Require Import Prelude.

(** The memory image of an n-byte unsigned value, and its inverse. *)
Fixpoint le_bytes (n : nat) (z : Z) : bytes :=
  match n with
  | O => []
  | S n' => code_char z :: le_bytes n' (z / 256)
  end.

Fixpoint le_value (l : bytes) : Z :=
  match l with
  | [] => 0
  | c :: l' => char_code c + 256 * le_value l'
  end.

(** Network order: most significant byte first. *)
Definition be_bytes (n : nat) (z : Z) : bytes := rev (le_bytes n z).
Definition be_value (l : bytes) : Z := le_value (rev l).

Definition bswap (n : nat) (z : Z) : Z := le_value (rev (le_bytes n z)).

Definition hostToNetwork64 (host64 : Z) : Z := bswap 8 host64.
Definition hostToNetwork32 (host32 : Z) : Z := bswap 4 host32.
Definition hostToNetwork16 (host16 : Z) : Z := bswap 2 host16.
Definition networkToHost64 (net64 : Z) : Z := bswap 8 net64.
Definition networkToHost32 (net32 : Z) : Z := bswap 4 net32.
Definition networkToHost16 (net16 : Z) : Z := bswap 2 net16.

Lemma length_le_bytes n z : length (le_bytes n z) = n.
Proof. revert z; induction n; intros; simpl; [done|]. by rewrite IHn. Qed.

Lemma zlen_le_bytes n z : zlen (le_bytes n z) = Z.of_nat n.
Proof. unfold zlen; by rewrite length_le_bytes. Qed.

Lemma zlen_be_bytes n z : zlen (be_bytes n z) = Z.of_nat n.
Proof. unfold be_bytes; rewrite zlen_rev; apply zlen_le_bytes. Qed.

Lemma le_value_le_bytes n z : le_value (le_bytes n z) = z mod 256 ^ Z.of_nat n.
Proof.
  revert z; induction n as [|n IH]; intros z.
  - simpl. by rewrite Z.mod_1_r.
  - cbn [le_bytes le_value]. rewrite IH, char_code_code_char.
    rewrite Nat2Z.inj_succ, Z.pow_succ_r by lia.
    rewrite Z.rem_mul_r; [lia|lia|]. apply Z.pow_pos_nonneg; lia.
Qed.

Lemma le_bytes_le_value l : le_bytes (length l) (le_value l) = l.
Proof.
  induction l as [|c l IH]; cbn [length le_bytes le_value]; [done|].
  pose proof (char_code_range c).
  rewrite Z.mul_comm, Z.div_add, Z.div_small by lia. rewrite Z.add_0_l, IH.
  f_equal. unfold code_char. rewrite Z.mod_add, Z.mod_small by lia.
  unfold char_code. rewrite N2Z.id. apply ascii_N_embedding.
Qed.

Lemma le_value_range l : 0 <= le_value l < 256 ^ zlen l.
Proof.
  induction l as [|c l IH]; cbn [le_value]; [done|].
  pose proof (char_code_range c). pose proof (zlen_nonneg l). rewrite zlen_cons.
  replace (1 + zlen l) with (Z.succ (zlen l)) by lia.
  rewrite Z.pow_succ_r by lia. lia.
Qed.

Lemma le_bytes_mod n z : le_bytes n (z mod 256 ^ Z.of_nat n) = le_bytes n z.
Proof.
  rewrite <- le_value_le_bytes.
  rewrite <- (length_le_bytes n z) at 1. apply le_bytes_le_value.
Qed.

(** Storing a byte-swapped value writes the big-endian bytes. *)
Lemma htobe_image n z : le_bytes n (bswap n z) = be_bytes n z.
Proof.
  unfold bswap, be_bytes.
  rewrite <- (length_le_bytes n z) at 1. rewrite <- length_rev.
  apply le_bytes_le_value.
Qed.

(** Loading n bytes and byte-swapping reads a big-endian value. *)
Lemma betoh_image (l : bytes) : bswap (length l) (le_value l) = be_value l.
Proof. unfold bswap, be_value. by rewrite le_bytes_le_value. Qed.

Lemma be_value_be_bytes n z : be_value (be_bytes n z) = z mod 256 ^ Z.of_nat n.
Proof. unfold be_value, be_bytes. rewrite rev_involutive. apply le_value_le_bytes. Qed.

Lemma be_bytes_be_value l : be_bytes (length l) (be_value l) = l.
Proof.
  unfold be_value, be_bytes. rewrite <- length_rev, le_bytes_le_value.
  apply rev_involutive.
Qed.

Lemma bswap_involutive n z : bswap n (bswap n z) = z mod 256 ^ Z.of_nat n.
Proof.
  unfold bswap at 1. rewrite htobe_image. unfold be_bytes.
  rewrite rev_involutive. apply le_value_le_bytes.
Qed.

#[export] Hint Rewrite zlen_le_bytes zlen_be_bytes : zlist.
