(* ===== verification/Buffer.v ===== *)
(** * Buffer: net/Buffer.h and net/Buffer.cc

    [muduo::net::Buffer], the growable byte queue every connection reads into
    and writes from.  The state is the source's: the vector [buffer_] and the
    two [size_t] indices.  A [const char*] into the buffer is its offset from
    [begin()].  Size arithmetic wraps at 64 bits as [size_t] does; growing
    beyond [vector::max_size] throws. *)

From S2P Require Import Prelude Endian.

Definition kCheapPrepend : Z := 8.
Definition kInitialSize : Z := 1024.
(** [std::vector<char>::max_size()] of libstdc++ on a 64-bit target. *)
Definition vector_max_size : Z := 2 ^ 63 - 1.

Record Buffer := mkBuffer {
  buffer_ : bytes;
  readerIndex_ : Z;
  writerIndex_ : Z;
}.

Definition kCRLF : bytes := [cr; lf].

(** ** Observers *)
Definition readableBytes (b : Buffer) : Z := u64 (writerIndex_ b - readerIndex_ b).
Definition writableBytes (b : Buffer) : Z := u64 (zlen (buffer_ b) - writerIndex_ b).
Definition prependableBytes (b : Buffer) : Z := readerIndex_ b.
Definition peek (b : Buffer) : Z := readerIndex_ b.
Definition beginWrite (b : Buffer) : Z := writerIndex_ b.

(** The readable bytes, the content of the queue. *)
Definition content (b : Buffer) : bytes :=
  zslice (readerIndex_ b) (writerIndex_ b) (buffer_ b).

(** The constructor. *)
Definition newBuffer (initialSize : Z) : outcome Buffer :=
  let n := u64 (kCheapPrepend + initialSize) in
  if vector_max_size <? n then Fault LengthError
  else
    let b := mkBuffer (replicate (Z.to_nat n) nul) kCheapPrepend kCheapPrepend in
    c_assert (readableBytes b =? 0);;
    c_assert (writableBytes b =? initialSize);;
    c_assert (prependableBytes b =? kCheapPrepend);;
    Ok b.

Definition swap (lhs rhs : Buffer) : Buffer * Buffer := (rhs, lhs).

(** [std::search(first, last, kCRLF, kCRLF+2)]: the offset of the first match,
    the length of the range when there is none. *)
Fixpoint search_crlf (l : bytes) : Z :=
  match l with
  | [] => 0
  | x :: l' =>
      match l' with
      | y :: _ => if ceqb x cr && ceqb y lf then 0 else 1 + search_crlf l'
      | [] => 1
      end
  end.

Definition findCRLF (b : Buffer) : option Z :=
  let crlf := peek b + search_crlf (content b) in
  if crlf =? beginWrite b then None else Some crlf.

Definition findCRLF_from (b : Buffer) (start : Z) : outcome (option Z) :=
  c_assert (peek b <=? start);;
  c_assert (start <=? beginWrite b);;
  let crlf := start + search_crlf (zslice start (beginWrite b) (buffer_ b)) in
  Ok (if crlf =? beginWrite b then None else Some crlf).

(** [memchr(start, '\n', n)]. *)
Definition memchr_lf (start : Z) (l : bytes) : option Z :=
  let off := find_char lf l in
  if off =? zlen l then None else Some (start + off).

Definition findEOL (b : Buffer) : option Z := memchr_lf (peek b) (content b).

Definition findEOL_from (b : Buffer) (start : Z) : outcome (option Z) :=
  c_assert (peek b <=? start);;
  c_assert (start <=? beginWrite b);;
  Ok (memchr_lf start (zslice start (beginWrite b) (buffer_ b))).

(** ** Consuming *)
Definition retrieveAll (b : Buffer) : Buffer :=
  mkBuffer (buffer_ b) kCheapPrepend kCheapPrepend.

Definition retrieve (len : Z) (b : Buffer) : outcome Buffer :=
  c_assert (len <=? readableBytes b);;
  if len <? readableBytes b
  then Ok (mkBuffer (buffer_ b) (u64 (readerIndex_ b + len)) (writerIndex_ b))
  else Ok (retrieveAll b).

Definition retrieveUntil (endp : Z) (b : Buffer) : outcome Buffer :=
  c_assert (peek b <=? endp);;
  c_assert (endp <=? beginWrite b);;
  retrieve (endp - peek b) b.

Definition retrieveInt64 (b : Buffer) : outcome Buffer := retrieve 8 b.
Definition retrieveInt32 (b : Buffer) : outcome Buffer := retrieve 4 b.
Definition retrieveInt16 (b : Buffer) : outcome Buffer := retrieve 2 b.
Definition retrieveInt8 (b : Buffer) : outcome Buffer := retrieve 1 b.

Definition retrieveAsString (len : Z) (b : Buffer) : outcome (bytes * Buffer) :=
  c_assert (len <=? readableBytes b);;
  let result := zslice (peek b) (peek b + len) (buffer_ b) in
  b' ← retrieve len b;
  Ok (result, b').

Definition retrieveAllAsString (b : Buffer) : outcome (bytes * Buffer) :=
  retrieveAsString (readableBytes b) b.

(** [StringPiece(peek(), static_cast<int>(readableBytes()))]: the start and the
    length, which is narrowed to [int]. *)
Definition toStringPiece (b : Buffer) : Z * Z := (peek b, i32 (readableBytes b)).

(** ** Producing *)
Definition makeSpace (len : Z) (b : Buffer) : outcome Buffer :=
  if u64 (writableBytes b + prependableBytes b) <? u64 (len + kCheapPrepend)
  then
    let n := u64 (writerIndex_ b + len) in
    if vector_max_size <? n then Fault LengthError
    else Ok (mkBuffer (zresize nul n (buffer_ b)) (readerIndex_ b) (writerIndex_ b))
  else
    c_assert (kCheapPrepend <? readerIndex_ b);;
    let readable := readableBytes b in
    let moved := zwrite kCheapPrepend (content b) (buffer_ b) in
    let b' := mkBuffer moved kCheapPrepend (u64 (kCheapPrepend + readable)) in
    c_assert (readable =? readableBytes b');;
    Ok b'.

Definition ensureWritableBytes (len : Z) (b : Buffer) : outcome Buffer :=
  b' ← (if writableBytes b <? len then makeSpace len b else Ok b);
  c_assert (len <=? writableBytes b');;
  Ok b'.

Definition hasWritten (len : Z) (b : Buffer) : outcome Buffer :=
  c_assert (len <=? writableBytes b);;
  Ok (mkBuffer (buffer_ b) (readerIndex_ b) (u64 (writerIndex_ b + len))).

Definition unwrite (len : Z) (b : Buffer) : outcome Buffer :=
  c_assert (len <=? readableBytes b);;
  Ok (mkBuffer (buffer_ b) (readerIndex_ b) (u64 (writerIndex_ b - len))).

(** Bytes stored at [beginWrite()]; the caller has reserved the room. *)
Definition storeAtWrite (data : bytes) (b : Buffer) : Buffer :=
  mkBuffer (zwrite (beginWrite b) data (buffer_ b)) (readerIndex_ b) (writerIndex_ b).

Definition append (data : bytes) (b : Buffer) : outcome Buffer :=
  b1 ← ensureWritableBytes (zlen data) b;
  hasWritten (zlen data) (storeAtWrite data b1).

(** [append(const StringPiece&)]: the piece counts its characters with an [int],
    which [append] takes as a [size_t]; past INT_MAX it reads beyond the data. *)
Definition appendPiece (data : bytes) (b : Buffer) : outcome Buffer :=
  let len := i32 (zlen data) in
  if len <? 0 then _ ← ensureWritableBytes (u64 len) b; Fault UndefinedBehaviour
  else append (ztake len data) b.

Definition appendInt64 (x : Z) (b : Buffer) : outcome Buffer :=
  append (le_bytes 8 (hostToNetwork64 (u64 x))) b.
Definition appendInt32 (x : Z) (b : Buffer) : outcome Buffer :=
  append (le_bytes 4 (hostToNetwork32 (u32 x))) b.
Definition appendInt16 (x : Z) (b : Buffer) : outcome Buffer :=
  append (le_bytes 2 (hostToNetwork16 (u16 x))) b.
Definition appendInt8 (x : Z) (b : Buffer) : outcome Buffer :=
  append (le_bytes 1 (u8 x)) b.

Definition prepend (data : bytes) (b : Buffer) : outcome Buffer :=
  c_assert (zlen data <=? prependableBytes b);;
  let r := u64 (readerIndex_ b - zlen data) in
  Ok (mkBuffer (zwrite r data (buffer_ b)) r (writerIndex_ b)).

Definition prependInt64 (x : Z) (b : Buffer) : outcome Buffer :=
  prepend (le_bytes 8 (hostToNetwork64 (u64 x))) b.
Definition prependInt32 (x : Z) (b : Buffer) : outcome Buffer :=
  prepend (le_bytes 4 (hostToNetwork32 (u32 x))) b.
Definition prependInt16 (x : Z) (b : Buffer) : outcome Buffer :=
  prepend (le_bytes 2 (hostToNetwork16 (u16 x))) b.
Definition prependInt8 (x : Z) (b : Buffer) : outcome Buffer :=
  prepend (le_bytes 1 (u8 x)) b.

(** ** Integers in network order *)

(** [memcpy(&x, peek(), n)] into an n-byte integer of the host. *)
Definition loadInt (n : Z) (b : Buffer) : Z :=
  le_value (zslice (peek b) (peek b + n) (buffer_ b)).

Definition peekInt64 (b : Buffer) : outcome Z :=
  c_assert (8 <=? readableBytes b);;
  Ok (i64 (networkToHost64 (loadInt 8 b))).
Definition peekInt32 (b : Buffer) : outcome Z :=
  c_assert (4 <=? readableBytes b);;
  Ok (i32 (networkToHost32 (loadInt 4 b))).
Definition peekInt16 (b : Buffer) : outcome Z :=
  c_assert (2 <=? readableBytes b);;
  Ok (i16 (networkToHost16 (loadInt 2 b))).
Definition peekInt8 (b : Buffer) : outcome Z :=
  c_assert (1 <=? readableBytes b);;
  Ok (i8 (loadInt 1 b)).

Definition readInt64 (b : Buffer) : outcome (Z * Buffer) :=
  result ← peekInt64 b; b' ← retrieveInt64 b; Ok (result, b').
Definition readInt32 (b : Buffer) : outcome (Z * Buffer) :=
  result ← peekInt32 b; b' ← retrieveInt32 b; Ok (result, b').
Definition readInt16 (b : Buffer) : outcome (Z * Buffer) :=
  result ← peekInt16 b; b' ← retrieveInt16 b; Ok (result, b').
Definition readInt8 (b : Buffer) : outcome (Z * Buffer) :=
  result ← peekInt8 b; b' ← retrieveInt8 b; Ok (result, b').

(** [shrink]: copy into a fresh buffer through [toStringPiece()], whose [int]
    size is converted back to [size_t] by [append]. *)
Definition shrink (reserve : Z) (b : Buffer) : outcome Buffer :=
  other ← newBuffer kInitialSize;
  other1 ← ensureWritableBytes (u64 (readableBytes b + reserve)) other;
  let '(start, len) := toStringPiece b in
  if len <? 0 then
    (* the size_t length exceeds the readable bytes *)
    _ ← ensureWritableBytes (u64 len) other1; Fault UndefinedBehaviour
  else
    other2 ← append (zslice start (start + len) (buffer_ b)) other1;
    Ok (fst (swap b other2)).

(** ** readFd

    [readv] is the kernel: given the total room of the two segments it returns
    an errno or the bytes received, which it stores in the first segment (the
    writable part of the buffer) and then in [extrabuf]. *)
Definition extrabuf_size : Z := 65536.

Inductive io_result :=
| IoError (errno : Z)
| IoBytes (data : bytes).

Definition readFd (readv : Z -> io_result) (b : Buffer) : outcome (Z * option Z * Buffer) :=
  let writable := writableBytes b in
  let room := if writable <? extrabuf_size then writable + extrabuf_size else writable in
  match readv room with
  | IoError errno => Ok (-1, Some errno, b)
  | IoBytes data =>
      let n := zlen data in
      let b1 := storeAtWrite (ztake writable data) b in
      if n <=? writable
      then Ok (n, None, mkBuffer (buffer_ b1) (readerIndex_ b1) (u64 (writerIndex_ b1 + n)))
      else
        let b2 := mkBuffer (buffer_ b1) (readerIndex_ b1) (zlen (buffer_ b1)) in
        b3 ← append (zdrop writable data) b2;
        Ok (n, None, b3)
  end.

(** ** Well-formedness: the picture at the top of Buffer.h *)
Definition wf (b : Buffer) : Prop :=
  0 <= readerIndex_ b <= writerIndex_ b /\
  writerIndex_ b <= zlen (buffer_ b) <= vector_max_size /\
  kCheapPrepend <= zlen (buffer_ b).

Create HintDb buffer.
Create Rewrite HintDb buffer.

Ltac unfold_sizes :=
  unfold in_u, vector_max_size, kCheapPrepend, kInitialSize, extrabuf_size in *.

(** Arithmetic over the indices of a well-formed buffer. *)
Ltac wf_lia :=
  repeat match goal with H : wf _ |- _ => destruct H as (? & ? & ?) end;
  simpl in *; unfold_sizes; lia.

Lemma readableBytes_wf b : wf b -> readableBytes b = writerIndex_ b - readerIndex_ b.
Proof. intros H; apply wrapU_id; wf_lia. Qed.

Lemma writableBytes_wf b : wf b -> writableBytes b = zlen (buffer_ b) - writerIndex_ b.
Proof. intros H; apply wrapU_id; wf_lia. Qed.

Lemma content_length b : wf b -> zlen (content b) = readableBytes b.
Proof.
  intros H; rewrite readableBytes_wf by done.
  apply zlen_zslice; wf_lia.
Qed.

#[export] Hint Rewrite readableBytes_wf writableBytes_wf using assumption : buffer.

Lemma wf_intro v r w :
  0 <= r <= w -> w <= zlen v -> zlen v <= vector_max_size -> kCheapPrepend <= zlen v ->
  wf (mkBuffer v r w).
Proof. unfold wf; simpl; lia. Qed.

Lemma retrieveAll_wf b : wf b -> wf (retrieveAll b).
Proof. intros H; apply wf_intro; wf_lia. Qed.

Lemma retrieveAll_content b : content (retrieveAll b) = [].
Proof. apply zslice_nil. Qed.

#[export] Hint Resolve retrieveAll_wf : buffer.

(** *** Consuming: [retrieve] drops a prefix of the content *)
Lemma retrieve_spec len b :
  wf b -> 0 <= len <= readableBytes b ->
  exists b', retrieve len b = Ok b' /\ wf b' /\
    content b' = zdrop len (content b) /\
    Z.min kCheapPrepend (prependableBytes b) <= prependableBytes b' /\
    writerIndex_ b' <= Z.max kCheapPrepend (writerIndex_ b).
Proof.
  intros H Hlen. unfold retrieve. rewrite c_assert_bind_true by lia.
  pose proof (content_length b H) as Hc.
  destruct (len <? readableBytes b) eqn:E.
  - rewrite readableBytes_wf in * by done.
    rewrite wrapU_id by wf_lia.
    eexists; split; [done|]. split; [apply wf_intro; wf_lia|].
    split; [|unfold prependableBytes; wf_lia].
    unfold content; simpl. rewrite zdrop_zslice by wf_lia. done.
  - eexists; split; [done|]. split; [auto with buffer|].
    split; [|unfold prependableBytes; wf_lia].
    rewrite retrieveAll_content, zdrop_all; [done|]. rewrite Hc; lia.
Qed.

Lemma retrieve_beyond len b : readableBytes b < len -> retrieve len b = Fault AssertFailed.
Proof.
  intros H; unfold retrieve. by rewrite (proj2 (Z.leb_gt _ _)) by lia.
Qed.

Lemma zslice_peek n b :
  wf b -> 0 <= n <= readableBytes b ->
  zslice (peek b) (peek b + n) (buffer_ b) = ztake n (content b).
Proof.
  intros H Hn. rewrite readableBytes_wf in Hn by done.
  unfold content. rewrite ztake_zslice by wf_lia. done.
Qed.

(** *** Producing: room is made without touching the content *)
Lemma makeSpace_fits len b :
  wf b -> 0 <= len <= vector_max_size -> writableBytes b < len ->
  (writableBytes b + prependableBytes b < len + kCheapPrepend ->
   writerIndex_ b + len <= vector_max_size) ->
  exists b', makeSpace len b = Ok b' /\ wf b' /\ content b' = content b /\
    len <= writableBytes b' /\
    Z.min kCheapPrepend (prependableBytes b) <= prependableBytes b' /\
    writerIndex_ b' <= writerIndex_ b.
Proof.
  intros H Hlen Hw Hmax. unfold makeSpace.
  rewrite readableBytes_wf, writableBytes_wf in * by done. unfold prependableBytes in *.
  rewrite !wrapU_id by wf_lia.
  destruct (_ <? _) eqn:E.
  - rewrite (proj2 (Z.ltb_ge _ _)) by wf_lia.
    assert (wf (mkBuffer (zresize nul (writerIndex_ b + len) (buffer_ b))
                  (readerIndex_ b) (writerIndex_ b))) as Hwf.
    { apply wf_intro; rewrite ?zlen_zresize; wf_lia. }
    eexists; split; [done|]. split; [done|].
    rewrite (writableBytes_wf _ Hwf); simpl. rewrite zlen_zresize by wf_lia.
    split; [apply zslice_zresize; wf_lia|wf_lia].
  - pose proof (content_length b H) as Hc. rewrite readableBytes_wf in Hc by done.
    rewrite c_assert_bind_true by wf_lia.
    assert (zlen (zwrite kCheapPrepend (content b) (buffer_ b)) = zlen (buffer_ b)) as Hz.
    { apply zlen_zwrite; rewrite ?Hc; wf_lia. }
    set (b' := mkBuffer _ _ _).
    assert (wf b') as Hwf by (apply wf_intro; rewrite ?Hz; wf_lia).
    rewrite c_assert_bind_true by (rewrite (readableBytes_wf _ Hwf); simpl; lia).
    eexists; split; [done|]. split; [done|].
    rewrite (writableBytes_wf _ Hwf); simpl. rewrite Hz.
    split; [apply zslice_zwrite_same; wf_lia|wf_lia].
Qed.

Lemma makeSpace_spec len b :
  wf b -> 0 <= len -> writableBytes b < len -> writerIndex_ b + len <= vector_max_size ->
  exists b', makeSpace len b = Ok b' /\ wf b' /\ content b' = content b /\
    len <= writableBytes b' /\
    Z.min kCheapPrepend (prependableBytes b) <= prependableBytes b' /\
    writerIndex_ b' <= writerIndex_ b.
Proof. intros H ???. apply makeSpace_fits; [done|wf_lia|done..]. Qed.

Lemma ensureWritableBytes_spec len b :
  wf b -> 0 <= len -> writerIndex_ b + len <= vector_max_size ->
  exists b', ensureWritableBytes len b = Ok b' /\ wf b' /\ content b' = content b /\
    len <= writableBytes b' /\
    Z.min kCheapPrepend (prependableBytes b) <= prependableBytes b' /\
    writerIndex_ b' <= writerIndex_ b.
Proof.
  intros H Hlen Hmax. unfold ensureWritableBytes.
  destruct (writableBytes b <? len) eqn:E.
  - destruct (makeSpace_spec len b) as (b' & -> & Hb' & ? & ? & ?); [done|lia..|].
    simpl. rewrite c_assert_bind_true by lia. eauto 10.
  - simpl. rewrite c_assert_bind_true by lia.
    exists b. do 3 (split; [done|]). lia.
Qed.

(** Growth past the vector's maximal size throws; nothing else can happen. *)
Lemma ensureWritableBytes_too_large len b :
  wf b -> in_u 64 (len + kCheapPrepend) -> in_u 64 (writerIndex_ b + len) ->
  writableBytes b + prependableBytes b < len + kCheapPrepend ->
  vector_max_size < writerIndex_ b + len ->
  ensureWritableBytes len b = Fault LengthError.
Proof.
  intros H H1 H2 H3 H4. unfold ensureWritableBytes, makeSpace, prependableBytes in *.
  rewrite writableBytes_wf in * by done.
  rewrite (proj2 (Z.ltb_lt _ _)) by wf_lia.
  rewrite !wrapU_id by wf_lia.
  rewrite (proj2 (Z.ltb_lt _ _)) by wf_lia. by rewrite (proj2 (Z.ltb_lt _ _)) by wf_lia.
Qed.

Lemma storeAtWrite_hasWritten data b :
  wf b -> zlen data <= writableBytes b ->
  exists b', hasWritten (zlen data) (storeAtWrite data b) = Ok b' /\ wf b' /\
    content b' = content b ++ data /\
    prependableBytes b' = prependableBytes b /\
    writerIndex_ b' = writerIndex_ b + zlen data.
Proof.
  intros H Hd. pose proof (zlen_nonneg data). unfold hasWritten, prependableBytes.
  rewrite writableBytes_wf in Hd by done.
  assert (zlen (zwrite (beginWrite b) data (buffer_ b)) = zlen (buffer_ b)) as Hz.
  { apply zlen_zwrite; unfold beginWrite; wf_lia. }
  assert (wf (storeAtWrite data b)) as Hs by (apply wf_intro; rewrite ?Hz; wf_lia).
  rewrite c_assert_bind_true by (rewrite writableBytes_wf by done; simpl; lia).
  simpl. rewrite wrapU_id by wf_lia.
  eexists; split; [done|]. split; [apply wf_intro; rewrite ?Hz; wf_lia|].
  split; [|done]. unfold content, beginWrite in *; simpl.
  rewrite (zslice_split _ (writerIndex_ b)) by wf_lia.
  rewrite zslice_zwrite_before, zslice_zwrite_same by wf_lia. done.
Qed.

(** *** [append] adds the data at the end of the content *)
Lemma append_spec data b :
  wf b -> writerIndex_ b + zlen data <= vector_max_size ->
  exists b', append data b = Ok b' /\ wf b' /\
    content b' = content b ++ data /\
    Z.min kCheapPrepend (prependableBytes b) <= prependableBytes b' /\
    writerIndex_ b' <= writerIndex_ b + zlen data.
Proof.
  intros H Hmax. pose proof (zlen_nonneg data). unfold append.
  destruct (ensureWritableBytes_spec (zlen data) b) as (b1 & -> & H1 & Hc & Hr & Hp & Hw);
    [done..|]. simpl.
  destruct (storeAtWrite_hasWritten data b1) as (b2 & -> & H2 & Hc2 & Hp2 & Hw2); [done..|].
  exists b2. rewrite Hc2, Hc, Hp2, Hw2. do 3 (split; [done|]). lia.
Qed.

(** Without a bound on the sizes the only other outcome is that the vector
    cannot grow. *)
Lemma append_post data b :
  wf b -> zlen data <= vector_max_size ->
  post (fun b' => wf b' /\ content b' = content b ++ data) (eq LengthError) (append data b).
Proof.
  intros H Hmax. pose proof (zlen_nonneg data). unfold append.
  apply (post_bind (fun b1 => wf b1 /\ content b1 = content b /\ zlen data <= writableBytes b1)).
  - destruct (decide (writableBytes b + prependableBytes b < zlen data + kCheapPrepend /\
                      vector_max_size < writerIndex_ b + zlen data)) as [[H1 H2]|Hn].
    + by rewrite ensureWritableBytes_too_large by (done || wf_lia).
    + unfold ensureWritableBytes. destruct (Z.ltb_spec (writableBytes b) (zlen data)) as [Hlt|Hge].
      * destruct (makeSpace_fits (zlen data) b) as (b1 & -> & Hb1 & Hc & Hw & _); [done|lia..|].
        simpl. by rewrite (proj2 (Z.leb_le _ _) Hw).
      * simpl. by rewrite (proj2 (Z.leb_le _ _) Hge).
  - intros b1 _ (H1 & Hc & Hw).
    destruct (storeAtWrite_hasWritten data b1) as (b2 & -> & H2 & Hc2 & _); [done..|].
    simpl. by rewrite Hc2, Hc.
Qed.

Lemma appendPiece_small data b : zlen data < 2 ^ 31 -> appendPiece data b = append data b.
Proof.
  intros H. pose proof (zlen_nonneg data). unfold appendPiece.
  rewrite (wrapS_id 32) by (unfold in_s; lia).
  rewrite (proj2 (Z.ltb_ge _ _)) by lia. by rewrite ztake_all.
Qed.

(** *** [prepend] puts the data in front of the content *)
Lemma prepend_spec data b :
  wf b -> zlen data <= prependableBytes b ->
  exists b', prepend data b = Ok b' /\ wf b' /\ content b' = data ++ content b /\
    prependableBytes b' = prependableBytes b - zlen data /\
    writerIndex_ b' = writerIndex_ b.
Proof.
  intros H Hd. pose proof (zlen_nonneg data).
  unfold prepend, prependableBytes in *. rewrite c_assert_bind_true by lia.
  rewrite wrapU_id by wf_lia.
  set (r := readerIndex_ b - zlen data).
  assert (zlen (zwrite r data (buffer_ b)) = zlen (buffer_ b)) as Hz
    by (apply zlen_zwrite; subst r; wf_lia).
  eexists; split; [done|]. split; [apply wf_intro; rewrite ?Hz; subst r; wf_lia|].
  split; [|done]. unfold content; simpl.
  rewrite (zslice_split _ (readerIndex_ b)) by (subst r; wf_lia).
  rewrite zslice_zwrite_same, zslice_zwrite_after by (subst r; wf_lia). done.
Qed.

Lemma unwrite_spec len b :
  wf b -> 0 <= len <= readableBytes b ->
  exists b', unwrite len b = Ok b' /\ wf b' /\
    content b' = ztake (readableBytes b - len) (content b) /\
    prependableBytes b' = prependableBytes b /\ writerIndex_ b' <= writerIndex_ b.
Proof.
  intros H Hlen. unfold unwrite. rewrite c_assert_bind_true by lia.
  rewrite readableBytes_wf in * by done. rewrite wrapU_id by wf_lia.
  eexists; split; [done|]. split; [apply wf_intro; wf_lia|].
  split; [|split; [done|wf_lia]].
  unfold content; simpl. rewrite ztake_zslice by wf_lia. f_equal; lia.
Qed.

(** The constructor yields an empty well-formed buffer. *)
Lemma newBuffer_spec n :
  0 <= n -> n + kCheapPrepend <= vector_max_size ->
  exists b, newBuffer n = Ok b /\ wf b /\ content b = [] /\
    prependableBytes b = kCheapPrepend /\ writerIndex_ b = kCheapPrepend.
Proof.
  intros H0 H1. unfold newBuffer. rewrite wrapU_id by (unfold_sizes; lia).
  rewrite (proj2 (Z.ltb_ge _ _)) by lia.
  set (b := mkBuffer _ _ _).
  assert (zlen (buffer_ b) = kCheapPrepend + n) as Hz
    by (apply zlen_replicate; unfold_sizes; lia).
  assert (wf b) as Hwf by (unfold wf; rewrite Hz; simpl; unfold_sizes; lia).
  rewrite !c_assert_bind_true.
  - eexists; split; [done|]. split; [done|]. split; [apply zslice_nil|done].
  - done.
  - rewrite writableBytes_wf, Hz by done. simpl; lia.
  - rewrite readableBytes_wf by done. simpl; lia.
Qed.

(** ** Integers travel in network order *)

(** Reading the first n bytes as a signed big-endian integer. *)
Definition decode_int (n : nat) (l : bytes) : Z := wrapS (8 * Z.of_nat n) (be_value l).

Lemma pow256 n : 0 <= n -> 256 ^ n = 2 ^ (8 * n).
Proof. intros. rewrite Z.pow_mul_r by lia. done. Qed.

Lemma decode_encode n x :
  (0 < n)%nat -> in_s (8 * Z.of_nat n) x -> decode_int n (be_bytes n x) = x.
Proof.
  intros Hn Hx. unfold decode_int. rewrite be_value_be_bytes, pow256 by lia.
  fold (wrapU (8 * Z.of_nat n) x). rewrite wrapS_wrapU by lia. apply wrapS_id; [lia|done].
Qed.

(** The stored image of [hostToNetworkNN] of an argument narrowed to the width. *)
Lemma encode_image n w x :
  w = 8 * Z.of_nat n -> le_bytes n (bswap n (wrapU w x)) = be_bytes n x.
Proof.
  intros ->. rewrite htobe_image. unfold be_bytes. f_equal.
  unfold wrapU. rewrite <- pow256 by lia. apply le_bytes_mod.
Qed.

Lemma encode_image8 x : le_bytes 1 (u8 x) = be_bytes 1 x.
Proof. change (be_bytes 1 x) with (le_bytes 1 x). exact (le_bytes_mod 1 x). Qed.

Lemma loadInt_content n b l rest :
  wf b -> content b = l ++ rest -> zlen l = n -> loadInt n b = le_value l.
Proof.
  intros H Hc Hl. pose proof (zlen_nonneg l). unfold loadInt.
  pose proof (content_length b H) as Hlen. rewrite Hc, zlen_app in Hlen.
  pose proof (zlen_nonneg rest).
  rewrite zslice_peek by (done || lia). rewrite Hc, ztake_app_exact by done. done.
Qed.

Lemma retrieve_prefix b l rest n :
  wf b -> content b = l ++ rest -> n = zlen l ->
  exists b', retrieve n b = Ok b' /\ wf b' /\ content b' = rest.
Proof.
  intros H Hc ->. pose proof (content_length b H) as Hlen. rewrite Hc, zlen_app in Hlen.
  pose proof (zlen_nonneg l). pose proof (zlen_nonneg rest).
  destruct (retrieve_spec (zlen l) b) as (b' & Hr & Hw & Hc' & _); [done|lia|].
  exists b'. rewrite Hr, Hc', Hc, zdrop_app_exact by done. done.
Qed.

(** Reading consumes exactly the encoded integer at the head of the content. *)
Section read_int.
Context (b : Buffer) (l rest : bytes).
Hypothesis (Hwf : wf b) (Hc : content b = l ++ rest).

Lemma readable_prefix n : zlen l = n -> (n <=? readableBytes b) = true.
Proof.
  intros Hl. rewrite <- content_length, Hc, zlen_app by done.
  pose proof (zlen_nonneg rest). lia.
Qed.

Ltac read_int n :=
  intros Hl; rewrite c_assert_bind_true by (by apply readable_prefix);
  rewrite (loadInt_content _ b l rest) by done; simpl;
  destruct (retrieve_prefix b l rest n) as (b' & Hb & Hw' & Hc'); [done..|];
  rewrite Hb; exists b'; split; [simpl; repeat f_equal|done].

Lemma bswap_decode n :
  length l = n -> wrapS (8 * Z.of_nat n) (bswap n (le_value l)) = decode_int n l.
Proof. intros <-. by rewrite betoh_image. Qed.

Lemma readInt64_prefix :
  zlen l = 8 -> exists b', readInt64 b = Ok (decode_int 8 l, b') /\ wf b' /\ content b' = rest.
Proof.
  unfold readInt64, peekInt64, retrieveInt64. read_int 8.
  apply (bswap_decode 8). unfold zlen in Hl; lia.
Qed.

Lemma readInt32_prefix :
  zlen l = 4 -> exists b', readInt32 b = Ok (decode_int 4 l, b') /\ wf b' /\ content b' = rest.
Proof.
  unfold readInt32, peekInt32, retrieveInt32. read_int 4.
  apply (bswap_decode 4). unfold zlen in Hl; lia.
Qed.

Lemma readInt16_prefix :
  zlen l = 2 -> exists b', readInt16 b = Ok (decode_int 2 l, b') /\ wf b' /\ content b' = rest.
Proof.
  unfold readInt16, peekInt16, retrieveInt16. read_int 2.
  apply (bswap_decode 2). unfold zlen in Hl; lia.
Qed.

Lemma readInt8_prefix :
  zlen l = 1 -> exists b', readInt8 b = Ok (decode_int 1 l, b') /\ wf b' /\ content b' = rest.
Proof.
  unfold readInt8, peekInt8, retrieveInt8. read_int 1.
  destruct l as [|c [|]]; unfold zlen in Hl; simpl in Hl; try lia. done.
Qed.

Lemma peekInt32_prefix : zlen l = 4 -> peekInt32 b = Ok (decode_int 4 l).
Proof.
  intros Hl. unfold peekInt32. rewrite c_assert_bind_true by (by apply readable_prefix).
  rewrite (loadInt_content _ b l rest) by done. f_equal.
  apply (bswap_decode 4). unfold zlen in Hl; lia.
Qed.
End read_int.

(** *** A stream of integers of mixed widths *)
Inductive int_width := W8 | W16 | W32 | W64.

Definition width_bytes (w : int_width) : nat :=
  match w with W8 => 1 | W16 => 2 | W32 => 4 | W64 => 8 end.

Definition appendInt (w : int_width) (x : Z) : Buffer -> outcome Buffer :=
  match w with
  | W8 => appendInt8 x | W16 => appendInt16 x | W32 => appendInt32 x | W64 => appendInt64 x
  end.

Definition prependInt (w : int_width) (x : Z) : Buffer -> outcome Buffer :=
  match w with
  | W8 => prependInt8 x | W16 => prependInt16 x | W32 => prependInt32 x | W64 => prependInt64 x
  end.

Definition readInt (w : int_width) : Buffer -> outcome (Z * Buffer) :=
  match w with W8 => readInt8 | W16 => readInt16 | W32 => readInt32 | W64 => readInt64 end.

Definition appendInts (l : list (int_width * Z)) (b : Buffer) : outcome Buffer :=
  foldM (fun b wx => appendInt (fst wx) (snd wx) b) b l.

Fixpoint readInts (ws : list int_width) (b : Buffer) : outcome (list Z * Buffer) :=
  match ws with
  | [] => Ok ([], b)
  | w :: ws' =>
      '(x, b1) ← readInt w b;
      '(xs, b2) ← readInts ws' b1;
      Ok (x :: xs, b2)
  end.

Definition encode_ints (l : list (int_width * Z)) : bytes :=
  mjoin (map (fun wx => be_bytes (width_bytes (fst wx)) (snd wx)) l).

Lemma appendInt_append w x b : appendInt w x b = append (be_bytes (width_bytes w) x) b.
Proof.
  destruct w; simpl; unfold appendInt8, appendInt16, appendInt32, appendInt64,
    hostToNetwork16, hostToNetwork32, hostToNetwork64;
    [by rewrite encode_image8|by rewrite encode_image..].
Qed.

Lemma prependInt_prepend w x b : prependInt w x b = prepend (be_bytes (width_bytes w) x) b.
Proof.
  destruct w; simpl; unfold prependInt8, prependInt16, prependInt32, prependInt64,
    hostToNetwork16, hostToNetwork32, hostToNetwork64;
    [by rewrite encode_image8|by rewrite encode_image..].
Qed.

Lemma readInt_prefix w b l rest :
  wf b -> content b = l ++ rest -> length l = width_bytes w ->
  exists b', readInt w b = Ok (decode_int (width_bytes w) l, b') /\ wf b' /\ content b' = rest.
Proof.
  intros H Hc Hl. destruct w; simpl in *;
    [eapply readInt8_prefix|eapply readInt16_prefix|eapply readInt32_prefix|eapply readInt64_prefix];
    try done; unfold zlen; rewrite Hl; done.
Qed.

Lemma readInts_encoded l b rest :
  wf b -> content b = encode_ints l ++ rest ->
  Forall (fun wx => in_s (8 * Z.of_nat (width_bytes (fst wx))) (snd wx)) l ->
  exists b', readInts (map fst l) b = Ok (map snd l, b') /\ wf b' /\ content b' = rest.
Proof.
  revert b; induction l as [|[w x] l IH]; intros b H Hc Hall.
  - exists b; done.
  - apply Forall_cons in Hall as [Hx Hall]. simpl in Hx.
    unfold encode_ints in Hc; simpl in Hc. rewrite <- app_assoc in Hc.
    destruct (readInt_prefix w b _ _ H Hc) as (b1 & Hr & Hw1 & Hc1).
    { unfold be_bytes; rewrite length_rev; apply length_le_bytes. }
    destruct (IH b1 Hw1 Hc1 Hall) as (b2 & Hrs & Hw2 & Hc2).
    exists b2. simpl. rewrite Hr. simpl. rewrite Hrs; simpl.
    rewrite decode_encode by (done || destruct w; simpl; lia). done.
Qed.

Lemma appendInts_spec l b :
  wf b -> writerIndex_ b + zlen (encode_ints l) <= vector_max_size ->
  exists b', appendInts l b = Ok b' /\ wf b' /\ content b' = content b ++ encode_ints l.
Proof.
  revert b; induction l as [|[w x] l IH]; intros b H Hmax.
  - exists b. simpl. by rewrite app_nil_r.
  - unfold encode_ints in Hmax; simpl in Hmax. rewrite zlen_app in Hmax. fold (encode_ints l) in Hmax.
    pose proof (zlen_nonneg (encode_ints l)).
    destruct (append_spec (be_bytes (width_bytes w) x) b) as (b1 & Ha & H1 & Hc1 & _ & Hw1);
      [done|lia|].
    destruct (IH b1 H1) as (b2 & Hr & H2 & Hc2); [lia|].
    exists b2. unfold appendInts in *; simpl. rewrite appendInt_append, Ha; simpl.
    rewrite Hr, Hc2, Hc1. unfold encode_ints; simpl. by rewrite app_assoc.
Qed.

(** Integers of any mix of widths appended with [appendInt64/32/16/8] to a
    buffer and read back with the matching [readIntNN] return the same values
    in the same order and leave the buffer empty; the wire image is big-endian. *)
Theorem int_stream_roundtrip l b :
  wf b -> content b = [] ->
  writerIndex_ b + zlen (encode_ints l) <= vector_max_size ->
  Forall (fun wx => in_s (8 * Z.of_nat (width_bytes (fst wx))) (snd wx)) l ->
  exists b1 b2, appendInts l b = Ok b1 /\ content b1 = encode_ints l /\
    readInts (map fst l) b1 = Ok (map snd l, b2) /\ wf b2 /\ content b2 = [].
Proof.
  intros H Hc Hmax Hall.
  destruct (appendInts_spec l b H Hmax) as (b1 & Ha & H1 & Hc1). rewrite Hc in Hc1.
  destruct (readInts_encoded l b1 [] H1) as (b2 & Hr & H2 & Hc2);
    [by rewrite app_nil_r|done|].
  exists b1, b2. done.
Qed.

(** ** Line ends *)
Definition crlf_at (l : bytes) (i : Z) : Prop := exists rest, zdrop i l = cr :: lf :: rest.

Lemma crlf_at_S x l i : 0 <= i -> crlf_at (x :: l) (1 + i) <-> crlf_at l i.
Proof.
  intros. unfold crlf_at, zdrop. rewrite Z2Nat.inj_add by lia. done.
Qed.

Lemma crlf_at_0 x y l :
  crlf_at (x :: y :: l) 0 <-> ceqb x cr && ceqb y lf = true.
Proof.
  unfold crlf_at. rewrite zdrop_0, andb_true_iff, !ceqb_eq.
  split; [intros [rest [= -> ->]]; done|intros [-> ->]; eauto].
Qed.

(** [search_crlf] finds the first CR LF, or runs to the end. *)
Lemma search_crlf_spec l :
  0 <= search_crlf l <= zlen l /\
  (search_crlf l < zlen l -> crlf_at l (search_crlf l)) /\
  (forall i, 0 <= i < search_crlf l -> ~ crlf_at l i).
Proof.
  induction l as [|x l IH]; [simpl; znil; split_and!; intros; lia|].
  destruct l as [|y l].
  - cbn [search_crlf]. rewrite zlen_cons; znil. split; [lia|split; [lia|]].
    intros i Hi. assert (i = 0) as -> by lia. intros [rest Hr]. discriminate.
  - cbn [search_crlf] in *. rewrite zlen_cons.
    destruct (ceqb x cr && ceqb y lf) eqn:E.
    + pose proof (zlen_nonneg (y :: l)). split; [lia|split; [intros _; by apply crlf_at_0|lia]].
    + destruct IH as (IH1 & IH2 & IH3). split; [lia|split].
      * intros Hlt. apply crlf_at_S; [lia|]. apply IH2. lia.
      * intros i Hi. destruct (decide (i = 0)) as [->|].
        { rewrite crlf_at_0, E. done. }
        replace i with (1 + (i - 1)) by lia. rewrite crlf_at_S by lia. apply IH3; lia.
Qed.

Lemma search_crlf_app l rest :
  ~ (exists i, 0 <= i /\ crlf_at (l ++ [cr]) i) -> search_crlf (l ++ cr :: lf :: rest) = zlen l.
Proof.
  intros Hno. destruct (search_crlf_spec (l ++ cr :: lf :: rest)) as (H1 & H2 & H3).
  pose proof (zlen_nonneg l). pose proof (zlen_nonneg rest).
  rewrite zlen_app, !zlen_cons in *.
  destruct (Z.lt_total (search_crlf (l ++ cr :: lf :: rest)) (zlen l)) as [Hlt|[Heq|Hgt]]; [|done|].
  - exfalso. apply Hno. exists (search_crlf (l ++ cr :: lf :: rest)). split; [lia|].
    destruct (H2 ltac:(lia)) as [r Hr]. set (i := search_crlf _) in *.
    change (cr :: lf :: rest) with ([cr] ++ lf :: rest) in Hr. rewrite app_assoc in Hr.
    rewrite zdrop_app_le in Hr by (rewrite zlen_app, zlen_cons; znil; lia).
    destruct (zdrop i (l ++ [cr])) as [|a [|b' l']] eqn:E.
    + apply (f_equal zlen) in E. rewrite zlen_zdrop in E by (rewrite zlen_app, zlen_cons; znil; lia).
      rewrite zlen_app, zlen_cons in E; znil; lia.
    + apply (f_equal zlen) in E. rewrite zlen_zdrop in E by (rewrite zlen_app, zlen_cons; znil; lia).
      rewrite zlen_app, !zlen_cons in E; znil; lia.
    + simpl in Hr. injection Hr as -> -> _. exists l'. done.
  - exfalso. apply (H3 (zlen l) ltac:(lia)). exists rest.
    rewrite zdrop_app_exact by done. done.
Qed.

(** [findCRLF] returns the position of the first CR LF in the readable
    bytes, and NULL exactly when they contain none; retrieving up to two bytes
    after it then removes that line and its terminator and nothing else. *)
Theorem findCRLF_correct b :
  wf b ->
  match findCRLF b with
  | Some p =>
      let line := ztake (p - peek b) (content b) in
      peek b <= p /\ p + 2 <= beginWrite b /\
      (forall i, 0 <= i < p - peek b -> ~ crlf_at (content b) i) /\
      exists b', retrieveUntil (p + 2) b = Ok b' /\ wf b' /\
                 content b = line ++ kCRLF ++ content b'
  | None => forall i, 0 <= i -> ~ crlf_at (content b) i
  end.
Proof.
  intros H. unfold findCRLF, beginWrite.
  destruct (search_crlf_spec (content b)) as (H1 & H2 & H3).
  set (s := search_crlf (content b)) in *.
  pose proof (content_length b H) as Hl. rewrite readableBytes_wf in Hl by done.
  unfold peek in *. destruct (_ =? _) eqn:E.
  - intros i Hi. destruct (decide (i < s)); [apply H3; lia|].
    intros [rest Hr]. apply (f_equal zlen) in Hr.
    rewrite zdrop_all in Hr by lia. rewrite !zlen_cons in Hr; znil.
    pose proof (zlen_nonneg rest); lia.
  - destruct (H2 ltac:(lia)) as [rest Hr].
    assert (content b = ztake s (content b) ++ kCRLF ++ rest) as Hsplit
      by (rewrite <- (ztake_zdrop s (content b)) at 1; by rewrite Hr).
    pose proof (zlen_ztake s (content b) ltac:(lia)) as Hs.
    assert (s + 2 <= writerIndex_ b - readerIndex_ b) as Hfit.
    { rewrite <- Hl, Hsplit, !zlen_app, Hs. pose proof (zlen_nonneg rest).
      change (zlen kCRLF) with 2. lia. }
    replace (readerIndex_ b + s - readerIndex_ b) with s by lia.
    do 2 (split; [lia|]). split; [done|].
    unfold retrieveUntil, peek, beginWrite. rewrite !c_assert_bind_true by lia.
    rewrite app_assoc in Hsplit.
    destruct (retrieve_prefix b _ _ (readerIndex_ b + s + 2 - readerIndex_ b) H Hsplit)
      as (b' & Hb & Hw & Hc).
    { rewrite zlen_app, Hs. change (zlen kCRLF) with 2. lia. }
    exists b'. rewrite Hb, Hc, app_assoc. done.
Qed.

(** Filling the writable part completely. *)
Lemma storeAtWrite_full b data :
  wf b -> writableBytes b <= zlen data ->
  exists b1, mkBuffer (buffer_ (storeAtWrite (ztake (writableBytes b) data) b))
               (readerIndex_ (storeAtWrite (ztake (writableBytes b) data) b))
               (zlen (buffer_ (storeAtWrite (ztake (writableBytes b) data) b))) = b1 /\
    wf b1 /\ content b1 = content b ++ ztake (writableBytes b) data.
Proof.
  intros H Hle. set (d1 := ztake (writableBytes b) data).
  pose proof (writableBytes_wf b H) as Hw. assert (0 <= writableBytes b) by wf_lia.
  assert (zlen d1 = writableBytes b) as Hd1 by (apply zlen_ztake; lia).
  destruct (storeAtWrite_hasWritten d1 b) as (b1 & Hb1 & Hwf1 & Hc1 & Hp1 & Hwr); [done|lia|].
  assert (zlen (buffer_ (storeAtWrite d1 b)) = zlen (buffer_ b)) as Hz.
  { simpl. apply zlen_zwrite; unfold beginWrite; wf_lia. }
  exists b1. split; [|done]. unfold hasWritten in Hb1. apply outcome_bind_ok in Hb1 as (? & _ & Hb1).
  injection Hb1 as <-. rewrite Hz. simpl in *. f_equal. rewrite Hwr, Hd1, Hw. lia.
Qed.

(** ** readFd: whatever the kernel delivers is appended *)
Section readFd.
Context (readv : Z -> io_result).
(** readv(2) never returns more than the segments hold. *)
Hypothesis readv_fits :
  forall room data, 0 <= room -> readv room = IoBytes data -> zlen data <= room.

(** C24: [readFd] appends exactly the bytes [readv] delivered, in order, also
    when they overflow into the 64 KiB stack buffer; on error it leaves the
    content alone and reports errno; the kernel is always offered at least 64 KiB. *)
Theorem readFd_appends b :
  wf b -> zlen (buffer_ b) + extrabuf_size <= vector_max_size ->
  match readv (if writableBytes b <? extrabuf_size
               then writableBytes b + extrabuf_size else writableBytes b) with
  | IoError errno => readFd readv b = Ok (-1, Some errno, b)
  | IoBytes data =>
      exists b', readFd readv b = Ok (zlen data, None, b') /\ wf b' /\
        content b' = content b ++ data
  end.
Proof.
  intros H Hmax. unfold readFd.
  set (room := if _ <? _ then _ else _).
  destruct (readv room) as [e|data] eqn:E; [done|].
  pose proof (writableBytes_wf b H) as Hw.
  assert (0 <= writableBytes b) by wf_lia.
  apply readv_fits in E; [|subst room; destruct (_ <? _); unfold_sizes; lia].
  pose proof (zlen_nonneg data).
  destruct (zlen data <=? writableBytes b) eqn:Hn.
  - rewrite ztake_all by lia.
    destruct (storeAtWrite_hasWritten data b) as (b' & Hb & Hwf & Hc & _); [done|lia|].
    unfold hasWritten in Hb. apply outcome_bind_ok in Hb as (? & _ & Hb). injection Hb as Hb.
    simpl in *. rewrite Hb. eauto.
  - set (d1 := ztake (writableBytes b) data).
    assert (zlen d1 = writableBytes b) as Hd1 by (apply zlen_ztake; lia).
    destruct (storeAtWrite_hasWritten d1 b) as (b1 & Hb1 & Hwf1 & Hc1 & Hp1 & Hwr); [done|lia|].
    assert (zlen (buffer_ (storeAtWrite d1 b)) = zlen (buffer_ b)) as Hz.
    { simpl. apply zlen_zwrite; unfold beginWrite; wf_lia. }
    assert (mkBuffer (buffer_ (storeAtWrite d1 b)) (readerIndex_ (storeAtWrite d1 b))
              (zlen (buffer_ (storeAtWrite d1 b))) = b1) as ->.
    { unfold hasWritten in Hb1. apply outcome_bind_ok in Hb1 as (? & _ & Hb1).
      injection Hb1 as <-. rewrite Hz. simpl in *.
      f_equal. rewrite Hwr, Hd1, Hw. lia. }
    assert (zlen (zdrop (writableBytes b) data) = zlen data - writableBytes b) as Hd2
      by (apply zlen_zdrop; lia).
    destruct (append_spec (zdrop (writableBytes b) data) b1) as (b2 & Hb2 & Hwf2 & Hc2 & _);
      [done|..].
    { rewrite Hd2, Hwr, Hd1, Hw. subst room. destruct (_ <? _) eqn:Ex in E; wf_lia. }
    rewrite Hb2. simpl. exists b2. split; [done|]. split; [done|].
    rewrite Hc2, Hc1. unfold d1. rewrite <- app_assoc. by rewrite ztake_zdrop.
Qed.

Lemma readFd_post b :
  wf b ->
  match readv (if writableBytes b <? extrabuf_size
               then writableBytes b + extrabuf_size else writableBytes b) with
  | IoError errno => readFd readv b = Ok (-1, Some errno, b)
  | IoBytes data =>
      post (fun r => exists b', r = (zlen data, None, b') /\ wf b' /\ content b' = content b ++ data)
        (eq LengthError) (readFd readv b)
  end.
Proof.
  intros H. unfold readFd. set (room := if _ <? _ then _ else _).
  destruct (readv room) as [e|data] eqn:E; [done|].
  pose proof (writableBytes_wf b H) as Hw. assert (0 <= writableBytes b) by wf_lia.
  apply readv_fits in E; [|subst room; destruct (_ <? _); unfold_sizes; lia].
  pose proof (zlen_nonneg data).
  destruct (zlen data <=? writableBytes b) eqn:Hn.
  - rewrite ztake_all by lia.
    destruct (storeAtWrite_hasWritten data b) as (b' & Hb & Hwf & Hc & _); [done|lia|].
    unfold hasWritten in Hb. apply outcome_bind_ok in Hb as (? & _ & Hb). injection Hb as Hb.
    simpl in *. rewrite Hb. eauto.
  - destruct (storeAtWrite_full b data) as (b1 & -> & Hwf1 & Hc1); [done|lia|].
    eapply post_bind; [apply append_post; [done|]|].
    + rewrite zlen_zdrop by lia. subst room. destruct (_ <? _) eqn:Ex in E; wf_lia.
    + intros b2 _ (Hwf2 & Hc2). exists b2. split; [done|]. split; [done|].
      rewrite Hc2, Hc1, <- app_assoc. by rewrite ztake_zdrop.
Qed.
End readFd.

(** ** shrink keeps the content (for contents an [int] can count) *)
Lemma shrink_spec reserve b :
  wf b -> 0 <= reserve -> readableBytes b < 2 ^ 31 -> reserve < 2 ^ 62 ->
  exists b', shrink reserve b = Ok b' /\ wf b' /\ content b' = content b /\
    kCheapPrepend <= prependableBytes b' /\
    writerIndex_ b' <= kCheapPrepend + readableBytes b.
Proof.
  intros H Hr Hlen Hres. unfold shrink.
  destruct (newBuffer_spec kInitialSize) as (o & -> & Ho & Hoc & Hop & How); [done..|]. simpl.
  assert (0 <= readableBytes b) by (rewrite readableBytes_wf by done; wf_lia).
  rewrite (wrapU_id 64 (readableBytes b + reserve)) by (unfold_sizes; lia).
  destruct (ensureWritableBytes_spec (readableBytes b + reserve) o)
    as (o1 & -> & H1 & Hc1 & _ & Hp1 & Hw1); [done|lia|rewrite How; unfold_sizes; lia|].
  simpl. rewrite (wrapS_id 32) by (unfold in_s; simpl; lia).
  rewrite (proj2 (Z.ltb_ge _ _)) by lia.
  rewrite zslice_peek by (done || lia).
  rewrite ztake_all by (rewrite content_length by done; lia).
  destruct (append_spec (content b) o1) as (o2 & -> & H2 & Hc2 & Hp2 & Hw2);
    [done|rewrite content_length by done; unfold_sizes; lia|].
  simpl. exists o2. rewrite Hc2, Hc1, Hoc. rewrite content_length in Hw2 by done.
  do 3 (split; [done|]). lia.
Qed.

(** Past [INT_MAX] readable bytes [toStringPiece()] has a negative
    length, which [append] takes as a huge [size_t]: [shrink] never returns. *)
Lemma shrink_over_int_max reserve b :
  2 ^ 31 <= readableBytes b < 2 ^ 32 -> is_ok (shrink reserve b) = false.
Proof.
  intros Hlen. unfold shrink.
  destruct (newBuffer kInitialSize); simpl; [|done].
  destruct (ensureWritableBytes _ _) as [o|]; simpl; [|done].
  assert (i32 (readableBytes b) < 0) as Hneg.
  { unfold wrapS. replace (readableBytes b + 2 ^ (32 - 1))
      with ((readableBytes b - 2 ^ 31) + 1 * 2 ^ 32) by (simpl; lia).
    rewrite Z.mod_add by done. rewrite Z.mod_small by lia. simpl; lia. }
  rewrite (proj2 (Z.ltb_lt _ _)) by done.
  by destruct (ensureWritableBytes _ o).
Qed.

(** ** Abstract specification: a byte queue

    What a user of [Buffer] may rely on: a byte string, [aroom] bytes that can
    be prepended, and an upper bound [ahigh] of the write index, which bounds
    how much more may be added before the vector cannot grow. *)
Record queue := mkQueue { acontent : bytes; aroom : Z; ahigh : Z }.

Inductive buf_op :=
| OAppend (data : bytes)
| OAppendInt (w : int_width) (x : Z)
| OPrepend (data : bytes)
| OPrependInt (w : int_width) (x : Z)
| ORetrieve (n : Z)
| ORetrieveAll
| ORetrieveAsString (n : Z)
| ORetrieveAllAsString
| OReadInt (w : int_width)
| OEnsureWritable (n : Z)
| OStoreAndHasWritten (room : Z) (data : bytes)
| OUnwrite (n : Z)
| OShrink (reserve : Z).

(** What an operation returns to its caller. *)
Inductive op_result := RUnit | RBytes (data : bytes) | RInt (x : Z).

Definition unit_result (o : outcome Buffer) : outcome (op_result * Buffer) :=
  b ← o; Ok (RUnit, b).

Definition cstep (b : Buffer) (o : buf_op) : outcome (op_result * Buffer) :=
  match o with
  | OAppend data => unit_result (append data b)
  | OAppendInt w x => unit_result (appendInt w x b)
  | OPrepend data => unit_result (prepend data b)
  | OPrependInt w x => unit_result (prependInt w x b)
  | ORetrieve n => unit_result (retrieve n b)
  | ORetrieveAll => Ok (RUnit, retrieveAll b)
  | ORetrieveAsString n => '(s, b') ← retrieveAsString n b; Ok (RBytes s, b')
  | ORetrieveAllAsString => '(s, b') ← retrieveAllAsString b; Ok (RBytes s, b')
  | OReadInt w => '(x, b') ← readInt w b; Ok (RInt x, b')
  | OEnsureWritable n => unit_result (ensureWritableBytes n b)
  | OStoreAndHasWritten room data =>
      unit_result (b1 ← ensureWritableBytes room b; hasWritten (zlen data) (storeAtWrite data b1))
  | OUnwrite n => unit_result (unwrite n b)
  | OShrink reserve => unit_result (shrink reserve b)
  end.

Definition aappend (data : bytes) (q : queue) : option queue :=
  if ahigh q + zlen data <=? vector_max_size
  then Some (mkQueue (acontent q ++ data) (Z.min kCheapPrepend (aroom q)) (ahigh q + zlen data))
  else None.

Definition aprepend (data : bytes) (q : queue) : option queue :=
  if zlen data <=? aroom q
  then Some (mkQueue (data ++ acontent q) (aroom q - zlen data) (ahigh q))
  else None.

Definition aretrieve (n : Z) (q : queue) : option queue :=
  if (0 <=? n) && (n <=? zlen (acontent q))
  then Some (mkQueue (zdrop n (acontent q)) (Z.min kCheapPrepend (aroom q))
               (Z.max kCheapPrepend (ahigh q)))
  else None.

Definition astep (q : queue) (o : buf_op) : option (op_result * queue) :=
  match o with
  | OAppend data => q' ← aappend data q; Some (RUnit, q')
  | OAppendInt w x => q' ← aappend (be_bytes (width_bytes w) x) q; Some (RUnit, q')
  | OPrepend data => q' ← aprepend data q; Some (RUnit, q')
  | OPrependInt w x => q' ← aprepend (be_bytes (width_bytes w) x) q; Some (RUnit, q')
  | ORetrieve n => q' ← aretrieve n q; Some (RUnit, q')
  | ORetrieveAll => Some (RUnit, mkQueue [] kCheapPrepend kCheapPrepend)
  | ORetrieveAsString n =>
      q' ← aretrieve n q; Some (RBytes (ztake n (acontent q)), q')
  | ORetrieveAllAsString =>
      q' ← aretrieve (zlen (acontent q)) q; Some (RBytes (acontent q), q')
  | OReadInt w =>
      let n := Z.of_nat (width_bytes w) in
      q' ← aretrieve n q;
      Some (RInt (decode_int (width_bytes w) (ztake n (acontent q))), q')
  | OEnsureWritable n =>
      if (0 <=? n) && (ahigh q + n <=? vector_max_size)
      then Some (RUnit, mkQueue (acontent q) (Z.min kCheapPrepend (aroom q)) (ahigh q))
      else None
  | OStoreAndHasWritten room data =>
      if (zlen data <=? room) && (ahigh q + room <=? vector_max_size)
      then Some (RUnit, mkQueue (acontent q ++ data) (Z.min kCheapPrepend (aroom q))
                          (ahigh q + zlen data))
      else None
  | OUnwrite n =>
      if (0 <=? n) && (n <=? zlen (acontent q))
      then Some (RUnit, mkQueue (ztake (zlen (acontent q) - n) (acontent q)) (aroom q) (ahigh q))
      else None
  | OShrink reserve =>
      if (0 <=? reserve) && (reserve <? 2 ^ 62) && (zlen (acontent q) <? 2 ^ 31)
      then Some (RUnit, mkQueue (acontent q) kCheapPrepend (kCheapPrepend + zlen (acontent q)))
      else None
  end.

(** Refinement relation. *)
Definition represents (b : Buffer) (q : queue) : Prop :=
  wf b /\ content b = acontent q /\ aroom q <= prependableBytes b /\ writerIndex_ b <= ahigh q.

Lemma aretrieve_refines n b q q' :
  represents b q -> aretrieve n q = Some q' ->
  0 <= n <= readableBytes b /\ exists b', retrieve n b = Ok b' /\ represents b' q'.
Proof.
  intros (H & Hc & Hroom & Hhigh). unfold aretrieve. destruct (_ && _) eqn:E; [|done].
  intros [= <-]. apply andb_true_iff in E as [E1 E2].
  rewrite <- Hc, content_length in E2 by done. split; [lia|].
  destruct (retrieve_spec n b H ltac:(lia)) as (b' & Hb & Hw & Hc' & Hp & Hw').
  exists b'. unfold represents; simpl. rewrite Hc', Hc.
  do 3 (split; [done|]). lia.
Qed.

Lemma aappend_refines data b q q' :
  represents b q -> aappend data q = Some q' ->
  exists b', append data b = Ok b' /\ represents b' q'.
Proof.
  intros (H & Hc & Hroom & Hhigh). unfold aappend. destruct (_ <=? _) eqn:E; [|done].
  intros [= <-].
  destruct (append_spec data b H ltac:(lia)) as (b' & Hb & Hw & Hc' & Hp & Hw').
  exists b'. unfold represents; simpl. rewrite Hc', Hc. do 3 (split; [done|]). lia.
Qed.

Lemma aprepend_refines data b q q' :
  represents b q -> aprepend data q = Some q' ->
  exists b', prepend data b = Ok b' /\ represents b' q'.
Proof.
  intros (H & Hc & Hroom & Hhigh). unfold aprepend. destruct (_ <=? _) eqn:E; [|done].
  intros [= <-].
  destruct (prepend_spec data b H ltac:(lia)) as (b' & Hb & Hw & Hc' & Hp & Hw').
  exists b'. unfold represents; simpl. rewrite Hc', Hc. do 3 (split; [done|]). lia.
Qed.

(** Taking [n] bytes out as a string. *)
Lemma aretrieveAsString_refines n b q q' :
  represents b q -> aretrieve n q = Some q' ->
  exists b', retrieveAsString n b = Ok (ztake n (acontent q), b') /\ represents b' q'.
Proof.
  intros HR E. destruct (aretrieve_refines _ _ _ _ HR E) as (Hn & b' & Hb & Hb').
  pose proof HR as (H & Hc & _). exists b'. split; [|done].
  unfold retrieveAsString. rewrite c_assert_bind_true by lia.
  by rewrite zslice_peek, Hb, Hc by done.
Qed.

(** Reading an integer takes its bytes off the queue. *)
Lemma aread_refines w b q q' :
  represents b q -> aretrieve (Z.of_nat (width_bytes w)) q = Some q' ->
  exists b', readInt w b =
      Ok (decode_int (width_bytes w) (ztake (Z.of_nat (width_bytes w)) (acontent q)), b') /\
    represents b' q'.
Proof.
  intros HR E. destruct (aretrieve_refines _ _ _ _ HR E) as (Hn & b' & Hb & Hb').
  pose proof HR as (H & Hc & _). pose proof (content_length b H) as Hlen.
  destruct (readInt_prefix w b (ztake (Z.of_nat (width_bytes w)) (content b))
              (zdrop (Z.of_nat (width_bytes w)) (content b)) H) as (b2 & Hr & _ & _).
  { by rewrite ztake_zdrop. }
  { unfold ztake. rewrite length_take. unfold zlen in Hlen. lia. }
  assert (b2 = b') as ->; [|exists b'; by rewrite Hr, Hc].
  destruct w; simpl in *;
    unfold readInt8, readInt16, readInt32, readInt64,
      retrieveInt8, retrieveInt16, retrieveInt32, retrieveInt64 in Hr;
    inv_ok; change (Z.of_nat 1) with 1 in Hb || change (Z.of_nat 2) with 2 in Hb
      || change (Z.of_nat 4) with 4 in Hb || change (Z.of_nat 8) with 8 in Hb; congruence.
Qed.

Ltac step_done := eexists; split; [reflexivity|]; assumption.

(** One operation allowed by the queue runs in the buffer without a failing
    assertion, returns what the queue returns and keeps the representation. *)
Lemma step_refines b q o r q' :
  represents b q -> astep q o = Some (r, q') ->
  exists b', cstep b o = Ok (r, b') /\ represents b' q'.
Proof.
  intros HR Hs. pose proof HR as (H & Hc & Hroom & Hhigh).
  pose proof (content_length b H) as Hlen.
  destruct o; cbn [astep cstep] in *.
  - destruct (aappend data q) eqn:E; simplify_eq/=.
    destruct (aappend_refines _ _ _ _ HR E) as (b' & -> & Hb'). step_done.
  - destruct (aappend _ q) eqn:E; simplify_eq/=. rewrite appendInt_append.
    destruct (aappend_refines _ _ _ _ HR E) as (b' & -> & Hb'). step_done.
  - destruct (aprepend data q) eqn:E; simplify_eq/=.
    destruct (aprepend_refines _ _ _ _ HR E) as (b' & -> & Hb'). step_done.
  - destruct (aprepend _ q) eqn:E; simplify_eq/=. rewrite prependInt_prepend.
    destruct (aprepend_refines _ _ _ _ HR E) as (b' & -> & Hb'). step_done.
  - destruct (aretrieve n q) eqn:E; simplify_eq/=.
    destruct (aretrieve_refines _ _ _ _ HR E) as (_ & b' & -> & Hb'). step_done.
  - simplify_eq. eexists; split; [done|].
    unfold represents; simpl. rewrite retrieveAll_content.
    split; [auto with buffer|]. unfold prependableBytes; simpl. split; [done|lia].
  - destruct (aretrieve n q) eqn:E; simplify_eq/=.
    destruct (aretrieveAsString_refines _ _ _ _ HR E) as (b' & -> & Hb'). step_done.
  - destruct (aretrieve _ q) eqn:E; simplify_eq/=. unfold retrieveAllAsString.
    rewrite <- Hlen, Hc. destruct (aretrieveAsString_refines _ _ _ _ HR E) as (b' & -> & Hb').
    rewrite ztake_all by lia. step_done.
  - destruct (aretrieve _ q) eqn:E; simplify_eq/=.
    destruct (aread_refines _ _ _ _ HR E) as (b' & -> & Hb'). step_done.
  - destruct (_ && _) eqn:E; simplify_eq/=. apply andb_true_iff in E as [E1 E2].
    destruct (ensureWritableBytes_spec n b) as (b' & -> & Hb & Hc' & _ & Hp & Hw'); [done|lia..|].
    eexists; split; [done|]. unfold represents; simpl. rewrite Hc'. do 2 (split; [done|]). lia.
  - destruct (_ && _) eqn:E; simplify_eq/=. apply andb_true_iff in E as [E1 E2].
    pose proof (zlen_nonneg data).
    destruct (ensureWritableBytes_spec room b) as (b1 & -> & H1 & Hc1 & Hr1 & Hp1 & Hw1); [done|lia..|].
    destruct (storeAtWrite_hasWritten data b1) as (b2 & Hb2 & H2 & Hc2 & Hp2 & Hw2); [done|lia|].
    simpl. rewrite Hb2. eexists; split; [done|].
    unfold represents; simpl. rewrite Hc2, Hc1, Hc, Hp2. do 2 (split; [done|]). lia.
  - destruct (_ && _) eqn:E; simplify_eq/=. apply andb_true_iff in E as [E1 E2].
    rewrite <- Hc, Hlen in E2.
    destruct (unwrite_spec n b) as (b' & -> & Hb & Hc' & Hp & Hw'); [done|lia|].
    eexists; split; [done|]. unfold represents; simpl.
    rewrite Hc', Hp, <- Hc, Hlen. do 2 (split; [done|]). lia.
  - destruct (_ && _) eqn:E; simplify_eq/=.
    apply andb_true_iff in E as [E E3]. apply andb_true_iff in E as [E1 E2].
    rewrite <- Hc, Hlen in E3.
    destruct (shrink_spec reserve b) as (b' & -> & Hb & Hc' & Hp & Hw'); [done|lia..|].
    eexists; split; [done|]. unfold represents; simpl.
    rewrite Hc', <- Hc, Hlen. do 2 (split; [done|]). lia.
Qed.

Fixpoint crun (b : Buffer) (ops : list buf_op) : outcome (list op_result * Buffer) :=
  match ops with
  | [] => Ok ([], b)
  | o :: ops' => '(r, b1) ← cstep b o; '(rs, b2) ← crun b1 ops'; Ok (r :: rs, b2)
  end.

Fixpoint arun (q : queue) (ops : list buf_op) : option (list op_result * queue) :=
  match ops with
  | [] => Some ([], q)
  | o :: ops' => '(r, q1) ← astep q o; '(rs, q2) ← arun q1 ops'; Some (r :: rs, q2)
  end.

Definition empty_queue : queue := mkQueue [] kCheapPrepend kCheapPrepend.

(** C1: [Buffer] implements a byte queue: any sequence of its operations that
    the abstract queue allows (reads within the readable bytes, prepends within
    the prependable room, total size within the vector's limit) runs without a
    failing assertion or exception, returns what the queue returns, and ends in
    a well-formed buffer holding the queue's bytes. *)
Theorem buffer_refines_queue ops rs q :
  arun empty_queue ops = Some (rs, q) ->
  exists b0 b, newBuffer kInitialSize = Ok b0 /\ crun b0 ops = Ok (rs, b) /\
    wf b /\ content b = acontent q.
Proof.
  intros Hrun.
  destruct (newBuffer_spec kInitialSize) as (b0 & Hb0 & H0 & Hc0 & Hp0 & Hw0); [done..|].
  assert (represents b0 empty_queue) as HR.
  { unfold represents, empty_queue; simpl. rewrite Hc0, Hp0, Hw0. done. }
  exists b0. clear Hc0 Hp0 Hw0 H0.
  enough (exists b, crun b0 ops = Ok (rs, b) /\ represents b q) as (b & Hr & Hw & Hc & _)
    by (exists b; done).
  clear Hb0. revert b0 HR rs Hrun. generalize empty_queue as q0.
  induction ops as [|o ops IH]; intros q0 b0 HR rs Hrun; simpl in *; simplify_eq.
  - eauto.
  - destruct (astep q0 o) as [[r q1]|] eqn:E; simplify_eq/=.
    destruct (arun q1 ops) as [[rs' q2]|] eqn:E2; simplify_eq/=.
    destruct (step_refines _ _ _ _ _ HR E) as (b1 & Hb1 & HR1).
    destruct (IH _ _ HR1 _ E2) as (b2 & Hb2 & HR2).
    rewrite Hb1; simpl. rewrite Hb2; simpl. eauto.
Qed.

Lemma buffer_refines_queue_witness :
  let ops := [OAppend (lit "hello"); OPrependInt W32 5; OReadInt W32;
              ORetrieveAsString 2; OShrink 0; OAppendInt W16 (-2); ORetrieveAllAsString] in
  arun empty_queue ops =
    Some ([RUnit; RUnit; RInt 5; RBytes (lit "he"); RUnit; RUnit;
           RBytes (lit "llo" ++ [code_char 255; code_char 254])],
          mkQueue [] 8 13) /\
  exists b0 b, newBuffer kInitialSize = Ok b0 /\
    crun b0 ops = Ok ([RUnit; RUnit; RInt 5; RBytes (lit "he"); RUnit; RUnit;
           RBytes (lit "llo" ++ [code_char 255; code_char 254])], b) /\
    wf b /\ content b = [].
Proof.
  intros ops. assert (arun empty_queue ops =
    Some ([RUnit; RUnit; RInt 5; RBytes (lit "he"); RUnit; RUnit;
           RBytes (lit "llo" ++ [code_char 255; code_char 254])],
          mkQueue [] 8 13)) as Hrun by (vm_compute; reflexivity).
  split; [exact Hrun|]. exact (buffer_refines_queue ops _ _ Hrun).
Defined.

(** [append] and [prepend] at the level of one call: the content grows at
    the named end by exactly the given bytes whether the vector is grown, the
    content is moved to the front, or neither. *)
Theorem append_prepend_content data header b :
  wf b -> writerIndex_ b + zlen data <= vector_max_size ->
  zlen header <= Z.min kCheapPrepend (prependableBytes b) ->
  exists b1 b2, append data b = Ok b1 /\ prepend header b1 = Ok b2 /\ wf b2 /\
    content b2 = header ++ content b ++ data /\
    readableBytes b2 = zlen header + readableBytes b + zlen data.
Proof.
  intros H Hmax Hh.
  destruct (append_spec data b H Hmax) as (b1 & Ha & H1 & Hc1 & Hp1 & _).
  destruct (prepend_spec header b1 H1) as (b2 & Hp & H2 & Hc2 & _); [lia|].
  exists b1, b2. rewrite Hc1 in Hc2. do 4 (split; [done|]).
  rewrite <- !content_length, Hc2 by done. zlia.
Qed.

Definition sample_buffer : Buffer := mkBuffer (replicate 8 nul ++ lit "abcdef" ++ replicate 2 nul) 11 14.

Lemma sample_buffer_wf : wf sample_buffer.
Proof. unfold wf. vm_compute. intuition discriminate. Qed.

Lemma append_prepend_content_witness :
  exists b1 b2, append (lit "xyzw") sample_buffer = Ok b1 /\
    prepend (lit "HDR!") b1 = Ok b2 /\ wf b2 /\
    content b2 = lit "HDR!" ++ content sample_buffer ++ lit "xyzw" /\
    readableBytes b2 = 4 + readableBytes sample_buffer + 4.
Proof.
  apply (append_prepend_content (lit "xyzw") (lit "HDR!") sample_buffer);
    [apply sample_buffer_wf|vm_compute; discriminate..].
Defined.

Lemma int_stream_roundtrip_witness :
  let l := [(W32, -2147483648); (W8, 127); (W64, 2 ^ 63 - 1); (W16, -1)] in
  exists b b1 b2, newBuffer 16 = Ok b /\ appendInts l b = Ok b1 /\ content b1 = encode_ints l /\
    readInts (map fst l) b1 = Ok (map snd l, b2) /\ wf b2 /\ content b2 = [].
Proof.
  intros l. destruct (newBuffer_spec 16) as (b & Hb & Hwf & Hc & _ & Hw); [vm_compute; discriminate..|].
  exists b.
  destruct (int_stream_roundtrip l b Hwf Hc) as (b1 & b2 & H).
  - rewrite Hw. vm_compute. discriminate.
  - unfold l, in_s. repeat constructor; vm_compute; try discriminate; reflexivity.
  - exists b1, b2. split; [done|]. exact H.
Defined.

Lemma findCRLF_correct_witness :
  let b := mkBuffer (lit "........GET /" ++ [cr; cr; lf] ++ lit "Host") 8 20 in
  wf b /\ findCRLF b = Some 14 /\
  exists b', retrieveUntil 16 b = Ok b' /\ wf b' /\ content b = (lit "GET /" ++ [cr]) ++ kCRLF ++ content b'.
Proof.
  intros b. assert (wf b) as Hwf by (unfold wf; vm_compute; intuition discriminate).
  split; [done|]. split; [vm_compute; reflexivity|].
  pose proof (findCRLF_correct b Hwf) as H.
  assert (findCRLF b = Some 14) as E by (vm_compute; reflexivity). rewrite E in H.
  destruct H as (_ & _ & _ & H). exact H.
Defined.

Definition sample_readv (room : Z) : io_result := IoBytes (ztake room (lit "0123456789")).

Lemma readFd_appends_witness :
  wf sample_buffer /\
  exists b', readFd sample_readv sample_buffer = Ok (10, None, b') /\ wf b' /\
    content b' = lit "def" ++ lit "0123456789".
Proof.
  split; [apply sample_buffer_wf|].
  pose proof (readFd_appends sample_readv) as H.
  apply (H (fun room data => ltac:(unfold sample_readv; intros ? [= <-]; unfold ztake, zlen;
    rewrite length_take; lia)) sample_buffer sample_buffer_wf).
  vm_compute. discriminate.
Defined.
