(* ===== verification/StdContainers.v ===== *)
(** * StdContainers: the ordered containers of the C++ standard library

    [std::set<K>] and [std::map<K, V>] as the sorted sequences their iteration
    exposes.  The element order is the class [OrdKey]; the instances are the
    orders the program uses: integers and pointers, [std::string] (memcmp of
    unsigned characters), and the lexicographic order of [std::pair]. *)

From S2P Require Import Prelude.

Class OrdKey (K : Type) := {
  kltb : K -> K -> bool;
  kltb_irrefl : forall x, kltb x x = false;
  kltb_trans : forall x y z, kltb x y = true -> kltb y z = true -> kltb x z = true;
  kltb_total : forall x y, kltb x y = false -> kltb y x = false -> x = y;
}.

#[export] Instance Z_ord : OrdKey Z.
Proof.
  refine {| kltb := Z.ltb |}; intros; lia.
Defined.

Definition pair_ltb {A B} `{OrdKey A, OrdKey B} (p q : A * B) : bool :=
  kltb (fst p) (fst q) || (negb (kltb (fst q) (fst p)) && kltb (snd p) (snd q)).

#[export] Instance pair_ord {A B} `{OrdKey A, OrdKey B} : OrdKey (A * B).
Proof.
  refine {| kltb := pair_ltb |}; unfold pair_ltb.
  - intros [a b]; simpl. by rewrite !kltb_irrefl.
  - intros [a1 b1] [a2 b2] [a3 b3]; simpl. intros H1 H2.
    apply orb_true_iff in H1, H2. rewrite !andb_true_iff, !negb_true_iff in *.
    apply orb_true_iff. rewrite andb_true_iff, negb_true_iff.
    destruct (kltb a1 a3) eqn:E13; [by left|right].
    destruct H1 as [H1|[H1 H1']], H2 as [H2|[H2 H2']].
    + pose proof (kltb_trans _ _ _ H1 H2); congruence.
    + destruct (kltb a2 a3) eqn:E23; [pose proof (kltb_trans _ _ _ H1 E23); congruence|].
      pose proof (kltb_total _ _ E23 H2); subst. congruence.
    + destruct (kltb a1 a2) eqn:E12; [pose proof (kltb_trans _ _ _ E12 H2); congruence|].
      pose proof (kltb_total _ _ E12 H1); subst. congruence.
    + split; [|by eapply kltb_trans].
      destruct (kltb a3 a1) eqn:E31; [|done].
      destruct (kltb a2 a1) eqn:E21; [done|].
      destruct (kltb a1 a2) eqn:E12.
      * pose proof (kltb_trans _ _ _ E31 E12). congruence.
      * pose proof (kltb_total _ _ E12 E21); subst. congruence.
  - intros [a1 b1] [a2 b2]; simpl. intros H1 H2.
    apply orb_false_iff in H1 as [Ha H1], H2 as [Hb H2].
    pose proof (kltb_total _ _ Ha Hb); subst. rewrite Ha in *. simpl in *.
    f_equal. by apply kltb_total.
Defined.

Fixpoint bytes_ltb (a b : bytes) : bool :=
  match a, b with
  | _, [] => false
  | [], _ :: _ => true
  | x :: a', y :: b' =>
      (char_code x <? char_code y) || ((char_code x =? char_code y) && bytes_ltb a' b')
  end.

Lemma char_code_inj x y : char_code x = char_code y -> x = y.
Proof. intros H. by rewrite <- (code_char_char_code x), H, code_char_char_code. Qed.

#[export] Instance bytes_ord : OrdKey bytes.
Proof.
  refine {| kltb := bytes_ltb |}.
  - induction x as [|c x IH]; simpl; [done|]. rewrite Z.ltb_irrefl, IH.
    by rewrite andb_false_r.
  - induction x as [|c x IH]; intros [|d y] [|e z]; simpl; try done.
    rewrite !orb_true_iff, !andb_true_iff. intros [H1|[H1 H1']] [H2|[H2 H2']];
      [left; lia|left; lia|left; lia|right; split; [lia|by eapply IH]].
  - induction x as [|c x IH]; intros [|d y]; simpl; try done.
    rewrite !orb_false_iff, !andb_false_iff. intros [H1 H1'] [H2 H2'].
    assert (char_code c = char_code d) as Hcd by lia.
    apply char_code_inj in Hcd as ->. f_equal. apply IH; [destruct H1'; [lia|done]|destruct H2'; [lia|done]].
Defined.

Section std_set.
Context {K : Type} `{OrdKey K}.

(** [set::insert]: the set and whether the element was new. *)
Fixpoint set_insert (x : K) (s : list K) : list K * bool :=
  match s with
  | [] => ([x], true)
  | y :: s' =>
      if kltb x y then (x :: s, true)
      else if kltb y x then let '(s1, b) := set_insert x s' in (y :: s1, b)
      else (s, false)
  end.

(** [set::erase(key)]: the set and the number of elements removed. *)
Fixpoint set_erase (x : K) (s : list K) : list K * Z :=
  match s with
  | [] => ([], 0)
  | y :: s' =>
      if kltb x y then (s, 0)
      else if kltb y x then let '(s1, n) := set_erase x s' in (y :: s1, n)
      else (s', 1)
  end.

Fixpoint set_find (x : K) (s : list K) : bool :=
  match s with
  | [] => false
  | y :: s' => if kltb x y then false else if kltb y x then set_find x s' else true
  end.

(** The ranges [begin(), lower_bound(x)) and [lower_bound(x), end()). *)
Fixpoint set_split_lower (x : K) (s : list K) : list K * list K :=
  match s with
  | [] => ([], [])
  | y :: s' =>
      if kltb y x then let '(a, b) := set_split_lower x s' in (y :: a, b)
      else ([], s)
  end.

Inductive set_sorted : list K -> Prop :=
| sorted_nil : set_sorted []
| sorted_cons x s : (forall y, y ∈ s -> kltb x y = true) -> set_sorted s -> set_sorted (x :: s).

Lemma kltb_antisym (x y : K) : kltb x y = true -> kltb y x = false.
Proof.
  intros Hxy. destruct (kltb y x) eqn:E; [|done].
  pose proof (kltb_trans _ _ _ Hxy E). by rewrite kltb_irrefl in *.
Qed.

Lemma kltb_neq (x y : K) : kltb x y = true -> x <> y.
Proof. intros Hxy ->. by rewrite kltb_irrefl in Hxy. Qed.

Lemma set_find_spec x s : set_sorted s -> set_find x s = true <-> x ∈ s.
Proof.
  induction 1 as [|y s Hlt Hs IH]; simpl; [set_solver|].
  rewrite elem_of_cons. destruct (kltb x y) eqn:E1.
  - split; [done|]. intros [->|Hin]; [by rewrite kltb_irrefl in E1|].
    specialize (Hlt _ Hin). pose proof (kltb_antisym _ _ E1). congruence.
  - destruct (kltb y x) eqn:E2.
    + rewrite IH. split; [by right|]. intros [->|]; [by rewrite kltb_irrefl in E2|done].
    + pose proof (kltb_total _ _ E1 E2); subst. split; [by left|done].
Qed.

Lemma set_insert_spec x s :
  set_sorted s ->
  set_sorted (fst (set_insert x s)) /\
  (forall y, y ∈ fst (set_insert x s) <-> y = x \/ y ∈ s) /\
  (snd (set_insert x s) = true <-> x ∉ s) /\
  zlen (fst (set_insert x s)) = zlen s + (if snd (set_insert x s) then 1 else 0).
Proof.
  induction 1 as [|y s Hlt Hs IH]; simpl.
  - split; [repeat constructor; set_solver|]. split; [set_solver|]. split; [set_solver|].
    rewrite zlen_cons; znil; lia.
  - destruct (kltb x y) eqn:E1; simpl.
    + split; [constructor; [|by constructor]|].
      { intros z [->|Hz]%elem_of_cons; [done|]. eauto using kltb_trans. }
      split; [set_solver|]. split; [|rewrite !zlen_cons; lia].
      split; [intros _|done]. intros [->|Hin]%elem_of_cons; [by rewrite kltb_irrefl in E1|].
      pose proof (kltb_antisym _ _ E1). rewrite Hlt in * by done. done.
    + destruct (kltb y x) eqn:E2; simpl.
      * destruct (set_insert x s) as [s1 b] eqn:Ei; simpl in *.
        destruct IH as (IH1 & IH2 & IH3 & IH4).
        split; [constructor; [|done]|].
        { intros z Hz%IH2. destruct Hz as [->|Hz]; auto. }
        split; [set_solver|]. split; [|rewrite !zlen_cons; lia].
        rewrite IH3, elem_of_cons. split; [|tauto].
        intros Hn [->|]; [by rewrite kltb_irrefl in E2|done].
      * pose proof (kltb_total _ _ E1 E2); subst. split; [by constructor|].
        split; [set_solver|]. split; [set_solver|lia].
Qed.

Lemma set_erase_spec x s :
  set_sorted s ->
  set_sorted (fst (set_erase x s)) /\
  (forall y, y ∈ fst (set_erase x s) <-> y <> x /\ y ∈ s) /\
  (snd (set_erase x s) = if set_find x s then 1 else 0) /\
  zlen (fst (set_erase x s)) = zlen s - snd (set_erase x s).
Proof.
  induction 1 as [|y s Hlt Hs IH]; simpl.
  - split; [constructor|]. split; [set_solver|]. znil; lia.
  - destruct (kltb x y) eqn:E1; simpl.
    + split; [by constructor|]. split; [|lia]. intros z. split; [|tauto].
      intros Hz. split; [|done]. intros ->.
      apply elem_of_cons in Hz as [->|Hin]; [by rewrite kltb_irrefl in E1|].
      pose proof (kltb_antisym _ _ E1). rewrite Hlt in * by done. done.
    + destruct (kltb y x) eqn:E2; simpl.
      * destruct (set_erase x s) as [s1 n] eqn:Ei; simpl in *.
        destruct IH as (IH1 & IH2 & IH3 & IH4).
        split; [constructor; [|done]; intros z Hz%IH2; apply Hlt, Hz|].
        split; [|rewrite !zlen_cons; lia].
        intros z. rewrite !elem_of_cons, IH2. split; [|tauto].
        intros [->|]; [|tauto]. split; [|by left]. intros ->. by rewrite kltb_irrefl in E2.
      * pose proof (kltb_total _ _ E1 E2); subst. split; [done|].
        split; [|rewrite zlen_cons; lia]. intros z. rewrite elem_of_cons.
        split; [|tauto]. intros Hz. split; [|by right]. intros ->.
        specialize (Hlt _ Hz). by rewrite kltb_irrefl in Hlt.
Qed.

Lemma set_split_lower_spec x s :
  set_sorted s ->
  s = fst (set_split_lower x s) ++ snd (set_split_lower x s) /\
  (forall y, y ∈ fst (set_split_lower x s) -> kltb y x = true) /\
  (forall y, y ∈ snd (set_split_lower x s) -> kltb y x = false).
Proof.
  induction 1 as [|y s Hlt Hs IH]; simpl; [set_solver|].
  destruct (kltb y x) eqn:E; simpl.
  - destruct (set_split_lower x s) as [a b] eqn:Es; simpl in *.
    destruct IH as (-> & IH2 & IH3). split; [done|]. split; [|done].
    intros z [->|Hz]%elem_of_cons; auto.
  - split; [done|]. split; [set_solver|]. intros z [->|Hz]%elem_of_cons; [done|].
    destruct (kltb z x) eqn:Ez; [|done].
    rewrite (kltb_trans _ _ _ (Hlt _ Hz) Ez) in E. done.
Qed.

Lemma set_sorted_app s1 s2 :
  set_sorted (s1 ++ s2) ->
  set_sorted s1 /\ set_sorted s2 /\ (forall x y, x ∈ s1 -> y ∈ s2 -> kltb x y = true).
Proof.
  induction s1 as [|x s1 IH]; simpl; intros Hs.
  - split; [constructor|]. split; [done|]. set_solver.
  - inversion_clear Hs as [|? ? Hlt Hs']. destruct (IH Hs') as (I1 & I2 & I3).
    split; [constructor; [intros y Hy; apply Hlt; set_solver|done]|].
    split; [done|]. intros y z [->|Hy]%elem_of_cons Hz; [apply Hlt; set_solver|auto].
Qed.

Lemma set_sorted_NoDup s : set_sorted s -> NoDup s.
Proof.
  induction 1 as [|x s Hlt Hs IH]; constructor; [|done].
  intros Hin. specialize (Hlt _ Hin). by rewrite kltb_irrefl in Hlt.
Qed.
End std_set.

Section std_map.
Context {K V : Type} `{OrdKey K}.

(** [map::find]. *)
Fixpoint map_find (k : K) (m : list (K * V)) : option V :=
  match m with
  | [] => None
  | (k', v) :: m' =>
      if kltb k k' then None else if kltb k' k then map_find k m' else Some v
  end.

(** [m[k] = v]. *)
Fixpoint map_assign (k : K) (v : V) (m : list (K * V)) : list (K * V) :=
  match m with
  | [] => [(k, v)]
  | (k', v') :: m' =>
      if kltb k k' then (k, v) :: m
      else if kltb k' k then (k', v') :: map_assign k v m'
      else (k, v) :: m'
  end.

(** [map::erase(key)]: the map and the number of entries removed. *)
Fixpoint map_erase (k : K) (m : list (K * V)) : list (K * V) * Z :=
  match m with
  | [] => ([], 0)
  | (k', v') :: m' =>
      if kltb k k' then (m, 0)
      else if kltb k' k then let '(m1, n) := map_erase k m' in ((k', v') :: m1, n)
      else (m', 1)
  end.

Definition map_wf (m : list (K * V)) : Prop := set_sorted (map fst m).

Lemma map_find_below k m :
  (forall k', k' ∈ map fst m -> kltb k k' = true) -> map_find k m = None.
Proof.
  destruct m as [|[k' v] m]; [done|]. simpl. intros Hk. by rewrite Hk by (left).
Qed.

Lemma map_assign_keys k v m k' : k' ∈ map fst (map_assign k v m) <-> k' = k \/ k' ∈ map fst m.
Proof.
  induction m as [|[k1 v1] m IH]; simpl; [set_solver|].
  destruct (kltb k k1) eqn:E1; simpl; [set_solver|].
  destruct (kltb k1 k) eqn:E2; simpl; [set_solver|].
  pose proof (kltb_total _ _ E1 E2); subst. set_solver.
Qed.

Lemma map_assign_wf k v m : map_wf m -> map_wf (map_assign k v m).
Proof.
  unfold map_wf. induction m as [|[k1 v1] m IH]; simpl; intros Hs.
  - repeat constructor. set_solver.
  - inversion_clear Hs as [|? ? Hlt Hs'].
    destruct (kltb k k1) eqn:E1; simpl.
    + constructor; [|by constructor]. intros y [->|Hy]%elem_of_cons; eauto using kltb_trans.
    + destruct (kltb k1 k) eqn:E2; simpl.
      * constructor; [|by apply IH]. intros y Hy%map_assign_keys. destruct Hy as [->|]; auto.
      * pose proof (kltb_total _ _ E1 E2); subst. by constructor.
Qed.

Lemma map_find_assign k v m k' :
  map_wf m ->
  map_find k' (map_assign k v m) =
    if kltb k k' || kltb k' k then map_find k' m else Some v.
Proof.
  unfold map_wf. induction m as [|[k1 v1] m IH]; simpl; intros Hs.
  - destruct (kltb k' k) eqn:E1; [by rewrite orb_true_r|]. rewrite orb_false_r.
    by destruct (kltb k k').
  - inversion_clear Hs as [|? ? Hlt Hs'].
    destruct (kltb k k1) eqn:E1; simpl.
    + destruct (kltb k' k) eqn:E3; [|rewrite orb_false_r; by destruct (kltb k k')].
      rewrite orb_true_r. by rewrite (kltb_trans _ _ _ E3 E1).
    + destruct (kltb k1 k) eqn:E2; simpl.
      * rewrite IH by done. destruct (kltb k' k1) eqn:E3.
        { rewrite (kltb_trans _ _ _ E3 E2). by rewrite orb_true_r. }
        destruct (kltb k1 k') eqn:E4; [done|].
        pose proof (kltb_total _ _ E3 E4); subst. rewrite E2. by rewrite orb_true_r.
      * pose proof (kltb_total _ _ E1 E2); subst.
        destruct (kltb k' k1) eqn:E3; [by rewrite orb_true_r|].
        rewrite orb_false_r. by destruct (kltb k1 k').
Qed.

Lemma map_find_assign_eq k v m : map_wf m -> map_find k (map_assign k v m) = Some v.
Proof. intros Hm. rewrite map_find_assign by done. by rewrite kltb_irrefl. Qed.

Lemma map_find_assign_ne k v m k' :
  map_wf m -> k <> k' -> map_find k' (map_assign k v m) = map_find k' m.
Proof.
  intros Hm Hne. rewrite map_find_assign by done.
  destruct (kltb k k') eqn:E1; [done|]. destruct (kltb k' k) eqn:E2; [done|].
  by destruct (Hne (kltb_total _ _ E1 E2)).
Qed.

Lemma map_find_in k v m : map_find k m = Some v -> (k, v) ∈ m.
Proof.
  induction m as [|[k1 v1] m IH]; simpl; [done|].
  destruct (kltb k k1) eqn:E1; [done|]. destruct (kltb k1 k) eqn:E2.
  - intros Hm. right. auto.
  - intros [= ->]. pose proof (kltb_total _ _ E1 E2); subst. left.
Qed.

Lemma map_erase_keys k m y : map_wf m -> y ∈ map fst (fst (map_erase k m)) -> y ∈ map fst m.
Proof.
  unfold map_wf. induction m as [|[k1 v1] m IH]; simpl; [done|]. intros Hs.
  inversion_clear Hs as [|? ? Hlt Hs'].
  destruct (kltb k k1) eqn:E1; [done|]. destruct (kltb k1 k) eqn:E2.
  - destruct (map_erase k m); simpl in *. set_solver.
  - set_solver.
Qed.

Lemma map_erase_wf k m : map_wf m -> map_wf (fst (map_erase k m)).
Proof.
  intros Hm. pose proof (fun y => map_erase_keys k m y Hm) as Hk. revert Hm Hk. unfold map_wf.
  induction m as [|[k1 v1] m IH]; simpl; [done|]. intros Hs Hk.
  inversion_clear Hs as [|? ? Hlt Hs'].
  destruct (kltb k k1) eqn:E1; [by constructor|]. destruct (kltb k1 k) eqn:E2; [|done].
  pose proof (fun y => map_erase_keys k m y Hs') as Hk'.
  specialize (IH Hs' Hk'). destruct (map_erase k m); simpl in *.
  constructor; [|done]. intros y Hy. apply Hlt; auto.
Qed.

Lemma map_find_erase k m k' :
  map_wf m ->
  map_find k' (fst (map_erase k m)) =
    if kltb k k' || kltb k' k then map_find k' m else None.
Proof.
  unfold map_wf. induction m as [|[k1 v1] m IH]; simpl; intros Hs.
  - by destruct (_ || _).
  - inversion_clear Hs as [|? ? Hlt Hs'].
    destruct (kltb k k1) eqn:E1; simpl.
    + destruct (kltb k k') eqn:E3; [done|]. simpl.
      destruct (kltb k' k) eqn:E4; [done|].
      pose proof (kltb_total _ _ E3 E4); subst. by rewrite E1.
    + destruct (kltb k1 k) eqn:E2; simpl.
      * destruct (map_erase k m) as [m1 n] eqn:Em; simpl in *.
        rewrite IH by done. destruct (kltb k' k1) eqn:E3.
        { rewrite (kltb_trans _ _ _ E3 E2). by rewrite orb_true_r. }
        destruct (kltb k1 k') eqn:E4; [done|].
        pose proof (kltb_total _ _ E3 E4); subst. rewrite E2. by rewrite orb_true_r.
      * pose proof (kltb_total _ _ E1 E2); subst.
        destruct (kltb k' k1) eqn:E3; [rewrite orb_true_r|rewrite orb_false_r].
        { apply map_find_below. intros y Hy. eauto using kltb_trans. }
        destruct (kltb k1 k') eqn:E4; [done|].
        pose proof (kltb_total _ _ E3 E4); subst. by apply map_find_below.
Qed.

Lemma map_erase_count k m :
  snd (map_erase k m) = match map_find k m with Some _ => 1 | None => 0 end.
Proof.
  induction m as [|[k1 v1] m IH]; simpl; [done|].
  destruct (kltb k k1); [done|]. destruct (kltb k1 k); [|done].
  destruct (map_erase k m); done.
Qed.
End std_map.
