(* ===== verification/Format.v ===== *)
(** * Format: the printf conversions the program uses

    [dec] is the decimal notation of an integer, [fmt_int] the conversions
    %d, %Nd, %0Nd (and their PRId64 / %zd forms), [snprintf] the truncation to
    the destination buffer, and [atol] the C library's decimal reader.  The
    lemmas say that [dec] is the canonical notation: it reads back as the
    number, has no superfluous zero, and fits the widths the callers reserve. *)

From S2P Require Import Prelude.

Definition digit (d : Z) : ascii := code_char (48 + d).

Definition is_digit (c : ascii) : bool := (48 <=? char_code c) && (char_code c <=? 57).

Definition digit_value (c : ascii) : Z := char_code c - 48.

(** Most significant digit first; the fuel bounds the number of digits. *)
Fixpoint dec_digits (fuel : nat) (n : Z) : bytes :=
  match fuel with
  | O => []
  | S f => if n <? 10 then [digit n] else dec_digits f (n / 10) ++ [digit (n mod 10)]
  end.

Definition dec_fuel (n : Z) : nat := S (Z.to_nat (Z.log2 n)).

Definition dec_nonneg (n : Z) : bytes := dec_digits (dec_fuel n) n.

Definition minus : ascii := code_char 45.

Definition dec (z : Z) : bytes :=
  if z <? 0 then minus :: dec_nonneg (- z) else dec_nonneg z.

(** The value of a digit string. *)
Definition undec_nonneg (l : bytes) : Z :=
  fold_left (fun acc c => 10 * acc + digit_value c) l 0.

Definition undec (l : bytes) : Z :=
  match l with
  | c :: l' => if ceqb c minus then - undec_nonneg l' else undec_nonneg l
  | [] => 0
  end.

(** %[0][width]d *)
Definition fmt_int (zero : bool) (width z : Z) : bytes :=
  let body := dec (Z.abs z) in
  let sign := if z <? 0 then [minus] else [] in
  let fill := Z.to_nat (width - zlen body - zlen sign) in
  if zero then sign ++ replicate fill (digit 0) ++ body
  else replicate fill (code_char 32) ++ sign ++ body.

(** What [snprintf(buf, size, ...)] leaves in [buf], up to its NUL. *)
Definition snprintf (size : Z) (s : bytes) : bytes := ztake (size - 1) s.

(** [isspace] of the C locale. *)
Definition isspace (c : ascii) : bool :=
  let x := char_code c in ((9 <=? x) && (x <=? 13)) || (x =? 32).

Fixpoint take_digits (l : bytes) : bytes :=
  match l with
  | c :: l' => if is_digit c then c :: take_digits l' else []
  | [] => []
  end.

Fixpoint skip_spaces (l : bytes) : bytes :=
  match l with
  | c :: l' => if isspace c then skip_spaces l' else l
  | [] => []
  end.

(** [atol]/[strtol(s, NULL, 10)]: white space, a sign, digits. *)
Definition atol (l : bytes) : Z :=
  match skip_spaces l with
  | c :: l' =>
      if ceqb c minus then - undec_nonneg (take_digits l')
      else if ceqb c (code_char 43) then undec_nonneg (take_digits l')
      else undec_nonneg (take_digits (c :: l'))
  | [] => 0
  end.

(** ** Digits *)
Lemma char_code_digit d : 0 <= d < 10 -> char_code (digit d) = 48 + d.
Proof. intros; unfold digit; rewrite char_code_code_char, Z.mod_small; lia. Qed.

Lemma is_digit_digit d : 0 <= d < 10 -> is_digit (digit d) = true.
Proof. intros; unfold is_digit; rewrite char_code_digit by done; lia. Qed.

Lemma digit_value_digit d : 0 <= d < 10 -> digit_value (digit d) = d.
Proof. intros; unfold digit_value; rewrite char_code_digit by done; lia. Qed.

Lemma undec_snoc l c : undec_nonneg (l ++ [c]) = 10 * undec_nonneg l + digit_value c.
Proof. unfold undec_nonneg. by rewrite fold_left_app. Qed.

Lemma log2_div10 n : 10 <= n -> (Z.to_nat (Z.log2 (n / 10)) < Z.to_nat (Z.log2 n))%nat.
Proof.
  intros H. assert (1 <= n / 10) by (apply Z.div_le_lower_bound; lia).
  assert (Z.log2 (n / 10) < Z.log2 n).
  { assert (Z.log2 (2 * (n / 10)) = Z.succ (Z.log2 (n / 10))) by (apply Z.log2_double; lia).
    assert (Z.log2 (2 * (n / 10)) <= Z.log2 n); [|lia].
    apply Z.log2_le_mono. pose proof (Z.mul_div_le n 10). lia. }
  pose proof (Z.log2_nonneg (n / 10)). lia.
Qed.

(** Enough fuel makes the digits independent of it. *)
Lemma dec_digits_stable f1 f2 n :
  0 <= n -> (dec_fuel n <= f1)%nat -> (dec_fuel n <= f2)%nat -> dec_digits f1 n = dec_digits f2 n.
Proof.
  revert f2 n. induction f1 as [|f1 IH]; intros [|f2] n Hn H1 H2; unfold dec_fuel in *; try lia.
  cbn [dec_digits]. destruct (n <? 10) eqn:E; [done|]. f_equal.
  pose proof (log2_div10 n ltac:(lia)). apply IH; [apply Z.div_pos; lia|lia..].
Qed.

Lemma dec_digits_fuel f n :
  0 <= n -> (dec_fuel n <= f)%nat -> dec_digits f n = dec_nonneg n.
Proof. intros. by apply dec_digits_stable. Qed.

(** The recursion equation of the decimal notation. *)
Lemma dec_nonneg_eq n :
  0 <= n -> dec_nonneg n = if n <? 10 then [digit n] else dec_nonneg (n / 10) ++ [digit (n mod 10)].
Proof.
  intros Hn. unfold dec_nonneg at 1, dec_fuel. cbn [dec_digits].
  destruct (n <? 10) eqn:E; [done|]. f_equal.
  apply dec_digits_fuel; [apply Z.div_pos; lia|]. unfold dec_fuel.
  pose proof (log2_div10 n ltac:(lia)). lia.
Qed.

(** Induction along the digits of a number. *)
Lemma dec_ind (P : Z -> Prop) :
  (forall n, 0 <= n < 10 -> P n) -> (forall n, 10 <= n -> P (n / 10) -> P n) ->
  forall n, 0 <= n -> P n.
Proof.
  intros H0 H1 n. induction n as [n IH] using (well_founded_induction (Z.lt_wf 0)).
  intros Hn. destruct (decide (n < 10)); [auto with lia|].
  apply H1; [lia|]. assert (0 <= n / 10) by (apply Z.div_pos; lia).
  apply IH; [|done]. split; [done|]. apply Z.div_lt; lia.
Qed.

Lemma undec_dec_nonneg n : 0 <= n -> undec_nonneg (dec_nonneg n) = n.
Proof.
  revert n; apply dec_ind; intros n Hn.
  - rewrite dec_nonneg_eq by lia. rewrite (proj2 (Z.ltb_lt _ _)) by lia.
    unfold undec_nonneg; simpl. rewrite digit_value_digit; lia.
  - intros IH. rewrite dec_nonneg_eq by lia. rewrite (proj2 (Z.ltb_ge _ _)) by lia.
    rewrite undec_snoc, IH, digit_value_digit by (apply Z.mod_pos_bound; lia).
    pose proof (Z.div_mod n 10). lia.
Qed.

Lemma dec_nonneg_digits n : 0 <= n -> Forall (fun c => is_digit c = true) (dec_nonneg n).
Proof.
  revert n; apply dec_ind; intros n Hn.
  - rewrite dec_nonneg_eq by lia. rewrite (proj2 (Z.ltb_lt _ _)) by lia.
    repeat constructor. by apply is_digit_digit.
  - intros IH. rewrite dec_nonneg_eq by lia. rewrite (proj2 (Z.ltb_ge _ _)) by lia.
    apply Forall_app. split; [done|]. repeat constructor. apply is_digit_digit, Z.mod_pos_bound; lia.
Qed.

(** k digits suffice below 10^k, and one digit is always printed. *)
Lemma dec_nonneg_length n k :
  0 <= n -> 1 <= k -> n < 10 ^ k -> 1 <= zlen (dec_nonneg n) <= k.
Proof.
  intros Hn. revert k. revert n Hn. apply (dec_ind (fun n => forall k, 1 <= k -> n < 10 ^ k -> _)); intros n Hn.
  - intros k Hk _. rewrite dec_nonneg_eq by lia. rewrite (proj2 (Z.ltb_lt _ _)) by lia.
    rewrite zlen_cons; znil; lia.
  - intros IH k Hk Hlt. rewrite dec_nonneg_eq by lia. rewrite (proj2 (Z.ltb_ge _ _)) by lia.
    rewrite zlen_app, zlen_cons; znil.
    assert (1 < k) by (destruct (decide (k = 1)) as [->|]; lia).
    enough (n / 10 < 10 ^ (k - 1)) as Hd by (specialize (IH (k - 1) ltac:(lia) Hd); lia).
    apply Z.div_lt_upper_bound; [lia|]. rewrite <- Z.pow_succ_r by lia.
    replace (Z.succ (k - 1)) with k by lia. done.
Qed.

Lemma dec_nonneg_exact_length n k :
  1 <= k -> 10 ^ (k - 1) <= n < 10 ^ k -> zlen (dec_nonneg n) = k.
Proof.
  intros Hk Hn. assert (0 <= n) as H0 by (pose proof (Z.pow_nonneg 10 (k - 1)); lia).
  revert k Hk Hn. revert n H0.
  apply (dec_ind (fun n => forall k, 1 <= k -> _ -> _)); intros n Hn.
  - intros k Hk Hb. rewrite dec_nonneg_eq by lia. rewrite (proj2 (Z.ltb_lt _ _)) by lia.
    rewrite zlen_cons; znil. destruct (decide (k = 1)) as [->|]; [done|].
    assert (10 ^ 1 <= 10 ^ (k - 1)) by (apply Z.pow_le_mono_r; lia). lia.
  - intros IH k Hk Hb. rewrite dec_nonneg_eq by lia. rewrite (proj2 (Z.ltb_ge _ _)) by lia.
    rewrite zlen_app, zlen_cons; znil.
    destruct (decide (k = 1)) as [->|]; [lia|].
    rewrite (IH (k - 1)); [lia|lia|].
    replace k with (Z.succ (k - 1)) in Hb by lia.
    rewrite Z.pow_succ_r in Hb by lia. replace (Z.succ (k - 1) - 1) with (Z.succ (k - 1 - 1)) in Hb by lia.
    rewrite Z.pow_succ_r in Hb by lia. split.
    + apply Z.div_le_lower_bound; lia.
    + apply Z.div_lt_upper_bound; lia.
Qed.

Lemma dec_nonneg_head n : 0 <= n -> exists c l, dec_nonneg n = c :: l /\ is_digit c = true.
Proof.
  intros Hn. pose proof (dec_nonneg_digits n Hn) as Hf.
  destruct (dec_nonneg n) as [|c l] eqn:E.
  - rewrite dec_nonneg_eq in E by done. destruct (n <? 10); [done|].
    by apply app_eq_nil in E as [_ ?].
  - apply Forall_cons in Hf as [? _]. eauto.
Qed.

Lemma is_digit_not_minus c : is_digit c = true -> ceqb c minus = false.
Proof.
  intros H. apply ceqb_neq. intros ->. vm_compute in H. done.
Qed.

(** [dec] is injective: the notation determines the number. *)
Lemma undec_dec z : undec (dec z) = z.
Proof.
  unfold dec. destruct (z <? 0) eqn:E.
  - cbn [undec]. rewrite (proj2 (ceqb_eq minus minus) eq_refl).
    rewrite undec_dec_nonneg by lia. lia.
  - destruct (dec_nonneg_head z) as (c & l & Hd & Hc); [lia|].
    rewrite Hd. simpl. rewrite is_digit_not_minus by done.
    rewrite <- Hd. apply undec_dec_nonneg; lia.
Qed.

Lemma dec_inj x y : dec x = dec y -> x = y.
Proof. intros H. by rewrite <- (undec_dec x), H, undec_dec. Qed.

Lemma dec_nonempty z : 1 <= zlen (dec z).
Proof.
  unfold dec. destruct (z <? 0) eqn:E.
  - rewrite zlen_cons. pose proof (zlen_nonneg (dec_nonneg (- z))); lia.
  - destruct (dec_nonneg_head z) as (c & l & -> & _); [lia|].
    rewrite zlen_cons. pose proof (zlen_nonneg l); lia.
Qed.

(** Every 64-bit value prints in at most 20 characters. *)
Lemma dec_length64 z : - 2 ^ 63 <= z < 2 ^ 64 -> 1 <= zlen (dec z) <= 20.
Proof.
  intros H. unfold dec. destruct (z <? 0) eqn:E.
  - rewrite zlen_cons. pose proof (dec_nonneg_length (- z) 19 ltac:(lia) ltac:(lia) ltac:(lia)). lia.
  - pose proof (dec_nonneg_length z 20 ltac:(lia) ltac:(lia) ltac:(lia)). lia.
Qed.

Lemma take_digits_app l c rest :
  Forall (fun c => is_digit c = true) l -> is_digit c = false -> take_digits (l ++ c :: rest) = l.
Proof.
  induction 1 as [|x l Hx Hl IH]; intros Hc; simpl.
  - by rewrite Hc.
  - by rewrite Hx, IH.
Qed.

Lemma fmt_int_zero_small width z :
  0 <= z -> z < 10 ^ width -> 1 <= width ->
  zlen (fmt_int true width z) = width /\
  Forall (fun c => is_digit c = true) (fmt_int true width z) /\
  undec_nonneg (fmt_int true width z) = z.
Proof.
  intros Hz Hlt Hw. unfold fmt_int. rewrite (proj2 (Z.ltb_ge _ _)) by lia.
  rewrite Z.abs_eq by done. unfold dec. rewrite (proj2 (Z.ltb_ge _ _)) by lia.
  znil. simpl app.
  pose proof (dec_nonneg_length z width Hz Hw Hlt).
  split; [rewrite zlen_app, zlen_replicate by lia; lia|].
  split.
  - apply Forall_app. split; [|by apply dec_nonneg_digits].
    apply Forall_replicate. by apply is_digit_digit.
  - unfold undec_nonneg. rewrite fold_left_app.
    replace (fold_left _ (replicate _ _) 0) with 0; [by apply undec_dec_nonneg|].
    induction (Z.to_nat (width - zlen (dec_nonneg z) - 0)) as [|m IH]; [done|].
    simpl. rewrite digit_value_digit by lia. exact IH.
Qed.
