(* ===== verification/Http.v ===== *)
(** * Http: net/http

    The HTTP/1.x server side: [HttpRequest], the incremental parser
    [HttpContext], [HttpResponse] and the connection handlers of [HttpServer].
    A handler's effects on its TcpConnection are returned as the list of calls
    it makes ([send], [shutdown]); the user's HttpCallback is a parameter.

    Theorems: parsing a printed request gives the request back and leaves the
    bytes after it; the parser's result does not depend on how the bytes were
    split into reads; it terminates from the states [onMessage] calls it in and
    does not from the others; the response text is what the header promises. *)

From S2P Require Import Prelude Buffer StdContainers Format.

(** ** HttpRequest.h *)
Module HttpRequest.
Inductive Method := kInvalid | kGet | kPost | kHead | kPut | kDelete.
Inductive Version := kUnknown | kHttp10 | kHttp11.

#[export] Instance Method_eq_dec : EqDecision Method.
Proof. solve_decision. Defined.
#[export] Instance Version_eq_dec : EqDecision Version.
Proof. solve_decision. Defined.

Record HttpRequest := mkRequest {
  method_ : Method;
  version_ : Version;
  path_ : bytes;
  query_ : bytes;
  receiveTime_ : Z;
  headers_ : list (bytes * bytes);
}.

Definition newRequest : HttpRequest := mkRequest kInvalid kUnknown [] [] 0 [].

Definition setVersion (v : Version) (r : HttpRequest) : HttpRequest :=
  mkRequest (method_ r) v (path_ r) (query_ r) (receiveTime_ r) (headers_ r).

Definition method_of (m : bytes) : Method :=
  if bytes_eqb m (lit "GET") then kGet
  else if bytes_eqb m (lit "POST") then kPost
  else if bytes_eqb m (lit "HEAD") then kHead
  else if bytes_eqb m (lit "PUT") then kPut
  else if bytes_eqb m (lit "DELETE") then kDelete
  else kInvalid.

(** Asserts that no method was set before; returns whether the method is known. *)
Definition setMethod (m : bytes) (r : HttpRequest) : outcome (bool * HttpRequest) :=
  c_assert (bool_decide (method_ r = kInvalid));;
  let m' := method_of m in
  Ok (bool_decide (m' <> kInvalid),
      mkRequest m' (version_ r) (path_ r) (query_ r) (receiveTime_ r) (headers_ r)).

Definition methodString (r : HttpRequest) : bytes :=
  match method_ r with
  | kGet => lit "GET"
  | kPost => lit "POST"
  | kHead => lit "HEAD"
  | kPut => lit "PUT"
  | kDelete => lit "DELETE"
  | kInvalid => lit "UNKNOWN"
  end.

Definition setPath (p : bytes) (r : HttpRequest) : HttpRequest :=
  mkRequest (method_ r) (version_ r) p (query_ r) (receiveTime_ r) (headers_ r).
Definition setQuery (q : bytes) (r : HttpRequest) : HttpRequest :=
  mkRequest (method_ r) (version_ r) (path_ r) q (receiveTime_ r) (headers_ r).
Definition setReceiveTime (t : Z) (r : HttpRequest) : HttpRequest :=
  mkRequest (method_ r) (version_ r) (path_ r) (query_ r) t (headers_ r).

(** [while (!value.empty() && isspace(value[value.size()-1])) value.resize(...)] *)
Definition trim_right (l : bytes) : bytes := rev (skip_spaces (rev l)).

(** [line] is [start, end) and [colon] the offset of the colon in it. *)
Definition addHeader (line : bytes) (colon : Z) (r : HttpRequest) : HttpRequest :=
  let field := ztake colon line in
  let value := trim_right (skip_spaces (zdrop (colon + 1) line)) in
  mkRequest (method_ r) (version_ r) (path_ r) (query_ r) (receiveTime_ r)
    (map_assign field value (headers_ r)).

Definition getHeader (field : bytes) (r : HttpRequest) : bytes :=
  match map_find field (headers_ r) with
  | Some v => v
  | None => []
  end.

Definition swap (a b : HttpRequest) : HttpRequest * HttpRequest := (b, a).
End HttpRequest.

(** ** HttpContext.h, HttpContext.cc *)
Module HttpContext.
Import HttpRequest.

Inductive HttpRequestParseState := kExpectRequestLine | kExpectHeaders | kExpectBody | kGotAll.

#[export] Instance HttpRequestParseState_eq_dec : EqDecision HttpRequestParseState.
Proof. solve_decision. Defined.

Record HttpContext := mkContext {
  state_ : HttpRequestParseState;
  request_ : HttpRequest;
}.

Definition newContext : HttpContext := mkContext kExpectRequestLine newRequest.

Definition gotAll (c : HttpContext) : bool := bool_decide (state_ c = kGotAll).

Definition reset (c : HttpContext) : HttpContext :=
  mkContext kExpectRequestLine (fst (swap (request_ c) newRequest)).

Definition sp : ascii := code_char 32.
Definition question_mark : ascii := code_char 63.
Definition colon_char : ascii := code_char 58.

Definition version_of (last : ascii) : Version :=
  if ceqb last (digit 1) then kHttp11
  else if ceqb last (digit 0) then kHttp10
  else kUnknown.

(** The request line without its CR LF.  The request is returned also when the
    line is rejected: the fields set before the error stay set. *)
Definition processRequestLine (line : bytes) (r : HttpRequest) : outcome (bool * HttpRequest) :=
  let space := find_char sp line in
  if space =? zlen line then Ok (false, r)
  else
    '(known, r1) ← setMethod (ztake space line) r;
    if negb known then Ok (false, r1)
    else
      let start := zdrop (space + 1) line in
      let space2 := find_char sp start in
      if space2 =? zlen start then Ok (false, r1)
      else
        let uri := ztake space2 start in
        let question := find_char question_mark uri in
        let r2 :=
          if question =? zlen uri then setPath uri r1
          else setQuery (zdrop question uri) (setPath (ztake question uri) r1) in
        let ver := zdrop (space2 + 1) start in
        if (zlen ver =? 8) && bytes_eqb (ztake 7 ver) (lit "HTTP/1.") then
          match last ver with
          | Some c =>
              match version_of c with
              | kUnknown => Ok (false, r2)
              | v => Ok (true, setVersion v r2)
              end
          | None => Ok (false, r2)
          end
        else Ok (false, r2).

(** One turn of the [while (hasMore)] loop: [inl] when it goes on. *)
Definition parse_turn (receiveTime : Z) (c : HttpContext) (buf : Buffer)
  : outcome ((HttpContext * Buffer) + (bool * HttpContext * Buffer)) :=
  match state_ c with
  | kExpectRequestLine =>
      match findCRLF buf with
      | Some crlf =>
          '(ok, r) ← processRequestLine (zslice (peek buf) crlf (buffer_ buf)) (request_ c);
          if ok : bool then
            buf' ← retrieveUntil (crlf + 2) buf;
            Ok (inl (mkContext kExpectHeaders (setReceiveTime receiveTime r), buf'))
          else Ok (inr (false, mkContext (state_ c) r, buf))
      | None => Ok (inr (true, c, buf))
      end
  | kExpectHeaders =>
      match findCRLF buf with
      | Some crlf =>
          let line := zslice (peek buf) crlf (buffer_ buf) in
          let colon := find_char colon_char line in
          buf' ← retrieveUntil (crlf + 2) buf;
          if colon =? zlen line
          then Ok (inr (true, mkContext kGotAll (request_ c), buf'))
          else Ok (inl (mkContext (state_ c) (addHeader line colon (request_ c)), buf'))
      | None => Ok (inr (true, c, buf))
      end
  | kExpectBody | kGotAll => Ok (inl (c, buf))
  end.

Fixpoint parse_loop (fuel : nat) (receiveTime : Z) (c : HttpContext) (buf : Buffer)
  : outcome (bool * HttpContext * Buffer) :=
  match fuel with
  | O => Fault OutOfFuel
  | S fuel' =>
      t ← parse_turn receiveTime c buf;
      match t with
      | inl (c', buf') => parse_loop fuel' receiveTime c' buf'
      | inr r => Ok r
      end
  end.

(** Every turn that goes on consumes a line, so the bytes bound the turns. *)
Definition parseRequest (receiveTime : Z) (c : HttpContext) (buf : Buffer)
  : outcome (bool * HttpContext * Buffer) :=
  parse_loop (S (Z.to_nat (readableBytes buf))) receiveTime c buf.
End HttpContext.

(** ** HttpResponse.h, HttpResponse.cc *)
Module HttpResponse.
Record HttpResponse := mkResponse {
  headers_ : list (bytes * bytes);
  statusCode_ : Z;
  statusMessage_ : bytes;
  closeConnection_ : bool;
  body_ : bytes;
}.

Definition k200Ok : Z := 200.
Definition k301MovedPermanently : Z := 301.
Definition k400BadRequest : Z := 400.
Definition k404NotFound : Z := 404.

Definition newResponse (close : bool) : HttpResponse := mkResponse [] 0 [] close [].

Definition setStatusCode (code : Z) (r : HttpResponse) : HttpResponse :=
  mkResponse (headers_ r) code (statusMessage_ r) (closeConnection_ r) (body_ r).
Definition setStatusMessage (message : bytes) (r : HttpResponse) : HttpResponse :=
  mkResponse (headers_ r) (statusCode_ r) message (closeConnection_ r) (body_ r).
Definition setCloseConnection (on : bool) (r : HttpResponse) : HttpResponse :=
  mkResponse (headers_ r) (statusCode_ r) (statusMessage_ r) on (body_ r).
Definition addHeader (key value : bytes) (r : HttpResponse) : HttpResponse :=
  mkResponse (map_assign key value (headers_ r)) (statusCode_ r) (statusMessage_ r)
    (closeConnection_ r) (body_ r).
Definition setContentType (contentType : bytes) (r : HttpResponse) : HttpResponse :=
  addHeader (lit "Content-Type") contentType r.
Definition setBody (body : bytes) (r : HttpResponse) : HttpResponse :=
  mkResponse (headers_ r) (statusCode_ r) (statusMessage_ r) (closeConnection_ r) body.

Definition append_header (output : Buffer) (header : bytes * bytes) : outcome Buffer :=
  output ← appendPiece (fst header) output;
  output ← appendPiece (lit ": ") output;
  output ← appendPiece (snd header) output;
  appendPiece kCRLF output.

(** [char buf[32]] takes the two formatted lines, truncated by [snprintf]. *)
Definition appendToBuffer (r : HttpResponse) (output : Buffer) : outcome Buffer :=
  output ← appendPiece (snprintf 32 (lit "HTTP/1.1 " ++ dec (statusCode_ r) ++ lit " ")) output;
  output ← appendPiece (statusMessage_ r) output;
  output ← appendPiece kCRLF output;
  output ←
    (if closeConnection_ r then appendPiece (lit "Connection: close" ++ kCRLF) output
     else
       output ← appendPiece (snprintf 32 (lit "Content-Length: " ++ dec (zlen (body_ r)) ++ kCRLF)) output;
       appendPiece (lit "Connection: Keep-Alive" ++ kCRLF) output);
  output ← foldM append_header output (headers_ r);
  output ← appendPiece kCRLF output;
  appendPiece (body_ r) output.
End HttpResponse.

(** ** HttpServer.cc: the connection handlers *)
Module HttpServer.
Import HttpRequest HttpContext HttpResponse.

Inductive conn_call := Send (data : bytes) | Shutdown.

Definition defaultHttpCallback (req : HttpRequest) (resp : HttpResponse) : HttpResponse :=
  setCloseConnection true
    (setStatusMessage (lit "Not Found") (setStatusCode k404NotFound resp)).

(** [conn->setContext(HttpContext())] when the connection is up. *)
Definition onConnection (connected : bool) (context : option HttpContext) : option HttpContext :=
  if connected then Some newContext else context.

Section handlers.
(** [httpCallback_] fills in the response. *)
Context (httpCallback_ : HttpRequest -> HttpResponse -> HttpResponse).

Definition wantsClose (req : HttpRequest) : bool :=
  let connection := getHeader (lit "Connection") req in
  bytes_eqb connection (lit "close") ||
  (bool_decide (version_ req = kHttp10) && negb (bytes_eqb connection (lit "Keep-Alive"))).

Definition onRequest (req : HttpRequest) : outcome (list conn_call) :=
  let response := httpCallback_ req (newResponse (wantsClose req)) in
  buf ← newBuffer kInitialSize;
  buf ← appendToBuffer response buf;
  Ok (Send (content buf) :: if closeConnection_ response then [Shutdown] else []).

Definition badRequest : bytes := lit "HTTP/1.1 400 Bad Request" ++ kCRLF ++ kCRLF.

Definition onMessage (receiveTime : Z) (context : HttpContext) (buf : Buffer)
  : outcome (list conn_call * HttpContext * Buffer) :=
  '(ok, context, buf) ← parseRequest receiveTime context buf;
  let rejected := if ok : bool then [] else [Send badRequest; Shutdown] in
  if gotAll context then
    calls ← onRequest (request_ context);
    Ok (rejected ++ calls, reset context, buf)
  else Ok (rejected, context, buf).
End handlers.
End HttpServer.

(** ** The parser on byte strings *)
Module HttpParser.
Import HttpRequest HttpContext.

Definition turn_bytes (receiveTime : Z) (c : HttpContext) (l : bytes)
  : outcome ((HttpContext * bytes) + (bool * HttpContext * bytes)) :=
  let s := search_crlf l in
  match state_ c with
  | kExpectRequestLine =>
      if s =? zlen l then Ok (inr (true, c, l))
      else
        '(ok, r) ← processRequestLine (ztake s l) (request_ c);
        if ok : bool
        then Ok (inl (mkContext kExpectHeaders (setReceiveTime receiveTime r), zdrop (s + 2) l))
        else Ok (inr (false, mkContext (state_ c) r, l))
  | kExpectHeaders =>
      if s =? zlen l then Ok (inr (true, c, l))
      else
        let line := ztake s l in
        let colon := find_char colon_char line in
        if colon =? zlen line
        then Ok (inr (true, mkContext kGotAll (request_ c), zdrop (s + 2) l))
        else Ok (inl (mkContext (state_ c) (addHeader line colon (request_ c)), zdrop (s + 2) l))
  | kExpectBody | kGotAll => Ok (inl (c, l))
  end.

Fixpoint loop_bytes (fuel : nat) (receiveTime : Z) (c : HttpContext) (l : bytes)
  : outcome (bool * HttpContext * bytes) :=
  match fuel with
  | O => Fault OutOfFuel
  | S fuel' =>
      t ← turn_bytes receiveTime c l;
      match t with
      | inl (c', l') => loop_bytes fuel' receiveTime c' l'
      | inr r => Ok r
      end
  end.

Definition parse_bytes (receiveTime : Z) (c : HttpContext) (l : bytes) :=
  loop_bytes (S (length l)) receiveTime c l.

(** The states [HttpServer] calls the parser in. *)
Definition live (c : HttpContext) : Prop :=
  state_ c = kExpectRequestLine \/ state_ c = kExpectHeaders.

Lemma crlf_room l : search_crlf l <> zlen l -> 0 <= search_crlf l /\ search_crlf l + 2 <= zlen l.
Proof.
  intros H. destruct (search_crlf_spec l) as (H1 & H2 & _). split; [lia|].
  destruct (H2 ltac:(lia)) as [rest Hr]. apply (f_equal zlen) in Hr.
  rewrite zlen_zdrop, !zlen_cons in Hr by lia. pose proof (zlen_nonneg rest). lia.
Qed.

(** [findCRLF] and [retrieveUntil] seen through the content. *)
Lemma findCRLF_content buf :
  wf buf ->
  findCRLF buf = (if search_crlf (content buf) =? zlen (content buf) then None
                  else Some (peek buf + search_crlf (content buf))).
Proof.
  intros H. unfold findCRLF, beginWrite, peek.
  rewrite content_length, readableBytes_wf by done.
  replace (search_crlf (content buf) =? writerIndex_ buf - readerIndex_ buf)
    with (readerIndex_ buf + search_crlf (content buf) =? writerIndex_ buf) by lia. done.
Qed.

Lemma retrieve_line buf :
  wf buf -> search_crlf (content buf) <> zlen (content buf) ->
  let s := search_crlf (content buf) in
  zslice (peek buf) (peek buf + s) (buffer_ buf) = ztake s (content buf) /\
  exists buf', retrieveUntil (peek buf + s + 2) buf = Ok buf' /\ wf buf' /\
    content buf' = zdrop (s + 2) (content buf).
Proof.
  intros H Hne s. destruct (crlf_room _ Hne) as [H0 H2]. fold s in H0, H2.
  pose proof (content_length buf H) as Hl. pose proof (readableBytes_wf buf H) as Hr.
  split; [apply zslice_peek; [done|lia]|].
  unfold retrieveUntil, peek, beginWrite. rewrite !c_assert_bind_true by lia.
  destruct (retrieve_spec (s + 2) buf H ltac:(lia)) as (b' & Hb & Hw & Hc & _).
  replace (readerIndex_ buf + s + 2 - readerIndex_ buf) with (s + 2) by lia. eauto.
Qed.

(** The buffer-level parser is the byte-level one. *)
Lemma parse_turn_content rt c buf :
  wf buf ->
  match parse_turn rt c buf with
  | Ok (inl (c', buf')) => wf buf' /\ turn_bytes rt c (content buf) = Ok (inl (c', content buf'))
  | Ok (inr (ok, c', buf')) => wf buf' /\ turn_bytes rt c (content buf) = Ok (inr (ok, c', content buf'))
  | Fault e => turn_bytes rt c (content buf) = Fault e
  end.
Proof.
  intros H. unfold parse_turn, turn_bytes. rewrite findCRLF_content by done.
  destruct (_ =? _) eqn:E; [destruct (state_ c); done|].
  destruct (retrieve_line buf H ltac:(lia)) as (Hs & buf' & Hb & Hw & Hc).
  destruct (state_ c); [..|done|done]; rewrite Hs.
  - destruct (processRequestLine _ _) as [[[] r]|]; simpl; [|done|done].
    rewrite Hb; simpl. by rewrite Hc.
  - rewrite Hb. destruct (find_char _ _ =? _); simpl; by rewrite Hc.
Qed.

Lemma parse_loop_content fuel rt c buf :
  wf buf ->
  match parse_loop fuel rt c buf with
  | Ok (ok, c', buf') => wf buf' /\ loop_bytes fuel rt c (content buf) = Ok (ok, c', content buf')
  | Fault e => loop_bytes fuel rt c (content buf) = Fault e
  end.
Proof.
  revert c buf. induction fuel as [|fuel IH]; intros c buf H; simpl; [done|].
  pose proof (parse_turn_content rt c buf H) as Ht.
  destruct (parse_turn rt c buf) as [[[c' buf']|[[ok c'] buf']]|e]; simpl.
  - destruct Ht as [Hw ->]. simpl. by apply IH.
  - destruct Ht as [Hw ->]. done.
  - by rewrite Ht.
Qed.

Lemma parseRequest_content rt c buf :
  wf buf ->
  match parseRequest rt c buf with
  | Ok (ok, c', buf') => wf buf' /\ parse_bytes rt c (content buf) = Ok (ok, c', content buf')
  | Fault e => parse_bytes rt c (content buf) = Fault e
  end.
Proof.
  intros H. unfold parseRequest, parse_bytes.
  rewrite <- content_length by done. unfold zlen. rewrite Nat2Z.id. by apply parse_loop_content.
Qed.

(** A turn that goes on from a live state consumes a line and stays live. *)
Lemma turn_bytes_progress rt c l c' l' :
  live c -> turn_bytes rt c l = Ok (inl (c', l')) ->
  state_ c' = kExpectHeaders /\ search_crlf l <> zlen l /\ l' = zdrop (search_crlf l + 2) l /\
  (length l' < length l)%nat.
Proof.
  intros Hlive. unfold turn_bytes.
  destruct (search_crlf l =? zlen l) eqn:E; [destruct Hlive as [-> | ->]; discriminate|].
  assert (search_crlf l <> zlen l) as Hne by lia.
  destruct (crlf_room l Hne). pose proof (zlen_zdrop (search_crlf l + 2) l ltac:(lia)) as Hz.
  destruct Hlive as [Hst|Hst]; rewrite Hst.
  - destruct (processRequestLine _ _) as [[[] r]|]; simpl; try done. intros [= <- <-].
    split; [done|]. split; [done|]. split; [done|]. unfold zlen in Hz; lia.
  - destruct (find_char _ _ =? _); [done|]. intros Heq. simplify_eq. split; [done|].
    split; [done|]. split; [done|]. unfold zlen in Hz; lia.
Qed.

(** The request line fails only on the assertion of [setMethod]. *)
Lemma processRequestLine_fault line r e :
  processRequestLine line r = Fault e -> e = AssertFailed /\ method_ r <> kInvalid.
Proof.
  unfold processRequestLine, setMethod, c_assert. destruct (_ =? _); [done|].
  destruct (bool_decide (method_ r = kInvalid)) eqn:Em; cbn [mbind outcome_bind];
    [|intros [= <-]; by apply bool_decide_eq_false in Em].
  destruct (negb _); [done|]. destruct (_ =? _); [done|].
  destruct (_ && _); [|done]. destruct (last _) as [c|]; [|done]. by destruct (version_of c).
Qed.

Lemma turn_bytes_fault rt c l e :
  turn_bytes rt c l = Fault e ->
  e = AssertFailed /\ state_ c = kExpectRequestLine /\ method_ (request_ c) <> kInvalid.
Proof.
  unfold turn_bytes. destruct (state_ c); try done; destruct (_ =? _); try done.
  - destruct (processRequestLine _ _) as [[[] r]|e'] eqn:E; simpl; try done.
    intros [= <-]. by apply processRequestLine_fault in E as [? ?].
  - by destruct (find_char _ _ =? _).
Qed.

Lemma loop_bytes_stable f1 f2 rt c l :
  live c -> (length l < f1)%nat -> (length l < f2)%nat ->
  loop_bytes f1 rt c l = loop_bytes f2 rt c l /\ loop_bytes f1 rt c l <> Fault OutOfFuel.
Proof.
  revert f2 c l. induction f1 as [|f1 IH]; intros [|f2] c l Hl H1 H2; try lia. simpl.
  destruct (turn_bytes rt c l) as [[[c' l']|[[ok c'] l']]|e] eqn:E; simpl.
  - destruct (turn_bytes_progress _ _ _ _ _ Hl E) as (Hst & _ & _ & Hlt).
    apply IH; [by right|lia..].
  - done.
  - split; [done|]. intros [= ->]. by apply turn_bytes_fault in E as [? _].
Qed.

Lemma parse_bytes_unfold rt c l :
  live c ->
  parse_bytes rt c l =
    (t ← turn_bytes rt c l;
     match t with inl (c', l') => parse_bytes rt c' l' | inr r => Ok r end).
Proof.
  intros Hl. unfold parse_bytes at 1. simpl.
  destruct (turn_bytes rt c l) as [[[c' l']|[[ok c'] l']]|e] eqn:E; simpl; try done.
  destruct (turn_bytes_progress _ _ _ _ _ Hl E) as (Hst & _ & _ & Hlt).
  apply loop_bytes_stable; [by right|lia..].
Qed.

(** *** Splitting the input *)
Lemma search_crlf_prefix l1 l2 :
  search_crlf l1 <> zlen l1 -> search_crlf (l1 ++ l2) = search_crlf l1.
Proof.
  intros Hne. destruct (crlf_room _ Hne) as [H0 H2].
  destruct (search_crlf_spec l1) as (_ & Hhit & Hmin).
  destruct (Hhit ltac:(lia)) as [rest Hr].
  destruct (search_crlf_spec (l1 ++ l2)) as (Hb & Hhit' & Hmin').
  rewrite zlen_app in *. pose proof (zlen_nonneg l2).
  destruct (Z.lt_total (search_crlf (l1 ++ l2)) (search_crlf l1)) as [Hlt|[?|Hgt]]; [|done|].
  - exfalso. destruct (Hhit' ltac:(lia)) as [r' Hr'].
    apply (Hmin (search_crlf (l1 ++ l2)) ltac:(lia)).
    set (i := search_crlf (l1 ++ l2)) in *. rewrite zdrop_app_le in Hr' by lia.
    pose proof (zlen_zdrop i l1 ltac:(lia)) as Hz.
    destruct (zdrop i l1) as [|a [|b' l']] eqn:E; [zlia|zlia|].
    simpl in Hr'. injection Hr' as -> -> _. exists l'. done.
  - exfalso. apply (Hmin' (search_crlf l1) ltac:(lia)). exists (rest ++ l2).
    rewrite zdrop_app_le by lia. by rewrite Hr.
Qed.

Lemma turn_bytes_app rt c l1 l2 :
  live c -> search_crlf l1 <> zlen l1 ->
  turn_bytes rt c (l1 ++ l2) =
    match turn_bytes rt c l1 with
    | Ok (inl (c', l')) => Ok (inl (c', l' ++ l2))
    | Ok (inr (ok, c', l')) => Ok (inr (ok, c', l' ++ l2))
    | Fault e => Fault e
    end.
Proof.
  intros Hl Hne. destruct (crlf_room _ Hne) as [H0 H2]. unfold turn_bytes.
  rewrite search_crlf_prefix by done. rewrite zlen_app. pose proof (zlen_nonneg l2).
  rewrite (proj2 (Z.eqb_neq (search_crlf l1) (zlen l1 + zlen l2))) by lia.
  rewrite (proj2 (Z.eqb_neq (search_crlf l1) (zlen l1))) by lia.
  rewrite ztake_app_le, zdrop_app_le by lia.
  destruct Hl as [-> | ->].
  - by destruct (processRequestLine _ _) as [[[] r]|].
  - by destruct (find_char _ _ =? _).
Qed.

(** Once the request line is read the receive time is no longer used. *)
Lemma parse_bytes_headers_time rt1 rt2 c l :
  state_ c = kExpectHeaders -> parse_bytes rt1 c l = parse_bytes rt2 c l.
Proof.
  remember (length l) as n eqn:Hn. revert c l Hn.
  induction n as [n IH] using (well_founded_induction Nat.lt_wf_0). intros c l -> Hst.
  rewrite !parse_bytes_unfold by (by right).
  assert (turn_bytes rt1 c l = turn_bytes rt2 c l) as -> by (unfold turn_bytes; by rewrite Hst).
  destruct (turn_bytes rt2 c l) as [[[c' l']|r]|e] eqn:E; simpl; try done.
  destruct (turn_bytes_progress rt2 c l c' l') as (Hst' & _ & _ & Hlt); [by right|done|].
  by eapply IH.
Qed.

Lemma parse_bytes_headers_state rt c l ok c' l' :
  state_ c = kExpectHeaders -> parse_bytes rt c l = Ok (ok, c', l') ->
  state_ c' <> kExpectRequestLine.
Proof.
  remember (length l) as n eqn:Hn. revert c l Hn.
  induction n as [n IH] using (well_founded_induction Nat.lt_wf_0). intros c l -> Hst.
  rewrite parse_bytes_unfold by (by right).
  destruct (turn_bytes rt c l) as [[[c1 l1]|[[ok1 c1] l1]]|] eqn:E; simpl; try done.
  - destruct (turn_bytes_progress rt c l c1 l1) as (Hst1 & _ & _ & Hlt); [by right|done|].
    by eapply IH.
  - intros [= -> -> ->]. unfold turn_bytes in E. rewrite Hst in E.
    destruct (_ =? _); [injection E as <- <- <-; congruence|].
    destruct (find_char _ _ =? _); [injection E as <- <- <-; simpl; congruence|done].
Qed.

Lemma parse_bytes_split (rt1 rt2 : Z) (c : HttpContext) (l1 l2 : bytes) c1 l1' :
  live c -> parse_bytes rt1 c l1 = Ok (true, c1, l1') -> (state_ c1 <> kGotAll) ->
  live c1 /\
  parse_bytes (if bool_decide (state_ c1 = kExpectRequestLine) then rt2 else rt1) c (l1 ++ l2) =
  parse_bytes rt2 c1 (l1' ++ l2).
Proof.
  remember (length l1) as n eqn:Hn. revert c l1 Hn.
  induction n as [n IH] using (well_founded_induction Nat.lt_wf_0). intros c l1 -> Hl Hp Hng.
  rewrite parse_bytes_unfold in Hp by done.
  destruct (decide (search_crlf l1 = zlen l1)) as [Hend|Hne].
  - assert (c1 = c /\ l1' = l1) as [-> ->].
    { unfold turn_bytes in Hp. rewrite Hend, Z.eqb_refl in Hp.
      destruct Hl as [Hst|Hst]; rewrite Hst in Hp; simpl in Hp; by simplify_eq. }
    split; [done|]. case_bool_decide as Hst; [done|].
    apply parse_bytes_headers_time. by destruct Hl.
  - set (rt := if bool_decide _ then rt2 else rt1) in *.
    rewrite (parse_bytes_unfold rt) by done. rewrite turn_bytes_app by done.
    destruct (turn_bytes rt1 c l1) as [[[c' l']|[[ok c'] l']]|e] eqn:E; simpl in Hp; try done.
    + destruct (turn_bytes_progress _ _ _ _ _ Hl E) as (Hst & _ & Hl' & Hlt).
      assert (bool_decide (state_ c1 = kExpectRequestLine) = false) as Hb.
      { apply bool_decide_eq_false. by apply (parse_bytes_headers_state _ _ _ _ _ _ Hst Hp). }
      assert (rt = rt1) as -> by (unfold rt; by rewrite Hb).
      rewrite E. simpl.
      destruct (IH (length l') Hlt c' l' eq_refl ltac:(by right) Hp Hng) as [Hlive Heq].
      split; [done|exact Heq].
    + injection Hp as -> -> ->. exfalso. apply Hng. revert E. unfold turn_bytes.
      rewrite (proj2 (Z.eqb_neq _ _)) by done. destruct Hl as [Hst|Hst]; rewrite Hst.
      * destruct (processRequestLine _ _) as [[[] r]|]; simpl; try done.
      * destruct (find_char _ _ =? _); [|done]. by intros [= <- <-].
Qed.

(** C27: from the two states [HttpServer] calls it in, the [while (hasMore)] loop
    of [parseRequest] ends: any fuel above the number of readable bytes gives
    the same result, and it is not running out of fuel. *)
Theorem parseRequest_terminates rt c buf fuel :
  wf buf -> live c -> readableBytes buf < Z.of_nat fuel ->
  parse_loop fuel rt c buf = parseRequest rt c buf /\ parseRequest rt c buf <> Fault OutOfFuel.
Proof.
  intros H Hl Hf. pose proof (content_length buf H) as Hc. unfold zlen in Hc.
  assert (forall f g c buf, wf buf -> live c -> (length (content buf) < f)%nat ->
    (length (content buf) < g)%nat -> parse_loop f rt c buf = parse_loop g rt c buf) as Hstable.
  { clear. induction f as [|f IH]; intros [|g] c buf H Hl Hf Hg; try lia. simpl.
    pose proof (parse_turn_content rt c buf H) as Ht.
    destruct (parse_turn rt c buf) as [[[c' buf']|[[ok c'] buf']]|e]; simpl; try done.
    destruct Ht as [Hw Ht]. destruct (turn_bytes_progress _ _ _ _ _ Hl Ht) as (Hst & _ & _ & Hlt).
    apply IH; [done|by right|lia..]. }
  unfold parseRequest. split; [apply Hstable; [done|done|lia..]|].
  pose proof (parse_loop_content (S (Z.to_nat (readableBytes buf))) rt c buf H) as Hp.
  destruct (parse_loop _ rt c buf) as [|e] eqn:E; [done|]. intros [= ->].
  destruct (loop_bytes_stable (S (Z.to_nat (readableBytes buf))) (S (Z.to_nat (readableBytes buf)))
    rt c (content buf) Hl ltac:(lia) ltac:(lia)) as [_ Hn]. by apply Hn.
Qed.

(** In the other two states the loop never ends: a call of [parseRequest]
    after a complete request and without [reset] spins forever. *)
Theorem parseRequest_spins rt c buf fuel :
  ~ live c -> parse_loop fuel rt c buf = Fault OutOfFuel.
Proof.
  intros Hl. induction fuel as [|fuel IH]; [done|]. simpl. unfold parse_turn.
  unfold live in Hl. destruct (state_ c) eqn:E; simpl; tauto || apply IH.
Qed.

(** C5: parsing does not depend on how the bytes arrive: if a first read leaves
    the parser waiting, then appending the rest and parsing again gives the
    verdict, the request and the unread bytes that parsing everything at once
    gives (the receive time being that of the read that completed the request
    line). *)
Theorem parse_incremental rt1 rt2 c buf1 c1 buf1' more buf2 whole :
  live c -> wf buf1 -> wf whole ->
  parseRequest rt1 c buf1 = Ok (true, c1, buf1') -> state_ c1 <> kGotAll ->
  append more buf1' = Ok buf2 -> writerIndex_ buf1' + zlen more <= vector_max_size ->
  content whole = content buf1 ++ more ->
  match parseRequest rt2 c1 buf2,
        parseRequest (if bool_decide (state_ c1 = kExpectRequestLine) then rt2 else rt1) c whole with
  | Ok (ok, c2, b2), Ok (ok', c2', b2') => ok = ok' /\ c2 = c2' /\ content b2 = content b2'
  | Fault e, Fault e' => e = e'
  | _, _ => False
  end.
Proof.
  intros Hl H1 Hw Hp Hng Ha Hmax Hc.
  pose proof (parseRequest_content rt1 c buf1 H1) as Hp1. rewrite Hp in Hp1.
  destruct Hp1 as [Hw1 Hb1].
  destruct (append_spec more buf1' Hw1 Hmax) as (buf2' & Ha' & Hw2 & Hc2 & _).
  rewrite Ha in Ha'. injection Ha' as <-.
  destruct (parse_bytes_split rt1 rt2 c (content buf1) more c1 (content buf1') Hl Hb1 Hng)
    as [Hl1 Heq].
  pose proof (parseRequest_content rt2 c1 buf2 Hw2) as P2. rewrite Hc2 in P2.
  set (rt := if bool_decide _ then rt2 else rt1) in *.
  pose proof (parseRequest_content rt c whole Hw) as P3. rewrite Hc, Heq in P3.
  destruct (parseRequest rt2 c1 buf2) as [[[ok c2] b2]|e],
    (parseRequest rt c whole) as [[[ok' c2'] b2']|e'].
  - destruct P2 as [_ P2], P3 as [_ P3]. rewrite P2 in P3. by injection P3 as -> -> ->.
  - destruct P2 as [_ P2]. congruence.
  - destruct P3 as [_ P3]. congruence.
  - congruence.
Qed.

(** *** Printing and parsing *)
Record request_text := mkText {
  t_method : Method;
  t_path : bytes;
  t_query : bytes;
  t_version : Version;
  t_headers : list (bytes * bytes);
}.

Definition method_text (m : Method) : bytes :=
  methodString (mkRequest m kUnknown [] [] 0 []).

Definition version_char (v : Version) : ascii :=
  match v with kHttp11 => digit 1 | _ => digit 0 end.

Definition request_line (t : request_text) : bytes :=
  method_text (t_method t) ++ sp :: (t_path t ++ t_query t) ++ sp ::
  lit "HTTP/1." ++ [version_char (t_version t)].

Definition header_line (h : bytes * bytes) : bytes := fst h ++ [colon_char; sp] ++ snd h.

Definition print_request (t : request_text) : bytes :=
  request_line t ++ kCRLF ++
  mjoin (map (fun h => header_line h ++ kCRLF) (t_headers t)) ++ kCRLF.

Definition no_cr (l : bytes) : Prop := cr ∉ l.

(** A header value without surrounding white space. *)
Definition trimmed (v : bytes) : Prop := skip_spaces v = v /\ trim_right v = v.

Record text_ok (t : request_text) : Prop := {
  ok_method : t_method t <> kInvalid;
  ok_version : t_version t <> kUnknown;
  ok_path : sp ∉ t_path t /\ question_mark ∉ t_path t /\ no_cr (t_path t);
  ok_query : sp ∉ t_query t /\ no_cr (t_query t) /\
             (t_query t = [] \/ exists q, t_query t = question_mark :: q);
  ok_headers : Forall (fun h => colon_char ∉ fst h /\ no_cr (fst h) /\ no_cr (snd h) /\ trimmed (snd h))
                 (t_headers t);
}.

Lemma no_cr_line l rest : no_cr l -> search_crlf (l ++ cr :: lf :: rest) = zlen l.
Proof.
  intros Hcr. apply search_crlf_app. intros (i & Hi & r & Hr).
  assert (cr :: lf :: r = zdrop i (l ++ [cr])) as Heq by done.
  destruct (decide (i <= zlen l)).
  - rewrite zdrop_app_le in Heq by lia. unfold zdrop in Heq.
    destruct (drop (Z.to_nat i) l) as [|x l'] eqn:E; simpl in Heq; [discriminate|].
    injection Heq as <- _. apply Hcr. assert (cr ∈ drop (Z.to_nat i) l) as Hin by (rewrite E; left).
    rewrite <- (take_drop (Z.to_nat i) l). apply elem_of_app. by right.
  - rewrite zdrop_all in Heq; [discriminate|]. rewrite zlen_app, zlen_cons; znil; lia.
Qed.

Lemma method_text_clean m : sp ∉ method_text m /\ no_cr (method_text m).
Proof. unfold no_cr. destruct m; split; apply (bool_decide_unpack _); vm_compute; exact I. Qed.

Lemma method_of_text m : m <> kInvalid -> method_of (method_text m) = m.
Proof. by destruct m. Qed.

Lemma setMethod_text m r :
  m <> kInvalid -> method_ r = kInvalid ->
  setMethod (method_text m) r =
    Ok (true, mkRequest m (version_ r) (path_ r) (query_ r) (receiveTime_ r) (headers_ r)).
Proof.
  intros Hm Hr. unfold setMethod. rewrite Hr, method_of_text by done. simpl.
  by rewrite bool_decide_eq_true_2.
Qed.

Lemma zlen_singleton {A} (x : A) : zlen [x] = 1.
Proof. done. Qed.

(** The request line of a well-formed text is accepted with its fields. *)
Lemma processRequestLine_print t r :
  text_ok t -> method_ r = kInvalid ->
  processRequestLine (request_line t) r =
    Ok (true, mkRequest (t_method t) (t_version t) (t_path t)
                (if bool_decide (t_query t = []) then query_ r else t_query t)
                (receiveTime_ r) (headers_ r)).
Proof.
  intros [Hm Hv (Hps & Hpq & Hpc) (Hqs & Hqc & Hqe) _] Hr.
  destruct (method_text_clean (t_method t)) as [Hms Hmc].
  unfold processRequestLine, request_line.
  rewrite find_char_app by done.
  rewrite (proj2 (Z.eqb_neq _ _)) by (pose proof (zlen_nonneg (t_path t));
    pose proof (zlen_nonneg (t_query t)); pose proof (zlen_nonneg (lit "HTTP/1.")); zlia).
  rewrite ztake_app_exact, setMethod_text by done. cbn [mbind outcome_bind negb].
  set (m := method_text (t_method t)). set (uri := t_path t ++ t_query t).
  set (ver := lit "HTTP/1." ++ [version_char (t_version t)]).
  assert (zdrop (zlen m + 1) (m ++ sp :: uri ++ sp :: ver) = uri ++ sp :: ver) as Hrest.
  { apply zdrop_app_cons. }
  rewrite Hrest. assert (sp ∉ uri) as Hus by (unfold uri; set_solver).
  rewrite find_char_app by done.
  rewrite (proj2 (Z.eqb_neq _ _)) by (rewrite zlen_app, zlen_cons; pose proof (zlen_nonneg ver); lia).
  rewrite ztake_app_exact by done.
  assert (zdrop (zlen uri + 1) (uri ++ sp :: ver) = ver) as Hver.
  { apply zdrop_app_cons. }
  rewrite Hver.
  replace ((zlen ver =? 8) && bytes_eqb (ztake 7 ver) (lit "HTTP/1.")) with true by done.
  assert (last ver = Some (version_char (t_version t))) as -> by (apply last_snoc).
  assert (version_of (version_char (t_version t)) = t_version t) as -> by (by destruct (t_version t)).
  assert ((if find_char question_mark uri =? zlen uri then setPath uri
           (mkRequest (t_method t) (version_ r) (path_ r) (query_ r) (receiveTime_ r) (headers_ r))
         else setQuery (zdrop (find_char question_mark uri) uri)
           (setPath (ztake (find_char question_mark uri) uri)
           (mkRequest (t_method t) (version_ r) (path_ r) (query_ r) (receiveTime_ r) (headers_ r))))
    = mkRequest (t_method t) (version_ r) (t_path t)
        (if bool_decide (t_query t = []) then query_ r else t_query t) (receiveTime_ r) (headers_ r)) as ->.
  { unfold uri. destruct Hqe as [Hq|[q Hq]]; rewrite Hq.
    - rewrite app_nil_r, find_char_none, Z.eqb_refl by done. by rewrite bool_decide_eq_true_2.
    - rewrite find_char_app by done.
      rewrite (proj2 (Z.eqb_neq _ _)) by (rewrite zlen_app, zlen_cons; pose proof (zlen_nonneg q); lia).
      rewrite ztake_app_exact, zdrop_app_exact by done. done. }
  destruct (t_version t); [done|..]; reflexivity.
Qed.

Lemma request_line_no_cr t : text_ok t -> no_cr (request_line t).
Proof.
  intros [Hm Hv (Hps & Hpq & Hpc) (Hqs & Hqc & Hqe) _]. unfold no_cr, request_line in *.
  destruct (method_text_clean (t_method t)) as [_ Hmc]. unfold no_cr in Hmc.
  rewrite !not_elem_of_app, !not_elem_of_cons, !not_elem_of_app, !not_elem_of_cons, not_elem_of_app.
  assert (cr <> sp) as Hsp by done.
  assert (cr ∉ lit "HTTP/1.") as Hlit by (apply (bool_decide_unpack _); vm_compute; exact I).
  assert (cr ∉ [version_char (t_version t)]) as Hver
    by (destruct (t_version t); apply (bool_decide_unpack _); vm_compute; exact I).
  tauto.
Qed.

(** The headers of the text, entered one by one. *)
Definition with_headers (r : HttpRequest) (hs : list (bytes * bytes)) : HttpRequest :=
  mkRequest (method_ r) (version_ r) (path_ r) (query_ r) (receiveTime_ r)
    (fold_left (fun m h => map_assign (fst h) (snd h) m) hs (headers_ r)).

Lemma skip_spaces_sp v : skip_spaces (sp :: v) = skip_spaces v.
Proof. done. Qed.

Lemma turn_bytes_line rt c line rest :
  live c -> no_cr line ->
  turn_bytes rt c (line ++ kCRLF ++ rest) =
    match state_ c with
    | kExpectRequestLine =>
        '(ok, r) ← processRequestLine line (request_ c);
        if ok : bool
        then Ok (inl (mkContext kExpectHeaders (setReceiveTime rt r), rest))
        else Ok (inr (false, mkContext (state_ c) r, line ++ kCRLF ++ rest))
    | _ =>
        let colon := find_char colon_char line in
        if colon =? zlen line
        then Ok (inr (true, mkContext kGotAll (request_ c), rest))
        else Ok (inl (mkContext (state_ c) (addHeader line colon (request_ c)), rest))
    end.
Proof.
  intros Hl Hcr. unfold turn_bytes.
  assert (search_crlf (line ++ kCRLF ++ rest) = zlen line) as -> by (by apply no_cr_line).
  rewrite (proj2 (Z.eqb_neq _ _)) by (rewrite !zlen_app; change (zlen kCRLF) with 2;
    pose proof (zlen_nonneg rest); lia).
  rewrite ztake_app_exact by done.
  assert (zdrop (zlen line + 2) (line ++ kCRLF ++ rest) = rest) as ->.
  { rewrite app_assoc. apply zdrop_app_exact. by rewrite zlen_app. }
  destruct Hl as [-> | ->]; done.
Qed.

Lemma parse_bytes_headers rt c hs rest :
  state_ c = kExpectHeaders ->
  Forall (fun h => colon_char ∉ fst h /\ no_cr (fst h) /\ no_cr (snd h) /\ trimmed (snd h)) hs ->
  parse_bytes rt c (mjoin (map (fun h => header_line h ++ kCRLF) hs) ++ kCRLF ++ rest) =
    Ok (true, mkContext kGotAll (with_headers (request_ c) hs), rest).
Proof.
  revert c. induction hs as [|[k v] hs IH]; intros c Hst Hall.
  - simpl mjoin. rewrite parse_bytes_unfold by (by right).
    rewrite (turn_bytes_line rt c [] rest) by (try (by right); unfold no_cr; set_solver).
    rewrite Hst. simpl. unfold with_headers; simpl. by destruct (request_ c).
  - apply Forall_cons in Hall as [(Hk & Hkc & Hvc & [Hv1 Hv2]) Hall]. simpl in *.
    rewrite <- !app_assoc. change (kCRLF ++ kCRLF ++ rest) with (kCRLF ++ kCRLF ++ rest).
    rewrite parse_bytes_unfold by (by right).
    rewrite turn_bytes_line; [|by right|].
    2: { unfold no_cr, header_line in *; simpl. rewrite !not_elem_of_app, !not_elem_of_cons.
         by repeat split. }
    rewrite Hst. unfold header_line; simpl fst; simpl snd.
    change ([colon_char; sp] ++ v) with (colon_char :: sp :: v).
    rewrite find_char_app by done.
    rewrite (proj2 (Z.eqb_neq _ _)) by (rewrite zlen_app, !zlen_cons; pose proof (zlen_nonneg v); lia).
    cbn [mbind outcome_bind]. rewrite IH; [|done|done]. do 2 f_equal.
    unfold with_headers, addHeader; simpl. rewrite ztake_app_exact by done.
    assert (zdrop (zlen k + 1) (k ++ colon_char :: sp :: v) = sp :: v) as ->.
    { apply zdrop_app_cons. }
    rewrite skip_spaces_sp, Hv1, Hv2. done.
Qed.

Lemma parse_bytes_print rt t rest :
  text_ok t ->
  parse_bytes rt newContext (print_request t ++ rest) =
    Ok (true, mkContext kGotAll
            (with_headers (mkRequest (t_method t) (t_version t) (t_path t) (t_query t) rt [])
               (t_headers t)), rest).
Proof.
  intros Hok. unfold print_request. rewrite <- !app_assoc.
  rewrite parse_bytes_unfold by (by left).
  rewrite turn_bytes_line by (by left || by apply request_line_no_cr).
  cbn [state_ newContext request_]. rewrite processRequestLine_print by done.
  cbn [mbind outcome_bind]. rewrite parse_bytes_headers by (done || apply Hok).
  do 4 f_equal. cbn. destruct (bool_decide (t_query t = [])) eqn:Eq; [|done].
  apply bool_decide_eq_true in Eq. by rewrite Eq.
Qed.

(** C13: parsing a printed request gives the request back: from a fresh context,
    on a buffer holding the text of a request (method, path, optional query,
    version, headers with trimmed values) followed by anything, [parseRequest]
    accepts, reaches [kGotAll] with exactly those fields and leaves exactly the
    bytes that follow. *)
Theorem parse_print_request rt t buf rest :
  wf buf -> text_ok t -> content buf = print_request t ++ rest ->
  exists buf', parseRequest rt newContext buf =
      Ok (true, mkContext kGotAll
            (with_headers (mkRequest (t_method t) (t_version t) (t_path t) (t_query t) rt [])
               (t_headers t)), buf') /\
    wf buf' /\ content buf' = rest.
Proof.
  intros H Hok Hc.
  pose proof (parseRequest_content rt newContext buf H) as Hp.
  rewrite Hc, parse_bytes_print in Hp by done.
  destruct (parseRequest rt newContext buf) as [[[ok c'] buf']|]; [|done].
  destruct Hp as [Hw Hp]. injection Hp as <- <- Hrest. eauto.
Qed.

(** A buffer that holds [l] after the constructor's reserve. *)
Definition buffer_of (l : bytes) : Buffer :=
  mkBuffer (replicate 8 nul ++ l ++ replicate 8 nul) 8 (8 + zlen l).

Lemma buffer_of_spec l :
  zlen l <= vector_max_size - 16 -> wf (buffer_of l) /\ content (buffer_of l) = l.
Proof.
  intros Hl. pose proof (zlen_nonneg l).
  assert (zlen (replicate 8 nul) = 8) as Hz by done. split.
  - unfold buffer_of. apply wf_intro; rewrite ?zlen_app, ?Hz; unfold_sizes; lia.
  - unfold content, buffer_of; cbn [buffer_ readerIndex_ writerIndex_]. rewrite zslice_app_r by lia.
    rewrite Hz, zslice_app_l by lia. unfold zslice. rewrite Z.sub_diag, zdrop_0. apply ztake_all. lia.
Qed.

Definition sample_text : request_text :=
  mkText kPost (lit "/form") (lit "?q=1") kHttp11
    [(lit "Host", lit "example.org"); (lit "Connection", lit "close")].

Lemma sample_text_ok : text_ok sample_text.
Proof.
  assert (forall (a : ascii) (l : bytes), bool_decide (a ∈ l) = false -> a ∉ l) as Hd
    by (intros a l; apply bool_decide_eq_false).
  constructor; simpl; try discriminate.
  - split_and!; apply Hd; vm_compute; reflexivity.
  - split_and!; [apply Hd; vm_compute; reflexivity..|]. right. by exists (lit "q=1").
  - repeat constructor; try (apply Hd; vm_compute; reflexivity).
Qed.

Lemma parse_print_request_witness :
  let buf := buffer_of (print_request sample_text ++ lit "next") in
  wf buf /\ text_ok sample_text /\
  exists buf', parseRequest 7 newContext buf =
    Ok (true, mkContext kGotAll (mkRequest kPost kHttp11 (lit "/form") (lit "?q=1") 7
          [(lit "Connection", lit "close"); (lit "Host", lit "example.org")]), buf') /\
    wf buf' /\ content buf' = lit "next".
Proof.
  intros buf. destruct (buffer_of_spec (print_request sample_text ++ lit "next")) as [Hw Hc];
    [vm_compute; discriminate|].
  split; [exact Hw|]. split; [apply sample_text_ok|].
  exact (parse_print_request 7 sample_text buf (lit "next") Hw sample_text_ok Hc).
Defined.

Lemma parseRequest_terminates_witness :
  let buf := buffer_of (print_request sample_text) in
  wf buf /\ live newContext /\
  parse_loop 1000 0 newContext buf = parseRequest 0 newContext buf /\
  parseRequest 0 newContext buf <> Fault OutOfFuel.
Proof.
  intros buf. destruct (buffer_of_spec (print_request sample_text)) as [Hw Hc];
    [vm_compute; discriminate|].
  split; [exact Hw|]. split; [by left|].
  apply (parseRequest_terminates 0 newContext buf 1000 Hw); [by left|]. vm_compute. reflexivity.
Defined.

Lemma parseRequest_spins_witness :
  ~ live (mkContext kGotAll newRequest) /\
  parse_loop 100 0 (mkContext kGotAll newRequest) (buffer_of []) = Fault OutOfFuel.
Proof.
  assert (~ live (mkContext kGotAll newRequest)) as Hl by (intros [H|H]; discriminate H).
  split; [exact Hl|]. apply (parseRequest_spins 0 _ (buffer_of []) 100 Hl).
Defined.

(** The sample request cut in the middle of a header. *)
Definition first_read : bool * HttpContext * Buffer :=
  match parseRequest 1 newContext (buffer_of (ztake 30 (print_request sample_text))) with
  | Ok r => r
  | Fault _ => (false, newContext, buffer_of [])
  end.

Definition second_read : Buffer :=
  match append (zdrop 30 (print_request sample_text)) (snd first_read) with
  | Ok b => b
  | Fault _ => buffer_of []
  end.

Lemma parse_incremental_witness :
  let text := print_request sample_text in
  state_ (snd (fst first_read)) = kExpectHeaders /\
  content (snd first_read) = lit "Host:" /\
  match parseRequest 2 (snd (fst first_read)) second_read,
        parseRequest 1 newContext (buffer_of text) with
  | Ok (ok, c2, b2), Ok (ok', c2', b2') => ok = ok' /\ c2 = c2' /\ content b2 = content b2'
  | Fault e, Fault e' => e = e'
  | _, _ => False
  end.
Proof.
  split; [vm_compute; reflexivity|]. split; [vm_compute; reflexivity|].
  assert (state_ (snd (fst first_read)) = kExpectHeaders) as Hst by (vm_compute; reflexivity).
  pose proof (parse_incremental 1 2 newContext (buffer_of (ztake 30 (print_request sample_text)))
    (snd (fst first_read)) (snd first_read) (zdrop 30 (print_request sample_text)) second_read
    (buffer_of (print_request sample_text))) as H.
  rewrite Hst in H. apply H.
  - by left.
  - apply buffer_of_spec. vm_compute; discriminate.
  - apply buffer_of_spec. vm_compute; discriminate.
  - vm_compute; reflexivity.
  - discriminate.
  - vm_compute; reflexivity.
  - vm_compute; discriminate.
  - vm_compute; reflexivity.
Defined.
End HttpParser.

(** ** The server: responses and their framing *)
Module HttpService.
Import HttpRequest HttpContext HttpResponse HttpServer HttpParser.

Definition header_text (h : bytes * bytes) : bytes := fst h ++ lit ": " ++ snd h ++ kCRLF.

(** The response as RFC text: status line, framing headers, headers, body. *)
Definition response_text (r : HttpResponse) : bytes :=
  lit "HTTP/1.1 " ++ dec (statusCode_ r) ++ lit " " ++ statusMessage_ r ++ kCRLF ++
  (if closeConnection_ r then lit "Connection: close" ++ kCRLF
   else lit "Content-Length: " ++ dec (zlen (body_ r)) ++ kCRLF ++
        lit "Connection: Keep-Alive" ++ kCRLF) ++
  mjoin (map header_text (HttpResponse.headers_ r)) ++ kCRLF ++ body_ r.

Record response_ok (r : HttpResponse) : Prop := {
  ok_status : in_s 32 (statusCode_ r);
  ok_size : zlen (response_text r) < 2 ^ 31;
}.

Lemma appendPiece_spec data b :
  wf b -> writerIndex_ b + zlen data <= vector_max_size -> zlen data < 2 ^ 31 ->
  exists b', appendPiece data b = Ok b' /\ wf b' /\ content b' = content b ++ data /\
    writerIndex_ b' <= writerIndex_ b + zlen data.
Proof.
  intros H Hm Hs. rewrite appendPiece_small by done.
  destruct (append_spec data b H Hm) as (b' & Ha & Hw & Hc & _ & Hi). eauto.
Qed.

(** The continuation after an [append] that fits. *)
Lemma append_then {A} data b (k : Buffer -> outcome A) (P : A -> Prop) :
  wf b -> writerIndex_ b + zlen data <= vector_max_size ->
  zlen data < 2 ^ 31 ->
  (forall b', wf b' -> content b' = content b ++ data ->
     writerIndex_ b' <= writerIndex_ b + zlen data -> exists a, k b' = Ok a /\ P a) ->
  exists a, (appendPiece data b ≫= k) = Ok a /\ P a.
Proof.
  intros H Hm Hs Hk. destruct (appendPiece_spec data b H Hm Hs) as (b' & -> & Hw & Hc & Hi). simpl. eauto.
Qed.

Lemma append_header_spec b h :
  wf b -> zlen (header_text h) < 2 ^ 31 -> writerIndex_ b + zlen (header_text h) <= vector_max_size ->
  exists b', append_header b h = Ok b' /\ wf b' /\ content b' = content b ++ header_text h /\
    writerIndex_ b' <= writerIndex_ b + zlen (header_text h).
Proof.
  unfold append_header, header_text. intros H Hs Hm. rewrite !zlen_app in *.
  pose proof (zlen_nonneg (fst h)); pose proof (zlen_nonneg (snd h));
    pose proof (zlen_nonneg (lit ": ")); pose proof (zlen_nonneg kCRLF).
  apply append_then; [done|lia|lia|]. intros b1 Hw1 C1 I1.
  apply append_then; [done|lia|lia|]. intros b2 Hw2 C2 I2.
  apply append_then; [done|lia|lia|]. intros b3 Hw3 C3 I3.
  destruct (appendPiece_spec kCRLF b3 Hw3) as (b4 & -> & Hw4 & C4 & I4); [lia..|].
  exists b4. split; [done|]. split; [done|].
  rewrite C4, C3, C2, C1, <- !app_assoc. split; [done|lia].
Qed.

Lemma append_headers_spec hs b :
  wf b -> zlen (mjoin (map header_text hs)) < 2 ^ 31 -> writerIndex_ b + zlen (mjoin (map header_text hs)) <= vector_max_size ->
  exists b', foldM append_header b hs = Ok b' /\ wf b' /\
    content b' = content b ++ mjoin (map header_text hs) /\
    writerIndex_ b' <= writerIndex_ b + zlen (mjoin (map header_text hs)).
Proof.
  revert b; induction hs as [|h hs IH]; intros b H Hs Hm.
  - exists b. cbn. rewrite app_nil_r. unfold zlen; simpl. do 3 (split; [done|]). lia.
  - change (mjoin (map header_text (h :: hs)))
      with (header_text h ++ mjoin (map header_text hs)) in *.
    cbn [foldM]. rewrite !zlen_app in *.
    pose proof (zlen_nonneg (mjoin (map header_text hs))).
    pose proof (zlen_nonneg (header_text h)).
    destruct (append_header_spec b h H) as (b' & -> & Hw & Hc & Hi); [lia..|].
    cbn [mbind outcome_bind]. destruct (IH b' Hw) as (b2 & -> & Hw2 & Hc2 & Hi2); [lia..|].
    exists b2. do 2 (split; [done|]). rewrite Hc2, Hc, <- !app_assoc. split; [done|lia].
Qed.

(** The two [char buf[32]] lines are not cut. *)
Lemma status_line_fits r : in_s 32 (statusCode_ r) ->
  snprintf 32 (lit "HTTP/1.1 " ++ dec (statusCode_ r) ++ lit " ") =
    lit "HTTP/1.1 " ++ dec (statusCode_ r) ++ lit " ".
Proof.
  intros H. apply ztake_all. rewrite !zlen_app.
  pose proof (dec_length64 (statusCode_ r)). unfold in_s in H. vm_compute (zlen (lit _)). lia.
Qed.

Lemma content_length_fits (body : bytes) : zlen body < 10 ^ 13 ->
  snprintf 32 (lit "Content-Length: " ++ dec (zlen body) ++ kCRLF) =
    lit "Content-Length: " ++ dec (zlen body) ++ kCRLF.
Proof.
  intros H. apply ztake_all. rewrite !zlen_app. pose proof (zlen_nonneg body).
  unfold dec. rewrite (proj2 (Z.ltb_ge _ _)) by lia.
  pose proof (dec_nonneg_length (zlen body) 13 ltac:(lia) ltac:(lia) H).
  vm_compute (zlen (lit _)). vm_compute (zlen kCRLF). lia.
Qed.

Lemma appendToBuffer_spec r b :
  wf b -> response_ok r -> writerIndex_ b + zlen (response_text r) <= vector_max_size ->
  exists b', appendToBuffer r b = Ok b' /\ wf b' /\ content b' = content b ++ response_text r.
Proof.
  intros H [Hs Hsz] Hm. unfold appendToBuffer.
  rewrite status_line_fits by done.
  assert (forall l : bytes, 0 <= zlen l) as Hnn by apply zlen_nonneg.
  unfold response_text in *.
  set (status := lit "HTTP/1.1 " ++ dec (statusCode_ r) ++ lit " ").
  set (hs := mjoin (map header_text (HttpResponse.headers_ r))) in *.
  set (framing := if closeConnection_ r then _ else _ ++ _) in *.
  assert (zlen status + zlen (statusMessage_ r) + zlen kCRLF + zlen framing +
    zlen hs + zlen kCRLF + zlen (body_ r) < 2 ^ 31) as Hsz'
    by (unfold status; rewrite !zlen_app in *; lia). clear Hsz.
  assert (writerIndex_ b + (zlen status + zlen (statusMessage_ r) + zlen kCRLF + zlen framing +
    zlen hs + zlen kCRLF + zlen (body_ r)) <= vector_max_size) as Hm'
    by (unfold status; rewrite !zlen_app in *; lia). clear Hm.
  pose proof (Hnn status); pose proof (Hnn (statusMessage_ r)); pose proof (Hnn kCRLF);
  pose proof (Hnn framing); pose proof (Hnn hs); pose proof (Hnn (body_ r)).
  rewrite content_length_fits by lia.
  apply append_then; [done|lia|lia|]. intros b1 Hw1 C1 I1.
  apply append_then; [done|lia|lia|]. intros b2 Hw2 C2 I2.
  apply append_then; [done|lia|lia|]. intros b3 Hw3 C3 I3.
  assert (exists b4, (if closeConnection_ r then appendPiece (lit "Connection: close" ++ kCRLF) b3
     else output ← appendPiece (lit "Content-Length: " ++ dec (zlen (body_ r)) ++ kCRLF) b3;
       appendPiece (lit "Connection: Keep-Alive" ++ kCRLF) output) = Ok b4 /\
     wf b4 /\ content b4 = content b3 ++ framing /\ writerIndex_ b4 <= writerIndex_ b3 + zlen framing)
    as (b4 & -> & Hw4 & C4 & I4).
  { unfold framing in *. destruct (closeConnection_ r).
    - destruct (appendPiece_spec (lit "Connection: close" ++ kCRLF) b3 Hw3) as (b4 & -> & ? & ? & ?);
        [lia..|eauto].
    - rewrite !zlen_app in *. pose proof (Hnn (lit "Connection: Keep-Alive")).
      pose proof (Hnn (lit "Content-Length: ")). pose proof (Hnn (dec (zlen (body_ r)))).
      apply append_then; [done|rewrite !zlen_app; lia..|]. intros b' Hw Hc Hi. rewrite !zlen_app in Hi.
      destruct (appendPiece_spec (lit "Connection: Keep-Alive" ++ kCRLF) b' Hw) as (b4 & -> & ? & C & I4);
        rewrite ?zlen_app in *; [lia..|].
      exists b4. do 2 (split; [done|]). rewrite C, Hc, <- !app_assoc. split; [done|lia]. }
  cbn [mbind outcome_bind].
  destruct (append_headers_spec (HttpResponse.headers_ r) b4 Hw4) as (b5 & -> & Hw5 & C5 & I5);
    [fold hs; lia..|]. fold hs in C5, I5. cbn [mbind outcome_bind].
  apply append_then; [done|lia|lia|]. intros b6 Hw6 C6 I6.
  destruct (appendPiece_spec (body_ r) b6 Hw6) as (b7 & -> & Hw7 & C7 & _); [lia..|].
  exists b7. do 2 (split; [done|]).
  rewrite C7, C6, C5, C4, C3, C2, C1. unfold status. by rewrite <- !app_assoc.
Qed.

(** A whole request in the buffer is handed to [onRequest], and the context is
    fresh again. *)
Lemma onMessage_request cb rt t buf rest :
  let req := with_headers (mkRequest (t_method t) (t_version t) (t_path t) (t_query t) rt [])
               (t_headers t) in
  wf buf -> text_ok t -> content buf = print_request t ++ rest ->
  exists buf', onMessage cb rt newContext buf =
      (calls ← onRequest cb req; Ok (calls, newContext, buf')) /\ wf buf' /\ content buf' = rest.
Proof.
  intros req H Ht Hc.
  pose proof (parseRequest_content rt newContext buf H) as Hp.
  rewrite Hc, parse_bytes_print in Hp by done. unfold onMessage.
  destruct (parseRequest rt newContext buf) as [[[ok c'] buf']|]; [|done].
  destruct Hp as [Hw Hp]. injection Hp as <- <- Hrest.
  exists buf'. split; [|done]. cbn [mbind outcome_bind].
  match goal with |- context [gotAll ?c] => change (gotAll c) with true end.
  cbv match. cbn [request_]. fold req. done.
Qed.

Lemma onRequest_sends cb req :
  let resp := cb req (newResponse (wantsClose req)) in
  response_ok resp ->
  onRequest cb req = Ok (Send (response_text resp) :: (if closeConnection_ resp then [Shutdown] else [])).
Proof.
  intros resp Hr. unfold onRequest. fold resp.
  destruct (newBuffer_spec kInitialSize) as (b0 & -> & Hb0 & Hc0 & _ & Hi0); [done..|].
  cbn [mbind outcome_bind].
  destruct (appendToBuffer_spec resp b0 Hb0 Hr) as (b1 & -> & _ & Hc1).
  { rewrite Hi0. pose proof (ok_size _ Hr). unfold_sizes. lia. }
  cbn [mbind outcome_bind]. rewrite Hc1, Hc0. done.
Qed.

(** One request, one response: on a buffer that starts with the text of a
    request, [onMessage] of a fresh context calls the HttpCallback on exactly
    that request, sends the text of its response (Content-Length and Keep-Alive
    framing, or Connection: close) in one [send], shuts the connection down
    exactly when the response says so, leaves the bytes that follow the request
    and a fresh context. *)
Theorem onMessage_serves cb rt t buf rest :
  let req := with_headers (mkRequest (t_method t) (t_version t) (t_path t) (t_query t) rt [])
               (t_headers t) in
  let resp := cb req (newResponse (wantsClose req)) in
  wf buf -> text_ok t -> content buf = print_request t ++ rest -> response_ok resp ->
  exists buf', onMessage cb rt newContext buf =
      Ok (Send (response_text resp) :: (if closeConnection_ resp then [Shutdown] else []),
          newContext, buf') /\
    wf buf' /\ content buf' = rest.
Proof.
  intros req resp H Ht Hc Hr. destruct (onMessage_request cb rt t buf rest H Ht Hc) as (buf' & E & Hw & Hrest).
  fold req in E. rewrite (onRequest_sends cb req Hr) in E. exists buf'. done.
Qed.

(** A request line that is rejected after its method was recognised leaves
    the method set in the context, so the next bytes the peer sends abort the
    process in [setMethod]'s assertion. *)
Theorem rejected_line_then_data_aborts cb rt rt2 m junk rest buf buf2 more :
  wf buf -> wf buf2 -> m <> kInvalid -> no_cr junk ->
  content buf = (method_text m ++ sp :: junk) ++ kCRLF ++ rest ->
  sp ∉ junk ->
  exists c' buf', onMessage cb rt newContext buf =
      Ok ([Send badRequest; Shutdown], c', buf') /\ content buf' = content buf /\
    (content buf2 = content buf' ++ more ->
     onMessage cb rt2 c' buf2 = Fault AssertFailed).
Proof.
  intros H H2 Hm Hj Hc Hs. destruct (method_text_clean m) as [Hms Hmc].
  set (line := method_text m ++ sp :: junk) in *.
  assert (no_cr line) as Hline.
  { unfold no_cr, line in *. rewrite not_elem_of_app, not_elem_of_cons. done. }
  assert (forall r, method_ r = kInvalid -> processRequestLine line r =
    Ok (false, mkRequest m (version_ r) (path_ r) (query_ r) (receiveTime_ r) (HttpRequest.headers_ r))) as Hpl.
  { intros r Hr. unfold processRequestLine, line. rewrite find_char_app by done.
    rewrite (proj2 (Z.eqb_neq _ _)) by (pose proof (zlen_nonneg junk); zlia).
    rewrite ztake_app_exact, setMethod_text by done. cbn [mbind outcome_bind negb].
    rewrite zdrop_app_cons.
    by rewrite find_char_none, Z.eqb_refl. }
  assert (forall r, method_ r <> kInvalid -> processRequestLine line r = Fault AssertFailed) as Habort.
  { intros r Hr. unfold processRequestLine, line. rewrite find_char_app by done.
    rewrite (proj2 (Z.eqb_neq _ _)) by (pose proof (zlen_nonneg junk); zlia).
    unfold setMethod. by rewrite (bool_decide_eq_false_2 (method_ r = kInvalid)). }
  assert (parse_bytes rt newContext (content buf) =
    Ok (false, mkContext kExpectRequestLine (mkRequest m kUnknown [] [] 0 []), content buf)) as Hb.
  { rewrite Hc, parse_bytes_unfold by (by left). rewrite turn_bytes_line by (by left || done).
    cbn [state_ newContext request_]. by rewrite Hpl. }
  pose proof (parseRequest_content rt newContext buf H) as Hp. rewrite Hb in Hp.
  unfold onMessage. destruct (parseRequest rt newContext buf) as [[[ok c'] buf']|]; [|done].
  destruct Hp as [Hw Hp]. injection Hp as <- <- Hc'. cbn [mbind outcome_bind].
  eexists _, buf'. split; [reflexivity|]. split; [done|]. intros Hc2.
  pose proof (parseRequest_content rt2 (mkContext kExpectRequestLine (mkRequest m kUnknown [] [] 0 []))
    buf2 H2) as Hp2.
  rewrite Hc2, <- Hc', Hc, <- !app_assoc, parse_bytes_unfold in Hp2 by (by left).
  rewrite turn_bytes_line in Hp2 by (by left || done).
  cbn [state_ request_] in Hp2. rewrite Habort in Hp2 by done.
  destruct (parseRequest rt2 _ buf2) as [[[? ?] ?]|e]; [by destruct Hp2|].
  cbn in Hp2 |- *. congruence.
Qed.

Definition hello_callback (req : HttpRequest) (resp : HttpResponse) : HttpResponse :=
  setBody (lit "hello") (setContentType (lit "text/plain")
    (setStatusMessage (lit "OK") (setStatusCode k200Ok resp))).

Lemma onMessage_serves_witness :
  exists buf', onMessage hello_callback 7 newContext
      (buffer_of (print_request sample_text ++ lit "next")) =
      Ok ([Send (lit "HTTP/1.1 200 OK" ++ kCRLF ++ lit "Connection: close" ++ kCRLF ++
                 lit "Content-Type: text/plain" ++ kCRLF ++ kCRLF ++ lit "hello"); Shutdown],
          newContext, buf') /\
    wf buf' /\ content buf' = lit "next".
Proof.
  destruct (buffer_of_spec (print_request sample_text ++ lit "next")) as [Hw Hc];
    [vm_compute; discriminate|].
  apply (onMessage_serves hello_callback 7 sample_text _ (lit "next") Hw sample_text_ok Hc).
  split; vm_compute; try discriminate; intuition discriminate.
Defined.

Lemma rejected_line_then_data_aborts_witness :
  exists c' buf', onMessage hello_callback 1 newContext (buffer_of (lit "GET /" ++ kCRLF)) =
      Ok ([Send badRequest; Shutdown], c', buf') /\
    content buf' = content (buffer_of (lit "GET /" ++ kCRLF)) /\
    onMessage hello_callback 2 c' (buffer_of (lit "GET /" ++ kCRLF ++ lit "x")) = Fault AssertFailed.
Proof.
  destruct (rejected_line_then_data_aborts hello_callback 1 2 kGet (lit "/") [] 
    (buffer_of (lit "GET /" ++ kCRLF)) (buffer_of (lit "GET /" ++ kCRLF ++ lit "x")) (lit "x"))
    as (c' & buf' & H1 & H2 & H3).
  - apply buffer_of_spec. vm_compute; discriminate.
  - apply buffer_of_spec. vm_compute; discriminate.
  - discriminate.
  - unfold no_cr. apply (bool_decide_unpack _). vm_compute. exact I.
  - vm_compute; reflexivity.
  - apply (bool_decide_unpack _). vm_compute. exact I.
  - exists c', buf'. split; [exact H1|]. split; [exact H2|]. apply H3. rewrite H2. vm_compute; reflexivity.
Defined.
End HttpService.
