(* ===== verification/Calendar.v ===== *)
(** * Calendar: the Gregorian calendar and the C library's use of it

    The reference the date code is measured against: leap years, the length of
    the months, the day that follows a day, the count of days
    ([days_of_civil], from 1 January of year 1) with its inverse, and
    [struct tm], [gmtime_r] and [timegm] of the C library, which the sources
    call and which are defined from it. *)

From S2P Require Import Prelude.

(** ** The calendar *)
Definition is_leap (y : Z) : bool :=
  (y mod 4 =? 0) && (negb (y mod 100 =? 0) || (y mod 400 =? 0)).

Definition month_days (y m : Z) : Z :=
  if m =? 2 then (if is_leap y then 29 else 28)
  else if (m =? 4) || (m =? 6) || (m =? 9) || (m =? 11) then 30 else 31.

Definition valid_date (y m d : Z) : Prop := 1 <= m <= 12 /\ 1 <= d <= month_days y m.

Definition next_day (date : Z * Z * Z) : Z * Z * Z :=
  let '(y, m, d) := date in
  if d <? month_days y m then (y, m, d + 1)
  else if m <? 12 then (y, m + 1, 1)
  else (y + 1, 1, 1).

(** ** Counting days *)
Definition days_before_year (y : Z) : Z :=
  let p := y - 1 in 365 * p + p / 4 - p / 100 + p / 400.

Fixpoint days_before_month_from (n : nat) (y : Z) : Z :=
  match n with
  | O => 0
  | S k => days_before_month_from k y + month_days y (Z.of_nat n)
  end.

(** The days of [y] before the first of month [m]. *)
Definition days_before_month (y m : Z) : Z := days_before_month_from (Z.to_nat (m - 1)) y.

Definition days_of_civil (y m d : Z) : Z := days_before_year y + days_before_month y m + (d - 1).

(** The year that holds day [n], and the day's position in it. *)
Definition year_of_days (n : Z) : Z * Z :=
  let q400 := n / 146097 in
  let r := n mod 146097 in
  let c := Z.min 3 (r / 36524) in
  let r1 := r - 36524 * c in
  let r2 := r1 mod 1461 in
  let y1 := Z.min 3 (r2 / 365) in
  (400 * q400 + 100 * c + 4 * (r1 / 1461) + y1 + 1, r2 - 365 * y1).

(** The month of a position in the year, from month [m] on; [fuel] months remain. *)
Fixpoint month_of_yday (fuel : nat) (y m yday : Z) : Z * Z :=
  match fuel with
  | O => (m, yday + 1)
  | S k => if yday <? month_days y m then (m, yday + 1)
           else month_of_yday k y (m + 1) (yday - month_days y m)
  end.

Definition civil_of_days (n : Z) : Z * Z * Z :=
  let '(y, yday) := year_of_days n in
  let '(m, d) := month_of_yday 11 y 1 yday in
  (y, m, d).

(** ** The count is the calendar's *)
Ltac div_lia := Z.to_euclidean_division_equations; lia.

Ltac month_cases m :=
  let H := fresh in
  assert (m = 1 \/ m = 2 \/ m = 3 \/ m = 4 \/ m = 5 \/ m = 6 \/ m = 7 \/ m = 8 \/ m = 9 \/
          m = 10 \/ m = 11 \/ m = 12) as H by lia;
  repeat (destruct H as [H|H]); subst m.

Lemma is_leap_spec y :
  is_leap y = true <-> y mod 4 = 0 /\ (y mod 100 <> 0 \/ y mod 400 = 0).
Proof. unfold is_leap. lia. Qed.

Lemma is_leap_days y : days_before_year (y + 1) - days_before_year y = 365 + (if is_leap y then 1 else 0).
Proof.
  unfold days_before_year. destruct (is_leap y) eqn:E.
  - apply is_leap_spec in E. div_lia.
  - assert (~ (y mod 4 = 0 /\ (y mod 100 <> 0 \/ y mod 400 = 0))) as H.
    { intros H. apply is_leap_spec in H. congruence. }
    div_lia.
Qed.

Lemma days_before_year_mono y1 y2 : y1 <= y2 -> days_before_year y1 <= days_before_year y2.
Proof.
  intros H. replace y2 with (y1 + Z.of_nat (Z.to_nat (y2 - y1))) by lia.
  induction (Z.to_nat (y2 - y1)) as [|n IH]; [rewrite Z.add_0_r; lia|].
  pose proof (is_leap_days (y1 + Z.of_nat n)) as Hs.
  replace (y1 + Z.of_nat (S n)) with (y1 + Z.of_nat n + 1) by lia.
  destruct (is_leap _); lia.
Qed.

(** The months of a year, spelled out. *)
Lemma days_before_month_table y m :
  1 <= m <= 12 ->
  days_before_month y m =
    nth (Z.to_nat (m - 1)) [0; 31; 59; 90; 120; 151; 181; 212; 243; 273; 304; 334] 0 +
    (if (3 <=? m) && is_leap y then 1 else 0).
Proof.
  intros H. unfold days_before_month. month_cases m;
    vm_compute (Z.to_nat _); cbn [days_before_month_from nth];
    unfold month_days; simpl; destruct (is_leap y); reflexivity.
Qed.

Lemma month_days_bounds y m : 28 <= month_days y m <= 31.
Proof. unfold month_days. repeat case_match; lia. Qed.

(** The day count goes up by one from every valid day to the next. *)
Lemma days_of_next_day y m d :
  valid_date y m d ->
  let '(y', m', d') := next_day (y, m, d) in
  valid_date y' m' d' /\ days_of_civil y' m' d' = days_of_civil y m d + 1.
Proof.
  intros [Hm Hd]. unfold next_day. destruct (d <? month_days y m) eqn:E.
  - unfold valid_date, days_of_civil. lia.
  - assert (d = month_days y m) as -> by lia. destruct (m <? 12) eqn:Em.
    + split; [split; [lia|pose proof (month_days_bounds y (m + 1)); lia]|].
      unfold days_of_civil, days_before_month.
      replace (Z.to_nat (m + 1 - 1)) with (S (Z.to_nat (m - 1))) by lia. cbn [days_before_month_from].
      replace (Z.of_nat (S (Z.to_nat (m - 1)))) with m by lia. lia.
    + assert (m = 12) as -> by lia.
      split; [split; [lia|pose proof (month_days_bounds (y + 1) 1); lia]|].
      pose proof (is_leap_days y). unfold days_of_civil.
      rewrite !days_before_month_table by lia. simpl. unfold month_days; simpl.
      destruct (is_leap y); lia.
Qed.

(** ** The inverse *)
Lemma year_of_days_unique y yday :
  0 <= yday < days_before_year (y + 1) - days_before_year y ->
  year_of_days (days_before_year y + yday) = (y, yday).
Proof.
  unfold days_before_year, year_of_days. intros H.
  set (p := y - 1) in *. replace (y + 1 - 1) with (p + 1) in H by (subst p; lia).
  replace y with (p + 1) by (subst p; lia). clearbody p. clear y.
  (* the position of the year in its 400, 100 and 4 years *)
  assert (exists q c k i, p = 400 * q + 100 * c + 4 * k + i /\ 0 <= c <= 3 /\ 0 <= k <= 24 /\
    0 <= i <= 3 /\ p / 4 = 100 * q + 25 * c + k /\ p / 100 = 4 * q + c /\ p / 400 = q) as
    (q & c & k & i & Hp & Hc & Hk & Hi & H4 & H100 & H400)
    by (exists (p / 400), ((p mod 400) / 100), ((p mod 100) / 4), (p mod 4); div_lia).
  assert (0 <= yday <= 365 /\ (yday = 365 -> i = 3 /\ (k = 24 -> c = 3))) as [Hy Hleap].
  { rewrite H4, H100, H400 in H.
    assert ((p + 1) / 4 = 100 * q + 25 * c + k + (if i =? 3 then 1 else 0) /\
      (p + 1) / 100 = 4 * q + c + (if (i =? 3) && (k =? 24) then 1 else 0) /\
      (p + 1) / 400 = q + (if (i =? 3) && (k =? 24) && (c =? 3) then 1 else 0)) as (E1 & E2 & E3).
    { destruct (i =? 3) eqn:?, (k =? 24) eqn:?, (c =? 3) eqn:?; simpl; div_lia. }
    rewrite E1, E2, E3 in H.
    destruct (i =? 3) eqn:?, (k =? 24) eqn:?, (c =? 3) eqn:?; simpl in H; lia. }
  rewrite H4, H100, H400. clear H H4 H100 H400. subst p.
  match goal with |- context [?n / 146097] => set (n0 := n) end.
  assert (n0 / 146097 = q /\ n0 mod 146097 = 36524 * c + 1461 * k + 365 * i + yday) as [-> ->]
    by (subst n0; div_lia).
  assert (Z.min 3 ((36524 * c + 1461 * k + 365 * i + yday) / 36524) = c) as -> by div_lia.
  replace (36524 * c + 1461 * k + 365 * i + yday - 36524 * c) with (1461 * k + 365 * i + yday) by lia.
  assert ((1461 * k + 365 * i + yday) / 1461 = k /\
    (1461 * k + 365 * i + yday) mod 1461 = 365 * i + yday) as [-> ->] by div_lia.
  assert (Z.min 3 ((365 * i + yday) / 365) = i) as -> by div_lia.
  f_equal; lia.
Qed.

Lemma month_of_yday_unique y m d fuel k :
  valid_date y m d -> 1 <= k <= m -> m - k <= Z.of_nat fuel ->
  month_of_yday fuel y k (days_before_month y m - days_before_month y k + (d - 1)) = (m, d).
Proof.
  intros [Hm Hd]. revert k. induction fuel as [|fuel IH]; intros k Hk Hf; cbn [month_of_yday].
  - assert (k = m) as -> by lia. f_equal; lia.
  - assert (forall j, 1 <= j < 12 -> days_before_month y (j + 1) = days_before_month y j + month_days y j)
      as Hstep.
    { intros j Hj. unfold days_before_month.
      replace (Z.to_nat (j + 1 - 1)) with (S (Z.to_nat (j - 1))) by lia. cbn [days_before_month_from].
      by replace (Z.of_nat (S (Z.to_nat (j - 1)))) with j by lia. }
    destruct (decide (k = m)) as [->|Hne].
    + rewrite (proj2 (Z.ltb_lt _ _)) by lia. f_equal; lia.
    + assert (days_before_month y (k + 1) <= days_before_month y m) as Hmono.
      { assert (forall i, (Z.to_nat k + i <= Z.to_nat m)%nat ->
          days_before_month_from (Z.to_nat k) y <= days_before_month_from (Z.to_nat k + i) y) as Hi.
        { induction i as [|i IHi]; intros Hi; [by rewrite Nat.add_0_r|].
          rewrite Nat.add_succ_r. cbn [days_before_month_from].
          pose proof (month_days_bounds y (Z.of_nat (S (Z.to_nat k + i)))). specialize (IHi ltac:(lia)). lia. }
        unfold days_before_month. specialize (Hi (Z.to_nat (m - 1 - k)) ltac:(lia)).
        replace (Z.to_nat (k + 1 - 1)) with (Z.to_nat k) by lia.
        replace (Z.to_nat (m - 1)) with (Z.to_nat k + Z.to_nat (m - 1 - k))%nat by lia. done. }
      rewrite Hstep in Hmono by lia. rewrite (proj2 (Z.ltb_ge _ _)) by lia.
      rewrite <- IH with (k := k + 1) by lia. f_equal. rewrite Hstep by lia. lia.
Qed.

Lemma yday_bound y m d :
  valid_date y m d -> 0 <= days_before_month y m + (d - 1) < days_before_year (y + 1) - days_before_year y.
Proof.
  intros [Hm Hd]. rewrite is_leap_days, days_before_month_table by done.
  unfold month_days in Hd. month_cases m; simpl in *; destruct (is_leap y); simpl; lia.
Qed.

(** The year of a day, from the days of the years around it. *)
Lemma year_bounds y m d lo hi :
  valid_date y m d -> days_before_year lo <= days_of_civil y m d < days_before_year hi -> lo <= y < hi.
Proof.
  intros H Hd. pose proof (yday_bound y m d H) as Hy. unfold days_of_civil in Hd.
  split; apply Z.nlt_ge || apply Z.nle_gt; intros Hc.
  - pose proof (days_before_year_mono (y + 1) lo ltac:(lia)). lia.
  - pose proof (days_before_year_mono hi y ltac:(lia)). lia.
Qed.

(** A valid date is recovered from its day count ... *)
Lemma civil_of_days_of_civil y m d :
  valid_date y m d -> civil_of_days (days_of_civil y m d) = (y, m, d).
Proof.
  intros H. unfold civil_of_days, days_of_civil. rewrite <- Z.add_assoc.
  rewrite year_of_days_unique by (by apply yday_bound).
  pose proof (month_of_yday_unique y m d 11 1 H ltac:(destruct H; lia) ltac:(destruct H; lia)) as E.
  replace (days_before_month y 1) with 0 in E by done. rewrite Z.sub_0_r in E. by rewrite E.
Qed.

Lemma month_of_yday_spec y yday k fuel :
  1 <= k -> Z.of_nat fuel = 12 - k -> 0 <= yday ->
  yday < days_before_month y 12 + month_days y 12 - days_before_month y k ->
  let '(m, d) := month_of_yday fuel y k yday in
  valid_date y m d /\ days_before_month y m + (d - 1) = days_before_month y k + yday.
Proof.
  revert yday k. induction fuel as [|fuel IH]; intros yday k Hk Hf Hy Hlt; cbn [month_of_yday].
  - assert (k = 12) as -> by lia. split; [split; lia|lia].
  - destruct (yday <? month_days y k) eqn:E; [split; [split; lia|lia]|].
    assert (days_before_month y (k + 1) = days_before_month y k + month_days y k) as Hs.
    { unfold days_before_month.
      replace (Z.to_nat (k + 1 - 1)) with (S (Z.to_nat (k - 1))) by lia. cbn [days_before_month_from].
      by replace (Z.of_nat (S (Z.to_nat (k - 1)))) with k by lia. }
    specialize (IH (yday - month_days y k) (k + 1) ltac:(lia) ltac:(lia) ltac:(lia) ltac:(lia)).
    destruct (month_of_yday fuel y (k + 1) _) as [m d]. destruct IH as [H1 H2]. split; [done|lia].
Qed.

(** Every day lies in the year [year_of_days] gives. *)
Lemma year_of_days_spec n :
  let '(y, yday) := year_of_days n in
  days_before_year y + yday = n /\ 0 <= yday < days_before_year (y + 1) - days_before_year y.
Proof.
  unfold year_of_days.
  set (q := n / 146097). set (r := n mod 146097). set (c := Z.min 3 (r / 36524)).
  set (r1 := r - 36524 * c). set (k := r1 / 1461). set (r2 := r1 mod 1461). set (i := Z.min 3 (r2 / 365)).
  assert (n = 146097 * q + r /\ 0 <= r < 146097) as [Hn Hr] by (subst q r; div_lia).
  assert (0 <= c <= 3 /\ 0 <= r1 /\ (c < 3 -> r1 < 36524) /\ r1 <= 36524) as (Hc & Hr1 & Hr1' & Hr1'')
    by (subst c r1; clearbody r; div_lia).
  assert (r1 = 1461 * k + r2 /\ 0 <= k <= 24 /\ 0 <= r2 < 1461) as (Hk & Hk' & Hr2)
    by (subst k r2; clearbody r1; div_lia).
  assert (0 <= i <= 3 /\ 0 <= r2 - 365 * i <= 365 /\ (i < 3 -> r2 - 365 * i < 365)) as (Hi & Hd & Hd')
    by (subst i; clearbody r2; div_lia).
  assert (r = 36524 * c + r1) as Hrr by (subst r1; lia).
  clearbody i r2 k r1 c r q.
  unfold days_before_year.
  replace (400 * q + 100 * c + 4 * k + i + 1 - 1) with (400 * q + 100 * c + 4 * k + i) by lia.
  replace (400 * q + 100 * c + 4 * k + i + 1 + 1 - 1) with (400 * q + 100 * c + 4 * k + i + 1) by lia.
  set (p := 400 * q + 100 * c + 4 * k + i).
  assert (p / 4 = 100 * q + 25 * c + k /\ p / 100 = 4 * q + c /\ p / 400 = q) as (-> & -> & ->)
    by (subst p; div_lia).
  split; [subst p; lia|]. split; [lia|].
  assert ((p + 1) / 4 = 100 * q + 25 * c + k + (if i =? 3 then 1 else 0) /\
    (p + 1) / 100 = 4 * q + c + (if (i =? 3) && (k =? 24) then 1 else 0) /\
    (p + 1) / 400 = q + (if (i =? 3) && (k =? 24) && (c =? 3) then 1 else 0)) as (-> & -> & ->).
  { subst p. destruct (i =? 3) eqn:?, (k =? 24) eqn:?, (c =? 3) eqn:?; simpl; div_lia. }
  subst p. destruct (i =? 3) eqn:?, (k =? 24) eqn:?, (c =? 3) eqn:?; simpl; lia.
Qed.

(** ... and every day count is the count of a valid date. *)
Lemma days_of_civil_of_days n :
  let '(y, m, d) := civil_of_days n in valid_date y m d /\ days_of_civil y m d = n.
Proof.
  unfold civil_of_days. pose proof (year_of_days_spec n) as Hy.
  destruct (year_of_days n) as [y yday]. destruct Hy as [Hn Hy].
  pose proof (month_of_yday_spec y yday 1 11 ltac:(lia) ltac:(lia) ltac:(lia)) as Hm.
  destruct (month_of_yday 11 y 1 yday) as [m d]. destruct Hm as [Hv He].
  - rewrite is_leap_days in Hy. rewrite !days_before_month_table by lia. simpl.
    unfold month_days; simpl. destruct (is_leap y); lia.
  - split; [done|]. unfold days_of_civil. replace (days_before_month y 1) with 0 in He by done. lia.
Qed.

(** ** struct tm, gmtime_r, timegm *)
Record tm := mkTm {
  tm_sec : Z;
  tm_min : Z;
  tm_hour : Z;
  tm_mday : Z;
  tm_mon : Z;
  tm_year : Z;
  tm_wday : Z;
  tm_yday : Z;
  tm_isdst : Z;
  tm_gmtoff : Z;
  tm_zone : bytes;
}.

(** 1 January 1970, counted from 1 January of year 1 (a Monday). *)
Definition epoch_days : Z := days_of_civil 1970 1 1.

Definition gmtime_r (t : Z) : tm :=
  let days := t / 86400 + epoch_days in
  let s := t mod 86400 in
  let '(y, m, d) := civil_of_days days in
  mkTm (s mod 60) (s / 60 mod 60) (s / 3600) d (m - 1) (y - 1900) ((days + 1) mod 7)
    (days_of_civil y m d - days_of_civil y 1 1) 0 0 (lit "GMT").

Definition timegm (t : tm) : Z :=
  86400 * (days_of_civil (tm_year t + 1900) (tm_mon t + 1) (tm_mday t) - epoch_days) +
  3600 * tm_hour t + 60 * tm_min t + tm_sec t.

Lemma timegm_gmtime t : timegm (gmtime_r t) = t.
Proof.
  unfold timegm, gmtime_r. pose proof (days_of_civil_of_days (t / 86400 + epoch_days)) as H.
  destruct (civil_of_days _) as [[y m] d]. destruct H as [_ H]. cbn [tm_year tm_mon tm_mday tm_hour tm_min tm_sec].
  replace (y - 1900 + 1900) with y by lia. replace (m - 1 + 1) with m by lia. rewrite H. div_lia.
Qed.
