(* ===== verification/Timestamp.v ===== *)
(** * Timestamp: base/Timestamp.h, base/Timestamp.cc

    A [Timestamp] is its one field, the int64_t count of microseconds since the
    epoch.  A C++ [double] is a [spec_float] of the IEEE-754 binary64 format
    and its arithmetic that of the Standard Library's specification;
    [static_cast<int64_t>] of one truncates and is undefined out of range.
    [gettimeofday] is the environment and is an argument of [now].

    Theorems: the two text forms lose nothing ([toString_roundtrip],
    [toFormattedString_roundtrip]); [addTime] of a positive interval never goes
    back. *)

From Stdlib Require Export SpecFloat.
From S2P Require Import Prelude Format Calendar.

Definition kMicroSecondsPerSecond : Z := 1000 * 1000.

Definition invalid : Z := 0.
Definition valid (t : Z) : bool := 0 <? t.
Definition secondsSinceEpoch (t : Z) : Z := cdiv t kMicroSecondsPerSecond.
Definition fromUnixTime (t microseconds : Z) : Z := t * kMicroSecondsPerSecond + microseconds.
Definition swap (this that : Z) : Z * Z := (that, this).

(** [timeval] is what gettimeofday(2) delivered. *)
Definition now (timeval : Z * Z) : Z := fst timeval * kMicroSecondsPerSecond + snd timeval.

Definition toString (t : Z) : bytes :=
  let seconds := cdiv t kMicroSecondsPerSecond in
  let microseconds := cmod t kMicroSecondsPerSecond in
  snprintf (32 - 1) (dec seconds ++ lit "." ++ fmt_int true 6 microseconds).

Definition date_time_text (tm_time : tm) : bytes :=
  fmt_int false 4 (tm_year tm_time + 1900) ++ fmt_int true 2 (tm_mon tm_time + 1) ++
  fmt_int true 2 (tm_mday tm_time) ++ lit " " ++
  fmt_int true 2 (tm_hour tm_time) ++ lit ":" ++ fmt_int true 2 (tm_min tm_time) ++ lit ":" ++
  fmt_int true 2 (tm_sec tm_time).

Definition toFormattedString (showMicroseconds : bool) (t : Z) : bytes :=
  let seconds := cdiv t kMicroSecondsPerSecond in
  let tm_time := gmtime_r seconds in
  if showMicroseconds then
    let microseconds := cmod t kMicroSecondsPerSecond in
    snprintf 64 (date_time_text tm_time ++ lit "." ++ fmt_int true 6 microseconds)
  else snprintf 64 (date_time_text tm_time).

(** ** double *)
Abbreviation double := spec_float.

Definition double_of_int (z : Z) : double := binary_normalize 53 1024 z 0 false.
Definition double_mul (x y : double) : double := SFmul 53 1024 x y.
Definition double_div (x y : double) : double := SFdiv 53 1024 x y.
Definition double_zero : double := S754_zero false.

(** The integer part of a finite double. *)
Definition double_trunc (f : double) : option Z :=
  match f with
  | S754_zero _ => Some 0
  | S754_finite s m e =>
      let a := if 0 <=? e then Z.pos m * 2 ^ e else Z.pos m / 2 ^ (- e) in
      Some (if s then - a else a)
  | S754_infinity _ | S754_nan => None
  end.

Definition int64_of_double (f : double) : outcome Z :=
  match double_trunc f with
  | Some z => if (- 2 ^ 63 <=? z) && (z <? 2 ^ 63) then Ok z else Fault Overflow
  | None => Fault Overflow
  end.

Definition timeDifference (high low : Z) : double :=
  let diff := i64 (high - low) in
  double_div (double_of_int diff) (double_of_int kMicroSecondsPerSecond).

(** [seconds * kMicroSecondsPerSecond] cut to microseconds. *)
Definition interval_micros (seconds : double) : outcome Z :=
  int64_of_double (double_mul seconds (double_of_int kMicroSecondsPerSecond)).

(** A sum that does not fit in int64_t is a signed overflow. *)
Definition addTime (timestamp : Z) (seconds : double) : outcome Z :=
  delta ← interval_micros seconds;
  let sum := timestamp + delta in
  if (- 2 ^ 63 <=? sum) && (sum <? 2 ^ 63) then Ok sum else Fault Overflow.

Example addTime_half_second : addTime 5 (S754_finite false 1 (-1)) = Ok 500005.
Proof. vm_compute. reflexivity. Qed.
Example addTime_tenth :
  addTime 0 (double_div (double_of_int 1) (double_of_int 10)) = Ok 100000.
Proof. vm_compute. reflexivity. Qed.
Example timeDifference_example :
  timeDifference 1500000 0 = S754_finite false 6755399441055744 (-52).
Proof. vm_compute. reflexivity. Qed.

(** ** The text forms are faithful *)
Definition dot : ascii := code_char 46.

(** The reader of [toString]'s form. *)
Definition parse_seconds (l : bytes) : Z :=
  let k := find_char dot l in
  undec (ztake k l) * kMicroSecondsPerSecond + undec_nonneg (zdrop (k + 1) l).

Lemma quot_rem_nonneg t n : 0 <= t -> 0 < n -> cdiv t n = t / n /\ cmod t n = t mod n.
Proof. intros. rewrite Z.quot_div_nonneg, Z.rem_mod_nonneg by lia. done. Qed.

Lemma is_digit_not_dot c : is_digit c = true -> c <> dot.
Proof. unfold is_digit. intros H ->. vm_compute in H. discriminate. Qed.

Lemma dec_no_dot n : 0 <= n -> dot ∉ dec n.
Proof.
  intros H Hin. unfold dec in Hin. rewrite (proj2 (Z.ltb_ge _ _)) in Hin by lia.
  pose proof (dec_nonneg_digits n H) as Hd. rewrite Forall_forall in Hd.
  by apply (is_digit_not_dot dot (Hd _ Hin)).
Qed.

(** [toString] prints every representable time of the epoch and after it in
    full: reading the text back gives the timestamp, so its 31-byte buffer never
    cuts it. *)
Theorem toString_roundtrip t : 0 <= t < 2 ^ 63 -> parse_seconds (toString t) = t.
Proof.
  intros Ht. unfold toString. destruct (quot_rem_nonneg t kMicroSecondsPerSecond) as [-> ->];
    [lia|done|].
  set (s := t / kMicroSecondsPerSecond). set (u := t mod kMicroSecondsPerSecond).
  assert (0 <= s < 10 ^ 13 /\ 0 <= u < 10 ^ 6 /\ t = s * kMicroSecondsPerSecond + u) as (Hs & Hu & Htsu)
    by (subst s u; unfold kMicroSecondsPerSecond; div_lia).
  destruct (fmt_int_zero_small 6 u) as (Hlen & _ & Hval); [lia..|].
  assert (zlen (dec s) <= 13) as Hds.
  { unfold dec. rewrite (proj2 (Z.ltb_ge _ _)) by lia.
    pose proof (dec_nonneg_length s 13 ltac:(lia) ltac:(lia) ltac:(lia)). lia. }
  assert (zlen (lit ".") = 1) as Hdot by done.
  unfold snprintf. rewrite ztake_all by (rewrite !zlen_app, Hlen, Hdot; lia).
  unfold parse_seconds. cbv zeta. change (lit "." ++ fmt_int true 6 u) with (dot :: fmt_int true 6 u).
  rewrite find_char_app by (apply dec_no_dot; lia).
  rewrite ztake_app_exact, undec_dec by done.
  rewrite zdrop_app_cons, Hval. lia.
Qed.

Lemma toString_roundtrip_witness :
  parse_seconds (toString 1234567890000042) = 1234567890000042 /\
  toString 1234567890000042 = lit "1234567890.000042".
Proof.
  split; [|vm_compute; reflexivity].
  apply (toString_roundtrip 1234567890000042). lia.
Defined.

(** The reader of [toFormattedString]'s form: fixed columns. *)
Definition field (lo hi : Z) (l : bytes) : Z := undec_nonneg (zslice lo hi l).

Definition parse_formatted (l : bytes) : Z :=
  timegm (mkTm (field 15 17 l) (field 12 14 l) (field 9 11 l) (field 6 8 l) (field 4 6 l - 1)
            (field 0 4 l - 1900) 0 0 0 0 []) * kMicroSecondsPerSecond + field 18 24 l.

Lemma fmt_int_4 y : 1000 <= y < 10000 -> fmt_int false 4 y = fmt_int true 4 y.
Proof.
  intros H. unfold fmt_int. rewrite (proj2 (Z.ltb_ge _ _)) by lia. rewrite Z.abs_eq by lia.
  unfold dec. rewrite (proj2 (Z.ltb_ge _ _)) by lia.
  rewrite (dec_nonneg_exact_length y 4) by lia. done.
Qed.

(** A field of known width in front of the rest. *)
Lemma field_here f rest w v :
  zlen f = w -> undec_nonneg f = v -> field 0 w (f ++ rest) = v.
Proof.
  intros Hw Hv. unfold field, zslice. rewrite zdrop_0, Z.sub_0_r, ztake_app_exact; [done|lia].
Qed.

Lemma field_skip f rest lo hi :
  zlen f <= lo -> field lo hi (f ++ rest) = field (lo - zlen f) (hi - zlen f) rest.
Proof. intros H. unfold field. by rewrite zslice_app_r. Qed.

Lemma gmtime_fields t :
  0 <= t < 253402300800 ->
  let g := gmtime_r t in
  1970 <= tm_year g + 1900 < 10000 /\ 0 <= tm_mon g < 12 /\ 1 <= tm_mday g <= 31 /\
  0 <= tm_hour g < 24 /\ 0 <= tm_min g < 60 /\ 0 <= tm_sec g < 60.
Proof.
  intros Ht g. unfold g, gmtime_r.
  pose proof (days_of_civil_of_days (t / 86400 + epoch_days)) as H.
  destruct (civil_of_days _) as [[y m] d]. destruct H as [[Hm Hd] H].
  cbn [tm_year tm_mon tm_mday tm_hour tm_min tm_sec].
  pose proof (month_days_bounds y m).
  assert (719162 <= days_of_civil y m d < 3652059) as Hb
    by (rewrite H; replace epoch_days with 719162 by (vm_compute; reflexivity); clear - Ht; div_lia).
  assert (1970 <= y < 10000) as Hyear by (apply (year_bounds y m d); [done|exact Hb]).
  clear H Hb. split_and!; first [lia | clear - Ht; div_lia].
Qed.

Lemma date_time_text_fields g rest :
  1000 <= tm_year g + 1900 < 10000 -> 0 <= tm_mon g < 12 -> 1 <= tm_mday g <= 31 ->
  0 <= tm_hour g < 24 -> 0 <= tm_min g < 60 -> 0 <= tm_sec g < 60 ->
  zlen (date_time_text g) = 17 /\
  let l := date_time_text g ++ rest in
  field 0 4 l = tm_year g + 1900 /\ field 4 6 l = tm_mon g + 1 /\ field 6 8 l = tm_mday g /\
  field 9 11 l = tm_hour g /\ field 12 14 l = tm_min g /\ field 15 17 l = tm_sec g.
Proof.
  intros Hy Hmo Hd Hh Hmi Hs. unfold date_time_text. rewrite fmt_int_4 by done.
  destruct (fmt_int_zero_small 4 (tm_year g + 1900)) as (L1 & _ & V1); [lia..|].
  destruct (fmt_int_zero_small 2 (tm_mon g + 1)) as (L2 & _ & V2); [lia..|].
  destruct (fmt_int_zero_small 2 (tm_mday g)) as (L3 & _ & V3); [lia..|].
  destruct (fmt_int_zero_small 2 (tm_hour g)) as (L4 & _ & V4); [lia..|].
  destruct (fmt_int_zero_small 2 (tm_min g)) as (L5 & _ & V5); [lia..|].
  destruct (fmt_int_zero_small 2 (tm_sec g)) as (L6 & _ & V6); [lia..|].
  assert (zlen (lit " ") = 1 /\ zlen (lit ":") = 1) as [Ls Lc] by done.
  rewrite !zlen_app, L1, L2, L3, L4, L5, L6, Ls, Lc. split; [done|]. cbv zeta.
  rewrite <- !app_assoc.
  split_and!; repeat (rewrite field_skip by (rewrite ?L1, ?L2, ?L3, ?L4, ?L5, ?L6, ?Ls, ?Lc; lia));
    rewrite ?L1, ?L2, ?L3, ?L4, ?L5, ?L6, ?Ls, ?Lc; by apply field_here.
Qed.

Lemma timegm_fields g :
  timegm (mkTm (tm_sec g) (tm_min g) (tm_hour g) (tm_mday g) (tm_mon g + 1 - 1)
    (tm_year g + 1900 - 1900) 0 0 0 0 []) = timegm g.
Proof. unfold timegm. cbn [tm_year tm_mon tm_mday tm_hour tm_min tm_sec]. by rewrite !Z.add_simpl_r. Qed.

(** [toFormattedString] is faithful: reading the fixed columns of its text
    (date, time, microseconds) and counting the days of that Gregorian date
    gives the timestamp back, for every time from the epoch to the end of year
    9999. *)
Theorem toFormattedString_roundtrip t :
  0 <= t < 253402300800 * kMicroSecondsPerSecond ->
  parse_formatted (toFormattedString true t) = t.
Proof.
  intros Ht. unfold toFormattedString.
  destruct (quot_rem_nonneg t kMicroSecondsPerSecond) as [-> ->]; [lia|done|]. cbv zeta.
  set (s := t / kMicroSecondsPerSecond). set (u := t mod kMicroSecondsPerSecond).
  assert (0 <= s < 253402300800 /\ 0 <= u < 10 ^ 6 /\ t = s * kMicroSecondsPerSecond + u)
    as (Hs & Hu & Htsu) by (subst s u; unfold kMicroSecondsPerSecond in *; div_lia).
  destruct (gmtime_fields s Hs) as (Hy & Hmo & Hd & Hh & Hmi & Hse).
  destruct (fmt_int_zero_small 6 u) as (Lu & _ & Vu); [lia..|].
  destruct (date_time_text_fields (gmtime_r s) (lit "." ++ fmt_int true 6 u)) as [Hlen Hf]; [lia..|].
  destruct Hf as (F1 & F2 & F3 & F4 & F5 & F6).
  assert (zlen (lit ".") = 1) as Hdot by done.
  unfold snprintf. rewrite ztake_all by (rewrite !zlen_app, Hlen, Lu, Hdot; lia).
  unfold parse_formatted. rewrite F1, F2, F3, F4, F5, F6.
  rewrite field_skip, Hlen by lia. rewrite field_skip, Hdot by (rewrite ?Hdot; lia).
  rewrite <- (app_nil_r (fmt_int true 6 u)).
  replace (18 - 17 - 1) with 0 by lia. replace (24 - 17 - 1) with 6 by lia.
  rewrite (field_here _ [] 6 u Lu Vu).
  rewrite timegm_fields, timegm_gmtime. lia.
Qed.

Lemma toFormattedString_roundtrip_witness :
  parse_formatted (toFormattedString true 1709210096000789) = 1709210096000789 /\
  toFormattedString true 1709210096000789 = lit "20240229 12:34:56.000789".
Proof.
  split; [|vm_compute; reflexivity].
  apply (toFormattedString_roundtrip 1709210096000789). unfold kMicroSecondsPerSecond. lia.
Defined.

(** ** Intervals *)
Definition double_nonneg (f : double) : Prop :=
  match f with S754_zero _ => True | S754_finite s _ _ | S754_infinity s => s = false | S754_nan => False end.

Lemma binary_round_aux_sign sx mx ex lx f :
  binary_round_aux 53 1024 sx mx ex lx = f -> f <> S754_nan ->
  match f with S754_zero s | S754_finite s _ _ | S754_infinity s => s = sx | S754_nan => False end.
Proof.
  unfold binary_round_aux. destruct (shr_fexp _ _ _ _ _) as [mrs' e'].
  destruct (shr_fexp _ _ _ _ _) as [mrs'' e'']. intros <-.
  destruct (shr_m mrs''); [done| |done]. by destruct (_ <=? _).
Qed.

(** A positive interval is a non-negative number of microseconds. *)
Lemma interval_micros_nonneg seconds d :
  SFltb double_zero seconds = true -> interval_micros seconds = Ok d -> 0 <= d.
Proof.
  intros Hpos H. unfold interval_micros, int64_of_double in H.
  set (p := double_mul seconds _) in H.
  assert (p <> S754_nan -> double_nonneg p) as Hp.
  { intros Hn. unfold double_nonneg. subst p. unfold double_mul, SFmul in *.
    assert (double_of_int kMicroSecondsPerSecond = S754_finite false 8589934592000000 (-33)) as Hk
      by (vm_compute; reflexivity).
    rewrite Hk in *.
    destruct seconds as [s|s| |s m e]; try (vm_compute in Hpos; discriminate).
    destruct s; [vm_compute in Hpos; discriminate|].
      match type of Hn with ?f <> _ => pose proof (binary_round_aux_sign _ _ _ _ f eq_refl Hn) as Hsign;
        revert Hsign Hn; generalize f; intros [] Hsign Hn; simpl in *; congruence || done end. }
  destruct p as [s|s| |s m e]; simpl in H; try discriminate.
  - injection H as <-. lia.
  - specialize (Hp ltac:(discriminate)). simpl in Hp. subst s.
    destruct ((- 2 ^ 63 <=? _) && _) in H; [|discriminate]. injection H as <-.
    destruct (0 <=? e) eqn:E.
    + pose proof (Z.pow_nonneg 2 e). nia.
    + apply Z.div_pos; [lia|]. apply Z.pow_pos_nonneg; lia.
Qed.

(** Adding a positive interval never moves a timestamp back. *)
Lemma addTime_forward t seconds t' :
  SFltb double_zero seconds = true -> addTime t seconds = Ok t' -> t <= t'.
Proof.
  intros Hpos H. unfold addTime in H. apply outcome_bind_ok in H as (d & Hd & H).
  pose proof (interval_micros_nonneg _ _ Hpos Hd).
  cbv zeta in H. destruct (_ && _) in H; [|discriminate]. injection H as <-. lia.
Qed.
