(* ===== verification/TimerQueue.v ===== *)
(** * TimerQueue: net/Timer.h, Timer.cc, TimerId.h, TimerQueue.h, TimerQueue.cc

    The timers of an event loop: the set [timers_] of (expiration, Timer ptr) pairs,
    the set [activeTimers_] of (Timer ptr, sequence) pairs, the timers cancelled
    while the expired ones run, and the timerfd.  The heap of [Timer] objects is
    explicit: a pointer is a [Z], a deleted object is absent, a use of one is
    [UndefinedBehaviour].  The address [operator new] chooses comes from the
    environment; one that is live or not a user address stands for a failed
    allocation.  What a user's callback does (adding and cancelling timers) is an
    argument of [handleRead], one list of actions for each expired timer.

    A call of addTimer from another thread is two actions: it creates the Timer and
    queues addTimerInLoop, and later reads the sequence of the Timer for the id it
    returns.

    Theorems: the two sets stay in step and own the heap, so no assertion fails,
    none leaks, whatever the callbacks do, and the only use of a deleted timer is
    that late read of addTimer, when the loop has already run and deleted the Timer;
    [getExpired] takes exactly the timers that are due; one [handleRead] runs
    each due timer once in order and re-arms exactly the repeating, uncancelled
    ones; a queue that is not empty has its timerfd armed in time for the first
    timer. *)

From S2P Require Import Prelude StdContainers Format Calendar Timestamp.

(** ** Timer *)
Record Timer := mkTimer {
  callback_ : nat;
  expiration_ : Z;
  interval_ : double;
  repeat_ : bool;
  sequence_ : Z;
}.

Definition newTimer (cb : nat) (whenn : Z) (interval : double) (sequence : Z) : Timer :=
  mkTimer cb whenn interval (SFltb double_zero interval) sequence.

Definition restart (now : Z) (t : Timer) : outcome Timer :=
  expiration ← (if repeat_ t then addTime now (interval_ t) else Ok invalid);
  Ok (mkTimer (callback_ t) expiration (interval_ t) (repeat_ t) (sequence_ t)).

(** ** TimerQueue *)
Abbreviation Entry := (Z * Z)%type.
Abbreviation ActiveTimer := (Z * Z)%type.
Abbreviation TimerId := (Z * Z)%type.

Record TimerQueue := mkQueue {
  timers_ : list Entry;
  activeTimers_ : list ActiveTimer;
  callingExpiredTimers_ : bool;
  cancelingTimers_ : list ActiveTimer;
  heap : gmap Z Timer;             (* the live Timer objects *)
  s_numCreated_ : Z;               (* Timer::s_numCreated_, shared by all queues *)
  pendingAdds_ : list Z;           (* addTimerInLoop functors queued by other threads *)
  timerfd_ : option (Z * Z);       (* armed: the clock when set, microseconds to go *)
}.

Definition UINTPTR_MAX : Z := 2 ^ 64 - 1.

Definition with_sets (t a : list (Z * Z)) (q : TimerQueue) : TimerQueue :=
  mkQueue t a (callingExpiredTimers_ q) (cancelingTimers_ q) (heap q) (s_numCreated_ q)
    (pendingAdds_ q) (timerfd_ q).
Definition with_heap (h : gmap Z Timer) (q : TimerQueue) : TimerQueue :=
  mkQueue (timers_ q) (activeTimers_ q) (callingExpiredTimers_ q) (cancelingTimers_ q) h
    (s_numCreated_ q) (pendingAdds_ q) (timerfd_ q).
Definition with_calling (b : bool) (c : list ActiveTimer) (q : TimerQueue) : TimerQueue :=
  mkQueue (timers_ q) (activeTimers_ q) b c (heap q) (s_numCreated_ q) (pendingAdds_ q) (timerfd_ q).
Definition with_pending (l : list Z) (q : TimerQueue) : TimerQueue :=
  mkQueue (timers_ q) (activeTimers_ q) (callingExpiredTimers_ q) (cancelingTimers_ q) (heap q)
    (s_numCreated_ q) l (timerfd_ q).
Definition with_timerfd (f : option (Z * Z)) (q : TimerQueue) : TimerQueue :=
  mkQueue (timers_ q) (activeTimers_ q) (callingExpiredTimers_ q) (cancelingTimers_ q) (heap q)
    (s_numCreated_ q) (pendingAdds_ q) f.

Definition newTimerQueue : TimerQueue := mkQueue [] [] false [] ∅ 0 [] None.

(** *** The timerfd *)
Definition howMuchTimeFromNow (whenn now : Z) : Z * Z :=
  let microseconds := i64 (whenn - now) in
  let microseconds := if microseconds <? 100 then 100 else microseconds in
  (cdiv microseconds kMicroSecondsPerSecond, cmod microseconds kMicroSecondsPerSecond * 1000).

(** The itimerspec, set at clock [now], fires after its seconds and nanoseconds. *)
Definition resetTimerfd (expiration now : Z) (q : TimerQueue) : TimerQueue :=
  let '(tv_sec, tv_nsec) := howMuchTimeFromNow expiration now in
  with_timerfd (Some (now, tv_sec * kMicroSecondsPerSecond + tv_nsec / 1000)) q.

(** A one-shot timerfd whose time has come is read and stays disarmed; before
    that the read fails and is only logged. *)
Definition readTimerfd (now : Z) (q : TimerQueue) : TimerQueue :=
  match timerfd_ q with
  | Some (set_at, delay) => if set_at + delay <=? now then with_timerfd None q else q
  | None => q
  end.

(** *** Operations of the loop thread *)
Definition sizes_equal (q : TimerQueue) : outcome unit :=
  c_assert (zlen (timers_ q) =? zlen (activeTimers_ q)).

Definition deref (q : TimerQueue) (timer : Z) : outcome Timer :=
  get_or UndefinedBehaviour (heap q !! timer).

Definition insert (timer : Z) (q : TimerQueue) : outcome (bool * TimerQueue) :=
  sizes_equal q;;
  t ← deref q timer;
  let whenn := expiration_ t in
  let earliestChanged :=
    match timers_ q with
    | [] => true
    | e :: _ => whenn <? fst e
    end in
  let '(timers, new1) := set_insert (whenn, timer) (timers_ q) in
  c_assert new1;;
  let '(active, new2) := set_insert (timer, sequence_ t) (activeTimers_ q) in
  c_assert new2;;
  let q' := with_sets timers active q in
  sizes_equal q';;
  Ok (earliestChanged, q').

Definition addTimerInLoop (timer now : Z) (q : TimerQueue) : outcome TimerQueue :=
  '(earliestChanged, q) ← insert timer q;
  if earliestChanged : bool then
    t ← deref q timer;
    Ok (resetTimerfd (expiration_ t) now q)
  else Ok q.

Definition cancelInLoop (timerId : TimerId) (q : TimerQueue) : outcome TimerQueue :=
  sizes_equal q;;
  q' ←
    (if set_find timerId (activeTimers_ q) then
       let timer := fst timerId in
       t ← deref q timer;
       let '(timers, n) := set_erase (expiration_ t, timer) (timers_ q) in
       c_assert (n =? 1);;
       let '(active, _) := set_erase timerId (activeTimers_ q) in
       Ok (with_sets timers active (with_heap (delete timer (heap q)) q))
     else if callingExpiredTimers_ q then
       Ok (with_calling true (fst (set_insert timerId (cancelingTimers_ q))) q)
     else Ok q);
  sizes_equal q';;
  Ok q'.

(** [new Timer(cb, when, interval)]. *)
Definition createTimer (cb : nat) (whenn : Z) (interval : double) (addr : Z) (q : TimerQueue)
  : outcome TimerQueue :=
  if bool_decide (heap q !! addr = None) && (0 <? addr) && (addr <? UINTPTR_MAX) then
    let sequence := i64 (s_numCreated_ q + 1) in
    Ok (mkQueue (timers_ q) (activeTimers_ q) (callingExpiredTimers_ q) (cancelingTimers_ q)
          (<[addr := newTimer cb whenn interval sequence]> (heap q)) sequence (pendingAdds_ q)
          (timerfd_ q))
  else Fault BadAlloc.

(** [TimerId(timer, timer->sequence())]: the return of [addTimer] reads the Timer. *)
Definition timerIdOf (timer : Z) (q : TimerQueue) : outcome TimerId :=
  t ← deref q timer; Ok (timer, sequence_ t).

(** [addTimer] called in the loop thread: [runInLoop] runs the functor at once. *)
Definition addTimer (cb : nat) (whenn : Z) (interval : double) (addr now : Z) (q : TimerQueue)
  : outcome (TimerId * TimerQueue) :=
  q ← createTimer cb whenn interval addr q;
  q ← addTimerInLoop addr now q;
  id ← timerIdOf addr q;
  Ok (id, q).

(** [addTimer] called in another thread, up to its return: the functor waits in the
    loop's queue. *)
Definition queueTimer (cb : nat) (whenn : Z) (interval : double) (addr : Z) (q : TimerQueue) : outcome TimerQueue :=
  q ← createTimer cb whenn interval addr q;
  Ok (with_pending (pendingAdds_ q ++ [addr]) q).

(** A Timer is created for another queue. *)
Definition countTimer (q : TimerQueue) : TimerQueue :=
  mkQueue (timers_ q) (activeTimers_ q) (callingExpiredTimers_ q) (cancelingTimers_ q) (heap q)
    (i64 (s_numCreated_ q + 1)) (pendingAdds_ q) (timerfd_ q).

(** The loop runs the oldest of those functors. *)
Definition runPendingAdd (now : Z) (q : TimerQueue) : outcome TimerQueue :=
  match pendingAdds_ q with
  | [] => Ok q
  | addr :: rest => addTimerInLoop addr now (with_pending rest q)
  end.

(** *** Expiry *)
Definition eraseActive (q : TimerQueue) (it : Entry) : outcome TimerQueue :=
  t ← deref q (snd it);
  let '(active, n) := set_erase (snd it, sequence_ t) (activeTimers_ q) in
  c_assert (n =? 1);;
  Ok (with_sets (timers_ q) active q).

Definition getExpired (now : Z) (q : TimerQueue) : outcome (list Entry * TimerQueue) :=
  sizes_equal q;;
  let '(expired, rest) := set_split_lower (now, UINTPTR_MAX) (timers_ q) in
  c_assert (match rest with [] => true | e :: _ => now <? fst e end);;
  q ← foldM eraseActive (with_sets rest (activeTimers_ q) q) expired;
  sizes_equal q;;
  Ok (expired, q).

(** What a callback may do to the queue. *)
Inductive action :=
| AddTimer (cb : nat) (whenn : Z) (interval : double) (addr now : Z)
| Cancel (timerId : TimerId).

#[export] Instance double_eq_dec : EqDecision double.
Proof. solve_decision. Defined.
#[export] Instance action_eq_dec : EqDecision action.
Proof. solve_decision. Defined.

Definition perform (q : TimerQueue) (a : action) : outcome TimerQueue :=
  match a with
  | AddTimer cb whenn interval addr now => snd <$> addTimer cb whenn interval addr now q
  | Cancel timerId => cancelInLoop timerId q
  end.

(** [it.second->run()]: the callback's name goes to the trace, then it acts. *)
Definition runTimer (s : list nat * TimerQueue) (it : Entry * list action)
  : outcome (list nat * TimerQueue) :=
  let '(trace, q) := s in
  t ← deref q (snd (fst it));
  q ← foldM perform q (snd it);
  Ok (trace ++ [callback_ t], q).

(** The i-th expired callback performs the i-th list; none beyond them. *)
Definition with_actions (expired : list Entry) (acts : list (list action)) : list (Entry * list action) :=
  imap (fun i it => (it, default [] (acts !! i))) expired.

Definition resetOne (now : Z) (q : TimerQueue) (it : Entry) : outcome TimerQueue :=
  let timer := snd it in
  t ← deref q timer;
  if repeat_ t && negb (set_find (timer, sequence_ t) (cancelingTimers_ q)) then
    t' ← restart now t;
    snd <$> insert timer (with_heap (<[timer := t']> (heap q)) q)
  else Ok (with_heap (delete timer (heap q)) q).

Definition reset (expired : list Entry) (now clock : Z) (q : TimerQueue) : outcome TimerQueue :=
  q ← foldM (resetOne now) q expired;
  nextExpire ← match timers_ q with
               | [] => Ok invalid
               | e :: _ => t ← deref q (snd e); Ok (expiration_ t)
               end;
  Ok (if valid nextExpire then resetTimerfd nextExpire clock q else q).

(** [now] is the clock at the start and [clock] the clock when the timerfd is
    set again; the trace lists the callbacks run. *)
Definition handleRead (now clock : Z) (acts : list (list action)) (q : TimerQueue)
  : outcome (list nat * TimerQueue) :=
  let q := readTimerfd now q in
  '(expired, q) ← getExpired now q;
  let q := with_calling true [] q in
  '(trace, q) ← foldM runTimer ([], q) (with_actions expired acts);
  let q := with_calling false (cancelingTimers_ q) q in
  q ← reset expired now clock q;
  Ok (trace, q).

(** [~TimerQueue]: the timers still queued are deleted (the channel and the
    descriptor are the EventLoop's). *)
Definition destroy (q : TimerQueue) : gmap Z Timer :=
  fold_left (fun h e => delete (snd e) h) (timers_ q) (heap q).

(** ** Events of the loop thread and of other threads

    [addTimer] of another thread is two events, [OAddElsewhere] and [OReturnId]: it
    reads the Timer after it has handed it to the loop. *)
Inductive op :=
| OAction (a : action)
| OAddElsewhere (cb : nat) (whenn : Z) (interval : double) (addr : Z)
| OReturnId (addr : Z)
| OOtherQueue
| ORunPendingAdd (now : Z)
| OHandleRead (now clock : Z) (acts : list (list action)).

Definition step (q : TimerQueue) (o : op) : outcome TimerQueue :=
  match o with
  | OAction a => perform q a
  | OAddElsewhere cb whenn interval addr => queueTimer cb whenn interval addr q
  | OReturnId addr => _ ← timerIdOf addr q; Ok q
  | OOtherQueue => Ok (countTimer q)
  | ORunPendingAdd now => runPendingAdd now q
  | OHandleRead now clock acts => snd <$> handleRead now clock acts q
  end.

(** The whole of [addTimer] in another thread, [meanwhile] being what happens between
    its hand-over of the Timer and its return. *)
Definition addTimer_other_thread (cb : nat) (whenn : Z) (interval : double) (addr : Z) (meanwhile : list op)
  (q : TimerQueue) : outcome (TimerId * TimerQueue) :=
  q ← queueTimer cb whenn interval addr q;
  q ← foldM step q meanwhile;
  id ← timerIdOf addr q;
  Ok (id, q).

(** ** The invariant *)
Definition is_active (q : TimerQueue) (a : Z) : Prop := exists s, (a, s) ∈ activeTimers_ q.

(** The two sets describe the same live timers. *)
Record sync (q : TimerQueue) : Prop := {
  sy_timers : set_sorted (timers_ q);
  sy_active : set_sorted (activeTimers_ q);
  sy_cancel : set_sorted (cancelingTimers_ q);
  sy_size : zlen (timers_ q) = zlen (activeTimers_ q);
  sy_entry : forall w a, (w, a) ∈ timers_ q <->
    exists t, heap q !! a = Some t /\ expiration_ t = w /\ (a, sequence_ t) ∈ activeTimers_ q;
  sy_act : forall a s, (a, s) ∈ activeTimers_ q ->
    exists t, heap q !! a = Some t /\ sequence_ t = s;
  sy_addr : forall a t, heap q !! a = Some t -> 0 < a < UINTPTR_MAX;
}.

(** Every live timer is in the sets or is one of [others], never both. *)
Record owned (others : list Z) (q : TimerQueue) : Prop := {
  ow_nodup : NoDup others;
  ow_live : forall a, a ∈ others -> is_Some (heap q !! a) /\ ~ is_active q a;
  ow_all : forall a t, heap q !! a = Some t -> is_active q a \/ a ∈ others;
}.

(** [expired] are the timers whose callbacks are being run. *)
Definition inv (expired : list Z) (q : TimerQueue) : Prop :=
  sync q /\ owned (expired ++ pendingAdds_ q) q.

(** The only faults left: the allocator's and arithmetic beyond int64_t. *)
Definition env_fault (e : fault) : Prop := e = BadAlloc \/ e = Overflow.

Lemma newTimerQueue_inv : inv [] newTimerQueue.
Proof.
  split; constructor; simpl; try (by constructor); try done; set_solver.
Qed.

Lemma sizes_equal_ok q : sync q -> sizes_equal q = Ok tt.
Proof. intros H. unfold sizes_equal. by rewrite (sy_size _ H), Z.eqb_refl. Qed.

(** *** [insert] puts a live timer that is not active into both sets *)
Definition inserted (a : Z) (t : Timer) (q : TimerQueue) : TimerQueue :=
  with_sets (fst (set_insert (expiration_ t, a) (timers_ q)))
            (fst (set_insert (a, sequence_ t) (activeTimers_ q))) q.

Definition is_earliest (whenn : Z) (q : TimerQueue) : bool :=
  match timers_ q with [] => true | e :: _ => whenn <? fst e end.

Lemma insert_spec a t q :
  sync q -> heap q !! a = Some t -> ~ is_active q a ->
  insert a q = Ok (is_earliest (expiration_ t) q, inserted a t q) /\
  sync (inserted a t q) /\
  (forall w b, (w, b) ∈ timers_ (inserted a t q) <-> (w, b) = (expiration_ t, a) \/ (w, b) ∈ timers_ q) /\
  (forall b, is_active (inserted a t q) b <-> b = a \/ is_active q b).
Proof.
  intros H Ht Hn.
  assert ((expiration_ t, a) ∉ timers_ q) as Hnt.
  { intros (t' & _ & _ & Hin)%(sy_entry _ H). by apply Hn; eexists. }
  assert ((a, sequence_ t) ∉ activeTimers_ q) as Hna by (intros Hin; by apply Hn; eexists).
  destruct (set_insert_spec (expiration_ t, a) (timers_ q) (sy_timers _ H)) as (T1 & T2 & T3 & T4).
  destruct (set_insert_spec (a, sequence_ t) (activeTimers_ q) (sy_active _ H)) as (A1 & A2 & A3 & A4).
  pose proof (proj2 T3 Hnt) as HT. pose proof (proj2 A3 Hna) as HA.
  assert (sync (inserted a t q)) as Hs.
  { constructor; simpl; try apply H; try done.
    - rewrite T4, A4, HT, HA, (sy_size _ H). lia.
    - intros w b. rewrite T2. setoid_rewrite A2. split.
      + intros [[= -> ->]|(t' & E1 & E2 & E3)%(sy_entry _ H)]; eauto 8.
      + intros (t' & E1 & E2 & [[= -> _]|E3]); [left; congruence|].
        right. apply (sy_entry _ H). eauto.
    - intros b s. rewrite A2. intros [[= -> ->]|E]; [eauto|by apply (sy_act _ H)]. }
  split; [|split; [done|split; [intros w b; apply T2|]]].
  - unfold insert. rewrite sizes_equal_ok by done. cbn [mbind outcome_bind]. unfold deref. rewrite Ht.
    cbn [get_or mbind outcome_bind].
    destruct (set_insert (expiration_ t, a) (timers_ q)) as [ts n1] eqn:ET. simpl in HT. subst n1.
    destruct (set_insert (a, sequence_ t) (activeTimers_ q)) as [ac n2] eqn:EA. simpl in HA. subst n2.
    cbn [c_assert mbind outcome_bind]. unfold inserted in *. rewrite ET, EA in *. simpl fst in *.
    by rewrite sizes_equal_ok.
  - intros b. unfold is_active; simpl. setoid_rewrite A2. split.
    + intros [s [[= -> _]|E]]; eauto.
    + intros [->|[s E]]; eauto.
Qed.

(** *** Ownership moves with the operations *)
Lemma owned_perm l1 l2 q : l1 ≡ₚ l2 -> owned l1 q -> owned l2 q.
Proof.
  intros Hp [H1 H2 H3]. constructor; [by rewrite <- Hp|..].
  - intros a Ha. apply H2. by rewrite Hp.
  - intros a t Ht. rewrite <- Hp. eauto.
Qed.

(** A timer handed to the sets. *)
Lemma insert_owned a t others q :
  sync q -> owned (a :: others) q -> heap q !! a = Some t -> owned others (inserted a t q).
Proof.
  intros H [H1 H2 H3] Ht. apply NoDup_cons in H1 as [Hn H1].
  destruct (insert_spec a t q H Ht) as (_ & _ & _ & Hact); [apply H2; left|].
  constructor; [done|..].
  - intros b Hb. rewrite Hact. destruct (H2 b ltac:(by right)) as [Hl Hna].
    split; [done|]. intros [->|?]; done.
  - intros b t' Hb. rewrite Hact. destruct (H3 b t' Hb) as [?|[->|?]%elem_of_cons]; auto.
Qed.

Lemma addTimerInLoop_spec a t now q :
  sync q -> heap q !! a = Some t -> ~ is_active q a ->
  addTimerInLoop a now q =
    Ok (if is_earliest (expiration_ t) q
        then resetTimerfd (expiration_ t) now (inserted a t q) else inserted a t q).
Proof.
  intros H Ht Hn. destruct (insert_spec a t q H Ht Hn) as (E & _).
  unfold addTimerInLoop. rewrite E. cbn [mbind outcome_bind].
  destruct (is_earliest _ _); [|done]. unfold deref. simpl. by rewrite Ht.
Qed.

(** The timerfd is not part of the invariant. *)
Lemma sync_timerfd f q : sync q -> sync (with_timerfd f q).
Proof. intros []. by constructor. Qed.
Lemma owned_timerfd others f q : owned others q -> owned others (with_timerfd f q).
Proof. intros []. by constructor. Qed.

Lemma resetTimerfd_inv expired e c q : inv expired q -> inv expired (resetTimerfd e c q).
Proof.
  intros [Hs Ho]. unfold resetTimerfd. destruct (howMuchTimeFromNow e c).
  split; [by apply sync_timerfd|by apply owned_timerfd].
Qed.

Lemma addTimerInLoop_inv a now expired q :
  sync q -> owned (a :: expired ++ pendingAdds_ q) q ->
  exists q', addTimerInLoop a now q = Ok q' /\ inv expired q'.
Proof.
  intros Hs Ho. destruct (ow_live _ _ Ho a) as [[t Ht] Hn]; [left|].
  rewrite (addTimerInLoop_spec a t) by done. eexists; split; [done|].
  assert (inv expired (inserted a t q)) as Hi.
  { split; [by apply insert_spec|]. by apply insert_owned. }
  destruct (is_earliest _ _); [by apply resetTimerfd_inv|done].
Qed.

(** After [addTimerInLoop] the Timer can be read. *)
Lemma addTimerInLoop_id a now expired q :
  sync q -> owned (a :: expired ++ pendingAdds_ q) q ->
  exists q' t, addTimerInLoop a now q = Ok q' /\ timerIdOf a q' = Ok (a, sequence_ t) /\ heap q !! a = Some t /\ inv expired q'.
Proof.
  intros Hs Ho. destruct (ow_live _ _ Ho a) as [[t Ht] Hn]; [left|].
  destruct (addTimerInLoop_inv a now expired q Hs Ho) as (q' & E & Hi). exists q', t. split; [done|].
  rewrite (addTimerInLoop_spec a t) in E by done. injection E as <-. split; [|done].
  unfold timerIdOf, deref, resetTimerfd. destruct (howMuchTimeFromNow _ _), (is_earliest _ _); simpl; by rewrite Ht.
Qed.

Lemma createTimer_inv cb whenn interval addr expired q :
  inv expired q ->
  post (fun q' => sync q' /\ owned (addr :: expired ++ pendingAdds_ q') q' /\ heap q !! addr = None /\
    timers_ q' = timers_ q /\ timerfd_ q' = timerfd_ q /\ pendingAdds_ q' = pendingAdds_ q /\
    callingExpiredTimers_ q' = callingExpiredTimers_ q /\
    heap q' = <[addr := newTimer cb whenn interval (s_numCreated_ q')]> (heap q))
    env_fault (createTimer cb whenn interval addr q).
Proof.
  intros [[H1 H2 H3 H4 H5 H6 H7] [O1 O2 O3]]. unfold createTimer.
  destruct (bool_decide (heap q !! addr = None)) eqn:Hf; [|by left].
  apply bool_decide_eq_true in Hf.
  destruct ((0 <? addr) && (addr <? UINTPTR_MAX)) eqn:Hr; rewrite andb_true_l, Hr; [|by left].
  assert (forall a t, heap q !! a = Some t -> a <> addr) as Hne by (intros a t Ha ->; congruence).
  simpl. split; [|split; [|done]].
  - constructor; simpl; try done.
    + intros w a. rewrite H5. split; intros (t & Ht & Hrest).
      * exists t. rewrite lookup_insert_ne by (intros ->; congruence). eauto.
      * exists t. destruct (decide (addr = a)) as [->|]; [|rewrite lookup_insert_ne in Ht by done; eauto].
        destruct Hrest as [_ Hin]. apply H6 in Hin as (t' & Ht' & _). congruence.
    + intros a s Hin. destruct (H6 _ _ Hin) as (t & Ht & Hseq). exists t.
      rewrite lookup_insert_ne; [done|]. intros ->. congruence.
    + intros a t. destruct (decide (addr = a)) as [->|]; [lia|rewrite lookup_insert_ne by done; apply H7].
  - constructor; simpl.
    + apply NoDup_cons. split; [|done]. intros Hin. destruct (O2 _ Hin) as [[t Ht] _]. congruence.
    + intros a [->|Ha]%elem_of_cons.
      * rewrite lookup_insert_eq. split; [by eexists|]. intros [s Hin]. simpl in Hin.
        apply H6 in Hin as (t' & Ht' & _). congruence.
      * destruct (O2 a Ha) as [[t Ht] Hn]. rewrite lookup_insert_ne by (intros ->; congruence). eauto.
    + intros a t. destruct (decide (addr = a)) as [->|]; [intros; right; left|].
      rewrite lookup_insert_ne by done. intros Ht. destruct (O3 a t Ht) as [?|?]; [by left|right; by right].
Qed.

(** *** [cancelInLoop] *)
Lemma cancelInLoop_spec id q :
  sync q ->
  if set_find id (activeTimers_ q) then
    exists t, heap q !! fst id = Some t /\ sequence_ t = snd id /\
      let q' := with_sets (fst (set_erase (expiration_ t, fst id) (timers_ q)))
                  (fst (set_erase id (activeTimers_ q))) (with_heap (delete (fst id) (heap q)) q) in
      cancelInLoop id q = Ok q' /\ sync q'
  else
    let q' := if callingExpiredTimers_ q
              then with_calling true (fst (set_insert id (cancelingTimers_ q))) q else q in
    cancelInLoop id q = Ok q' /\ sync q'.
Proof.
  intros H. unfold cancelInLoop. rewrite sizes_equal_ok by done. cbn [mbind outcome_bind].
  destruct (set_find id (activeTimers_ q)) eqn:Ef.
  - apply (set_find_spec _ _ (sy_active _ H)) in Ef as Hin. destruct id as [a s]; simpl fst; simpl snd.
    destruct (sy_act _ H _ _ Hin) as (t & Ht & Hseq). exists t. do 2 (split; [done|]).
    assert ((expiration_ t, a) ∈ timers_ q) as Hent by (apply (sy_entry _ H); exists t; by rewrite Hseq).
    unfold deref. rewrite Ht. cbn [get_or mbind outcome_bind].
    destruct (set_erase_spec (expiration_ t, a) (timers_ q) (sy_timers _ H)) as (T1 & T2 & T3 & T4).
    destruct (set_erase_spec (a, s) (activeTimers_ q) (sy_active _ H)) as (A1 & A2 & A3 & A4).
    rewrite (proj2 (set_find_spec _ _ (sy_timers _ H)) Hent) in T3. rewrite Ef in A3.
    destruct (set_erase (expiration_ t, a) (timers_ q)) as [ts n1]. simpl in T1, T2, T3, T4. subst n1.
    destruct (set_erase (a, s) (activeTimers_ q)) as [ac n2]. simpl in A1, A2, A3, A4. subst n2.
    cbn [c_assert Z.eqb Pos.eqb mbind outcome_bind fst].
    match goal with |- context [Ok ?q'] => assert (sync q') as Hs end.
    { constructor; simpl; try done; try apply H.
      - rewrite T4, A4, (sy_size _ H). lia.
      - intros w b. rewrite T2, (sy_entry _ H). split.
        + intros (Hne & t' & Ht' & Hw & Hb). exists t'.
          assert (b <> a) as Hba by (intros ->; apply Hne; congruence).
          rewrite lookup_delete_ne by done. do 2 (split; [done|]). rewrite A2. split; [congruence|done].
        + intros (t' & Ht' & Hw & Hb). apply A2 in Hb as [Hne Hb].
          assert (b <> a) as Hba by (intros ->; by rewrite lookup_delete_eq in Ht').
          rewrite lookup_delete_ne in Ht' by done. split; [congruence|eauto].
      - intros b s' [Hne Hb]%A2. destruct (sy_act _ H _ _ Hb) as (t' & Ht' & Hs').
        exists t'. rewrite lookup_delete_ne; [done|]. intros <-. congruence.
      - intros b t'. destruct (decide (b = a)) as [->|]; [by rewrite lookup_delete_eq|].
        rewrite lookup_delete_ne by done. apply (sy_addr _ H). }
    split; [|exact Hs]. by rewrite sizes_equal_ok.
  - destruct (callingExpiredTimers_ q) eqn:Ec; cbn [mbind outcome_bind].
    + match goal with |- _ /\ sync ?q' => assert (sync q') as Hs end.
      { constructor; simpl; try apply H. by apply set_insert_spec, H. }
      split; [|exact Hs]. by rewrite sizes_equal_ok.
    + by rewrite sizes_equal_ok.
Qed.

Lemma cancelInLoop_inv id expired q :
  inv expired q -> exists q', cancelInLoop id q = Ok q' /\ inv expired q'.
Proof.
  intros [H [O1 O2 O3]]. pose proof (cancelInLoop_spec id q H) as Hc.
  destruct (set_find id (activeTimers_ q)) eqn:Ef.
  - destruct Hc as (t & Ht & Hseq & Hc & Hs). eexists; split; [exact Hc|]. split; [exact Hs|].
    apply (set_find_spec _ _ (sy_active _ H)) in Ef. destruct id as [a s]; simpl in *.
    assert (forall b, b <> a -> is_active q b ->
      is_active (with_sets (fst (set_erase (expiration_ t, a) (timers_ q)))
        (fst (set_erase (a, s) (activeTimers_ q))) (with_heap (delete a (heap q)) q)) b) as Hact.
    { intros b Hb [s' Hs']. exists s'. simpl. apply (set_erase_spec (a, s) _ (sy_active _ H)).
      split; [congruence|done]. }
    constructor; simpl; [done|..].
    + intros b Hb. destruct (O2 b Hb) as [Hl Hn].
      assert (b <> a) by (intros ->; apply Hn; by eexists). rewrite lookup_delete_ne by done.
      split; [done|]. intros [s' Hs']. simpl in Hs'.
      apply (set_erase_spec (a, s) _ (sy_active _ H)) in Hs' as [_ Hs']. apply Hn. by eexists.
    + intros b t' Hb. assert (b <> a) by (intros ->; by rewrite lookup_delete_eq in Hb).
      rewrite lookup_delete_ne in Hb by done. destruct (O3 b t' Hb) as [?|?]; auto.
  - destruct Hc as [Hc Hs]. eexists; split; [exact Hc|]. split; [exact Hs|].
    destruct (callingExpiredTimers_ q); by constructor.
Qed.

Lemma perform_inv expired q a : inv expired q -> post (inv expired) env_fault (perform q a).
Proof.
  intros H. destruct a as [cb whenn interval addr now|id]; simpl.
  - unfold addTimer. eapply (post_fmap (fun r => inv expired (snd r))); [|done].
    eapply post_bind; [by apply createTimer_inv|]. intros q1 _ (Hs & Ho & _).
    destruct (addTimerInLoop_id addr now expired q1 Hs Ho) as (q2 & t & -> & Hid & _ & Hi).
    cbn [mbind outcome_bind]. by rewrite Hid.
  - destruct (cancelInLoop_inv id expired q H) as (q' & -> & Hi). done.
Qed.

(** *** [getExpired] *)
Lemma entry_unique q w1 w2 a :
  sync q -> (w1, a) ∈ timers_ q -> (w2, a) ∈ timers_ q -> w1 = w2.
Proof.
  intros H (t1 & E1 & <- & _)%(sy_entry _ H) (t2 & E2 & <- & _)%(sy_entry _ H). congruence.
Qed.

Lemma snd_NoDup (l : list Entry) :
  NoDup l -> (forall w1 w2 a, (w1, a) ∈ l -> (w2, a) ∈ l -> w1 = w2) -> NoDup (map snd l).
Proof.
  induction 1 as [|[w a] l Hn Hnd IH]; intros Hu; simpl; constructor.
  - intros Hin. apply list_elem_of_fmap in Hin as ([w' a'] & Ha & Hin). simpl in Ha. subst a'.
    assert (w = w') as -> by (eapply Hu; [left|by right]). done.
  - apply IH. intros w1 w2 b H1 H2. eapply Hu; by right.
Qed.

(** The state between the split and the end of the erasing loop. *)
Definition erasing (q : TimerQueue) (rest : list Entry) (todo : list Entry) (q' : TimerQueue) : Prop :=
  exists ac, q' = with_sets rest ac q /\ set_sorted ac /\ zlen ac = zlen todo + zlen rest /\
    NoDup (todo ++ rest) /\ (forall x, x ∈ todo ++ rest -> x ∈ timers_ q) /\
    forall a s, (a, s) ∈ ac <->
      exists t, heap q !! a = Some t /\ sequence_ t = s /\ (expiration_ t, a) ∈ todo ++ rest.

Lemma eraseActive_step q rest x todo q' :
  sync q -> erasing q rest (x :: todo) q' ->
  exists q'', eraseActive q' x = Ok q'' /\ erasing q rest todo q''.
Proof.
  intros H (ac & -> & Hsort & Hlen & Hnd & Hsub & Hac). destruct x as [w a].
  assert ((w, a) ∈ timers_ q) as Hin by (apply Hsub; left).
  apply (sy_entry _ H) in Hin as (t & Ht & <- & _).
  assert ((a, sequence_ t) ∈ ac) as Ha by (apply Hac; exists t; do 2 (split; [done|]); left).
  unfold eraseActive, deref; simpl. rewrite Ht. cbn [get_or mbind outcome_bind].
  destruct (set_erase_spec (a, sequence_ t) ac Hsort) as (A1 & A2 & A3 & A4).
  rewrite (proj2 (set_find_spec _ _ Hsort) Ha) in A3.
  destruct (set_erase (a, sequence_ t) ac) as [ac' n]. simpl in A1, A2, A3, A4. subst n.
  eexists; split; [done|]. exists ac'. apply NoDup_cons in Hnd as [Hn Hnd].
  split; [done|]. split; [done|]. split; [rewrite zlen_cons in Hlen; lia|]. split; [done|].
  split; [intros x Hx; apply Hsub; by right|].
  intros b s. rewrite A2, Hac. split.
  - intros (Hne & t' & Ht' & Hs & [Heq|Hin]%elem_of_cons); [|eauto].
    injection Heq as Hw ->. exfalso. apply Hne. congruence.
  - intros (t' & Ht' & Hs & Hin). split.
    + intros [= -> ->]. assert (t' = t) as -> by congruence. done.
    + exists t'. do 2 (split; [done|]). by right.
Qed.

(** The addresses with an active timer are those of the entries of [timers_]. *)
Lemma active_entry q a : sync q -> is_active q a <-> exists w, (w, a) ∈ timers_ q.
Proof.
  intros H. split.
  - intros [s Hin]. destruct (sy_act _ H _ _ Hin) as (t & Ht & Hsq). exists (expiration_ t).
    apply (sy_entry _ H). exists t. by rewrite Hsq.
  - intros [w Hin]. apply (sy_entry _ H) in Hin as (t & _ & _ & Hin). by eexists.
Qed.

(** The sentry splits the timers into those due at [now] and the later ones. *)
Lemma due_bounds now q expired rest :
  sync q -> set_split_lower (now, UINTPTR_MAX) (timers_ q) = (expired, rest) ->
  timers_ q = expired ++ rest /\
  (forall e, e ∈ expired -> fst e <= now) /\ (forall e, e ∈ rest -> now < fst e).
Proof.
  intros H Es.
  destruct (set_split_lower_spec (now, UINTPTR_MAX) (timers_ q) (sy_timers _ H)) as (E1 & E2 & E3).
  rewrite Es in E1, E2, E3. simpl in E1, E2, E3. split; [done|]. split; intros [w a] He.
  - specialize (E2 _ He). cbn in E2. unfold pair_ltb in E2. cbn in E2. cbn. lia.
  - specialize (E3 _ He). cbn in E3. unfold pair_ltb in E3. cbn in E3. cbn.
    assert (a < UINTPTR_MAX); [|lia].
    assert ((w, a) ∈ timers_ q) as Hin by (rewrite E1; set_solver).
    apply (sy_entry _ H) in Hin as (t & Ht & _). apply (sy_addr _ H) in Ht. lia.
Qed.

Lemma erasing_start q expired rest :
  sync q -> timers_ q = expired ++ rest ->
  erasing q rest expired (with_sets rest (activeTimers_ q) q).
Proof.
  intros H E1. pose proof (set_sorted_NoDup _ (sy_timers _ H)) as Hnd. rewrite E1 in Hnd.
  exists (activeTimers_ q). split; [done|]. split; [apply H|].
  split; [rewrite <- (sy_size _ H), E1, zlen_app; done|]. split; [done|].
  split; [by rewrite E1|]. rewrite <- E1. intros a s. split.
  - intros Hin. destruct (sy_act _ H _ _ Hin) as (t & Ht & Hs). exists t.
    do 2 (split; [done|]). apply (sy_entry _ H). exists t. by rewrite Hs.
  - intros (t & Ht & <- & Hin). apply (sy_entry _ H) in Hin as (t' & Ht' & _ & Hin). congruence.
Qed.

Lemma erasing_loop q rest expired q0 :
  sync q -> erasing q rest expired q0 ->
  exists q', foldM eraseActive q0 expired = Ok q' /\ erasing q rest [] q'.
Proof.
  intros H. revert q0. induction expired as [|x expired IH]; intros q0 H0; simpl; [eauto|].
  destruct (eraseActive_step q rest x expired q0 H H0) as (q1 & -> & H1). simpl. by apply IH.
Qed.

(** Once every expired entry is erased the two sets agree on the later timers. *)
Lemma erasing_end q expired rest q' :
  sync q -> timers_ q = expired ++ rest -> erasing q rest [] q' ->
  exists ac, q' = with_sets rest ac q /\ sync (with_sets rest ac q).
Proof.
  intros H E1 (ac & -> & Hsort & Hlen & _ & _ & Hac). simpl app in Hac.
  change (zlen ac = zlen rest) in Hlen. exists ac. split; [done|].
  pose proof (sy_timers _ H) as Ht. rewrite E1 in Ht. apply set_sorted_app in Ht as (_ & Hr & _).
  constructor; simpl; try done; try apply H.
  - intros w a. split.
    + intros Hin. assert ((w, a) ∈ timers_ q) as Hin' by (rewrite E1; set_solver).
      apply (sy_entry _ H) in Hin' as (t & Ht & <- & _). exists t. do 2 (split; [done|]).
      apply Hac. eauto.
    + intros (t & Ht & <- & Hin). apply Hac in Hin as (t' & Ht' & _ & Hin). congruence.
  - intros a s Hin. apply Hac in Hin as (t & Ht & Hs & _). eauto.
Qed.

Lemma getExpired_spec now q :
  sync q ->
  exists rest ac, 
    let expired := fst (set_split_lower (now, UINTPTR_MAX) (timers_ q)) in
    getExpired now q = Ok (expired, with_sets rest ac q) /\ sync (with_sets rest ac q) /\
    timers_ q = expired ++ rest /\
    (forall e, e ∈ expired -> fst e <= now) /\ (forall e, e ∈ rest -> now < fst e) /\
    NoDup (map snd expired) /\
    (forall a, is_active q a <-> a ∈ map snd expired \/ is_active (with_sets rest ac q) a) /\
    (forall a, a ∈ map snd expired -> ~ is_active (with_sets rest ac q) a).
Proof.
  intros H. unfold getExpired. rewrite sizes_equal_ok by done. cbn [mbind outcome_bind].
  destruct (set_split_lower (now, UINTPTR_MAX) (timers_ q)) as [expired rest] eqn:Es.
  destruct (due_bounds now q expired rest H Es) as (E1 & Hexp & Hrest).
  assert (c_assert (match rest with [] => true | e :: _ => now <? fst e end) = Ok tt) as ->.
  { destruct rest as [|e rest]; [done|]. specialize (Hrest e ltac:(left)). unfold c_assert. by rewrite (proj2 (Z.ltb_lt _ _)) by lia. }
  cbn [mbind outcome_bind].
  destruct (erasing_loop q rest expired _ H (erasing_start q expired rest H E1)) as (q' & -> & Hend).
  destruct (erasing_end q expired rest q' H E1 Hend) as (ac & -> & Hs).
  cbn [mbind outcome_bind]. exists rest, ac. cbv zeta. cbn [fst].
  split; [by rewrite sizes_equal_ok|]. split; [exact Hs|]. do 3 (split; [done|]).
  pose proof (set_sorted_NoDup _ (sy_timers _ H)) as Hnd. rewrite E1 in Hnd.
  split.
  { apply snd_NoDup; [apply NoDup_app in Hnd; apply Hnd|]. intros w1 w2 a H1 H2.
    apply (entry_unique q w1 w2 a H); rewrite E1; set_solver. }
  split; intros a; rewrite (active_entry (with_sets rest ac q) a Hs); cbn [timers_ with_sets].
  - rewrite (active_entry q a H), E1. setoid_rewrite elem_of_app. rewrite list_elem_of_fmap. split.
    + intros [w [Hw|Hw]]; [left; by exists (w, a)|right; eauto].
    + intros [([w a'] & -> & Hw)|[w Hw]]; eauto.
  - intros Ha. apply list_elem_of_fmap in Ha as ([w a'] & -> & Ha). intros [w' Hw'].
    assert (w = w') as -> by (apply (entry_unique q w w' a' H); rewrite E1; set_solver).
    apply NoDup_app in Hnd as (_ & Hd & _). by eapply Hd.
Qed.

(** *** [reset] *)

(** Changing or deleting a timer that is in neither set. *)
Lemma sync_heap q h a :
  sync q -> ~ is_active q a -> (forall b, b <> a -> h !! b = heap q !! b) ->
  (forall t, h !! a = Some t -> 0 < a < UINTPTR_MAX) -> sync (with_heap h q).
Proof.
  intros H Hn Hh Hr.
  assert (forall b s, (b, s) ∈ activeTimers_ q -> h !! b = heap q !! b) as Hact.
  { intros b s Hb. apply Hh. intros ->. apply Hn. by eexists. }
  constructor; simpl; try apply H.
  - intros w b. rewrite (sy_entry _ H). split; intros (t & Ht & Hw & Hb); exists t;
      rewrite (Hact _ _ Hb) in *; done.
  - intros b s Hb. rewrite (Hact _ _ Hb). by apply (sy_act _ H).
  - intros b t. destruct (decide (b = a)) as [->|]; [apply Hr|]. rewrite Hh by done. apply (sy_addr _ H).
Qed.

Lemma owned_heap others q h a :
  owned (a :: others) q -> (forall b, b <> a -> h !! b = heap q !! b) ->
  (forall t, h !! a = Some t -> owned (a :: others) (with_heap h q)) /\
  (h !! a = None -> owned others (with_heap h q)).
Proof.
  intros [O1 O2 O3] Hh. apply NoDup_cons in O1 as O1'. destruct O1' as [Hn O1'].
  split; [intros t Ht|intros Ht]; constructor; simpl; try done.
  - intros b Hb. destruct (O2 b Hb) as [Hl Hna]. split; [|done].
    destruct (decide (b = a)) as [->|]; [by eexists|by rewrite Hh].
  - intros b t' Hb. destruct (decide (b = a)) as [->|]; [right; left|]. rewrite Hh in Hb by done. eauto.
  - intros b Hb. destruct (O2 b ltac:(by right)) as [Hl Hna]. split; [|done].
    rewrite Hh; [done|]. intros ->. done.
  - intros b t' Hb. destruct (decide (b = a)) as [->|]; [congruence|]. rewrite Hh in Hb by done.
    destruct (O3 b t' Hb) as [?|[->|?]%elem_of_cons]; auto. done.
Qed.

Lemma restart_spec now t t' :
  restart now t = Ok t' ->
  sequence_ t' = sequence_ t /\ callback_ t' = callback_ t /\ repeat_ t' = repeat_ t /\
  interval_ t' = interval_ t /\
  (if repeat_ t then addTime now (interval_ t) = Ok (expiration_ t') else expiration_ t' = invalid).
Proof.
  unfold restart. intros H. apply outcome_bind_ok in H as (e & He & H). injection H as <-. simpl.
  destruct (repeat_ t); [done|]. by injection He.
Qed.

Lemma addTime_fault now s e : addTime now s = Fault e -> e = Overflow.
Proof.
  unfold addTime, interval_micros, int64_of_double. intros H.
  destruct (double_trunc _); simpl in H; [|by injection H].
  destruct (_ && _) in H; simpl in H; [|by injection H].
  destruct (_ && _) in H; [done|by injection H].
Qed.

Lemma restart_fault now t e : restart now t = Fault e -> e = Overflow.
Proof.
  unfold restart. destruct (repeat_ t); [|done].
  destruct (addTime now (interval_ t)) eqn:E; simpl; [done|]. intros [= <-]. by eapply addTime_fault.
Qed.

(** What [resetOne] does to one expired timer. *)
Definition rearmed (now : Z) (q : TimerQueue) (t : Timer) (a : Z) : bool :=
  repeat_ t && negb (set_find (a, sequence_ t) (cancelingTimers_ q)).

Lemma resetOne_spec now q w a others :
  sync q -> owned (a :: others) q ->
  exists t, heap q !! a = Some t /\
  if rearmed now q t a then
    post (fun q' => exists t', restart now t = Ok t' /\
            q' = inserted a t' (with_heap (<[a := t']> (heap q)) q) /\ sync q' /\ owned others q')
      env_fault (resetOne now q (w, a))
  else resetOne now q (w, a) = Ok (with_heap (delete a (heap q)) q) /\
       sync (with_heap (delete a (heap q)) q) /\ owned others (with_heap (delete a (heap q)) q).
Proof.
  intros H Ho. destruct (ow_live _ _ Ho a) as [[t Ht] Hn]; [left|]. exists t. split; [done|].
  unfold resetOne, deref. simpl snd. rewrite Ht. cbn [get_or mbind outcome_bind].
  unfold rearmed. destruct (repeat_ t && _) eqn:Er.
  - destruct (restart now t) as [t'|e] eqn:Et; [|right; by eapply restart_fault].
    cbn [mbind outcome_bind]. set (q1 := with_heap _ q).
    assert (sync q1) as H1.
    { apply (sync_heap q _ a); [done..| |].
      - intros b Hb. by rewrite lookup_insert_ne.
      - intros _ _. by apply (sy_addr _ H) in Ht. }
    assert (owned (a :: others) q1) as Ho1.
    { destruct (owned_heap others q (<[a := t']> (heap q)) a Ho) as [Hx _].
      - intros b Hb. by rewrite lookup_insert_ne.
      - apply (Hx t'). by rewrite lookup_insert_eq. }
    assert (heap q1 !! a = Some t') as Ha by (simpl; by rewrite lookup_insert_eq).
    destruct (insert_spec a t' q1 H1 Ha Hn) as (-> & Hs & _). simpl.
    exists t'. split; [done|]. split; [done|]. split; [done|]. by apply insert_owned.
  - split; [done|]. split.
    + apply (sync_heap q _ a); [done..| |].
      * intros b Hb. by rewrite lookup_delete_ne.
      * intros t'. by rewrite lookup_delete_eq.
    + destruct (owned_heap others q (delete a (heap q)) a Ho) as [_ Hx].
      * intros b Hb. by rewrite lookup_delete_ne.
      * apply Hx. by rewrite lookup_delete_eq.
Qed.

Lemma resetOne_inv now q it rest :
  inv (map snd (it :: rest)) q -> post (inv (map snd rest)) env_fault (resetOne now q it).
Proof.
  intros [H Ho]. destruct it as [w a]. simpl in Ho.
  destruct (resetOne_spec now q w a _ H Ho) as (t & Ht & Hr).
  destruct (rearmed now q t a).
  - eapply post_mono; [exact Hr|]. intros q' (t' & _ & -> & Hs & Ho'). split; done.
  - destruct Hr as (-> & Hs & Ho'). split; done.
Qed.

(** Reading the expiration of the first entry gives its key. *)
Lemma next_expire q :
  sync q ->
  match timers_ q with [] => Ok invalid | e :: _ => t ← deref q (snd e); Ok (expiration_ t) end
  = Ok (match timers_ q with [] => invalid | e :: _ => fst e end).
Proof.
  intros H. destruct (timers_ q) as [|[w a] l] eqn:E; [done|].
  assert ((w, a) ∈ timers_ q) as Hin by (rewrite E; left).
  apply (sy_entry _ H) in Hin as (t & Ht & <- & _). unfold deref. simpl. by rewrite Ht.
Qed.

Lemma reset_inv expired now clock q :
  inv (map snd expired) q -> post (inv []) env_fault (reset expired now clock q).
Proof.
  intros H. unfold reset. eapply post_bind.
  { eapply (foldM_post (fun rest q => inv (map snd rest) q)); [|exact H].
    intros s x rest. apply resetOne_inv. }
  intros q1 _ H1. simpl in H1. rewrite next_expire by apply H1. simpl.
  destruct (valid _); [by apply resetTimerfd_inv|done].
Qed.

(** *** The phases of [handleRead] *)
Lemma readTimerfd_inv now expired q : inv expired q -> inv expired (readTimerfd now q).
Proof.
  intros [Hs Ho]. unfold readTimerfd. destruct (timerfd_ q) as [[s d]|]; [|done].
  destruct (_ <=? _); [|done]. split; [by apply sync_timerfd|by apply owned_timerfd].
Qed.

Lemma with_calling_inv expired b c q :
  set_sorted c -> inv expired q -> inv expired (with_calling b c q).
Proof. intros Hc [[] []]. split; by constructor. Qed.

Lemma getExpired_inv now q :
  inv [] q ->
  exists expired q', getExpired now q = Ok (expired, q') /\ inv (map snd expired) q' /\
    heap q' = heap q /\ pendingAdds_ q' = pendingAdds_ q /\ timers_ q = expired ++ timers_ q' /\
    (forall e, e ∈ expired -> fst e <= now) /\ (forall e, e ∈ timers_ q' -> now < fst e) /\
    timerfd_ q' = timerfd_ q.
Proof.
  intros [H Ho]. destruct (getExpired_spec now q H) as (rest & ac & Hg & Hs & E & E1 & E2 & Hnd & Hact & Hna).
  set (expired := fst (set_split_lower _ _)) in *. exists expired, (with_sets rest ac q).
  split; [done|]. split; [|done]. split; [done|]. simpl in *. destruct Ho as [O1 O2 O3]. constructor.
  - apply NoDup_app. split; [done|]. split; [|done]. intros a Ha Hp.
    destruct (O2 a Hp) as [_ Hn]. apply Hn. rewrite Hact. by left.
  - intros a [Ha|Ha]%elem_of_app.
    + split; [|by apply Hna]. simpl.
      assert (is_active q a) as [s Hin] by (rewrite Hact; by left).
      apply (sy_act _ H) in Hin as (t & -> & _). by eexists.
    + destruct (O2 a Ha) as [Hl Hn]. split; [done|]. intros Hc. apply Hn. rewrite Hact. by right.
  - simpl. intros a t Ht. destruct (O3 a t Ht) as [Ha|Ha].
    + rewrite Hact in Ha. rewrite elem_of_app. tauto.
    + right. apply elem_of_app. by right.
Qed.

Lemma performs_inv expired acts q :
  inv expired q -> post (inv expired) env_fault (foldM perform q acts).
Proof.
  intros H. apply (foldM_post (fun _ => inv expired)); [|done].
  intros s a rest Hs. by apply perform_inv.
Qed.

Lemma runTimer_inv expired s it :
  snd (fst it) ∈ expired -> inv expired (snd s) ->
  post (fun s' => inv expired (snd s') /\
          exists t, heap (snd s) !! snd (fst it) = Some t /\ fst s' = fst s ++ [callback_ t])
    env_fault (runTimer s it).
Proof.
  intros Hin Hi. destruct s as [trace q]. simpl in *. unfold deref.
  destruct (ow_live _ _ (proj2 Hi) (snd (fst it))) as [[t Ht] _]; [set_solver|].
  rewrite Ht. simpl. eapply post_bind; [by apply performs_inv|].
  intros q' _ Hq'. simpl. eauto.
Qed.

Lemma with_actions_fst expired acts : map fst (with_actions expired acts) = expired.
Proof.
  unfold with_actions. apply list_eq. intros i. rewrite list_lookup_fmap, list_lookup_imap.
  by destruct (expired !! i).
Qed.

Lemma runTimers_inv expired acts s :
  inv (map snd expired) (snd s) ->
  post (fun s' => inv (map snd expired) (snd s')) env_fault
    (foldM runTimer s (with_actions expired acts)).
Proof.
  intros H.
  assert (forall it, it ∈ with_actions expired acts -> snd (fst it) ∈ map snd expired) as Hin.
  { intros it Hit. rewrite <- (with_actions_fst expired acts) at 1.
    apply list_elem_of_fmap. exists (fst it). split; [done|]. apply list_elem_of_fmap. eauto. }
  eapply post_mono.
  - apply (foldM_post (fun rest s => (forall it, it ∈ rest -> snd (fst it) ∈ map snd expired) /\
      inv (map snd expired) (snd s))); [|done].
    intros s' it rest [Hr Hs]. eapply post_mono; [apply runTimer_inv; [apply Hr; left|exact Hs]|].
    intros s'' [Hi _]. split; [|done]. intros it' Hit'. apply Hr. by right.
  - by intros s' [_ Hs'].
Qed.

Lemma handleRead_inv now clock acts q :
  inv [] q -> post (fun r => inv [] (snd r)) env_fault (handleRead now clock acts q).
Proof.
  intros H. unfold handleRead.
  destruct (getExpired_inv now (readTimerfd now q) (readTimerfd_inv _ _ _ H))
    as (expired & q1 & -> & H1 & _). cbn [mbind outcome_bind].
  eapply post_bind.
  { apply runTimers_inv. simpl. apply with_calling_inv; [constructor|exact H1]. }
  intros [trace q2] _ H2. simpl in H2. eapply post_bind.
  { apply reset_inv, with_calling_inv; [apply H2|exact H2]. }
  intros q3 _ H3. done.
Qed.

(** The other fault: [OReturnId] of a Timer the loop has deleted. *)
Definition step_fault (q : TimerQueue) (o : op) (e : fault) : Prop :=
  env_fault e \/ exists addr, o = OReturnId addr /\ heap q !! addr = None /\ e = UndefinedBehaviour.

Lemma step_inv q o : inv [] q -> post (inv []) (step_fault q o) (step q o).
Proof.
  assert (He : forall A (Q : A -> Prop) m, post Q env_fault m -> post Q (step_fault q o) m).
  { intros A Q [x|e]; [done|]. by left. }
  intros H. destruct o as [a|cb w i addr|addr| |now|now clock acts]; simpl.
  - by apply He, perform_inv.
  - apply He. unfold queueTimer. eapply post_bind; [by apply createTimer_inv|].
    intros q1 _ (Hs & Ho & _). simpl. split; [by destruct Hs; constructor|]. simpl in *.
    eapply owned_perm in Ho; [|apply Permutation_cons_append]. destruct Ho. by constructor.
  - unfold timerIdOf, deref. destruct (heap q !! addr) eqn:E; simpl; [done|]. right. by exists addr.
  - destruct H as [Hs Ho]. split; [by destruct Hs; constructor|by destruct Ho; constructor].
  - unfold runPendingAdd. destruct (pendingAdds_ q) as [|a rest] eqn:E; [done|].
    destruct H as [Hs Ho]. simpl in Ho. rewrite E in Ho.
    destruct (addTimerInLoop_inv a now [] (with_pending rest q)) as (q' & -> & Hi); [| |done].
    + destruct Hs. by constructor.
    + destruct Ho. by constructor.
  - apply He. eapply post_fmap; [by apply handleRead_inv|done].
Qed.

(** A run ends in the invariant, or at the step that faults. *)
Lemma run_from ops : forall q,
  inv [] q ->
  match foldM step q ops with
  | Ok q' => inv [] q'
  | Fault e => exists ops1 o ops2 q1, ops = ops1 ++ o :: ops2 /\ foldM step q ops1 = Ok q1 /\ inv [] q1 /\ step_fault q1 o e
  end.
Proof.
  induction ops as [|o ops IH]; intros q H; [done|]. cbn [foldM]. pose proof (step_inv q o H) as Hs.
  destruct (step q o) as [q1|e] eqn:E; cbn [mbind outcome_bind]; [|by exists [], o, ops, q].
  specialize (IH q1 Hs). destruct (foldM step q1 ops) as [q2|e]; [done|].
  destruct IH as (ops1 & o' & ops2 & q2 & -> & Hr & Hi & Hf). exists (o :: ops1), o', ops2, q2.
  cbn [app foldM]. rewrite E. by split_and!.
Qed.

Lemma run_inv ops q : foldM step newTimerQueue ops = Ok q -> inv [] q.
Proof. intros E. pose proof (run_from ops newTimerQueue newTimerQueue_inv) as H. by rewrite E in H. Qed.

(** C3: The timer queue is memory-safe and its assertions hold, but for one read: from
    the constructor on, whatever timers are added and cancelled, from the loop
    thread, from other threads or from inside expired callbacks (one's own timer
    included), no assertion fails; the sets [timers_] and [activeTimers_] describe
    the same timers, and every live Timer is in them or waits to be added, so none
    has leaked.  A run stops only when the allocator fails, when a time is beyond
    int64_t, or at the return of addTimer() in another thread, which reads the Timer
    it has handed to the loop, after the loop has already run and deleted it. *)
Theorem timer_queue_safe ops :
  match foldM step newTimerQueue ops with
  | Ok q => sync q /\ owned (pendingAdds_ q) q
  | Fault e =>
      e = BadAlloc \/ e = Overflow \/
      e = UndefinedBehaviour /\ exists ops1 addr ops2 q,
        ops = ops1 ++ OReturnId addr :: ops2 /\ foldM step newTimerQueue ops1 = Ok q /\ heap q !! addr = None
  end.
Proof.
  pose proof (run_from ops newTimerQueue newTimerQueue_inv) as H. destruct (foldM step newTimerQueue ops) as [q|e]; [exact H|].
  destruct H as (ops1 & o & ops2 & q1 & -> & Hr & _ & [[->| ->]|(addr & -> & Hd & ->)]); [by left|by right; left|].
  right. right. split; [done|]. by exists ops1, addr, ops2, q1.
Qed.

(** ** What one [handleRead] does to the timers that are due *)
Definition performed (expired : list Entry) (acts : list (list action)) : list action :=
  mjoin (map snd (with_actions expired acts)).

Definition due (now : Z) (q : TimerQueue) : list Entry := filter (fun e => fst e <= now) (timers_ q).

(** Callbacks do not touch the timers being run, except that [Cancel] marks them. *)
Record expired_frame (expired : list Z) (q q' : TimerQueue) (acts : list action) : Prop := {
  fr_calling : callingExpiredTimers_ q' = true;
  fr_heap : forall a, a ∈ expired -> heap q' !! a = heap q !! a;
  fr_cancel : forall a s, a ∈ expired ->
    (a, s) ∈ cancelingTimers_ q' <-> (a, s) ∈ cancelingTimers_ q \/ Cancel (a, s) ∈ acts;
}.

Lemma resetTimerfd_fields e c q :
  timers_ (resetTimerfd e c q) = timers_ q /\ activeTimers_ (resetTimerfd e c q) = activeTimers_ q /\
  heap (resetTimerfd e c q) = heap q /\ cancelingTimers_ (resetTimerfd e c q) = cancelingTimers_ q /\
  callingExpiredTimers_ (resetTimerfd e c q) = callingExpiredTimers_ q /\
  pendingAdds_ (resetTimerfd e c q) = pendingAdds_ q /\
  timerfd_ (resetTimerfd e c q) = Some (c, let '(s, n) := howMuchTimeFromNow e c in
                                           s * kMicroSecondsPerSecond + n / 1000).
Proof. unfold resetTimerfd. by destruct (howMuchTimeFromNow e c). Qed.

(** [addTimer] in closed form. *)
Lemma addTimer_ok cb w i addr now expired q id q' :
  inv expired q -> addTimer cb w i addr now q = Ok (id, q') ->
  let t := newTimer cb w i (snd id) in
  heap q !! addr = None /\ id = (addr, s_numCreated_ q') /\ heap q' = <[addr := t]> (heap q) /\
  timers_ q' = fst (set_insert (w, addr) (timers_ q)) /\
  activeTimers_ q' = fst (set_insert id (activeTimers_ q)) /\
  cancelingTimers_ q' = cancelingTimers_ q /\ callingExpiredTimers_ q' = callingExpiredTimers_ q /\
  pendingAdds_ q' = pendingAdds_ q /\
  timerfd_ q' = if is_earliest w q then timerfd_ (resetTimerfd w now q) else timerfd_ q.
Proof.
  intros H Hadd. unfold addTimer in Hadd. apply outcome_bind_ok in Hadd as (q1 & Hc & Hadd).
  pose proof (createTimer_inv cb w i addr expired q H) as Hp. rewrite Hc in Hp.
  destruct Hp as (Hs & Ho & Hf & _). revert Hs Ho Hc Hadd. unfold createTimer.
  destruct (_ && _); [|done]. intros Hs Ho [= <-] Hadd. 
  destruct (ow_live _ _ Ho addr) as [[t Ht] Hn]; [left|].
  simpl in Ht. rewrite lookup_insert_eq in Ht. injection Ht as <-.
  erewrite (addTimerInLoop_spec addr) in Hadd; [|done|simpl; by rewrite lookup_insert_eq|done].
  match type of Hadd with context [is_earliest ?e ?r] => change (is_earliest e r) with (is_earliest w q) in Hadd end.
  cbn [mbind outcome_bind] in Hadd. destruct (resetTimerfd_fields w now q) as (_ & _ & _ & _ & _ & _ & F).
  rewrite F. unfold resetTimerfd, timerIdOf, deref in Hadd. cbn [expiration_ newTimer] in Hadd.
  destruct (is_earliest w q), (howMuchTimeFromNow w now) as [sec ns]; simpl in Hadd;
    rewrite lookup_insert_eq in Hadd; simpl in Hadd; by injection Hadd as <- <-.
Qed.

Lemma perform_frame expired q act q' :
  inv expired q -> callingExpiredTimers_ q = true -> perform q act = Ok q' ->
  expired_frame expired q q' [act].
Proof.
  intros H Hcall Hp.
  assert (forall a, a ∈ expired -> is_Some (heap q !! a) /\ ~ is_active q a) as Hlive.
  { intros a Ha. apply (ow_live _ _ (proj2 H)). apply elem_of_app. by left. }
  destruct act as [cb w i addr now|id]; simpl in Hp.
  - apply outcome_fmap_ok in Hp as ([id q1] & Ha & ->).
    destruct (addTimer_ok _ _ _ _ _ _ _ _ _ H Ha) as (Hf & _ & Hh & _ & _ & Hc & Hca & _).
    simpl snd in *. constructor; [congruence|..].
    + intros a Ha'. destruct (Hlive a Ha') as [[t Ht] _]. rewrite Hh, lookup_insert_ne; [done|].
      intros ->. congruence.
    + intros a s Ha'. rewrite Hc, list_elem_of_singleton. naive_solver.
  - destruct id as [b s0]. pose proof (cancelInLoop_spec (b, s0) q (proj1 H)) as Hc.
    destruct (set_find (b, s0) (activeTimers_ q)) eqn:Ef.
    + apply (set_find_spec _ _ (sy_active _ (proj1 H))) in Ef.
      destruct Hc as (t & Ht & _ & Hc & _). rewrite Hp in Hc. injection Hc as ->. simpl.
      assert (b ∉ expired) as Hb by (intros Hb; apply (proj2 (Hlive b Hb)); by eexists).
      constructor; simpl; [done|..].
      * intros a Ha. rewrite lookup_delete_ne; [done|]. intros ->. done.
      * intros a s Ha. rewrite list_elem_of_singleton. split; [by left|].
        intros [?|[= -> ->]]; [done|]. done.
    + rewrite Hcall in Hc. destruct Hc as [Hc _]. rewrite Hp in Hc. injection Hc as ->.
      constructor; simpl; [done|done|]. intros a s Ha.
      rewrite (proj1 (proj2 (set_insert_spec (b, s0) _ (sy_cancel _ (proj1 H))))).
      rewrite list_elem_of_singleton. naive_solver.
Qed.

Lemma expired_frame_trans expired q1 q2 q3 l1 l2 :
  expired_frame expired q1 q2 l1 -> expired_frame expired q2 q3 l2 ->
  expired_frame expired q1 q3 (l1 ++ l2).
Proof.
  intros [A1 A2 A3] [B1 B2 B3]. constructor; [done|..].
  - intros a Ha. by rewrite B2, A2.
  - intros a s Ha. rewrite B3, A3, elem_of_app by done. tauto.
Qed.

Lemma expired_frame_refl expired q : callingExpiredTimers_ q = true -> expired_frame expired q q [].
Proof. intros H. constructor; [done|done|]. set_solver. Qed.

Lemma performs_frame expired q acts q' :
  inv expired q -> callingExpiredTimers_ q = true -> foldM perform q acts = Ok q' ->
  inv expired q' /\ expired_frame expired q q' acts.
Proof.
  revert q. induction acts as [|act acts IH]; intros q H Hc Hf; simpl in Hf.
  - injection Hf as <-. split; [done|by apply expired_frame_refl].
  - apply outcome_bind_ok in Hf as (q1 & H1 & Hf).
    pose proof (perform_inv expired q act H) as Hi. rewrite H1 in Hi. simpl in Hi.
    pose proof (perform_frame expired q act q1 H Hc H1) as Hfr.
    destruct (IH q1 Hi (fr_calling _ _ _ _ Hfr) Hf) as [Hi' Hfr']. split; [done|].
    by apply (expired_frame_trans expired q q1 q' [act] acts).
Qed.

(** The callbacks run are those of the expired timers, each once, in order. *)
Definition callback_of (q : TimerQueue) (e : Entry) : nat :=
  match heap q !! snd e with Some t => callback_ t | None => O end.

Lemma runTimers_frame expired l trace q trace' q' :
  inv expired q -> callingExpiredTimers_ q = true ->
  (forall it, it ∈ l -> snd (fst it) ∈ expired) ->
  foldM runTimer (trace, q) l = Ok (trace', q') ->
  inv expired q' /\ expired_frame expired q q' (mjoin (map snd l)) /\
  trace' = trace ++ map (fun it => callback_of q (fst it)) l.
Proof.
  revert trace q. induction l as [|[e acts] l IH]; intros trace q H Hc Hin Hf; cbn [foldM] in Hf.
  - injection Hf as <- <-. simpl. rewrite app_nil_r. split_and!; [done|by apply expired_frame_refl|done].
  - apply outcome_bind_ok in Hf as ([tr1 q1] & Hr & Hf). simpl in Hr.
    unfold deref in Hr. destruct (heap q !! snd e) as [t|] eqn:Ht; [|done]. simpl in Hr.
    apply outcome_bind_ok in Hr as (q1' & Hp & Hr). injection Hr as <- <-.
    destruct (performs_frame expired q acts q1' H Hc Hp) as [H1 Hfr].
    destruct (IH (trace ++ [callback_ t]) q1' H1 (fr_calling _ _ _ _ Hfr)) as (H2 & Hfr2 & ->);
      [intros it Hit; apply Hin; by right|done|].
    split; [done|]. split; [by apply (expired_frame_trans expired q q1' q' acts)|].
    rewrite <- app_assoc. f_equal. simpl. unfold callback_of at 2. simpl. rewrite Ht. f_equal.
    apply map_ext_in. intros it Hit. unfold callback_of.
    rewrite (fr_heap _ _ _ _ Hfr); [done|]. apply Hin. right. by apply list_elem_of_In.
Qed.

(** [reset]: each expired timer is re-armed or deleted, the others stay. *)
Lemma resets_fate now l q q' :
  inv (map snd l) q -> foldM (resetOne now) q l = Ok q' ->
  inv [] q' /\ cancelingTimers_ q' = cancelingTimers_ q /\ timerfd_ q' = timerfd_ q /\
  (forall a, a ∉ map snd l -> heap q' !! a = heap q !! a) /\
  (forall e, e ∈ timers_ q -> e ∈ timers_ q') /\
  (forall w a t, (w, a) ∈ l -> heap q !! a = Some t ->
     if rearmed now q t a
     then exists t', restart now t = Ok t' /\ heap q' !! a = Some t' /\ (expiration_ t', a) ∈ timers_ q'
     else heap q' !! a = None) /\
  (forall e, e ∈ timers_ q' -> e ∈ timers_ q \/
     exists t t', restart now t = Ok t' /\ repeat_ t = true /\ fst e = expiration_ t').
Proof.
  revert q. induction l as [|[w a] l IH]; intros q H Hf; cbn [foldM] in Hf.
  - injection Hf as <-. split_and!; auto; set_solver.
  - apply outcome_bind_ok in Hf as (q1 & H1 & Hf).
    pose proof (resetOne_inv now q (w, a) l H) as Hi. rewrite H1 in Hi. simpl in Hi.
    destruct (IH q1 Hi Hf) as (I1 & I2 & I3 & I4 & I5 & I6 & I7).
    destruct H as [Hs Ho]. simpl in Ho.
    assert (a ∉ map snd l) as Hal.
    { pose proof (ow_nodup _ _ Ho) as Hnd. apply NoDup_cons in Hnd as [Hnd _]. set_solver. }
    destruct (resetOne_spec now q w a _ Hs Ho) as (t & Ht & Hr).
    destruct (rearmed now q t a) eqn:Er.
    + rewrite H1 in Hr. simpl in Hr. destruct Hr as (t' & Hre & Hq1 & _).
      assert (sync q1 /\ (forall w b, (w, b) ∈ timers_ q1 <-> (w, b) = (expiration_ t', a) \/ (w, b) ∈ timers_ q))
        as [_ Hin].
      { subst q1. set (q0 := with_heap _ q).
        assert (sync q0) as Hs0.
        { apply (sync_heap q _ a); [done| |intros b Hb; by rewrite lookup_insert_ne|].
          - by apply (ow_live _ _ Ho a); left.
          - intros _ _. by apply (sy_addr _ Hs) in Ht. }
        destruct (insert_spec a t' q0 Hs0) as (_ & ? & ? & _); [simpl; by rewrite lookup_insert_eq| |done].
        by apply (ow_live _ _ Ho a); left. }
      assert (heap q1 = <[a := t']> (heap q) /\ cancelingTimers_ q1 = cancelingTimers_ q /\
        timerfd_ q1 = timerfd_ q) as (Hh & Hc & Hfd) by (subst q1; done).
      split_and!; [done|congruence|congruence|..].
      * intros b Hb. rewrite I4 by set_solver. rewrite Hh, lookup_insert_ne; [done|set_solver].
      * intros [w' b] Hb. apply I5, Hin. by right.
      * intros w' b t0 [Heq|Hb]%elem_of_cons Ht0.
        -- injection Heq as -> ->. assert (t0 = t) as -> by congruence. rewrite Er.
           exists t'. split; [done|]. rewrite I4 by done. rewrite Hh, lookup_insert_eq.
           split; [done|]. apply I5, Hin. by left.
        -- assert (b <> a) as Hne by (intros ->; apply Hal, list_elem_of_fmap; by exists (w', a)).
           assert (heap q1 !! b = Some t0) as Ht1 by (by rewrite Hh, lookup_insert_ne).
           specialize (I6 w' b t0 Hb Ht1). unfold rearmed in *. by rewrite Hc in I6.
      * intros [w' b] Hb. destruct (I7 _ Hb) as [Hb'|?]; [|by right].
        apply Hin in Hb' as [Heq|?]; [|by left]. injection Heq as -> ->. right.
        exists t, t'. split; [done|]. split; [|done]. unfold rearmed in Er. by destruct (repeat_ t).
    + destruct Hr as (Hq1 & _). rewrite H1 in Hq1. injection Hq1 as ->.
      split_and!; [done|done|done|..].
      * intros b Hb. rewrite I4 by set_solver. simpl. rewrite lookup_delete_ne; [done|set_solver].
      * done.
      * intros w' b t0 [Heq|Hb]%elem_of_cons Ht0.
        -- injection Heq as -> ->. assert (t0 = t) as -> by congruence. rewrite Er.
           rewrite I4 by done. simpl. by rewrite lookup_delete_eq.
        -- assert (b <> a) as Hne by (intros ->; apply Hal, list_elem_of_fmap; by exists (w', a)).
           apply (I6 w' b t0 Hb). simpl. by rewrite lookup_delete_ne.
      * done.
Qed.

Lemma due_split now q l :
  (forall e, e ∈ l -> fst e <= now) -> (forall e, e ∈ timers_ q -> now < fst e) ->
  filter (fun e : Entry => fst e <= now) (l ++ timers_ q) = l.
Proof.
  intros H1 H2. rewrite filter_app, (filter_all _ l), (filter_none _ (timers_ q)); [apply app_nil_r| |done].
  intros e He. specialize (H2 e He). lia.
Qed.

(** What one [handleRead] runs, and what becomes of the timers it ran. *)
Lemma handleRead_due_facts now clock acts q trace q' :
  inv [] q -> handleRead now clock acts q = Ok (trace, q') ->
  trace = map (callback_of q) (due now q) /\
  forall w a t, (w, a) ∈ due now q -> heap q !! a = Some t ->
    if repeat_ t && negb (bool_decide (Cancel (a, sequence_ t) ∈ performed (due now q) acts))
    then exists t', restart now t = Ok t' /\ heap q' !! a = Some t' /\ (expiration_ t', a) ∈ timers_ q'
    else heap q' !! a = None.
Proof.
  intros H Hh. unfold handleRead in Hh.
  assert (due now q = due now (readTimerfd now q) /\ heap (readTimerfd now q) = heap q) as [-> Hheap].
  { unfold readTimerfd, due. destruct (timerfd_ q) as [[s d]|]; [|done]. by destruct (_ <=? _). }
  rewrite <- Hheap. assert (callback_of q = callback_of (readTimerfd now q)) as ->.
  { unfold callback_of. by rewrite Hheap. }
  destruct (getExpired_inv now (readTimerfd now q) (readTimerfd_inv _ _ _ H))
    as (expired & q1 & Hg & H1 & Hh1 & _ & Ht1 & Hle & Hgt & _).
  rewrite Hg in Hh. cbn [mbind outcome_bind] in Hh.
  assert (due now (readTimerfd now q) = expired) as Hdue by (unfold due; rewrite Ht1; by apply due_split).
  rewrite Hdue.
  apply outcome_bind_ok in Hh as ([tr q2] & Hrun & Hh).
  destruct (runTimers_frame (map snd expired) (with_actions expired acts) [] (with_calling true [] q1) tr q2)
    as (H2 & Hfr & ->);
    [apply with_calling_inv; [constructor|exact H1]|done| |exact Hrun|].
  { intros it Hit. apply list_elem_of_fmap. exists (fst it). split; [done|].
    rewrite <- (with_actions_fst expired acts). apply list_elem_of_fmap. eauto. }
  apply outcome_bind_ok in Hh as (q3 & Hres & Hh). injection Hh as <- <-.
  split.
  { simpl app. rewrite <- (map_map fst (callback_of (with_calling true [] q1))), with_actions_fst.
    apply map_ext. intros e. unfold callback_of. simpl. by rewrite Hh1. }
  unfold reset in Hres. apply outcome_bind_ok in Hres as (q4 & Hres & Hq3).
  destruct (resets_fate now expired _ q4 (with_calling_inv _ false (cancelingTimers_ q2) _
    (sy_cancel _ (proj1 H2)) H2) Hres) as (H4 & Hc4 & _ & _ & _ & Hfate & _).
  rewrite next_expire in Hq3 by apply H4. cbn [mbind outcome_bind] in Hq3. injection Hq3 as <-.
  intros w a t Hin Ht. assert (a ∈ map snd expired) as Ha by (apply list_elem_of_fmap; by exists (w, a)).
  specialize (Hfate w a t Hin). simpl in Hfate. rewrite (fr_heap _ _ _ _ Hfr a Ha) in Hfate.
  simpl in Hfate. rewrite Hh1 in Hfate. specialize (Hfate Ht).
  assert (rearmed now (with_calling false (cancelingTimers_ q2) q2) t a =
    repeat_ t && negb (bool_decide (Cancel (a, sequence_ t) ∈ performed expired acts))) as Hre.
  { unfold rearmed. simpl. f_equal. f_equal. apply eq_bool_prop_intro.
    rewrite !Is_true_true, bool_decide_eq_true, (set_find_spec _ _ (sy_cancel _ (proj1 H2))).
    rewrite (fr_cancel _ _ _ _ Hfr a _ Ha). simpl. unfold performed. set_solver. }
  rewrite Hre in Hfate.
  destruct (repeat_ t && _); destruct (valid _);
    try (destruct (resetTimerfd_fields (match timers_ q4 with [] => invalid | e :: _ => fst e end) clock q4)
      as (-> & _ & -> & _)); exact Hfate.
Qed.

(** C21: One [handleRead] at clock [now] runs the callbacks of exactly the timers
    that are due, each once, in order of expiration; and whatever the callbacks
    do, a due timer is afterwards either re-armed at its restart time (it
    repeats and no callback cancelled it), or deleted. *)
Theorem handleRead_due now clock acts q trace q' :
  inv [] q -> handleRead now clock acts q = Ok (trace, q') ->
  trace = map (callback_of q) (due now q) /\
  forall w a t, (w, a) ∈ due now q -> heap q !! a = Some t ->
    if repeat_ t && negb (bool_decide (Cancel (a, sequence_ t) ∈ performed (due now q) acts))
    then exists t', restart now t = Ok t' /\ heap q' !! a = Some t' /\ (expiration_ t', a) ∈ timers_ q'
    else heap q' !! a = None.
Proof. apply handleRead_due_facts. Qed.

(** ** The timerfd is armed in time *)

(** Times for which [when - now] cannot overflow. *)
Definition entry_ok (w : Z) : Prop := - 2 ^ 62 <= w < 2 ^ 63.
Definition clock_ok (c : Z) : Prop := 0 <= c < 2 ^ 62.

Definition timer_ok (t : Timer) : Prop :=
  entry_ok (expiration_ t) /\ repeat_ t = SFltb double_zero (interval_ t).

Definition heap_ok (q : TimerQueue) : Prop := forall a t, heap q !! a = Some t -> timer_ok t.

(** Set at clock [s], the timerfd fires by [w], or 100 microseconds after [s]
    when [w] is nearer than that. *)
Definition armed_for (fd : option (Z * Z)) (w : Z) : Prop :=
  exists s d, fd = Some (s, d) /\ s + d <= Z.max w (s + 100).

(** Armed in time for the entries whose expiration satisfies [P]. *)
Definition armed_on (P : Z -> Prop) (q : TimerQueue) : Prop :=
  forall e, e ∈ timers_ q -> P (fst e) -> armed_for (timerfd_ q) (fst e).

Definition downward (P : Z -> Prop) : Prop := forall w w', P w -> w' <= w -> P w'.

Lemma armed_for_mono fd w w' : armed_for fd w -> w <= w' -> armed_for fd w'.
Proof. intros (s & d & -> & H) Hw. exists s, d. split; [done|lia]. Qed.

Lemma howMuchTime_total w now :
  entry_ok w -> clock_ok now ->
  (let '(s, n) := howMuchTimeFromNow w now in s * kMicroSecondsPerSecond + n / 1000) = Z.max 100 (w - now).
Proof.
  unfold entry_ok, clock_ok. intros Hw Hn. unfold howMuchTimeFromNow.
  rewrite (wrapS_id 64) by (unfold in_s; lia). unfold kMicroSecondsPerSecond.
  set (m := if w - now <? 100 then 100 else w - now).
  assert (m = Z.max 100 (w - now)) as <- by (subst m; destruct (_ <? _) eqn:E; lia).
  rewrite Z.div_mul by lia. pose proof (Z.quot_rem m (1000 * 1000)). lia.
Qed.

Lemma resetTimerfd_armed w now q w' :
  entry_ok w -> clock_ok now -> w <= w' -> armed_for (timerfd_ (resetTimerfd w now q)) w'.
Proof.
  intros Hw Hn Hle. destruct (resetTimerfd_fields w now q) as (_ & _ & _ & _ & _ & _ & ->).
  rewrite howMuchTime_total by done. eexists _, _. split; [done|]. lia.
Qed.

(** The first entry of the set has the least expiration. *)
Lemma sorted_head_least (e : Entry) l x : set_sorted (e :: l) -> x ∈ e :: l -> fst e <= fst x.
Proof.
  intros Hs. inversion_clear Hs as [|? ? Hlt _]. intros [->|Hx]%elem_of_cons; [lia|].
  specialize (Hlt _ Hx). destruct e as [w a], x as [w' a']. cbn in *. unfold pair_ltb in Hlt. cbn in Hlt. lia.
Qed.

Lemma is_earliest_least w q e :
  set_sorted (timers_ q) -> is_earliest w q = true -> e ∈ timers_ q -> w <= fst e.
Proof.
  unfold is_earliest. destruct (timers_ q) as [|x l]; [set_solver|]. intros Hs Hw He.
  pose proof (sorted_head_least x l e Hs He). lia.
Qed.

Lemma not_earliest w q :
  is_earliest w q = false -> exists e, e ∈ timers_ q /\ fst e <= w.
Proof.
  unfold is_earliest. destruct (timers_ q) as [|x l]; [done|]. intros Hw. exists x. split; [left|lia].
Qed.

Lemma add_armed P w a now q q' :
  downward P -> sync q -> entry_ok w -> clock_ok now -> armed_on P q ->
  timers_ q' = fst (set_insert (w, a) (timers_ q)) ->
  timerfd_ q' = (if is_earliest w q then timerfd_ (resetTimerfd w now q) else timerfd_ q) ->
  armed_on P q'.
Proof.
  intros HP Hs Hw Hn Ha Ht Hf e He Hp. rewrite Hf. rewrite Ht in He.
  apply (set_insert_spec (w, a) _ (sy_timers _ Hs)) in He.
  destruct (is_earliest w q) eqn:E.
  - apply resetTimerfd_armed; [done..|]. destruct He as [->|He]; [simpl; lia|].
    by apply (is_earliest_least w q e (sy_timers _ Hs)).
  - destruct He as [->|He]; [|by apply Ha].
    destruct (not_earliest w q E) as (e0 & He0 & Hle). simpl in *.
    apply (armed_for_mono _ (fst e0)); [|done]. apply Ha; [done|]. by apply (HP w).
Qed.

Definition action_ok (a : action) : Prop :=
  match a with
  | AddTimer _ w _ _ now => entry_ok w /\ clock_ok now
  | Cancel _ => True
  end.

Lemma perform_armed P expired q act q' :
  downward P -> inv expired q -> heap_ok q -> armed_on P q -> action_ok act ->
  perform q act = Ok q' -> heap_ok q' /\ armed_on P q'.
Proof.
  intros HP H Hh Ha Hok Hp. destruct act as [cb w i addr now|id]; simpl in Hp, Hok.
  - apply outcome_fmap_ok in Hp as ([id q1] & Hadd & ->). simpl.
    destruct (addTimer_ok _ _ _ _ _ _ _ _ _ H Hadd) as (_ & _ & Hheap & Ht & _ & _ & _ & _ & Hf).
    split; [|by eapply (add_armed P w addr now q); try apply Hok; try apply H].
    intros a t. rewrite Hheap. destruct (decide (addr = a)) as [->|].
    + rewrite lookup_insert_eq. intros [= <-]. split; [apply Hok|done].
    + rewrite lookup_insert_ne by done. apply Hh.
  - pose proof (cancelInLoop_spec id q (proj1 H)) as Hc.
    destruct (set_find id (activeTimers_ q)).
    + destruct Hc as (t & Ht & _ & Hc & _). rewrite Hp in Hc. injection Hc as ->. split.
      * intros a t'. simpl. destruct (decide (a = fst id)) as [->|]; [by rewrite lookup_delete_eq|].
        rewrite lookup_delete_ne by done. apply Hh.
      * intros e He. simpl in *. apply Ha.
        apply (set_erase_spec _ _ (sy_timers _ (proj1 H))) in He as [_ He]. exact He.
    + destruct Hc as [Hc _]. rewrite Hp in Hc. injection Hc as ->. by destruct (callingExpiredTimers_ q).
Qed.

Lemma performs_armed P expired q acts q' :
  downward P -> inv expired q -> heap_ok q -> armed_on P q -> Forall action_ok acts ->
  foldM perform q acts = Ok q' -> inv expired q' /\ heap_ok q' /\ armed_on P q'.
Proof.
  intros HP. revert q. induction acts as [|act acts IH]; intros q H Hh Ha Hok Hf; simpl in Hf.
  - by injection Hf as <-.
  - apply outcome_bind_ok in Hf as (q1 & H1 & Hf). apply Forall_cons in Hok as [Hok Hoks].
    pose proof (perform_inv expired q act H) as Hi. rewrite H1 in Hi.
    destruct (perform_armed P expired q act q1 HP H Hh Ha Hok H1). by apply (IH q1).
Qed.

Lemma runTimers_armed P expired l s s' :
  downward P -> inv expired (snd s) -> heap_ok (snd s) -> armed_on P (snd s) ->
  Forall (fun it => Forall action_ok (snd it)) l -> foldM runTimer s l = Ok s' ->
  heap_ok (snd s') /\ armed_on P (snd s').
Proof.
  intros HP. revert s. induction l as [|[e acts] l IH]; intros [trace q] H Hh Ha Hok Hf; cbn [foldM] in Hf.
  - by injection Hf as <-.
  - apply Forall_cons in Hok as [Hok Hoks]. apply outcome_bind_ok in Hf as ([tr1 q1] & Hr & Hf).
    simpl in Hr. apply outcome_bind_ok in Hr as (t & _ & Hr).
    apply outcome_bind_ok in Hr as (q1' & Hp & Hr). injection Hr as <- <-.
    destruct (performs_armed P expired q acts q1' HP H Hh Ha Hok Hp) as (H1 & H2 & H3).
    by apply (IH (trace ++ [callback_ t], q1')).
Qed.

Lemma restart_ok now t t' : timer_ok t -> 0 <= now -> repeat_ t = true ->
  restart now t = Ok t' -> timer_ok t' /\ now <= expiration_ t'.
Proof.
  intros [_ Hr] Hnow Hrep Hre. apply restart_spec in Hre as (_ & _ & E1 & E2 & E3).
  rewrite Hrep in E3. rewrite Hrep in Hr. symmetry in Hr.
  pose proof (addTime_forward _ _ _ Hr E3). split; [|done]. split; [|congruence].
  unfold addTime in E3. apply outcome_bind_ok in E3 as (d & _ & E3). cbv zeta in E3.
  destruct ((- 2 ^ 63 <=? now + d) && (now + d <? 2 ^ 63)) eqn:Eb; [|done].
  injection E3 as E3. unfold entry_ok. lia.
Qed.

Lemma resets_heap_ok now l q q' :
  0 <= now -> inv (map snd l) q -> heap_ok q -> foldM (resetOne now) q l = Ok q' ->
  heap_ok q' /\ forall e, e ∈ timers_ q' -> e ∈ timers_ q \/ now <= fst e.
Proof.
  intros Hnow. revert q. induction l as [|[w a] l IH]; intros q H Hh Hf; cbn [foldM] in Hf.
  - injection Hf as <-. auto.
  - apply outcome_bind_ok in Hf as (q1 & H1 & Hf).
    pose proof (resetOne_inv now q (w, a) l H) as Hi. rewrite H1 in Hi. simpl in Hi.
    destruct (resetOne_spec now q w a _ (proj1 H) (proj2 H)) as (t & Ht & Hr).
    destruct (rearmed now q t a) eqn:Er.
    + rewrite H1 in Hr. destruct Hr as (t' & Hre & -> & _).
      assert (repeat_ t = true) as Hrep by (unfold rearmed in Er; by destruct (repeat_ t)).
      destruct (restart_ok now t t' (Hh _ _ Ht) Hnow Hrep Hre) as [Hok Hle].
      destruct (IH _ Hi) as [I1 I2]; [|done|].
      { intros b t0. simpl. destruct (decide (a = b)) as [->|].
        - rewrite lookup_insert_eq. by intros [= <-].
        - rewrite lookup_insert_ne by done. apply Hh. }
      split; [done|]. intros e He. destruct (I2 e He) as [He'|]; [|by right]. simpl in He'.
      apply (set_insert_spec _ _ (sy_timers _ (proj1 H))) in He' as [->|]; [right; done|by left].
    + destruct Hr as (Hq1 & _). rewrite H1 in Hq1. injection Hq1 as ->.
      apply (IH _ Hi); [|done]. intros b t0. simpl.
      destruct (decide (a = b)) as [->|]; [by rewrite lookup_delete_eq|].
      rewrite lookup_delete_ne by done. apply Hh.
Qed.

Definition op_ok (o : op) : Prop :=
  match o with
  | OAction a => action_ok a
  | OAddElsewhere _ w _ _ => entry_ok w
  | OReturnId _ | OOtherQueue => True
  | ORunPendingAdd now => clock_ok now
  | OHandleRead now clock acts => 0 < now /\ clock_ok clock /\ Forall (Forall action_ok) acts
  end.

Lemma handleRead_armed now clock acts q trace q' :
  0 < now -> clock_ok clock -> Forall (Forall action_ok) acts -> inv [] q -> heap_ok q ->
  handleRead now clock acts q = Ok (trace, q') -> heap_ok q' /\ armed_on (fun _ => True) q'.
Proof.
  intros Hnow Hclk Hacts H Hh Hhr. unfold handleRead in Hhr.
  assert (heap_ok (readTimerfd now q)) as Hh0.
  { unfold readTimerfd. destruct (timerfd_ q) as [[s d]|]; [|done]. by destruct (_ <=? _). }
  destruct (getExpired_inv now (readTimerfd now q) (readTimerfd_inv _ _ _ H))
    as (expired & q1 & Hg & H1 & Hh1 & _ & _ & _ & Hgt & _).
  rewrite Hg in Hhr. cbn [mbind outcome_bind] in Hhr. set (P := fun w => w <= now).
  assert (downward P) as HP by (intros w w'; unfold P; lia).
  assert (inv (map snd expired) (with_calling true [] q1)) as H1'
    by (apply with_calling_inv; [constructor|exact H1]).
  assert (heap_ok (with_calling true [] q1)) as Hh1' by (intros a t; simpl; rewrite Hh1; apply Hh0).
  apply outcome_bind_ok in Hhr as ([tr q2] & Hrun & Hhr).
  destruct (runTimers_armed P (map snd expired) (with_actions expired acts) ([], with_calling true [] q1)
    (tr, q2) HP H1' Hh1') as [Hh2 Ha2]; [|..|exact Hrun|].
  { intros e He Hp. simpl in He. specialize (Hgt e He). unfold P in Hp. lia. }
  { apply Forall_forall. intros it Hit. unfold with_actions in Hit.
    apply elem_of_lookup_imap in Hit as (i & e & -> & _). simpl.
    destruct (acts !! i) as [l|] eqn:El; simpl; [|constructor].
    apply list_elem_of_lookup_2 in El. rewrite Forall_forall in Hacts. by apply Hacts. }
  pose proof (runTimers_inv expired acts ([], with_calling true [] q1) H1') as Hi2.
  rewrite Hrun in Hi2. simpl in Hi2, Hh2, Ha2.
  apply outcome_bind_ok in Hhr as (q3 & Hres & Hhr). injection Hhr as <- <-.
  unfold reset in Hres. apply outcome_bind_ok in Hres as (q4 & Hres & Hq3).
  assert (inv (map snd expired) (with_calling false (cancelingTimers_ q2) q2)) as Hi2'
    by (apply with_calling_inv; [apply Hi2|exact Hi2]).
  destruct (resets_heap_ok now expired _ q4 ltac:(lia) Hi2' Hh2 Hres) as [Hh4 Hnew].
  destruct (resets_fate now expired _ q4 Hi2' Hres) as (H4 & _ & Hfd & _).
  rewrite next_expire in Hq3 by apply H4. cbn [mbind outcome_bind] in Hq3. injection Hq3 as <-.
  destruct (timers_ q4) as [|e0 l] eqn:Et.
  { unfold valid, invalid; simpl. split; [done|]. intros e He. rewrite Et in He. set_solver. }
  pose proof (sy_timers _ (proj1 H4)) as Hsort. rewrite Et in Hsort.
  assert (e0 ∈ timers_ q4) as He0 by (rewrite Et; left).
  destruct (resetTimerfd_fields (fst e0) clock q4) as (F1 & _ & F3 & _).
  assert (entry_ok (fst e0)) as Hok0.
  { destruct e0 as [w a]. apply (sy_entry _ (proj1 H4)) in He0 as (t & Ht & <- & _). by apply (Hh4 a). }
  unfold valid. destruct (0 <? fst e0) eqn:Ev.
  - split; [intros a t; rewrite F3; apply Hh4|]. intros e He _. rewrite F1, Et in He.
    apply resetTimerfd_armed; [done|done|]. by apply (sorted_head_least e0 l e Hsort).
  - split; [done|]. intros e He _. rewrite Et in He.
    destruct (Hnew e0 ltac:(left)) as [Hold|]; [|lia]. simpl in Hold.
    apply (armed_for_mono _ (fst e0)); [|by apply (sorted_head_least e0 l e Hsort)].
    rewrite Hfd. simpl. apply Ha2; [done|]. unfold P. lia.
Qed.

Lemma step_armed q o q' :
  op_ok o -> inv [] q -> heap_ok q -> armed_on (fun _ => True) q -> step q o = Ok q' ->
  heap_ok q' /\ armed_on (fun _ => True) q'.
Proof.
  intros Hok H Hh Ha Hs. assert (downward (fun _ => True)) as HP by done.
  destruct o as [a|cb w i addr|addr| |now|now clock acts]; simpl in Hok, Hs.
  - by apply (perform_armed _ [] q a).
  - unfold queueTimer in Hs. apply outcome_bind_ok in Hs as (q2 & Hc & Hs). injection Hs as <-.
    pose proof (createTimer_inv cb w i addr [] q H) as Hp. rewrite Hc in Hp.
    destruct Hp as (_ & _ & _ & Ht & Hf & _ & _ & Hheap). split.
    + intros a t. simpl. rewrite Hheap. destruct (decide (addr = a)) as [->|].
      * rewrite lookup_insert_eq. by intros [= <-].
      * rewrite lookup_insert_ne by done. apply Hh.
    + intros e He _. simpl in *. rewrite Hf. apply Ha; [|done]. by rewrite <- Ht.
  - destruct (timerIdOf addr q); [by injection Hs as <-|done].
  - by injection Hs as <-.
  - unfold runPendingAdd in Hs. destruct (pendingAdds_ q) as [|a rest] eqn:E; [by injection Hs as <-|].
    destruct H as [Hsy Ho]. destruct (ow_live _ _ Ho a) as [[t Ht] Hn]; [rewrite E; left|].
    assert (sync (with_pending rest q)) as Hsy' by (destruct Hsy; by constructor).
    rewrite (addTimerInLoop_spec a t now) in Hs by done. injection Hs as <-.
    change (is_earliest (expiration_ t) (with_pending rest q)) with (is_earliest (expiration_ t) q).
    destruct (resetTimerfd_fields (expiration_ t) now (inserted a t (with_pending rest q)))
      as (F1 & _ & F3 & _ & _ & _ & F7).
    destruct (resetTimerfd_fields (expiration_ t) now q) as (_ & _ & _ & _ & _ & _ & F7').
    split; [destruct (is_earliest _ _); [intros b t0; rewrite F3|]; apply Hh|].
    apply (add_armed (fun _ => True) (expiration_ t) a now q); try done.
    + by apply (Hh a).
    + destruct (is_earliest _ _); [by rewrite F1|done].
    + destruct (is_earliest _ _); [by rewrite F7, F7'|done].
  - apply outcome_fmap_ok in Hs as ([tr q1] & Hs & ->).
    destruct Hok as (Hn & Hc & Hacts). by apply (handleRead_armed now clock acts q tr).
Qed.

(** C22: No timer is forgotten: after any sequence of operations, for every timer
    in the queue the timerfd is armed (or has fired and is still to be read) and
    fires no later than the timer's expiration, or 100 microseconds after it was
    set when the expiration was nearer than that. *)
Theorem queued_timer_is_armed ops q w a :
  Forall op_ok ops -> foldM step newTimerQueue ops = Ok q -> (w, a) ∈ timers_ q ->
  exists set_at delay, timerfd_ q = Some (set_at, delay) /\
    set_at + delay <= Z.max w (set_at + 100).
Proof.
  intros Hok Hrun Hin.
  assert (inv [] newTimerQueue /\ heap_ok newTimerQueue /\ armed_on (fun _ => True) newTimerQueue) as H0.
  { split; [apply newTimerQueue_inv|]. split; [intros b t Hb; exfalso; exact (lookup_empty_Some b t Hb)|].
    intros e He. simpl in He. set_solver. }
  assert (inv [] q /\ heap_ok q /\ armed_on (fun _ => True) q) as (_ & _ & Ha); [|by apply (Ha (w, a))].
  revert Hok Hrun H0. generalize newTimerQueue.
  induction ops as [|o ops IH]; intros q0 Hok Hrun (Hi & Hh & Ha); cbn [foldM] in Hrun.
  - by injection Hrun as <-.
  - apply Forall_cons in Hok as [Ho Hoks]. apply outcome_bind_ok in Hrun as (q1 & H1 & Hrun).
    apply (IH q1 Hoks Hrun). pose proof (step_inv q0 o Hi) as Hs. rewrite H1 in Hs. simpl in Hs.
    split; [exact Hs|]. by apply (step_armed q0 o).
Qed.

(** [cancelInLoop] cancels exactly the timer its TimerId names: when that
    timer is queued it is removed from both sets and deleted, and every other
    entry and every other Timer stays; an id whose sequence number is not that
    of the Timer now living at its address removes nothing. *)
Theorem cancelInLoop_exact a s q q' :
  sync q -> cancelInLoop (a, s) q = Ok q' ->
  (if bool_decide ((a, s) ∈ activeTimers_ q)
   then heap q' = delete a (heap q) /\ (forall e, e ∈ timers_ q' <-> e ∈ timers_ q /\ snd e <> a)
   else heap q' = heap q /\ timers_ q' = timers_ q) /\
  ((forall t, heap q !! a = Some t -> sequence_ t <> s) -> heap q' = heap q /\ timers_ q' = timers_ q).
Proof.
  intros H Hc. pose proof (cancelInLoop_spec (a, s) q H) as Hspec.
  destruct (set_find (a, s) (activeTimers_ q)) eqn:Ef.
  - apply (set_find_spec _ _ (sy_active _ H)) in Ef. rewrite bool_decide_eq_true_2 by done.
    destruct Hspec as (t & Ht & Hseq & Hspec & _). rewrite Hc in Hspec. injection Hspec as ->. simpl in *.
    split; [|intros Hst; by destruct (Hst t Ht)]. split; [done|]. intros [w b].
    rewrite (proj1 (proj2 (set_erase_spec (expiration_ t, a) _ (sy_timers _ H)))). simpl.
    split; [|intros [Hin Hne]; split; [congruence|done]]. intros [Hne Hin]. split; [done|].
    intros ->. apply Hne. f_equal. apply (entry_unique q w (expiration_ t) a H Hin).
    apply (sy_entry _ H). exists t. by rewrite Hseq.
  - assert ((a, s) ∉ activeTimers_ q) as Hn.
    { intros Hin. apply (set_find_spec _ _ (sy_active _ H)) in Hin. congruence. }
    rewrite bool_decide_eq_false_2 by done.
    destruct Hspec as [Hspec _]. rewrite Hc in Hspec. injection Hspec as ->.
    destruct (callingExpiredTimers_ q); done.
Qed.

(** ** Examples *)
Definition one_second : double := double_of_int 1.

(** Two timers at clock 1000: a repeating one due at 2000, a one-shot at 5000. *)
Definition sample_ops : list op :=
  [OAction (AddTimer 7 2000 one_second 64 1000); OAction (AddTimer 8 5000 double_zero 128 1000);
   OAddElsewhere 9 3000 double_zero 192; ORunPendingAdd 1100].

Definition run_or_empty (ops : list op) : TimerQueue :=
  match foldM step newTimerQueue ops with Ok q => q | Fault _ => newTimerQueue end.

Definition sample_queue : TimerQueue := run_or_empty sample_ops.

Lemma sample_queue_inv : inv [] sample_queue.
Proof.
  unfold sample_queue, run_or_empty. pose proof (run_inv sample_ops) as H.
  destruct (foldM step newTimerQueue sample_ops); [by apply H|apply newTimerQueue_inv].
Qed.

(** Another thread adds a timer due at 3000 and is slow to return: the loop takes the
    Timer over, runs it and deletes it before addTimer() reads its sequence. *)
Theorem addTimer_reads_deleted_timer :
  snd <$> addTimer_other_thread 9 3000 double_zero 192 [ORunPendingAdd 1100; OHandleRead 3500 3600 []] newTimerQueue
    = Fault UndefinedBehaviour.
Proof. vm_compute. reflexivity. Qed.

(** Or the address is used again: the id returned is that of another timer, and
    cancelling it removes that one. *)
Example addTimer_returns_another_id :
  ('(id, q) ← addTimer_other_thread 9 3000 double_zero 192
      [ORunPendingAdd 1100; OHandleRead 3500 3600 []; OAction (AddTimer 8 9000 double_zero 192 3700)] newTimerQueue;
   q ← cancelInLoop id q;
   Ok (id, timers_ q)) = Ok ((192, 2), []).
Proof. vm_compute. reflexivity. Qed.

(** At clock 3500 the timers 7 and 9 are due; 7's callback cancels itself. *)
Lemma handleRead_due_witness :
  exists q', handleRead 3500 3600 [[Cancel (64, 1)]] sample_queue = Ok ([7; 9]%nat, q') /\
    heap q' !! 64 = None.
Proof.
  destruct (handleRead 3500 3600 [[Cancel (64, 1)]] sample_queue) as [[trace q']|] eqn:E;
    [|vm_compute in E; discriminate].
  destruct (handleRead_due 3500 3600 [[Cancel (64, 1)]] sample_queue trace q' sample_queue_inv E)
    as [Ht Hf].
  exists q'. split; [f_equal; f_equal; rewrite Ht; vm_compute; reflexivity|].
  specialize (Hf 2000 64 (mkTimer 7 2000 one_second true 1)).
  apply Hf; [apply list_elem_of_In; vm_compute; tauto|vm_compute; reflexivity].
Defined.

Lemma queued_timer_is_armed_witness :
  foldM step newTimerQueue sample_ops = Ok sample_queue /\ (2000, 64) ∈ timers_ sample_queue /\
  exists set_at delay, timerfd_ sample_queue = Some (set_at, delay) /\
    set_at + delay <= Z.max 2000 (set_at + 100).
Proof.
  assert (foldM step newTimerQueue sample_ops = Ok sample_queue) as Hrun by (vm_compute; reflexivity).
  assert ((2000, 64) ∈ timers_ sample_queue) as Hin by (apply list_elem_of_In; vm_compute; tauto).
  split; [exact Hrun|]. split; [exact Hin|].
  apply (queued_timer_is_armed sample_ops sample_queue 2000 64); [|exact Hrun|exact Hin].
  repeat constructor; vm_compute; discriminate || reflexivity.
Defined.

Lemma cancelInLoop_exact_witness :
  exists q', cancelInLoop (192, 3) sample_queue = Ok q' /\
    heap q' = delete 192 (heap sample_queue) /\ (3000, 192) ∉ timers_ q'.
Proof.
  destruct (cancelInLoop (192, 3) sample_queue) as [q'|] eqn:E; [|vm_compute in E; discriminate].
  destruct (cancelInLoop_exact 192 3 sample_queue q' (proj1 sample_queue_inv) E) as [H _].
  assert ((192, 3) ∈ activeTimers_ sample_queue) as Hin by (apply list_elem_of_In; vm_compute; tauto).
  rewrite bool_decide_eq_true_2 in H by exact Hin. destruct H as [Hh Ht].
  exists q'. split; [reflexivity|]. split; [exact Hh|]. rewrite Ht. simpl. intros [_ Hne]. by apply Hne.
Defined.
