(* ===== verification/Date.v ===== *)
(** * Date: base/Date.h, base/Date.cc

    A [Date] is its one field, the Julian day number.  The two conversion
    formulas are written as in the source: [int] division truncates, and every
    intermediate value is reduced to 32 bits.

    Theorems: for the years the arithmetic can hold, [getJulianDayNumber] is the
    day count of the Gregorian calendar, [getYearMonthDay] its inverse, so the
    conversions round-trip and consecutive numbers are consecutive days; the
    weekday is the calendar's. *)

From S2P Require Import Prelude Format Calendar.

Record YearMonthDay := mkYmd { year : Z; month : Z; day : Z }.

Definition kDaysPerWeek : Z := 7.

Definition getJulianDayNumber (year month day : Z) : Z :=
  let a := i32 (cdiv (i32 (14 - month)) 12) in
  let y := i32 (year + 4800 - a) in
  let m := i32 (month + 12 * a - 3) in
  i32 (day + cdiv (i32 (153 * m + 2)) 5 + i32 (y * 365) + cdiv y 4 - cdiv y 100 + cdiv y 400 - 32045).

Definition getYearMonthDay (julianDayNumber : Z) : YearMonthDay :=
  let a := i32 (julianDayNumber + 32044) in
  let b := i32 (cdiv (i32 (4 * a + 3)) 146097) in
  let c := i32 (a - cdiv (i32 (b * 146097)) 4) in
  let d := i32 (cdiv (i32 (4 * c + 3)) 1461) in
  let e := i32 (c - cdiv (i32 (1461 * d)) 4) in
  let m := i32 (cdiv (i32 (5 * e + 2)) 153) in
  mkYmd (i32 (b * 100 + d - 4800 + cdiv m 10))
        (i32 (m + 3 - 12 * cdiv m 10))
        (i32 (e - cdiv (i32 (153 * m + 2)) 5 + 1)).

Definition kJulianDayOf1970_01_01 : Z := getJulianDayNumber 1970 1 1.

(** The constructors: from year, month, day and from a [struct tm]. *)
Definition date_of_ymd (y m d : Z) : Z := getJulianDayNumber y m d.
Definition date_of_tm (t : tm) : Z := getJulianDayNumber (tm_year t + 1900) (tm_mon t + 1) (tm_mday t).

Definition date_valid (julianDayNumber_ : Z) : bool := 0 <? julianDayNumber_.
Definition date_swap (this that : Z) : Z * Z := (that, this).
Definition yearMonthDay (julianDayNumber_ : Z) : YearMonthDay := getYearMonthDay julianDayNumber_.
Definition date_year (j : Z) : Z := year (yearMonthDay j).
Definition date_month (j : Z) : Z := month (yearMonthDay j).
Definition date_day (j : Z) : Z := day (yearMonthDay j).
Definition weekDay (julianDayNumber_ : Z) : Z := cmod (julianDayNumber_ + 1) kDaysPerWeek.

Definition toIsoString (j : Z) : bytes :=
  let ymd := yearMonthDay j in
  snprintf 32 (fmt_int false 4 (year ymd) ++ lit "-" ++ fmt_int true 2 (month ymd) ++ lit "-" ++
               fmt_int true 2 (day ymd)).

(** ** The formulas are the calendar *)

(** Julian day number of 1 January of year 1. *)
Definition jdn_offset : Z := 1721426.

(** Years whose day numbers the 32-bit intermediate values can hold. *)
Definition year_ok (y : Z) : Prop := -4799 <= y < 1000000.

Ltac i32_ids := repeat (rewrite (wrapS_id 32) by (unfold in_s; lia)).

Lemma quot_nonneg a b : 0 <= a -> 0 < b -> cdiv a b = a / b.
Proof. apply Z.quot_div_nonneg. Qed.

(** The year from March on, as the formulas see it. *)
Lemma getJulianDayNumber_shifted y m d a Y M :
  1 <= m <= 12 -> 1 <= d <= 31 -> year_ok y ->
  a = (if m <=? 2 then 1 else 0) -> Y = y + 4800 - a -> M = m + 12 * a - 3 ->
  getJulianDayNumber y m d =
    d + (153 * M + 2) / 5 + 365 * Y + Y / 4 - Y / 100 + Y / 400 - 32045 /\ 0 <= Y < 1004800 /\ 0 <= M <= 11.
Proof.
  unfold year_ok. intros Hm Hd Hy Ha HY HM.
  assert (0 <= Y < 1004800 /\ 0 <= M <= 11 /\ 0 <= a <= 1) as (HY' & HM' & Ha')
    by (destruct (m <=? 2) eqn:E; lia).
  split; [|done]. unfold getJulianDayNumber.
  rewrite (wrapS_id 32 (14 - m)) by (unfold in_s; lia). rewrite (quot_nonneg (14 - m)) by lia.
  assert ((14 - m) / 12 = a) as ->.
  { destruct (m <=? 2) eqn:E; rewrite Ha; clear - Hm E; div_lia. }
  rewrite (wrapS_id 32 a) by (unfold in_s; lia).
  rewrite <- HY, <- HM. rewrite (wrapS_id 32 Y), (wrapS_id 32 M) by (unfold in_s; lia).
  rewrite (wrapS_id 32 (153 * M + 2)), (wrapS_id 32 (Y * 365)) by (unfold in_s; lia).
  rewrite !quot_nonneg by lia. rewrite wrapS_id; [lia|lia|].
  assert (0 <= (153 * M + 2) / 5 <= 400 /\ 0 <= Y / 4 <= Y /\ 0 <= Y / 100 <= Y /\ 0 <= Y / 400 <= Y)
    by (clear - HM' HY'; div_lia).
  unfold in_s. lia.
Qed.

(** [getJulianDayNumber] counts the days of the Gregorian calendar. *)
Lemma getJulianDayNumber_calendar y m d :
  year_ok y -> valid_date y m d ->
  getJulianDayNumber y m d = days_of_civil y m d + jdn_offset.
Proof.
  intros Hy [Hm Hd]. pose proof (month_days_bounds y m).
  destruct (getJulianDayNumber_shifted y m d _ _ _ Hm ltac:(lia) Hy eq_refl eq_refl eq_refl) as [-> _].
  unfold days_of_civil, days_before_year, jdn_offset. rewrite days_before_month_table by done.
  destruct (is_leap y) eqn:El;
    [apply is_leap_spec in El|assert (~ (y mod 4 = 0 /\ (y mod 100 <> 0 \/ y mod 400 = 0))) as El'
       by (rewrite <- is_leap_spec; congruence)];
    clear Hd H; month_cases m; simpl;
    match goal with |- context [(?a * ?b + 2) / 5] => 
      let v := eval vm_compute in ((a * b + 2) / 5) in change ((a * b + 2) / 5) with v
    | _ => idtac end; div_lia.
Qed.

(** A month from March on ends before the next one starts; only a leap year has
    a 366th day. *)
Lemma month_from_march y m d a M :
  valid_date y m d -> a = (if m <=? 2 then 1 else 0) -> M = m + 12 * a - 3 ->
  let e := d - 1 + (153 * M + 2) / 5 in
  (5 * e + 2) / 153 = M /\ 0 <= e <= 365 /\ (e = 365 -> a = 1 /\ is_leap y = true) /\
  m = M + 3 - 12 * (M / 10) /\ a = M / 10.
Proof.
  intros [Hm Hd] -> ->. unfold month_days in Hd.
  month_cases m; simpl in *; unfold Z.div at 2;
    try (destruct (is_leap y)); simpl; split_and!; try reflexivity; try lia; div_lia.
Qed.

Lemma getYearMonthDay_inverse y m d :
  year_ok y -> valid_date y m d -> getYearMonthDay (getJulianDayNumber y m d) = mkYmd y m d.
Proof.
  intros Hy Hv. pose proof (month_days_bounds y m). pose proof Hv as [Hm Hd].
  set (a := if m <=? 2 then 1 else 0). set (Y := y + 4800 - a). set (M := m + 12 * a - 3).
  destruct (getJulianDayNumber_shifted y m d a Y M Hm ltac:(lia) Hy eq_refl eq_refl eq_refl)
    as (-> & HY & HM).
  destruct (month_from_march y m d a M Hv eq_refl eq_refl) as (He & Hle & Hleap & Hmm & Ha).
  set (e := d - 1 + (153 * M + 2) / 5) in *.
  assert (e = 365 -> Y mod 4 = 3 /\ (Y mod 100 = 99 -> Y mod 400 = 399)) as Hl.
  { intros H365. destruct (Hleap H365) as [Ha1 Hlp]. apply is_leap_spec in Hlp.
    clear - Ha1 Hlp. assert (Y = y + 4799) as -> by (unfold Y; lia). div_lia. }
  assert (exists B r, Y = 100 * B + r /\ 0 <= r < 100 /\ 0 <= B < 10048) as (B & r & HYB & Hr & HB)
    by (exists (Y / 100), (Y mod 100); clear - HY; div_lia).
  assert (Y / 4 = 25 * B + r / 4 /\ Y / 100 = B /\ Y / 400 = B / 4 /\ Y mod 4 = r mod 4 /\
    Y mod 100 = r /\ (Y mod 400 = 399 -> B mod 4 = 3)) as (E1 & E2 & E3 & E4 & E5 & E6)
    by (clear - HYB Hr HB; div_lia).
  rewrite E1, E2, E3. rewrite E4, E5 in Hl.
  assert (e = 365 -> r mod 4 = 3 /\ (r = 99 -> B mod 4 = 3)) as Hl'
    by (intros H365; specialize (Hl H365); tauto).
  clear E1 E2 E3 E4 E5 E6 Hl Hleap.
  set (c := 365 * r + r / 4 + e).
  assert (0 <= c <= 36524 /\ (c = 36524 -> B mod 4 = 3)) as [Hc Hc'].
  { subst c. clear - Hr Hle Hl'. clearbody e. div_lia. }
  replace (d + (153 * M + 2) / 5 + 365 * Y + (25 * B + r / 4) - B + B / 4 - 32045)
    with (36524 * B + B / 4 + c - 32044) by (subst c e; lia).
  unfold getYearMonthDay.
  assert (0 <= B / 4 <= B) as HB4 by (clear - HB; div_lia).
  replace (36524 * B + B / 4 + c - 32044 + 32044) with (36524 * B + B / 4 + c) by lia.
  rewrite (wrapS_id 32 (36524 * B + B / 4 + c)) by (unfold in_s; lia).
  rewrite (wrapS_id 32 (4 * (36524 * B + B / 4 + c) + 3)) by (unfold in_s; lia).
  rewrite (quot_nonneg (4 * _ + 3)) by lia.
  assert ((4 * (36524 * B + B / 4 + c) + 3) / 146097 = B) as ->
    by (clear - HB Hc Hc'; clearbody c; div_lia).
  rewrite (wrapS_id 32 B), (wrapS_id 32 (B * 146097)) by (unfold in_s; lia).
  rewrite (quot_nonneg (B * 146097)) by lia.
  assert (B * 146097 / 4 = 36524 * B + B / 4) as -> by (clear; div_lia).
  replace (36524 * B + B / 4 + c - (36524 * B + B / 4)) with c by lia.
  rewrite (wrapS_id 32 c), (wrapS_id 32 (4 * c + 3)) by (unfold in_s; lia).
  rewrite (quot_nonneg (4 * c + 3)) by lia.
  assert ((4 * c + 3) / 1461 = r) as ->.
  { subst c. clear - Hr Hle Hl'. clearbody e. div_lia. }
  rewrite (wrapS_id 32 r), (wrapS_id 32 (1461 * r)) by (unfold in_s; lia).
  rewrite (quot_nonneg (1461 * r)) by lia.
  assert (c - 1461 * r / 4 = e) as -> by (subst c; clear; clearbody e; div_lia).
  rewrite (wrapS_id 32 e), (wrapS_id 32 (5 * e + 2)) by (unfold in_s; lia).
  rewrite (quot_nonneg (5 * e + 2)), He by lia.
  rewrite (wrapS_id 32 M), (wrapS_id 32 (153 * M + 2)) by (unfold in_s; lia).
  rewrite !quot_nonneg by lia. rewrite <- Ha.
  assert (0 <= a <= 1) as Ha01 by (unfold a; destruct (_ <=? _); lia).
  f_equal; rewrite wrapS_id; try (unfold in_s); unfold year_ok in *; subst e; try lia.
Qed.

(** Dates convert exactly: for every valid Gregorian date of the supported
    years, the Julian day number of year, month and day is the calendar's day
    count, and converting it back gives the same year, month and day. *)
Theorem date_roundtrip y m d :
  year_ok y -> valid_date y m d ->
  date_of_ymd y m d = days_of_civil y m d + jdn_offset /\
  yearMonthDay (date_of_ymd y m d) = mkYmd y m d.
Proof.
  intros Hy Hv. split; [by apply getJulianDayNumber_calendar|by apply getYearMonthDay_inverse].
Qed.

Lemma date_roundtrip_witness :
  date_of_ymd 2024 2 29 = 2460370 /\ yearMonthDay (date_of_ymd 2024 2 29) = mkYmd 2024 2 29.
Proof.
  destruct (date_roundtrip 2024 2 29) as [H1 H2].
  - unfold year_ok. lia.
  - unfold valid_date. vm_compute (month_days 2024 2). lia.
  - split; [rewrite H1; vm_compute; reflexivity|exact H2].
Defined.

Lemma next_day_year y m d :
  let '(y', _, _) := next_day (y, m, d) in y' = y \/ y' = y + 1.
Proof. unfold next_day. repeat case_match; simplify_eq; auto. Qed.

(** Consecutive day numbers are consecutive days: the date of number j + 1 is
    the day after the date of number j (across months, leap days and years), and
    the weekday moves on by one. *)
Theorem next_day_number y m d :
  year_ok y -> year_ok (y + 1) -> valid_date y m d ->
  let j := date_of_ymd y m d in
  (let '(y', m', d') := next_day (y, m, d) in yearMonthDay (j + 1) = mkYmd y' m' d') /\
  (0 <= j -> weekDay (j + 1) = (weekDay j + 1) mod 7).
Proof.
  intros Hy Hy1 Hv j. subst j. unfold date_of_ymd. split.
  - rewrite getJulianDayNumber_calendar by done.
    pose proof (days_of_next_day y m d Hv) as Hn. pose proof (next_day_year y m d) as Hyy.
    destruct (next_day (y, m, d)) as [[y' m'] d']. destruct Hn as [Hv' Hn].
    assert (year_ok y') as Hy' by (destruct Hyy as [-> | ->]; done).
    replace (days_of_civil y m d + jdn_offset + 1) with (days_of_civil y' m' d' + jdn_offset) by lia.
    rewrite <- getJulianDayNumber_calendar by done. unfold yearMonthDay. by apply getYearMonthDay_inverse.
  - generalize (getJulianDayNumber y m d). intros j Hj. unfold weekDay, kDaysPerWeek.
    rewrite !Z.rem_mod_nonneg by lia. clear - Hj. div_lia.
Qed.

Lemma next_day_number_witness :
  yearMonthDay (date_of_ymd 2023 12 31 + 1) = mkYmd 2024 1 1 /\
  weekDay (date_of_ymd 2023 12 31 + 1) = 1.
Proof.
  destruct (next_day_number 2023 12 31) as [H1 H2].
  - unfold year_ok; lia.
  - unfold year_ok; lia.
  - unfold valid_date. vm_compute (month_days 2023 12). lia.
  - split; [exact H1|]. rewrite H2 by (vm_compute; discriminate). vm_compute; reflexivity.
Defined.

Example weekDay_of_epoch : weekDay kJulianDayOf1970_01_01 = 4.
Proof. vm_compute. reflexivity. Qed.
