(* ===== verification/TimeZone.v ===== *)
(** * TimeZone: base/TimeZone.h, base/TimeZone.cc

    Time zones: the reader of a TZif zone file, the search for the local time
    type in force, and the conversions between [time_t] and [struct tm].  The
    file is its content, or nothing when [fopen] fails.  The reader mutates the
    zone's data and may throw [logic_error] half-way, so it is written in a
    small monad over the unread bytes and the data.

    Theorems: [toUtcTime] is the C library's gmtime and [fromUtcTime] its
    inverse; [findLocaltime] picks the last transition at or before the time;
    a fixed zone's conversions round-trip; a zone file that cannot be opened
    still gives a valid-looking zone whose first use is undefined. *)

From S2P Require Import Prelude Endian Format Calendar Date.

Definition kSecondsPerDay : Z := 24 * 60 * 60.

Record Transition := mkTransition { gmttime : Z; localtime : Z; localtimeIdx : Z }.
Record Localtime := mkLocaltime { gmtOffset : Z; isDst : bool; arrbIdx : Z }.

Record Data := mkData {
  transitions : list Transition;
  localtimes : list Localtime;
  names : list bytes;
  abbreviation : bytes;
}.

Definition emptyData : Data := mkData [] [] [] [].

(** ** Comp: order by UTC or by local time *)
Definition key (compareGmt : bool) (t : Transition) : Z :=
  if compareGmt then gmttime t else localtime t.
Definition comp_less (compareGmt : bool) (lhs rhs : Transition) : bool :=
  key compareGmt lhs <? key compareGmt rhs.
Definition comp_equal (compareGmt : bool) (lhs rhs : Transition) : bool :=
  key compareGmt lhs =? key compareGmt rhs.

(** [fillHMS] on an unsigned number of seconds: hours, minutes, seconds. *)
Definition fillHMS (seconds : Z) : Z * Z * Z :=
  let minutes := seconds / 60 in
  (minutes / 60, minutes mod 60, seconds mod 60).

(** ** Reading a zone file *)
Definition reader (A : Type) : Type := bytes * Data -> outcome A * (bytes * Data).

#[export] Instance reader_ret : MRet reader := fun A a s => (Ok a, s).
#[export] Instance reader_bind : MBind reader := fun A B f m s =>
  match m s with
  | (Ok a, s') => f a s'
  | (Fault e, s') => (Fault e, s')
  end.

Definition throw {A} (e : fault) : reader A := fun s => (Fault e, s).

(** [fread] of [n] bytes; a short read throws. *)
Definition readBytes (n : Z) : reader bytes := fun '(l, d) =>
  if n <? 0 then (Fault UndefinedBehaviour, (l, d))
  else if zlen l <? n then (Fault LogicError, (@nil ascii, d))
  else (Ok (ztake n l), (zdrop n l, d)).

Definition readInt32 : reader Z :=
  b ← readBytes 4; mret (i32 (be_value b)).
Definition readUInt8 : reader Z :=
  b ← readBytes 1; mret (be_value b).

Fixpoint repeatM {A} (n : nat) (m : reader A) : reader (list A) :=
  match n with
  | O => mret []
  | S k => x ← m; xs ← repeatM k m; mret (x :: xs)
  end.

Definition push_localtime (l : Localtime) : reader unit := fun '(f, d) =>
  (Ok tt, (f, mkData (transitions d) (localtimes d ++ [l]) (names d) (abbreviation d))).
Definition push_transition (t : Transition) : reader unit := fun '(f, d) =>
  (Ok tt, (f, mkData (transitions d ++ [t]) (localtimes d) (names d) (abbreviation d))).
Definition set_abbreviation (a : bytes) : reader unit := fun '(f, d) =>
  (Ok tt, (f, mkData (transitions d) (localtimes d) (names d) a)).
Definition data_localtime (i : Z) : reader Localtime := fun '(f, d) =>
  (get_or UndefinedBehaviour (zget (localtimes d) i), (f, d)).

Definition read_type : reader unit :=
  gmtoff ← readInt32;
  isdst ← readUInt8;
  abbrind ← readUInt8;
  push_localtime (mkLocaltime gmtoff (negb (isdst =? 0)) abbrind).

Definition add_transition (tl : Z * Z) : reader unit :=
  let '(trans, localIdx) := tl in
  lt ← data_localtime localIdx;
  push_transition (mkTransition trans (trans + gmtOffset lt) localIdx).

Fixpoint add_transitions (l : list (Z * Z)) : reader unit :=
  match l with
  | [] => mret tt
  | x :: l' => _ ← add_transition x; add_transitions l'
  end.

Definition read_zone : reader unit :=
  head ← readBytes 4;
  _ ← (if bytes_eqb head (lit "TZif") then mret tt else throw LogicError);
  version ← readBytes 1;
  _ ← readBytes 15;
  isgmtcnt ← readInt32;
  isstdcnt ← readInt32;
  leapcnt ← readInt32;
  timecnt ← readInt32;
  typecnt ← readInt32;
  charcnt ← readInt32;
  (* reserve() of a negative count throws length_error, a logic_error *)
  _ ← (if timecnt <? 0 then throw LogicError else mret tt);
  trans ← repeatM (Z.to_nat timecnt) readInt32;
  locals ← repeatM (Z.to_nat timecnt) readUInt8;
  _ ← repeatM (Z.to_nat typecnt) read_type;
  _ ← add_transitions (combine trans locals);
  a ← readBytes charcnt;
  set_abbreviation a.

(** The [logic_error] is caught and printed; the data read so far stays, and the
    function returns true in every case, also when the file cannot be opened. *)
Definition readTimeZoneFile (file : option bytes) : outcome (bool * Data) :=
  match file with
  | None => Ok (true, emptyData)
  | Some l =>
      match read_zone (l, emptyData) with
      | (Ok _, (_, d)) | (Fault LogicError, (_, d)) => Ok (true, d)
      | (Fault e, _) => Fault e
      end
  end.

(** ** TimeZone *)

(** [data_]: [None] is the invalid zone of the default constructor. *)
Abbreviation TimeZone := (option Data).

Definition timeZoneFromFile (file : option bytes) : outcome TimeZone :=
  '(ok, d) ← readTimeZoneFile file;
  Ok (if ok : bool then Some d else None).

Definition fixedTimeZone (eastOfUtc : Z) (name : bytes) : TimeZone :=
  Some (mkData [] [mkLocaltime eastOfUtc false 0] [] name).

Definition tz_valid (tz : TimeZone) : bool :=
  match tz with Some _ => true | None => false end.

(** [std::lower_bound]: the number of transitions before the first one that is
    not less than the sentry. *)
Fixpoint lower_bound (gmt : bool) (sentry : Transition) (l : list Transition) : Z :=
  match l with
  | [] => 0
  | t :: l' => if comp_less gmt t sentry then 1 + lower_bound gmt sentry l' else 0
  end.

Definition findLocaltime (data : Data) (sentry : Transition) (gmt : bool) : outcome Localtime :=
  let front := get_or UndefinedBehaviour (head (localtimes data)) in
  match transitions data with
  | [] => front
  | first :: _ =>
      if comp_less gmt sentry first then front
      else
        let i := lower_bound gmt sentry (transitions data) in
        match zget (transitions data) i with
        | Some t =>
            if comp_equal gmt sentry t then
              get_or UndefinedBehaviour (zget (localtimes data) (localtimeIdx t))
            else
              c_assert (negb (i =? 0));;
              t' ← get_or UndefinedBehaviour (zget (transitions data) (i - 1));
              get_or UndefinedBehaviour (zget (localtimes data) (localtimeIdx t'))
        | None =>
            t' ← get_or UndefinedBehaviour (last (transitions data));
            get_or UndefinedBehaviour (zget (localtimes data) (localtimeIdx t'))
        end
  end.

(** The C string at [&abbreviation[i]]. *)
Definition zone_name (d : Data) (i : Z) : outcome bytes :=
  if (0 <=? i) && (i <=? zlen (abbreviation d)) then
    let s := zdrop i (abbreviation d) in Ok (ztake (find_char nul s) s)
  else Fault UndefinedBehaviour.

Definition b2z (b : bool) : Z := if b then 1 else 0.

Definition toLocalTime (tz : TimeZone) (seconds : Z) : outcome tm :=
  match tz with
  | None => Fault AssertFailed
  | Some data =>
      local ← findLocaltime data (mkTransition seconds 0 0) true;
      name ← zone_name data (arrbIdx local);
      let g := gmtime_r (seconds + gmtOffset local) in
      Ok (mkTm (tm_sec g) (tm_min g) (tm_hour g) (tm_mday g) (tm_mon g) (tm_year g) (tm_wday g)
            (tm_yday g) (b2z (isDst local)) (gmtOffset local) name)
  end.

Definition fromLocalTime (tz : TimeZone) (localTm : tm) : outcome Z :=
  match tz with
  | None => Fault AssertFailed
  | Some data =>
      let seconds := timegm localTm in
      local ← findLocaltime data (mkTransition 0 seconds 0) false;
      seconds ←
        (if negb (tm_isdst localTm =? 0) then
           tryTm ← toLocalTime tz (seconds - gmtOffset local);
           Ok (if (tm_isdst tryTm =? 0) && (tm_hour tryTm =? tm_hour localTm) &&
                  (tm_min tryTm =? tm_min localTm)
               then seconds - 3600 else seconds)
         else Ok seconds);
      Ok (seconds - gmtOffset local)
  end.

Definition toUtcTime (secondsSinceEpoch : Z) (yday : bool) : tm :=
  let seconds := i32 (cmod secondsSinceEpoch kSecondsPerDay) in
  let days := i32 (cdiv secondsSinceEpoch kSecondsPerDay) in
  let '(seconds, days) := if seconds <? 0 then (seconds + kSecondsPerDay, days - 1) else (seconds, days) in
  let '(h, mi, s) := fillHMS seconds in
  let date := i32 (days + kJulianDayOf1970_01_01) in
  let ymd := yearMonthDay date in
  mkTm s mi h (day ymd) (month ymd - 1) (year ymd - 1900) (weekDay date)
    (if yday then date - date_of_ymd (year ymd) 1 1 else 0) 0 0 (lit "GMT").

Definition fromUtcTime (year month day hour minute seconds : Z) : Z :=
  let date := date_of_ymd year month day in
  let secondsInDay := i32 (hour * 3600 + minute * 60 + seconds) in
  let days := i32 (date - kJulianDayOf1970_01_01) in
  days * kSecondsPerDay + secondsInDay.

Definition fromUtcTime_tm (utc : tm) : Z :=
  fromUtcTime (tm_year utc + 1900) (tm_mon utc + 1) (tm_mday utc) (tm_hour utc) (tm_min utc) (tm_sec utc).

(** ** UTC *)

(** About 3700 BC to AD 97,000. *)
Definition utc_range (t : Z) : Prop := -180000000000 <= t < 3000000000000.

Lemma utc_date t :
  utc_range t ->
  let n := t / 86400 in
  let '(y, m, d) := civil_of_days (n + epoch_days) in
  valid_date y m d /\ year_ok y /\ n + kJulianDayOf1970_01_01 = getJulianDayNumber y m d /\
  days_of_civil y m d = n + epoch_days.
Proof.
  intros Ht n. pose proof (days_of_civil_of_days (n + epoch_days)) as H.
  destruct (civil_of_days (n + epoch_days)) as [[y m] d]. destruct H as [Hv Hd].
  assert (epoch_days = 719162) as He by (vm_compute; reflexivity).
  assert (kJulianDayOf1970_01_01 = 2440588) as Hk by (vm_compute; reflexivity).
  assert (-2083334 <= n < 34722223) as Hn by (subst n; unfold utc_range in Ht; clear - Ht; div_lia).
  assert (year_ok y) as Hy.
  { assert (-4799 <= y < 1000000) as Hy; [|done].
    apply (year_bounds y m d); [done|]. rewrite Hd, He.
    assert (days_before_year (-4799) = -1753164) as -> by (vm_compute; reflexivity).
    assert (days_before_year 1000000 = 365242134) as -> by (vm_compute; reflexivity). lia. }
  split; [done|]. split; [done|]. split; [|done].
  rewrite getJulianDayNumber_calendar by done. rewrite Hd, Hk, He. unfold jdn_offset. lia.
Qed.

(** The two adjusted values are the floor quotient and the remainder. *)
Lemma floor_adjust t :
  utc_range t ->
  (let seconds := i32 (cmod t kSecondsPerDay) in
   let days := i32 (cdiv t kSecondsPerDay) in
   if seconds <? 0 then (seconds + kSecondsPerDay, days - 1) else (seconds, days))
  = (t mod 86400, t / 86400).
Proof.
  unfold utc_range, kSecondsPerDay. intros Ht. cbv zeta.
  change (24 * 60 * 60) with 86400.
  assert (-86400 < cmod t 86400 < 86400 /\ -2083334 <= cdiv t 86400 < 34722223) as [H1 H2]
    by (clear - Ht; div_lia).
  rewrite !(wrapS_id 32) by (unfold in_s; lia).
  destruct (cmod t 86400 <? 0) eqn:E; f_equal; clear - Ht E; div_lia.
Qed.

(** [toUtcTime] with the day of the year is the C library's gmtime, before
    the epoch too. *)
Theorem toUtcTime_gmtime t : utc_range t -> toUtcTime t true = gmtime_r t.
Proof.
  intros Ht. pose proof (utc_date t Ht) as Hd. unfold toUtcTime. rewrite floor_adjust by done.
  unfold fillHMS, gmtime_r. cbv zeta in Hd. cbv zeta.
  destruct (civil_of_days (t / 86400 + epoch_days)) as [[y m] d]. destruct Hd as (Hv & Hy & Hj & Hdays).
  assert (-2083334 <= t / 86400 < 34722223) as Hn by (unfold utc_range in Ht; clear - Ht; div_lia).
  assert (kJulianDayOf1970_01_01 = 2440588) as Hk by (vm_compute; reflexivity).
  rewrite (wrapS_id 32 (t / 86400 + kJulianDayOf1970_01_01)) by (rewrite ?Hk; unfold in_s; lia).
  rewrite Hj. unfold yearMonthDay. rewrite getYearMonthDay_inverse by done. cbn [year month day].
  assert (valid_date y 1 1) as Hv1 by (unfold valid_date; pose proof (month_days_bounds y 1); lia).
  unfold date_of_ymd. rewrite !getJulianDayNumber_calendar by done.
  f_equal.
  - by rewrite Z.div_div by lia.
  - unfold weekDay, kDaysPerWeek. rewrite Hdays. unfold jdn_offset.
    assert (epoch_days = 719162) as -> by (vm_compute; reflexivity).
    rewrite Z.rem_mod_nonneg by lia. clear. div_lia.
  - lia.
Qed.

Lemma toUtcTime_gmtime_witness :
  utc_range (-1) /\ toUtcTime (-1) true = gmtime_r (-1) /\ tm_year (toUtcTime (-1) true) = 69.
Proof.
  assert (utc_range (-1)) as H by (unfold utc_range; lia).
  split; [exact H|]. split; [apply (toUtcTime_gmtime (-1) H)|vm_compute; reflexivity].
Defined.

(** [fromUtcTime] is the inverse of [toUtcTime]. *)
Theorem utc_roundtrip t yday : utc_range t -> fromUtcTime_tm (toUtcTime t yday) = t.
Proof.
  intros Ht. pose proof (utc_date t Ht) as Hd. unfold toUtcTime. rewrite floor_adjust by done.
  unfold fillHMS. cbv zeta in Hd. cbv zeta.
  destruct (civil_of_days (t / 86400 + epoch_days)) as [[y m] d]. destruct Hd as (Hv & Hy & Hj & _).
  assert (-2083334 <= t / 86400 < 34722223) as Hn by (unfold utc_range in Ht; clear - Ht; div_lia).
  assert (kJulianDayOf1970_01_01 = 2440588) as Hk by (vm_compute; reflexivity).
  rewrite (wrapS_id 32 (t / 86400 + kJulianDayOf1970_01_01)) by (rewrite ?Hk; unfold in_s; lia).
  rewrite Hj. unfold yearMonthDay. rewrite getYearMonthDay_inverse by done.
  unfold fromUtcTime_tm, fromUtcTime, date_of_ymd. cbn [tm_year tm_mon tm_mday tm_hour tm_min tm_sec year month day].
  replace (y - 1900 + 1900) with y by lia. replace (m - 1 + 1) with m by lia. rewrite <- Hj, Hk.
  replace (t / 86400 + 2440588 - 2440588) with (t / 86400) by lia.
  assert (0 <= t mod 86400 < 86400) as Hm by (clear; div_lia).
  rewrite !(wrapS_id 32); [|lia|unfold in_s; clear - Hm; div_lia|lia|unfold in_s; lia].
  unfold kSecondsPerDay. clear - Hm. div_lia.
Qed.

Lemma utc_roundtrip_witness :
  utc_range 1709210096 /\ fromUtcTime_tm (toUtcTime 1709210096 false) = 1709210096 /\
  tm_mday (toUtcTime 1709210096 false) = 29.
Proof.
  assert (utc_range 1709210096) as H by (unfold utc_range; lia).
  split; [exact H|]. split; [apply (utc_roundtrip 1709210096 false H)|vm_compute; reflexivity].
Defined.

(** ** Local time types *)
Fixpoint increasing (gmt : bool) (l : list Transition) : Prop :=
  match l with
  | [] => True
  | t :: l' => (forall t', t' ∈ l' -> key gmt t < key gmt t') /\ increasing gmt l'
  end.

(** The last transition at or before [x]. *)
Definition latest (gmt : bool) (x : Z) (l : list Transition) : option Transition :=
  last (filter (fun t => key gmt t <= x) l).

Lemma lower_bound_split gmt sentry l :
  increasing gmt l ->
  exists l1 l2, l = l1 ++ l2 /\ lower_bound gmt sentry l = zlen l1 /\
    (forall t, t ∈ l1 -> key gmt t < key gmt sentry) /\
    (forall t, t ∈ l2 -> key gmt sentry <= key gmt t).
Proof.
  induction l as [|t l IH]; cbn [increasing lower_bound].
  - intros _. exists [], []. split_and!; try done; set_solver.
  - intros [Hlt Hi]. unfold comp_less. destruct (key gmt t <? key gmt sentry) eqn:E.
    + destruct (IH Hi) as (l1 & l2 & -> & -> & H1 & H2). exists (t :: l1), l2.
      split; [done|]. split; [by rewrite zlen_cons|]. split; [|done].
      intros t' [->|Ht]%elem_of_cons; [lia|auto].
    + exists [], (t :: l). split_and!; try done; [set_solver|].
      intros t' [->|Ht]%elem_of_cons; [lia|]. specialize (Hlt t' Ht). lia.
Qed.

(** [findLocaltime] finds the local time type in force: that of the last
    transition at or before the sentry (by UTC or by local time), and the zone's
    first type before every transition; the assertion holds. *)
Theorem findLocaltime_latest data sentry gmt :
  increasing gmt (transitions data) ->
  findLocaltime data sentry gmt =
    match latest gmt (key gmt sentry) (transitions data) with
    | Some t => get_or UndefinedBehaviour (zget (localtimes data) (localtimeIdx t))
    | None => get_or UndefinedBehaviour (head (localtimes data))
    end.
Proof.
  intros Hi. unfold findLocaltime, latest. destruct (transitions data) as [|first rest] eqn:Et; [done|].
  destruct (comp_less gmt sentry first) eqn:Ec; unfold comp_less in Ec.
  - rewrite filter_none; [done|]. intros t [->|Ht]%elem_of_cons; [lia|].
    destruct Hi as [Hlt _]. specialize (Hlt t Ht). lia.
  - destruct (lower_bound_split gmt sentry _ Hi) as (l1 & l2 & Heq & -> & H1 & H2). rewrite Heq.
    assert (forall t, t ∈ l1 -> key gmt t <= key gmt sentry) as H1' by (intros t Ht; specialize (H1 t Ht); lia).
    rewrite filter_app, (filter_all _ l1) by done.
    assert (l1 <> [] -> exists l' t, l1 = l' ++ [t]) as Hsnoc.
    { destruct l1 as [|? ?] using rev_ind; [done|eauto]. }
    destruct l2 as [|t l2].
    + rewrite app_nil_r. change (filter _ []) with (@nil Transition). rewrite app_nil_r.
      unfold zget at 1. pose proof (zlen_nonneg l1). rewrite (proj2 (Z.ltb_ge _ _)) by lia.
      unfold zlen at 1. rewrite Nat2Z.id, lookup_ge_None_2 by lia.
      destruct l1 as [|a l1]; [done|]. destruct Hsnoc as (l' & t & ->); [done|].
      by rewrite last_snoc.
    + rewrite zget_app_first. unfold comp_equal.
      destruct (key gmt sentry =? key gmt t) eqn:Ee.
      * rewrite filter_cons_True by lia. rewrite filter_none.
        { by rewrite last_snoc. }
        intros t' Ht'. assert (increasing gmt (t :: l2)) as [Hlt _].
        { rewrite Heq in Hi. clear - Hi. induction l1 as [|? ? IH]; simpl in *; [done|]. apply IH, Hi. }
        specialize (Hlt t' Ht'). lia.
      * assert (key gmt sentry < key gmt t) by (specialize (H2 t ltac:(left)); lia).
        rewrite (filter_none _ (t :: l2)), app_nil_r.
        2: { intros t' [->|Ht']%elem_of_cons; [lia|].
             assert (increasing gmt (t :: l2)) as [Hlt _].
             { rewrite Heq in Hi. clear - Hi. induction l1 as [|? ? IH]; simpl in *; [done|]. apply IH, Hi. }
             specialize (Hlt t' Ht'). lia. }
        destruct l1 as [|a l1].
        { simpl in Heq. injection Heq as -> ->. lia. }
        destruct Hsnoc as (l' & t0 & ->); [done|].
        rewrite (proj2 (Z.eqb_neq _ 0)) by (rewrite zlen_app; change (zlen [t0]) with 1; pose proof (zlen_nonneg l'); lia).
        cbn [c_assert negb mbind outcome_bind].
        rewrite last_snoc, zlen_app. change (zlen [t0]) with 1.
        replace (zlen l' + 1 - 1) with (zlen l') by lia. rewrite <- app_assoc. simpl app.
        by rewrite zget_app_first.
Qed.

Definition sample_zone : Data :=
  mkData [mkTransition 100 3700 1; mkTransition 200 200 0] [mkLocaltime 0 false 0; mkLocaltime 3600 true 4]
    [] (lit "UTC" ++ [nul] ++ lit "DST" ++ [nul]).

Lemma findLocaltime_latest_witness :
  increasing true (transitions sample_zone) /\
  findLocaltime sample_zone (mkTransition 150 0 0) true = Ok (mkLocaltime 3600 true 4).
Proof.
  assert (increasing true (transitions sample_zone)) as H.
  { cbn. split; [|split; [|done]]; intros t Ht; set_unfold in Ht; [|done].
    destruct Ht as [->|[]]. cbn. lia. }
  split; [exact H|]. rewrite (findLocaltime_latest sample_zone (mkTransition 150 0 0) true H).
  vm_compute. reflexivity.
Defined.

(** [timegm] reads only the date and the time of day. *)
Lemma timegm_copy g wday yday dst off zone :
  timegm (mkTm (tm_sec g) (tm_min g) (tm_hour g) (tm_mday g) (tm_mon g) (tm_year g) wday yday dst off zone)
  = timegm g.
Proof. reflexivity. Qed.

(** In a fixed zone the conversions round-trip: the local time of any instant
    converts back to the instant. *)
Theorem fixed_zone_roundtrip eastOfUtc name t :
  exists localTm, toLocalTime (fixedTimeZone eastOfUtc name) t = Ok localTm /\
    tm_gmtoff localTm = eastOfUtc /\
    fromLocalTime (fixedTimeZone eastOfUtc name) localTm = Ok t.
Proof.
  unfold toLocalTime, fixedTimeZone, findLocaltime, zone_name. cbn [transitions localtimes head get_or
    mbind outcome_bind arrbIdx abbreviation].
  rewrite (proj2 (Z.leb_le 0 (zlen name))) by apply zlen_nonneg. cbn [Z.leb Z.compare andb mbind outcome_bind].
  eexists; split; [done|]. split; [done|].
  unfold fromLocalTime, findLocaltime. cbn [transitions localtimes head get_or mbind outcome_bind
    tm_isdst isDst b2z Z.eqb negb gmtOffset].
  rewrite timegm_copy, timegm_gmtime. f_equal. lia.
Qed.

(** A zone file that cannot be opened goes unnoticed: the zone claims to be
    valid, and its first use reads the front of an empty vector. *)
Theorem missing_zone_file_undefined t :
  exists tz, timeZoneFromFile None = Ok tz /\ tz_valid tz = true /\
    toLocalTime tz t = Fault UndefinedBehaviour.
Proof. by eexists. Qed.

(** ** Zone files *)
Record zone_file := mkZone {
  z_header : bytes;                (* version and reserved bytes *)
  z_counts : Z * Z * Z;            (* isgmtcnt, isstdcnt, leapcnt *)
  z_trans : list (Z * Z);          (* transition time and type index *)
  z_types : list (Z * Z * Z);      (* offset, isdst byte, abbreviation index *)
  z_abbr : bytes;
}.

Definition zone_bytes (z : zone_file) : bytes :=
  let '(isgmtcnt, isstdcnt, leapcnt) := z_counts z in
  lit "TZif" ++ z_header z ++
  be_bytes 4 isgmtcnt ++ be_bytes 4 isstdcnt ++ be_bytes 4 leapcnt ++
  be_bytes 4 (zlen (z_trans z)) ++ be_bytes 4 (zlen (z_types z)) ++ be_bytes 4 (zlen (z_abbr z)) ++
  mjoin (map (fun t => be_bytes 4 (fst t)) (z_trans z)) ++
  mjoin (map (fun t => be_bytes 1 (snd t)) (z_trans z)) ++
  mjoin (map (fun t => be_bytes 4 (fst (fst t)) ++ be_bytes 1 (snd (fst t)) ++ be_bytes 1 (snd t)) (z_types z)) ++
  z_abbr z.

Definition zone_types (z : zone_file) : list Localtime :=
  map (fun t => mkLocaltime (fst (fst t)) (negb (snd (fst t) =? 0)) (snd t)) (z_types z).

(** The offset of the type a transition switches to. *)
Definition type_offset (z : zone_file) (i : Z) : Z :=
  match zget (zone_types z) i with Some l => gmtOffset l | None => 0 end.

Definition zone_data (z : zone_file) : Data :=
  mkData (map (fun t => mkTransition (fst t) (fst t + type_offset z (snd t)) (snd t)) (z_trans z))
    (zone_types z) [] (z_abbr z).

Record zone_ok (z : zone_file) : Prop := {
  zk_header : zlen (z_header z) = 16;
  zk_counts : let '(a, b, c) := z_counts z in in_s 32 a /\ in_s 32 b /\ in_s 32 c;
  zk_sizes : zlen (z_trans z) < 2 ^ 31 /\ zlen (z_types z) < 2 ^ 31 /\ zlen (z_abbr z) < 2 ^ 31;
  zk_trans : Forall (fun t => in_s 32 (fst t) /\ in_u 8 (snd t) /\ snd t < zlen (z_types z)) (z_trans z);
  zk_types : Forall (fun t => in_s 32 (fst (fst t)) /\ in_u 8 (snd (fst t)) /\ in_u 8 (snd t)) (z_types z);
}.

Lemma reader_step {A B} (m : reader A) (f : A -> reader B) s a s' :
  m s = (Ok a, s') -> (m ≫= f) s = f a s'.
Proof. unfold mbind, reader_bind. by intros ->. Qed.

(** One read of the sequence, by the fact about it. *)
Ltac rstep tac := erewrite reader_step; [|tac].

Lemma readBytes_prefix b rest d n : n = zlen b -> readBytes n (b ++ rest, d) = (Ok b, (rest, d)).
Proof.
  intros ->. pose proof (zlen_nonneg b). pose proof (zlen_nonneg rest). unfold readBytes.
  rewrite (proj2 (Z.ltb_ge _ 0)) by lia. rewrite (proj2 (Z.ltb_ge _ _)) by (rewrite zlen_app; lia).
  by rewrite ztake_app_exact, zdrop_app_exact.
Qed.

Lemma zone_int32_prefix x rest d : in_s 32 x -> readInt32 (be_bytes 4 x ++ rest, d) = (Ok x, (rest, d)).
Proof.
  intros Hx. unfold readInt32, mbind, reader_bind. rewrite readBytes_prefix by (by rewrite zlen_be_bytes).
  unfold mret, reader_ret. rewrite be_value_be_bytes. change (256 ^ Z.of_nat 4) with (2 ^ 32).
  fold (wrapU 32 x). by rewrite wrapS_wrapU, wrapS_id.
Qed.

Lemma readUInt8_prefix x rest d : in_u 8 x -> readUInt8 (be_bytes 1 x ++ rest, d) = (Ok x, (rest, d)).
Proof.
  intros Hx. unfold readUInt8, mbind, reader_bind. rewrite readBytes_prefix by (by rewrite zlen_be_bytes).
  unfold mret, reader_ret. rewrite be_value_be_bytes. by rewrite Z.mod_small.
Qed.

(** A reader that consumes the printed form of one element reads a list of them. *)
Lemma repeatM_prefix {A B} (m : reader B) (print : A -> bytes) (val : A -> B) (upd : Data -> A -> Data)
    (P : A -> Prop) l rest d :
  (forall x rest d, P x -> m (print x ++ rest, d) = (Ok (val x), (rest, upd d x))) ->
  Forall P l ->
  repeatM (length l) m (mjoin (map print l) ++ rest, d) = (Ok (map val l), (rest, fold_left upd l d)).
Proof.
  intros Hm. revert d. induction l as [|x l IH]; intros d Hl; [done|].
  apply Forall_cons in Hl as [Hx Hl].
  change (mjoin (map print (x :: l))) with (print x ++ mjoin (map print l)).
  cbn [length repeatM map fold_left]. unfold mbind, reader_bind. rewrite <- app_assoc, Hm by done.
  unfold mbind, reader_bind in IH. by rewrite IH.
Qed.

Lemma fold_left_const {A B} (l : list A) (d : B) : fold_left (fun d _ => d) l d = d.
Proof. induction l; done. Qed.

(** The data with one more local time type. *)
Definition with_type (d : Data) (t : Z * Z * Z) : Data :=
  mkData (transitions d) (localtimes d ++ [mkLocaltime (fst (fst t)) (negb (snd (fst t) =? 0)) (snd t)])
    (names d) (abbreviation d).

Lemma read_types_data l d :
  fold_left with_type l d =
  mkData (transitions d) (localtimes d ++
    map (fun t : Z * Z * Z => mkLocaltime (fst (fst t)) (negb (snd (fst t) =? 0)) (snd t)) l)
    (names d) (abbreviation d).
Proof.
  revert d; induction l as [|t l IH]; intros d; simpl.
  - rewrite app_nil_r. by destruct d.
  - rewrite IH; simpl. by rewrite <- app_assoc.
Qed.

Lemma add_transitions_spec z l rest ts ab :
  Forall (fun t => 0 <= snd t < zlen (zone_types z)) l ->
  add_transitions l (rest, mkData ts (zone_types z) [] ab) =
    (Ok tt, (rest, mkData (ts ++ map (fun t => mkTransition (fst t) (fst t + type_offset z (snd t)) (snd t)) l)
                     (zone_types z) [] ab)).
Proof.
  revert ts; induction l as [|[t i] l IH]; intros ts Hl; simpl; [by rewrite app_nil_r|].
  apply Forall_cons in Hl as [Hi Hl]. simpl in Hi.
  unfold mbind, reader_bind, add_transition, data_localtime, mbind, reader_bind. simpl.
  destruct (zget (zone_types z) i) as [lt|] eqn:E.
  - simpl. unfold mbind, reader_bind in IH. rewrite IH by done.
    assert (type_offset z i = gmtOffset lt) as -> by (unfold type_offset; by rewrite E).
    by rewrite <- app_assoc.
  - exfalso. unfold zget in E. rewrite (proj2 (Z.ltb_ge _ _)) in E by lia.
    apply lookup_ge_None in E. unfold zlen in Hi. lia.
Qed.

Lemma read_type_prefix x rest d :
  in_s 32 (fst (fst x)) /\ in_u 8 (snd (fst x)) /\ in_u 8 (snd x) ->
  read_type ((be_bytes 4 (fst (fst x)) ++ be_bytes 1 (snd (fst x)) ++ be_bytes 1 (snd x)) ++ rest, d) =
    (Ok tt, (rest, with_type d x)).
Proof.
  intros (H1 & H2 & H3). rewrite <- !app_assoc. unfold read_type.
  rstep ltac:(by apply zone_int32_prefix). do 2 (rstep ltac:(by apply readUInt8_prefix)). done.
Qed.

(** C28: Reading a well-formed zone file gives its data: every transition with its
    UTC time, its local time by the offset of its type and its type index, every
    local time type, and the abbreviations. *)
Theorem readTimeZoneFile_correct z trailer :
  zone_ok z -> readTimeZoneFile (Some (zone_bytes z ++ trailer)) = Ok (true, zone_data z).
Proof.
  intros [Hh Hc Hs Ht Hy]. destruct Hs as (Hs1 & Hs2 & Hs3).
  pose proof (zlen_nonneg (z_trans z)). pose proof (zlen_nonneg (z_types z)). pose proof (zlen_nonneg (z_abbr z)).
  assert (exists v r, z_header z = v ++ r /\ zlen v = 1 /\ zlen r = 15) as (v & r & Hvr & Hv & Hr).
  { exists (ztake 1 (z_header z)), (zdrop 1 (z_header z)).
    rewrite ztake_zdrop, zlen_ztake, zlen_zdrop by lia. split; [done|lia]. }
  unfold readTimeZoneFile, read_zone, zone_bytes. destruct (z_counts z) as [[c1 c2] c3].
  destruct Hc as (Hc1 & Hc2 & Hc3). rewrite Hvr, <- !app_assoc.
  rstep ltac:(by apply readBytes_prefix).
  change (bytes_eqb (lit "TZif") (lit "TZif")) with true. cbv iota. rstep ltac:(reflexivity).
  do 2 (rstep ltac:(by apply readBytes_prefix)).
  do 6 (rstep ltac:(apply zone_int32_prefix; done || (unfold in_s; lia))).
  rewrite (proj2 (Z.ltb_ge _ _)) by lia. rstep ltac:(reflexivity).
  replace (Z.to_nat (zlen (z_trans z))) with (length (z_trans z)) by (unfold zlen; lia).
  replace (Z.to_nat (zlen (z_types z))) with (length (z_types z)) by (unfold zlen; lia).
  rstep ltac:(apply (repeatM_prefix readInt32 (fun t : Z * Z => be_bytes 4 (fst t)) fst (fun d _ => d)
    (fun t => in_s 32 (fst t))); [intros; by apply zone_int32_prefix|eapply Forall_impl; [exact Ht|]; intros t Hx; simpl in *; tauto]).
  rstep ltac:(apply (repeatM_prefix readUInt8 (fun t : Z * Z => be_bytes 1 (snd t)) snd (fun d _ => d)
    (fun t => in_u 8 (snd t))); [intros; by apply readUInt8_prefix|eapply Forall_impl; [exact Ht|]; intros t Hx; simpl in *; tauto]).
  rewrite !fold_left_const.
  rstep ltac:(apply (repeatM_prefix read_type _ (fun _ => tt) with_type
    (fun t => in_s 32 (fst (fst t)) /\ in_u 8 (snd (fst t)) /\ in_u 8 (snd t))); [exact read_type_prefix|exact Hy]).
  rewrite read_types_data. cbn [transitions localtimes names abbreviation emptyData app].
  assert (combine (map fst (z_trans z)) (map snd (z_trans z)) = z_trans z) as ->.
  { clear. induction (z_trans z) as [|[a b] l IH]; simpl; [done|by rewrite IH]. }
  fold (zone_types z).
  assert (Forall (fun t => 0 <= snd t < zlen (zone_types z)) (z_trans z)) as Hidx.
  { eapply Forall_impl; [exact Ht|]. intros t (_ & Hi & Hb). unfold in_u in Hi.
    unfold zone_types. rewrite zlen_map. simpl in *. lia. }
  rstep ltac:(by apply (add_transitions_spec z)).
  rstep ltac:(by apply readBytes_prefix). done.
Qed.

Definition sample_zone_file : zone_file :=
  mkZone (replicate 16 nul) (0, 0, 0) [(100, 1); (200, 0)] [(0, 0, 0); (3600, 1, 4)]
    (lit "UTC" ++ [nul] ++ lit "DST" ++ [nul]).

Lemma readTimeZoneFile_correct_witness :
  zone_ok sample_zone_file /\
  readTimeZoneFile (Some (zone_bytes sample_zone_file ++ lit "v2 block")) = Ok (true, sample_zone).
Proof.
  assert (zone_ok sample_zone_file) as H.
  { constructor; cbn; repeat constructor; vm_compute; discriminate || reflexivity. }
  split; [exact H|]. exact (readTimeZoneFile_correct sample_zone_file (lit "v2 block") H).
Defined.
