(* ===== verification/LogStream.v ===== *)
(** * LogStream: base/LogStream.h, base/LogStream.cc

    The fixed buffer a log line is built in, the number formatting, the
    insertion operators and the two unit formatters.  [data_] is the array
    itself, [cur_] the offset of the cursor; a store beyond the array is
    [UndefinedBehaviour], so that staying inside it is a theorem and not a
    convention.  The conversion [%.12g] of a double is the C library's and is a
    parameter; [%.Nf] is defined from the exact value of the double.

    Theorems: [convert] prints every 64-bit integer (the smallest included) in
    decimal and [convertHex] in hexadecimal, both inside the 32 bytes they ask
    for; an insertion keeps the whole text or drops it whole, never writes
    outside the array, and lines that fit are the concatenation of their
    parts; [formatSI] can exceed the five characters its comment promises. *)

From S2P Require Import Prelude Format Calendar Timestamp.

Definition kSmallBuffer : Z := 4000.
Definition kLargeBuffer : Z := 4000 * 1000.
Definition kMaxNumericSize : Z := 32.

(** ** FixedBuffer<SIZE> *)
Record FixedBuffer := mkFixed { data_ : bytes; cur_ : Z }.

Definition newFixedBuffer (SIZE : Z) : FixedBuffer := mkFixed (replicate (Z.to_nat SIZE) nul) 0.

Definition fb_length (b : FixedBuffer) : Z := cur_ b.
Definition avail (b : FixedBuffer) : Z := zlen (data_ b) - cur_ b.
Definition fb_text (b : FixedBuffer) : bytes := ztake (cur_ b) (data_ b).

(** Stores at an offset of the array. *)
Definition store (off : Z) (l : bytes) (b : FixedBuffer) : outcome FixedBuffer :=
  if (0 <=? off) && (off + zlen l <=? zlen (data_ b))
  then Ok (mkFixed (zwrite off l (data_ b)) (cur_ b))
  else Fault UndefinedBehaviour.

Definition fb_add (len : Z) (b : FixedBuffer) : FixedBuffer := mkFixed (data_ b) (cur_ b + len).

Definition fb_append (buf : bytes) (b : FixedBuffer) : outcome FixedBuffer :=
  if zlen buf <? avail b then
    b ← store (cur_ b) buf b;
    Ok (fb_add (zlen buf) b)
  else Ok b.

Definition fb_reset (b : FixedBuffer) : FixedBuffer := mkFixed (data_ b) 0.
Definition fb_bzero (b : FixedBuffer) : FixedBuffer := mkFixed (replicate (length (data_ b)) nul) (cur_ b).

(** ** Number conversion *)
Definition digits : bytes := lit "9876543210123456789".
Definition zero_at (i : Z) : outcome ascii := get_or UndefinedBehaviour (zget digits (9 + i)).
Definition digitsHex : bytes := lit "0123456789ABCDEF".

(** The do-while loops: least significant digit first. *)
Fixpoint convert_loop (fuel : nat) (i : Z) : outcome bytes :=
  match fuel with
  | O => Fault OutOfFuel
  | S fuel' =>
      let lsd := cmod i 10 in
      let i' := cdiv i 10 in
      c ← zero_at lsd;
      if i' =? 0 then Ok [c]
      else rest ← convert_loop fuel' i'; Ok (c :: rest)
  end.

(** The text left in [buf] (its NUL not included); 20 digits hold 64 bits. *)
Definition convert (value : Z) : outcome bytes :=
  l ← convert_loop 20 value;
  Ok (rev (if value <? 0 then l ++ [minus] else l)).

Fixpoint convertHex_loop (fuel : nat) (i : Z) : outcome bytes :=
  match fuel with
  | O => Fault OutOfFuel
  | S fuel' =>
      let lsd := i mod 16 in
      let i' := i / 16 in
      c ← get_or UndefinedBehaviour (zget digitsHex lsd);
      if i' =? 0 then Ok [c]
      else rest ← convertHex_loop fuel' i'; Ok (c :: rest)
  end.

Definition convertHex (value : Z) : outcome bytes :=
  l ← convertHex_loop 16 value;
  Ok (rev l).

(** ** LogStream *)
Section stream.
(** [snprintf(_, 32, "%.12g", v)] of the C library. *)
Context (format_g : double -> bytes).

(** [formatInteger]: the conversion writes at [current()], with its NUL. *)
Definition formatInteger (v : Z) (b : FixedBuffer) : outcome FixedBuffer :=
  if kMaxNumericSize <=? avail b then
    s ← convert v;
    b ← store (cur_ b) (s ++ [nul]) b;
    Ok (fb_add (zlen s) b)
  else Ok b.

Definition insert_pointer (v : Z) (b : FixedBuffer) : outcome FixedBuffer :=
  if kMaxNumericSize <=? avail b then
    s ← convertHex v;
    b ← store (cur_ b) (lit "0x" ++ s ++ [nul]) b;
    Ok (fb_add (zlen s + 2) b)
  else Ok b.

(** snprintf truncates to 31 characters but returns the full length. *)
Definition insert_double (v : double) (b : FixedBuffer) : outcome FixedBuffer :=
  if kMaxNumericSize <=? avail b then
    let s := format_g v in
    b ← store (cur_ b) (snprintf kMaxNumericSize s ++ [nul]) b;
    Ok (fb_add (zlen s) b)
  else Ok b.

Definition insert_bool (v : bool) (b : FixedBuffer) : outcome FixedBuffer :=
  fb_append (lit (if v then "1" else "0")) b.
Definition insert_char (v : ascii) (b : FixedBuffer) : outcome FixedBuffer := fb_append [v] b.
Definition insert_cstr (str : option bytes) (b : FixedBuffer) : outcome FixedBuffer :=
  match str with
  | Some s => fb_append s b
  | None => fb_append (lit "(null)") b
  end.
Definition insert_string (v : bytes) (b : FixedBuffer) : outcome FixedBuffer := fb_append v b.
Definition insert_buffer (v : FixedBuffer) (b : FixedBuffer) : outcome FixedBuffer := fb_append (fb_text v) b.

(** [Fmt(fmt, val)]: formatted by snprintf, asserted to fit its 32 bytes. *)
Definition insert_fmt (formatted : bytes) (b : FixedBuffer) : outcome FixedBuffer :=
  c_assert (zlen formatted <? 32);; fb_append formatted b.

(** What can be inserted in a stream. *)
Inductive item :=
| IInt (v : Z)                    (* short ... unsigned long long *)
| IPointer (v : Z)
| IDouble (v : double)
| IBool (v : bool)
| IChar (v : ascii)
| ICstr (str : option bytes)
| IString (v : bytes)
| IFmt (formatted : bytes).

Definition insert_item (b : FixedBuffer) (i : item) : outcome FixedBuffer :=
  match i with
  | IInt v => formatInteger v b
  | IPointer v => insert_pointer v b
  | IDouble v => insert_double v b
  | IBool v => insert_bool v b
  | IChar v => insert_char v b
  | ICstr str => insert_cstr str b
  | IString v => insert_string v b
  | IFmt s => insert_fmt s b
  end.
End stream.

(** ** formatSI, formatIEC *)

(** %.<k>f: the exact value of a finite non-negative double, rounded half to
    even to [k] decimals. *)
Definition round_half_even (num den : Z) : Z :=
  let q := num / den in
  let r := num mod den in
  if (den <? 2 * r) || ((2 * r =? den) && Z.odd q) then q + 1 else q.

Definition fixed_value (k : Z) (f : double) : Z :=
  match f with
  | S754_finite false m e =>
      if 0 <=? e then Z.pos m * 2 ^ e * 10 ^ k else round_half_even (Z.pos m * 10 ^ k) (2 ^ (- e))
  | _ => 0
  end.

Definition fmt_fixed (k : Z) (f : double) : bytes :=
  let v := fixed_value k f in
  if k =? 0 then dec v
  else dec (v / 10 ^ k) ++ lit "." ++ fmt_int true k (v mod 10 ^ k).

(** The branches in order: bound, decimals, unit and its divisor's exponent. *)
Definition si_branches : list (Z * Z * Z * string) :=
  [(9995, 2, 3, "k"); (99950, 1, 3, "k"); (999500, 0, 3, "k");
   (9995000, 2, 6, "M"); (99950000, 1, 6, "M"); (999500000, 0, 6, "M");
   (9995000000, 2, 9, "G"); (99950000000, 1, 9, "G"); (999500000000, 0, 9, "G");
   (9995000000000, 2, 12, "T"); (99950000000000, 1, 12, "T"); (999500000000000, 0, 12, "T");
   (9995000000000000, 2, 15, "P"); (99950000000000000, 1, 15, "P"); (999500000000000000, 0, 15, "P")]%string.

Fixpoint si_select (s : Z) (l : list (Z * Z * Z * string)) : bytes :=
  let n := double_of_int s in
  match l with
  | [] => fmt_fixed 2 (double_div n (double_of_int (10 ^ 18))) ++ lit "E"
  | (bound, k, ex, u) :: l' =>
      if s <? bound then fmt_fixed k (double_div n (double_of_int (10 ^ ex))) ++ lit u
      else si_select s l'
  end.

Definition formatSI (s : Z) : bytes :=
  snprintf 64 (if s <? 1000 then dec s else si_select s si_branches).

(** The literals 9.995, 99.95 and 1023.5 are the nearest doubles. *)
Definition double_ratio (a b : Z) : double := double_div (double_of_int a) (double_of_int b).

Definition iec_factors : list (double * Z) :=
  [(double_ratio 9995 1000, 2); (double_ratio 9995 100, 1); (double_ratio 10235 10, 0)].

Definition iec_units : list (Z * string) :=
  [(1, "Ki"); (2, "Mi"); (3, "Gi"); (4, "Ti"); (5, "Pi")]%string.

Definition iec_branches : list (Z * Z * double * string) :=
  mjoin (map (fun u : Z * string => map (fun f : double * Z => (fst u, snd f, fst f, snd u)) iec_factors) iec_units).

Fixpoint iec_select (n : double) (l : list (Z * Z * double * string)) : bytes :=
  match l with
  | [] =>
      let Ei := double_of_int (1024 ^ 6) in
      fmt_fixed (if SFltb n (double_mul Ei (double_ratio 9995 1000)) then 2 else 1) (double_div n Ei) ++ lit "Ei"
  | (p, k, factor, u) :: l' =>
      let unit := double_of_int (1024 ^ p) in
      if SFltb n (double_mul unit factor) then fmt_fixed k (double_div n unit) ++ lit u
      else iec_select n l'
  end.

Definition formatIEC (s : Z) : bytes :=
  let n := double_of_int s in
  snprintf 64 (if SFltb n (double_of_int 1024) then dec s else iec_select n iec_branches).

Example formatSI_examples :
  map formatSI [0; 999; 1000; 9994; 9995; 99949; 999499; 9223372036854775807] =
  map lit ["0"; "999"; "1.00k"; "9.99k"; "10.0k"; "99.9k"; "999k"; "9.22E"]%string.
Proof. vm_compute. reflexivity. Qed.

Example formatIEC_examples :
  map formatIEC [0; 1023; 1024; 10234; 10235; 102348; 1048063; 1048064; 9223372036854775807] =
  map lit ["0"; "1023"; "1.00Ki"; "9.99Ki"; "10.0Ki"; "99.9Ki"; "1023Ki"; "1.00Mi"; "8.00Ei"]%string.
Proof. vm_compute. reflexivity. Qed.

(** [formatSI] promises at most five characters, and for this quantity, whose
    conversion to double crosses the bound it was tested against, returns six. *)
Theorem formatSI_six_characters :
  exists s, 0 <= s < 2 ^ 63 /\ formatSI s = lit "100.0P" /\ zlen (formatSI s) = 6.
Proof. exists 99949999999999992. split; [lia|]. split; vm_compute; reflexivity. Qed.

(** ** The conversions *)
Lemma zero_at_digit d : 0 <= d < 10 -> zero_at d = Ok (digit d) /\ zero_at (- d) = Ok (digit d).
Proof.
  intros H. assert (d = 0 \/ d = 1 \/ d = 2 \/ d = 3 \/ d = 4 \/ d = 5 \/ d = 6 \/ d = 7 \/ d = 8 \/ d = 9)
    as Hd by lia.
  repeat (destruct Hd as [->|Hd]; [split; vm_compute; reflexivity|]). subst d. split; vm_compute; reflexivity.
Qed.

Lemma convert_loop_dec fuel i :
  (0 < fuel)%nat -> Z.abs i < 10 ^ Z.of_nat fuel -> convert_loop fuel i = Ok (rev (dec_nonneg (Z.abs i))).
Proof.
  revert i. induction fuel as [|fuel IH]; intros i Hf Hi; [lia|]. cbn [convert_loop].
  assert (zero_at (cmod i 10) = Ok (digit (Z.abs i mod 10))) as ->.
  { destruct (zero_at_digit (Z.abs i mod 10)) as [H1 H2]; [apply Z.mod_pos_bound; lia|].
    destruct (decide (0 <= i)) as [Hs|Hs].
    - rewrite Z.rem_mod_nonneg by lia. by rewrite Z.abs_eq in * by lia.
    - replace (cmod i 10) with (- (Z.abs i mod 10)); [done|]. clear - Hs. div_lia. }
  assert (Z.abs (cdiv i 10) = Z.abs i / 10) as Hq by (clear; div_lia).
  rewrite dec_nonneg_eq by lia. cbn [mbind outcome_bind].
  destruct (cdiv i 10 =? 0) eqn:E.
  - assert (Z.abs i < 10) as Hlt by (clear - E; div_lia). rewrite (proj2 (Z.ltb_lt _ _)) by lia.
    by rewrite Z.mod_small by lia.
  - assert (10 <= Z.abs i) as Hge by (clear - E; div_lia). rewrite (proj2 (Z.ltb_ge _ _)) by lia.
    destruct fuel as [|fuel]; [simpl in Hi; lia|].
    rewrite IH; [|lia|].
    + rewrite Hq. cbn [mbind outcome_bind]. by rewrite rev_app_distr.
    + rewrite Hq. apply Z.div_lt_upper_bound; [lia|].
      rewrite <- Z.pow_succ_r by lia. replace (Z.succ (Z.of_nat (S fuel))) with (Z.of_nat (S (S fuel))) by lia.
      done.
Qed.

Lemma convert_dec v : - 2 ^ 63 <= v < 2 ^ 64 -> convert v = Ok (dec v).
Proof.
  intros Hv. unfold convert. rewrite convert_loop_dec by (lia || (change (10 ^ Z.of_nat 20) with (10 ^ 20); lia)).
  cbn [mbind outcome_bind]. unfold dec. destruct (v <? 0) eqn:E.
  - rewrite Z.abs_neq by lia. by rewrite rev_app_distr, rev_involutive.
  - rewrite Z.abs_eq by lia. by rewrite rev_involutive.
Qed.

(** Hexadecimal: the value of the digits is the pointer. *)
Definition hex_value (c : ascii) : Z :=
  let x := char_code c in if x <? 58 then x - 48 else x - 55.

Definition unhex (l : bytes) : Z := fold_left (fun acc c => 16 * acc + hex_value c) l 0.

Lemma digitsHex_value d : 0 <= d < 16 -> exists c, zget digitsHex d = Some c /\ hex_value c = d.
Proof.
  intros H. assert (d = 0 \/ d = 1 \/ d = 2 \/ d = 3 \/ d = 4 \/ d = 5 \/ d = 6 \/ d = 7 \/ d = 8 \/
    d = 9 \/ d = 10 \/ d = 11 \/ d = 12 \/ d = 13 \/ d = 14 \/ d = 15) as Hd by lia.
  repeat (destruct Hd as [->|Hd]; [eexists; split; vm_compute; reflexivity|]).
  subst d. eexists; split; vm_compute; reflexivity.
Qed.

Lemma convertHex_loop_value fuel i :
  (0 < fuel)%nat -> 0 <= i < 16 ^ Z.of_nat fuel ->
  exists l, convertHex_loop fuel i = Ok l /\ unhex (rev l) = i /\ (1 <= length l <= fuel)%nat.
Proof.
  revert i. induction fuel as [|fuel IH]; intros i Hf Hi; [lia|]. cbn [convertHex_loop].
  destruct (digitsHex_value (i mod 16)) as (c & -> & Hc); [apply Z.mod_pos_bound; lia|].
  cbn [get_or mbind outcome_bind]. destruct (i / 16 =? 0) eqn:E.
  - exists [c]. split; [done|]. split; [|simpl; lia]. simpl. unfold unhex; simpl. rewrite Hc.
    clear - E Hi. div_lia.
  - destruct fuel as [|fuel].
    { exfalso. apply Z.eqb_neq in E. apply E. apply Z.div_small. simpl in Hi. lia. }
    destruct (IH (i / 16)) as (l & -> & Hv & Hl); [lia| |].
    + split; [apply Z.div_pos; lia|]. apply Z.div_lt_upper_bound; [lia|].
      rewrite <- Z.pow_succ_r by lia. replace (Z.succ (Z.of_nat (S fuel))) with (Z.of_nat (S (S fuel))) by lia. lia.
    + cbn [mbind outcome_bind]. exists (c :: l). split; [done|]. split; [|simpl; lia].
      simpl rev. unfold unhex in *. rewrite fold_left_app, Hv. simpl. rewrite Hc. clear. div_lia.
Qed.

Lemma convertHex_value v :
  in_u 64 v -> exists s, convertHex v = Ok s /\ unhex s = v /\ 1 <= zlen s <= 16.
Proof.
  intros Hv. unfold convertHex. destruct (convertHex_loop_value 16 v) as (l & -> & H1 & H2);
    [lia|exact Hv|].
  cbn [mbind outcome_bind]. exists (rev l). split; [done|]. split; [done|]. rewrite zlen_rev. unfold zlen. lia.
Qed.

(** Numbers are printed exactly: [convert] gives the decimal text of every
    value of every integer type, the most negative ones included, and
    [convertHex] a hexadecimal text whose value is the pointer; both texts with
    their terminator fit in the [kMaxNumericSize] bytes the callers reserve. *)
Theorem number_conversion_exact v p :
  - 2 ^ 63 <= v < 2 ^ 64 -> in_u 64 p ->
  convert v = Ok (dec v) /\ undec (dec v) = v /\ zlen (dec v) + 1 <= kMaxNumericSize /\
  exists s, convertHex p = Ok s /\ unhex s = p /\ zlen s + 3 <= kMaxNumericSize.
Proof.
  intros Hv Hp. split; [by apply convert_dec|]. split; [apply undec_dec|].
  pose proof (dec_length64 v Hv). unfold kMaxNumericSize. split; [lia|].
  destruct (convertHex_value p Hp) as (s & H1 & H2 & H3). exists s. split; [done|]. split; [done|lia].
Qed.

Lemma number_conversion_exact_witness :
  convert (- 2 ^ 63) = Ok (lit "-9223372036854775808") /\
  convertHex 48879 = Ok (lit "BEEF").
Proof.
  destruct (number_conversion_exact (- 2 ^ 63) 48879) as (H & _); [lia|unfold in_u; lia|].
  split; [rewrite H; vm_compute; reflexivity|vm_compute; reflexivity].
Defined.

(** ** Insertions *)

(** The buffer always keeps a byte free. *)
Definition fb_wf (b : FixedBuffer) : Prop := 0 <= cur_ b < zlen (data_ b).

Section insertions.
Context (format_g : double -> bytes).
(** Twelve significant digits, a sign, a point and an exponent. *)
Hypothesis format_g_short : forall v, zlen (format_g v) < kMaxNumericSize.

(** The text of an item. *)
Definition item_text (i : item) : bytes :=
  match i with
  | IInt v => dec v
  | IPointer v => match convertHex v with Ok s => lit "0x" ++ s | Fault _ => [] end
  | IDouble v => format_g v
  | IBool v => lit (if v then "1" else "0")
  | IChar v => [v]
  | ICstr (Some s) => s
  | ICstr None => lit "(null)"
  | IString v => v
  | IFmt s => s
  end.

(** Numbers ask for 32 bytes, texts for one more than their length. *)
Definition item_room (i : item) : Z :=
  match i with
  | IInt _ | IPointer _ | IDouble _ => kMaxNumericSize
  | _ => zlen (item_text i) + 1
  end.

Definition item_ok (i : item) : Prop :=
  match i with
  | IInt v => - 2 ^ 63 <= v < 2 ^ 64
  | IPointer v => in_u 64 v
  | IFmt s => zlen s < 32
  | _ => True
  end.

Lemma store_ok off s b :
  0 <= off -> off + zlen s <= zlen (data_ b) ->
  store off s b = Ok (mkFixed (zwrite off s (data_ b)) (cur_ b)).
Proof.
  intros H1 H2. unfold store. by rewrite (proj2 (Z.leb_le 0 off)), (proj2 (Z.leb_le _ (zlen (data_ b)))).
Qed.

(** Writing [s] and possibly a terminator at the cursor and moving past [s]. *)
Lemma fb_write_spec s t b :
  fb_wf b -> zlen (s ++ t) <= avail b -> zlen s < avail b ->
  exists b', store (cur_ b) (s ++ t) b = Ok b' /\ fb_wf (fb_add (zlen s) b') /\
    fb_text (fb_add (zlen s) b') = fb_text b ++ s /\ zlen (data_ b') = zlen (data_ b) /\ cur_ b' = cur_ b.
Proof.
  unfold fb_wf, avail. intros H Ha Hs. pose proof (zlen_nonneg s). pose proof (zlen_nonneg t).
  rewrite zlen_app in Ha. rewrite store_ok by (rewrite ?zlen_app; lia).
  eexists; split; [done|]. simpl. rewrite zlen_zwrite by (rewrite ?zlen_app; lia).
  split; [lia|]. split; [|lia]. unfold fb_text; simpl.
  unfold zwrite. rewrite <- app_assoc, (app_assoc (ztake (cur_ b) (data_ b)) s).
  apply ztake_app_exact. rewrite zlen_app, zlen_ztake; lia.
Qed.

Lemma fb_append_spec s b :
  fb_wf b ->
  exists b', fb_append s b = Ok b' /\ fb_wf b' /\ zlen (data_ b') = zlen (data_ b) /\
    fb_text b' = if zlen s <? avail b then fb_text b ++ s else fb_text b.
Proof.
  intros H. unfold fb_append. destruct (zlen s <? avail b) eqn:E; [|eauto].
  destruct (fb_write_spec s [] b H) as (b' & Hs & Hw & Ht & Hd & _); rewrite ?app_nil_r in *; [lia..|].
  rewrite Hs. cbn [mbind outcome_bind]. eauto.
Qed.

Lemma insert_item_spec b i :
  fb_wf b -> item_ok i ->
  exists b', insert_item format_g b i = Ok b' /\ fb_wf b' /\ zlen (data_ b') = zlen (data_ b) /\
    fb_text b' = if item_room i <=? avail b then fb_text b ++ item_text i else fb_text b.
Proof.
  intros H Hok.
  assert (forall s, exists b', fb_append s b = Ok b' /\ fb_wf b' /\ zlen (data_ b') = zlen (data_ b) /\
    fb_text b' = if zlen s + 1 <=? avail b then fb_text b ++ s else fb_text b) as Happ.
  { intros s. destruct (fb_append_spec s b H) as (b' & -> & Hw & Hd & Ht). exists b'.
    do 3 (split; [done|]). rewrite Ht.
    destruct (zlen s <? avail b) eqn:E1, (zlen s + 1 <=? avail b) eqn:E2; lia || done. }
  destruct i as [v|v|v|v|v|[s|]|v|s]; simpl insert_item; simpl in Hok; try apply Happ.
  - unfold formatInteger, item_room. destruct (kMaxNumericSize <=? avail b) eqn:E; [|eauto].
    rewrite convert_dec by done. cbn [mbind outcome_bind].
    pose proof (dec_length64 v Hok). unfold kMaxNumericSize in *.
    destruct (fb_write_spec (dec v) [nul] b H) as (b' & -> & Hw & Ht & Hd & _);
      [rewrite zlen_app; change (zlen [nul]) with 1; lia|lia|].
    cbn [mbind outcome_bind]. eauto.
  - unfold insert_pointer, item_room, item_text. destruct (kMaxNumericSize <=? avail b) eqn:E; [|eauto].
    destruct (convertHex_value v Hok) as (s & -> & _ & Hl). cbn [mbind outcome_bind]. unfold kMaxNumericSize in *.
    assert (zlen (lit "0x") = 2) as H2 by done.
    destruct (fb_write_spec (lit "0x" ++ s) [nul] b H) as (b' & Hs & Hw & Ht & Hd & _);
      [rewrite !zlen_app, H2; change (zlen [nul]) with 1; lia|rewrite zlen_app; lia|].
    rewrite <- app_assoc in Hs. rewrite Hs. cbn [mbind outcome_bind].
    replace (zlen s + 2) with (zlen (lit "0x" ++ s)) by (rewrite zlen_app; lia). eauto.
  - unfold insert_double, item_room, item_text. destruct (kMaxNumericSize <=? avail b) eqn:E; [|eauto].
    pose proof (format_g_short v). unfold snprintf. unfold kMaxNumericSize in *.
    rewrite ztake_all by lia.
    destruct (fb_write_spec (format_g v) [nul] b H) as (b' & -> & Hw & Ht & Hd & _);
      [rewrite zlen_app; change (zlen [nul]) with 1; lia|lia|].
    cbn [mbind outcome_bind]. eauto.
  - unfold insert_fmt. rewrite c_assert_bind_true by lia. apply Happ.
Qed.

(** What a sequence of insertions leaves in a buffer of [size] bytes. *)
Fixpoint kept (size : Z) (text : bytes) (l : list item) : bytes :=
  match l with
  | [] => text
  | i :: l' =>
      kept size (if item_room i <=? size - zlen text then text ++ item_text i else text) l'
  end.

Lemma fb_text_length b : fb_wf b -> zlen (fb_text b) = cur_ b.
Proof. unfold fb_wf, fb_text. intros H. apply zlen_ztake. lia. Qed.

Lemma insert_items_spec l b :
  fb_wf b -> Forall item_ok l ->
  exists b', foldM (insert_item format_g) b l = Ok b' /\ fb_wf b' /\ zlen (data_ b') = zlen (data_ b) /\
    fb_text b' = kept (zlen (data_ b)) (fb_text b) l.
Proof.
  revert b. induction l as [|i l IH]; intros b H Hl; [cbn; eauto|].
  apply Forall_cons in Hl as [Hi Hl]. cbn [foldM kept].
  destruct (insert_item_spec b i H Hi) as (b1 & -> & Hw & Hd & Ht). cbn [mbind outcome_bind].
  destruct (IH b1 Hw Hl) as (b2 & -> & Hw2 & Hd2 & Ht2). exists b2. split; [done|]. split; [done|].
  split; [lia|]. rewrite Ht2, Hd. f_equal. rewrite Ht. unfold avail. by rewrite (fb_text_length b H).
Qed.

Lemma kept_all size text l :
  zlen text + zlen (mjoin (map item_text l)) + kMaxNumericSize <= size -> kept size text l = text ++ mjoin (map item_text l).
Proof.
  revert text. induction l as [|i l IH]; intros text Hs; cbn [kept].
  - by rewrite app_nil_r.
  - change (mjoin (map item_text (i :: l))) with (item_text i ++ mjoin (map item_text l)) in *.
    rewrite zlen_app in Hs. pose proof (zlen_nonneg (item_text i)).
    pose proof (zlen_nonneg (mjoin (map item_text l))). unfold kMaxNumericSize in *.
    assert (item_room i <= size - zlen text) as Hr.
    { destruct i as [| | | | |[]| |]; unfold item_room, kMaxNumericSize; lia. }
    rewrite (proj2 (Z.leb_le _ _)) by done. rewrite IH; [by rewrite <- app_assoc|]. rewrite zlen_app. lia.
Qed.

(** A log stream never writes outside its buffer: any sequence of insertions
    succeeds, each text is kept whole or dropped whole, and when the line with 32
    bytes to spare fits in the buffer the result is the concatenation of the
    texts. *)
Theorem log_stream_concat l size :
  32 <= size -> Forall item_ok l ->
  exists b, foldM (insert_item format_g) (newFixedBuffer size) l = Ok b /\ fb_wf b /\
    fb_text b = kept size [] l /\
    (zlen (mjoin (map item_text l)) + kMaxNumericSize <= size -> fb_text b = mjoin (map item_text l)).
Proof.
  intros Hs Hl.
  assert (zlen (data_ (newFixedBuffer size)) = size) as Hd by (apply zlen_replicate; lia).
  destruct (insert_items_spec l (newFixedBuffer size)) as (b & Hb & Hw & _ & Ht);
    [unfold fb_wf; rewrite Hd; simpl; lia|done|].
  exists b. rewrite Hd in Ht. change (fb_text (newFixedBuffer size)) with (@nil ascii) in Ht.
  split; [done|]. split; [done|]. split; [done|]. intros Hfit. rewrite Ht. apply kept_all. znil. lia.
Qed.
End insertions.

(** A conversion of doubles that prints nothing but a zero. *)
Definition sample_format_g (v : double) : bytes := lit "0".

Lemma log_stream_concat_witness :
  exists b, foldM (insert_item sample_format_g) (newFixedBuffer 64)
      [IString (lit "n="); IInt (-7); IChar (code_char 32); IPointer 255; IBool true] = Ok b /\
    fb_text b = lit "n=-7 0xFF1".
Proof.
  destruct (log_stream_concat sample_format_g ltac:(intros v; vm_compute; reflexivity)
    [IString (lit "n="); IInt (-7); IChar (code_char 32); IPointer 255; IBool true] 64) as (b & H1 & _ & _ & H2).
  - lia.
  - repeat constructor; unfold in_u; lia || (vm_compute; discriminate) || idtac.
  - exists b. split; [exact H1|]. rewrite H2; vm_compute; reflexivity || discriminate.
Defined.
