(* ===== verification/Logging.v ===== *)
(** * Logging: base/Logging.h, base/Logging.cc

    One log line: the source file's base name, the time with its per-thread
    one-second cache, the thread id, the level, the errno text, the message and
    the trailer, and what the destructor does with the line.  The cache is
    explicit state; [strerror_r], the thread id text and the clock are
    arguments.

    Theorems: in UTC every line has the documented form, whatever was logged
    before in the thread; the cache survives a change of time zone, so a line
    can carry the time of the old zone. *)

From S2P Require Import Prelude Endian Format Calendar Timestamp Date TimeZone LogStream.

Inductive LogLevel := TRACE | DEBUG | INFO | WARN | ERROR | FATAL.

#[export] Instance LogLevel_eq_dec : EqDecision LogLevel.
Proof. solve_decision. Defined.

Definition level_num (l : LogLevel) : Z :=
  match l with TRACE => 0 | DEBUG => 1 | INFO => 2 | WARN => 3 | ERROR => 4 | FATAL => 5 end.

Definition LogLevelName (l : LogLevel) : bytes :=
  lit (match l with
       | TRACE => "TRACE " | DEBUG => "DEBUG " | INFO => "INFO  "
       | WARN => "WARN  " | ERROR => "ERROR " | FATAL => "FATAL "
       end).

(** [getenv] says which variables are set. *)
Definition initLogLevel (getenv : bytes -> bool) : LogLevel :=
  if getenv (lit "MUDUO_LOG_TRACE") then TRACE
  else if getenv (lit "MUDUO_LOG_DEBUG") then DEBUG
  else INFO.

(** The guards of the LOG_ macros: only the three lowest levels are filtered. *)
Definition log_enabled (g_logLevel level : LogLevel) : bool :=
  match level with
  | TRACE | DEBUG | INFO => level_num g_logLevel <=? level_num level
  | WARN | ERROR | FATAL => true
  end.

(** [SourceFile]: what follows the last slash. *)
Definition slash : ascii := code_char 47.

Fixpoint strrchr_after (l : bytes) : option bytes :=
  match l with
  | [] => None
  | c :: l' =>
      match strrchr_after l' with
      | Some r => Some r
      | None => if ceqb c slash then Some l' else None
      end
  end.

Definition SourceFile (filename : bytes) : bytes :=
  match strrchr_after filename with Some b => b | None => filename end.

(** The thread's cache of the formatted second. *)
Record TimeCache := mkCache { t_time : bytes; t_lastSecond : Z }.
Definition newTimeCache : TimeCache := mkCache [] 0.

(** [T(str, len)]: the length is asserted, then the text appended. *)
Definition insert_T (str : bytes) (len : Z) (b : FixedBuffer) : outcome FixedBuffer :=
  c_assert (zlen str =? len);; fb_append str b.

Definition tm_of (tz : option Data) (seconds : Z) : outcome tm :=
  if tz_valid tz then toLocalTime tz seconds else Ok (gmtime_r seconds).

Definition formatTime (tz : option Data) (time_ : Z) (cache : TimeCache) (b : FixedBuffer)
  : outcome (TimeCache * FixedBuffer) :=
  let seconds := cdiv time_ kMicroSecondsPerSecond in
  let microseconds := cmod time_ kMicroSecondsPerSecond in
  cache ←
    (if negb (seconds =? t_lastSecond cache) then
       tm_time ← tm_of tz seconds;
       let text := date_time_text tm_time in
       c_assert (zlen text =? 17);;
       Ok (mkCache (snprintf 64 text) seconds)
     else Ok cache);
  let us := lit "." ++ fmt_int true 6 microseconds ++ lit (if tz_valid tz then " " else "Z ") in
  c_assert (zlen us <? 32);;
  let len := if tz_valid tz then 8 else 9 in
  c_assert (zlen us =? len);;
  b ← insert_T (t_time cache) 17 b;
  b ← insert_T us len b;
  Ok (cache, b).

Section logger.
(** [strerror_r] and the cached text of the thread id. *)
Context (strerror : Z -> bytes) (tidString : bytes).
Context (format_g : double -> bytes).

(** [Logger::Impl::Impl] up to the message. *)
Definition newImpl (level : LogLevel) (savedErrno : Z) (tz : option Data) (time_ : Z) (cache : TimeCache)
  : outcome (TimeCache * FixedBuffer) :=
  '(cache, b) ← formatTime tz time_ cache (newFixedBuffer kSmallBuffer);
  b ← fb_append tidString b;
  b ← insert_T (LogLevelName level) 6 b;
  b ← (if negb (savedErrno =? 0) then
         foldM (insert_item format_g) b
           [ICstr (Some (strerror savedErrno)); ICstr (Some (lit " (errno=")); IInt savedErrno; ICstr (Some (lit ") "))]
       else Ok b);
  Ok (cache, b).

Definition finish (basename_ : bytes) (line_ : Z) (b : FixedBuffer) : outcome FixedBuffer :=
  b ← fb_append (lit " - ") b;
  b ← fb_append basename_ b;
  b ← insert_char (code_char 58) b;
  b ← formatInteger line_ b;
  insert_char lf b.

(** The whole life of [Logger(file, line, level, ...).stream() << items]: what
    is handed to [g_output], and whether the process then aborts. *)
Definition log (level : LogLevel) (func : option bytes) (savedErrno : Z) (file : bytes) (line : Z)
    (items : list item) (tz : option Data) (time_ : Z) (cache : TimeCache)
  : outcome (TimeCache * bytes * bool) :=
  '(cache, b) ← newImpl level savedErrno tz time_ cache;
  b ← match func with
      | Some f => b ← insert_cstr (Some f) b; insert_char (code_char 32) b
      | None => Ok b
      end;
  b ← foldM (insert_item format_g) b items;
  b ← finish (SourceFile file) line b;
  Ok (cache, fb_text b, bool_decide (level = FATAL)).

(** LOG_INFO / LOG_SYSERR / LOG_SYSFATAL pick level and errno. *)
Definition log_sys (toAbort : bool) (errno : Z) : LogLevel * Z := (if toAbort then FATAL else ERROR, errno).

(** ** The lines *)
Definition cache_ok (tz : option Data) (c : TimeCache) : Prop :=
  t_lastSecond c = 0 \/ exists g, tm_of tz (t_lastSecond c) = Ok g /\ t_time c = date_time_text g.

(** Seconds 1 of 1970 to the end of 9999. *)
Definition log_time_ok (t : Z) : Prop := kMicroSecondsPerSecond <= t < 253402300800 * kMicroSecondsPerSecond.

Definition micros_text (t : Z) : bytes := lit "." ++ fmt_int true 6 (t mod kMicroSecondsPerSecond).

Definition log_line (level : LogLevel) (func : option bytes) (savedErrno : Z) (file : bytes) (line : Z)
    (items : list item) (t : Z) : bytes :=
  date_time_text (gmtime_r (t / kMicroSecondsPerSecond)) ++ micros_text t ++ lit "Z " ++
  tidString ++ LogLevelName level ++
  (if savedErrno =? 0 then [] else strerror savedErrno ++ lit " (errno=" ++ dec savedErrno ++ lit ") ") ++
  (match func with Some f => f ++ lit " " | None => [] end) ++
  mjoin (map (item_text format_g) items) ++
  lit " - " ++ SourceFile file ++ lit ":" ++ dec line ++ lit (String "010" EmptyString).

(** A buffer of the stream that holds [text]. *)
Definition holds (b : FixedBuffer) (text : bytes) : Prop :=
  fb_wf b /\ zlen (data_ b) = kSmallBuffer /\ fb_text b = text.

Lemma holds_new : holds (newFixedBuffer kSmallBuffer) [].
Proof.
  assert (zlen (data_ (newFixedBuffer kSmallBuffer)) = kSmallBuffer) as Hd
    by (apply zlen_replicate; unfold kSmallBuffer; lia).
  split; [unfold fb_wf; rewrite Hd; unfold kSmallBuffer; simpl; lia|]. done.
Qed.

Lemma append_holds s b text :
  holds b text -> zlen text + zlen s < kSmallBuffer -> exists b', fb_append s b = Ok b' /\ holds b' (text ++ s).
Proof.
  intros (Hw & Hd & Ht) Hs. destruct (fb_append_spec s b Hw) as (b' & -> & Hw' & Hd' & Ht').
  exists b'. split; [done|]. split; [done|]. split; [lia|]. rewrite Ht', Ht.
  pose proof (fb_text_length b Hw) as Hl. rewrite Ht in Hl.
  unfold avail. by rewrite (proj2 (Z.ltb_lt _ _)) by lia.
Qed.

Lemma insert_T_holds s len b text :
  holds b text -> zlen s = len -> zlen text + len < kSmallBuffer ->
  exists b', insert_T s len b = Ok b' /\ holds b' (text ++ s).
Proof.
  intros H <- Hs. unfold insert_T. rewrite c_assert_bind_true by lia. by apply append_holds.
Qed.

Hypothesis format_g_short : forall v, zlen (format_g v) < kMaxNumericSize.

Lemma items_hold l b text :
  holds b text -> Forall item_ok l ->
  zlen text + zlen (mjoin (map (item_text format_g) l)) + kMaxNumericSize <= kSmallBuffer ->
  exists b', foldM (insert_item format_g) b l = Ok b' /\ holds b' (text ++ mjoin (map (item_text format_g) l)).
Proof.
  intros (Hw & Hd & Ht) Hl Hs.
  destruct (insert_items_spec format_g format_g_short l b Hw Hl) as (b' & -> & Hw' & Hd' & Ht').
  exists b'. split; [done|]. split; [done|]. split; [lia|]. rewrite Ht', Hd, Ht. by apply kept_all.
Qed.

Lemma int_holds v b text :
  holds b text -> - 2 ^ 63 <= v < 2 ^ 64 -> zlen text + kMaxNumericSize <= kSmallBuffer ->
  exists b', formatInteger v b = Ok b' /\ holds b' (text ++ dec v).
Proof.
  intros (Hw & Hd & Ht) Hv Hs.
  destruct (insert_item_spec format_g format_g_short b (IInt v) Hw Hv) as (b' & Hi & Hw' & Hd' & Ht').
  exists b'. split; [exact Hi|]. split; [done|]. split; [lia|]. rewrite Ht', Ht.
  pose proof (fb_text_length b Hw) as Hl. rewrite Ht in Hl. unfold item_room, avail. simpl item_text.
  by rewrite (proj2 (Z.leb_le _ _)) by lia.
Qed.

Lemma gmtime_text_length s : 0 <= s < 253402300800 -> zlen (date_time_text (gmtime_r s)) = 17.
Proof.
  intros Hs. destruct (gmtime_fields s Hs) as (H1 & H2 & H3 & H4 & H5 & H6).
  by destruct (date_time_text_fields (gmtime_r s) [] ltac:(lia) H2 H3 H4 H5 H6) as [Hl _].
Qed.

Lemma tm_of_utc s : tm_of None s = Ok (gmtime_r s).
Proof. reflexivity. Qed.

Lemma refresh_cache g s :
  zlen (date_time_text g) = 17 ->
  (tm_time ← Ok g;
   c_assert (zlen (date_time_text tm_time) =? 17);;
   Ok (mkCache (snprintf 64 (date_time_text tm_time)) s)) = Ok (mkCache (date_time_text g) s).
Proof.
  intros Hl. unfold mbind at 1, outcome_bind at 1. rewrite Hl, c_assert_bind_true by reflexivity.
  unfold snprintf. by rewrite ztake_all by lia.
Qed.

(** The cached text is the text of the second. *)
Lemma cached_time s cache :
  cache_ok None cache -> 1 <= s < 253402300800 ->
  exists cache', (if negb (s =? t_lastSecond cache) then
       tm_time ← tm_of None s;
       c_assert (zlen (date_time_text tm_time) =? 17);;
       Ok (mkCache (snprintf 64 (date_time_text tm_time)) s)
     else Ok cache) = Ok cache' /\ cache_ok None cache' /\ t_time cache' = date_time_text (gmtime_r s).
Proof.
  intros Hc Hs. pose proof (gmtime_text_length s ltac:(lia)) as Hl17.
  destruct (s =? t_lastSecond cache) eqn:E; cbn [negb].
  - exists cache. split; [done|]. split; [done|]. apply Z.eqb_eq in E.
    destruct Hc as [Hc|(g & Hg & Hgt)]; [lia|]. rewrite <- E, tm_of_utc in Hg. apply Ok_inj in Hg.
    by rewrite Hgt, Hg.
  - rewrite tm_of_utc, (refresh_cache (gmtime_r s) s Hl17). eexists; split; [reflexivity|].
    cbn [t_time]. split; [|reflexivity].
    unfold cache_ok. cbn [t_time t_lastSecond].
    right. exists (gmtime_r s). split; [exact (tm_of_utc s)|reflexivity].
Qed.

Lemma micros_length u : 0 <= u < 10 ^ 6 -> zlen (lit "." ++ fmt_int true 6 u ++ lit "Z ") = 9.
Proof.
  intros Hu. destruct (fmt_int_zero_small 6 u) as (Lu & _ & _); [lia..|]. by rewrite !zlen_app, Lu.
Qed.

(** The time of a line, with or without the cache. *)
Lemma formatTime_utc t cache b text :
  cache_ok None cache -> log_time_ok t -> holds b text -> zlen text + 26 < kSmallBuffer ->
  exists cache' b', formatTime None t cache b = Ok (cache', b') /\ cache_ok None cache' /\
    holds b' (text ++ date_time_text (gmtime_r (t / kMicroSecondsPerSecond)) ++ micros_text t ++ lit "Z ").
Proof.
  unfold log_time_ok. intros Hc Ht Hb Hs. unfold formatTime.
  destruct (quot_rem_nonneg t kMicroSecondsPerSecond) as [-> ->]; [unfold kMicroSecondsPerSecond in *; lia|done|].
  cbv zeta. unfold micros_text. set (s := t / kMicroSecondsPerSecond). set (u := t mod kMicroSecondsPerSecond).
  assert (1 <= s < 253402300800 /\ 0 <= u < 10 ^ 6) as [Hss Hu]
    by (subst s u; unfold kMicroSecondsPerSecond in *; clear - Ht; div_lia).
  clearbody s u. destruct (cached_time s cache Hc Hss) as (cache' & -> & Hc' & Htt).
  pose proof (gmtime_text_length s ltac:(lia)) as Hl17. pose proof (micros_length u Hu) as Hus.
  cbn [mbind outcome_bind tz_valid]. rewrite Hus, !c_assert_bind_true by reflexivity.
  rewrite <- Htt in Hl17 |- *. 
  destruct (insert_T_holds (t_time cache') 17 b text Hb Hl17) as (b1 & -> & H1); [lia|].
  cbn [mbind outcome_bind].
  destruct (insert_T_holds _ 9 b1 _ H1 Hus) as (b2 & -> & H2); [rewrite zlen_app; lia|].
  cbn [mbind outcome_bind]. exists cache', b2. split; [reflexivity|]. split; [exact Hc'|].
  by rewrite <- !app_assoc in *.
Qed.

(** The errno part. *)
Definition errno_items (savedErrno : Z) : list item :=
  [ICstr (Some (strerror savedErrno)); ICstr (Some (lit " (errno=")); IInt savedErrno; ICstr (Some (lit ") "))].

Lemma errno_holds savedErrno b text :
  holds b text -> in_s 32 savedErrno ->
  let part := if savedErrno =? 0 then [] else strerror savedErrno ++ lit " (errno=" ++ dec savedErrno ++ lit ") " in
  zlen text + zlen part + kMaxNumericSize <= kSmallBuffer ->
  exists b', (if negb (savedErrno =? 0) then foldM (insert_item format_g) b (errno_items savedErrno) else Ok b) = Ok b' /\
    holds b' (text ++ part).
Proof.
  intros H He part Hs. subst part. destruct (savedErrno =? 0); cbn [negb].
  - exists b. by rewrite app_nil_r.
  - assert (mjoin (map (item_text format_g) (errno_items savedErrno)) =
      strerror savedErrno ++ lit " (errno=" ++ dec savedErrno ++ lit ") ") as E.
    { reflexivity. }
    rewrite <- E in Hs |- *. apply items_hold; [done| |done].
    unfold in_s in He. repeat constructor; simpl in *; lia.
Qed.

Lemma func_holds func b text :
  holds b text ->
  let part := match func with Some f => f ++ lit " " | None => [] end in
  zlen text + zlen part < kSmallBuffer ->
  exists b', match func with
             | Some f => b ← insert_cstr (Some f) b; insert_char (code_char 32) b
             | None => Ok b
             end = Ok b' /\ holds b' (text ++ part).
Proof.
  intros H part Hs. subst part. destruct func as [f|]; [|exists b; by rewrite app_nil_r].
  rewrite zlen_app in Hs. assert (zlen (lit " ") = 1) as H1 by reflexivity.
  destruct (append_holds f b text H) as (b1 & Hb1 & Hh1); [lia|].
  unfold insert_cstr. rewrite Hb1. cbn [mbind outcome_bind].
  destruct (append_holds [code_char 32] b1 _ Hh1) as (b2 & Hb2 & Hh2); [rewrite zlen_app; change (zlen [code_char 32]) with 1; lia|].
  exists b2. split; [exact Hb2|]. by rewrite <- app_assoc in Hh2.
Qed.

Lemma finish_holds file line b text :
  holds b text -> in_s 32 line -> zlen text + zlen file + 5 + kMaxNumericSize <= kSmallBuffer ->
  exists b', finish file line b = Ok b' /\
    holds b' (text ++ lit " - " ++ file ++ lit ":" ++ dec line ++ [lf]).
Proof.
  intros H Hl Hs. unfold kMaxNumericSize, in_s in *. pose proof (zlen_nonneg file).
  pose proof (dec_length64 line ltac:(lia)). unfold finish.
  assert (zlen (lit " - ") = 3 /\ zlen [code_char 58] = 1 /\ zlen [lf] = 1) as (E1 & E2 & E3) by done.
  destruct (append_holds (lit " - ") b text H) as (b1 & -> & Hh1); [lia|]. cbn [mbind outcome_bind].
  destruct (append_holds file b1 _ Hh1) as (b2 & -> & Hh2); [rewrite zlen_app; lia|]. cbn [mbind outcome_bind].
  destruct (append_holds [code_char 58] b2 _ Hh2) as (b3 & Hb3 & Hh3); [rewrite !zlen_app; lia|].
  unfold insert_char. rewrite Hb3. cbn [mbind outcome_bind].
  destruct (int_holds line b3 _ Hh3) as (b4 & -> & Hh4); [lia|rewrite !zlen_app; unfold kMaxNumericSize; lia|].
  cbn [mbind outcome_bind].
  destruct (append_holds [lf] b4 _ Hh4) as (b5 & -> & Hh5); [rewrite !zlen_app; lia|].
  exists b5. split; [reflexivity|]. by rewrite <- !app_assoc in Hh5.
Qed.

(** Every line logged in UTC has the documented form: date and time of the
    calendar, microseconds, thread id, level, errno text, function, message,
    base name of the source file and line; whatever the thread logged before,
    the one-second cache never shows; and a FATAL line is the last before the
    process aborts. *)
Theorem log_line_utc level func savedErrno file line items t cache :
  cache_ok None cache -> log_time_ok t -> in_s 32 savedErrno -> in_s 32 line -> Forall item_ok items ->
  zlen (log_line level func savedErrno file line items t) + kMaxNumericSize <= kSmallBuffer ->
  exists cache', cache_ok None cache' /\
    log level func savedErrno file line items None t cache =
      Ok (cache', log_line level func savedErrno file line items t, bool_decide (level = FATAL)).
Proof.
  intros Hc Ht He Hl Hi Hs.
  pose proof (fun b text => formatTime_utc t cache b text Hc Ht) as Hft.
  unfold log_line in *. unfold log, newImpl. revert Hft Hs.
  generalize (date_time_text (gmtime_r (t / kMicroSecondsPerSecond))). intros stamp Hft Hs.
  set (errno := if savedErrno =? 0 then [] else _) in *.
  set (fn := match func with Some f => f ++ lit " " | None => [] end) in *.
  set (body := mjoin (map (item_text format_g) items)) in *.
  change (lit (String "010" EmptyString)) with [lf] in *.
  rewrite !zlen_app in Hs. assert (forall l : bytes, 0 <= zlen l) as Hnn by apply zlen_nonneg.
  assert (zlen (LogLevelName level) = 6) as Hlev by (by destruct level).
  assert (zlen (lit " - ") = 3 /\ zlen (lit ":") = 1 /\ zlen [lf] = 1) as (E1 & E2 & E3) by done.
  pose proof (Hnn stamp); pose proof (Hnn (micros_text t)); pose proof (Hnn (lit "Z "));
  pose proof (Hnn tidString); pose proof (Hnn errno); pose proof (Hnn fn); pose proof (Hnn body);
  pose proof (Hnn (SourceFile file)); pose proof (Hnn (dec line)). unfold kMaxNumericSize in *.
  destruct (Hft (newFixedBuffer kSmallBuffer) [] holds_new)
    as (cache' & b1 & -> & Hc' & Hh1); [vm_compute; reflexivity|].
  cbn [mbind outcome_bind]. rewrite app_nil_l in Hh1.
  destruct (append_holds tidString b1 _ Hh1) as (b2 & -> & Hh2); [rewrite !zlen_app; lia|].
  cbn [mbind outcome_bind].
  destruct (insert_T_holds (LogLevelName level) 6 b2 _ Hh2 Hlev) as (b3 & -> & Hh3); [rewrite !zlen_app; lia|].
  cbn [mbind outcome_bind].
  destruct (errno_holds savedErrno b3 _ Hh3 He) as (b4 & Hb4 & Hh4);
    [fold errno; rewrite !zlen_app; unfold kMaxNumericSize; lia|].
  unfold errno_items in Hb4. rewrite Hb4. fold errno in Hh4. cbn [mbind outcome_bind].
  destruct (func_holds func b4 _ Hh4) as (b5 & -> & Hh5); [fold fn; rewrite !zlen_app; lia|].
  fold fn in Hh5. cbn [mbind outcome_bind].
  destruct (items_hold items b5 _ Hh5 Hi) as (b6 & -> & Hh6);
    [fold body; rewrite !zlen_app; unfold kMaxNumericSize; lia|].
  fold body in Hh6. cbn [mbind outcome_bind].
  destruct (finish_holds (SourceFile file) line b6 _ Hh6 Hl) as (b7 & -> & (_ & _ & Hh7));
    [rewrite !zlen_app; unfold kMaxNumericSize; pose proof (dec_length64 line ltac:(unfold in_s in Hl; lia)); lia|].
  cbn [mbind outcome_bind]. exists cache'. split; [exact Hc'|]. rewrite Hh7.
  by rewrite <- !app_assoc.
Qed.
End logger.

Lemma log_line_utc_witness :
  exists cache', cache_ok None cache' /\
    log (fun _ => lit "Success") (lit " 4242 ") sample_format_g WARN None 0 (lit "net/TcpServer.cc") 77
      [IString (lit "fd="); IInt 5] None 1709210096000789 newTimeCache =
    Ok (cache', lit "20240229 12:34:56.000789Z  4242 WARN  fd=5 - TcpServer.cc:77" ++ [lf], false).
Proof.
  destruct (log_line_utc (fun _ => lit "Success") (lit " 4242 ") sample_format_g
    ltac:(intros v; vm_compute; reflexivity) WARN None 0 (lit "net/TcpServer.cc") 77
    [IString (lit "fd="); IInt 5] 1709210096000789 newTimeCache) as (cache' & Hc & Hl).
  - by left.
  - vm_compute. intuition discriminate.
  - vm_compute. intuition discriminate.
  - vm_compute. intuition discriminate.
  - repeat constructor; vm_compute; discriminate.
  - vm_compute. discriminate.
  - exists cache'. split; [exact Hc|]. rewrite Hl. vm_compute. reflexivity.
Defined.

(** Changing the log's time zone does not refresh the cached second: a line
    logged in the same second after [setTimeZone] carries the time of the old
    zone under the format of the new one. *)
Theorem stale_time_after_setTimeZone :
  exists tz t cache b1 b2 cache2 localTm,
    formatTime None t newTimeCache (newFixedBuffer 64) = Ok (cache, b1) /\
    formatTime tz t cache (newFixedBuffer 64) = Ok (cache2, b2) /\
    toLocalTime tz (t / kMicroSecondsPerSecond) = Ok localTm /\ tm_hour localTm = 20 /\
    fb_text b2 = lit "20240229 12:34:56.000789 ".
Proof.
  exists (fixedTimeZone (8 * 3600) (lit "CST")), 1709210096000789.
  do 5 eexists. split; [vm_compute; reflexivity|]. split; [vm_compute; reflexivity|].
  split; [vm_compute; reflexivity|]. split; vm_compute; reflexivity.
Qed.
