(* ===== verification/Channel.v ===== *)
(** * Channel: net/Channel.h, net/Channel.cc

    A channel binds a file descriptor to the events its owner wants and to four
    callbacks.  The objects live in a heap [Channels] addressed by pointer; a
    pointer that is not in the heap is a destroyed channel and using it is
    [UndefinedBehaviour].  The operations that go through the event loop
    ([update], [remove]) are in EventLoop.v; this file has the data, the event
    masks, the textual form and the dispatch of the received events.

    Theorem: the dispatch of [handleEventWithGuard] runs exactly the callbacks
    the received events ask for, in the order close, error, read, write, and
    leaves the channel out of its handling phase, whatever the callbacks do to
    the rest of the state. *)

From S2P Require Import Prelude Format.

(** ** poll(2) event bits *)
Definition POLLIN : Z := 1.
Definition POLLPRI : Z := 2.
Definition POLLOUT : Z := 4.
Definition POLLERR : Z := 8.
Definition POLLHUP : Z := 16.
Definition POLLNVAL : Z := 32.
Definition POLLRDHUP : Z := 8192.

Definition kNoneEvent : Z := 0.
Definition kReadEvent : Z := Z.lor POLLIN POLLPRI.
Definition kWriteEvent : Z := POLLOUT.

(** [x & mask] used as a condition. *)
Definition has_bits (x mask : Z) : bool := negb (Z.land x mask =? 0).

Record Channel := mkChannel {
  fd_ : Z;
  events_ : Z;
  revents_ : Z;
  index_ : Z;
  logHup_ : bool;
  tie_ : option Z;          (* the owner the weak pointer refers to *)
  tied_ : bool;
  eventHandling_ : bool;
  addedToLoop_ : bool;
}.

Abbreviation Channels := (gmap Z Channel).

Definition newChannel (fd : Z) : Channel :=
  mkChannel fd 0 0 (-1) true None false false false.

Definition set_events (e : Z) (c : Channel) : Channel :=
  mkChannel (fd_ c) e (revents_ c) (index_ c) (logHup_ c) (tie_ c) (tied_ c) (eventHandling_ c)
    (addedToLoop_ c).
Definition set_revents (revt : Z) (c : Channel) : Channel :=
  mkChannel (fd_ c) (events_ c) revt (index_ c) (logHup_ c) (tie_ c) (tied_ c) (eventHandling_ c)
    (addedToLoop_ c).
Definition set_index (idx : Z) (c : Channel) : Channel :=
  mkChannel (fd_ c) (events_ c) (revents_ c) idx (logHup_ c) (tie_ c) (tied_ c) (eventHandling_ c)
    (addedToLoop_ c).
Definition doNotLogHup (c : Channel) : Channel :=
  mkChannel (fd_ c) (events_ c) (revents_ c) (index_ c) false (tie_ c) (tied_ c) (eventHandling_ c)
    (addedToLoop_ c).
Definition tie (obj : Z) (c : Channel) : Channel :=
  mkChannel (fd_ c) (events_ c) (revents_ c) (index_ c) (logHup_ c) (Some obj) true (eventHandling_ c)
    (addedToLoop_ c).
Definition set_eventHandling (b : bool) (c : Channel) : Channel :=
  mkChannel (fd_ c) (events_ c) (revents_ c) (index_ c) (logHup_ c) (tie_ c) (tied_ c) b (addedToLoop_ c).
Definition set_addedToLoop (b : bool) (c : Channel) : Channel :=
  mkChannel (fd_ c) (events_ c) (revents_ c) (index_ c) (logHup_ c) (tie_ c) (tied_ c)
    (eventHandling_ c) b.

Definition isNoneEvent (c : Channel) : bool := events_ c =? kNoneEvent.
Definition isWriting (c : Channel) : bool := has_bits (events_ c) kWriteEvent.
Definition isReading (c : Channel) : bool := has_bits (events_ c) kReadEvent.

(** The masks the enable and disable operations store before [update]. *)
Definition read_enabled (e : Z) : Z := Z.lor e kReadEvent.
Definition read_disabled (e : Z) : Z := Z.land e (Z.lnot kReadEvent).
Definition write_enabled (e : Z) : Z := Z.lor e kWriteEvent.
Definition write_disabled (e : Z) : Z := Z.land e (Z.lnot kWriteEvent).

(** Every mask a channel can have. *)
Definition event_mask (e : Z) : Prop := e = 0 \/ e = 3 \/ e = 4 \/ e = 7.

Lemma event_mask_ops e :
  event_mask e ->
  event_mask (read_enabled e) /\ event_mask (read_disabled e) /\
  event_mask (write_enabled e) /\ event_mask (write_disabled e) /\
  read_enabled e <> 0 /\ write_enabled e <> 0.
Proof. unfold event_mask; intros [-> | [-> | [-> | ->]]]; vm_compute; intuition lia. Qed.

(** What the masks say about reading and writing. *)
Lemma event_mask_bits e :
  event_mask e ->
  has_bits (read_enabled e) kReadEvent = true /\ has_bits (read_enabled e) kWriteEvent = has_bits e kWriteEvent /\
  has_bits (read_disabled e) kReadEvent = false /\ has_bits (read_disabled e) kWriteEvent = has_bits e kWriteEvent /\
  has_bits (write_enabled e) kWriteEvent = true /\ has_bits (write_enabled e) kReadEvent = has_bits e kReadEvent /\
  has_bits (write_disabled e) kWriteEvent = false /\ has_bits (write_disabled e) kReadEvent = has_bits e kReadEvent /\
  (e <> 0 <-> has_bits e kReadEvent = true \/ has_bits e kWriteEvent = true).
Proof.
  unfold event_mask; intros [-> | [-> | [-> | ->]]]; repeat split; try reflexivity; intros; try lia;
    first [left; reflexivity|right; reflexivity|idtac]; intuition discriminate.
Qed.

Lemma event_mask_range e : event_mask e -> 0 <= e < 8.
Proof. unfold event_mask; lia. Qed.

Definition eventsToString (fd ev : Z) : bytes :=
  dec fd ++ lit ": " ++
  (if has_bits ev POLLIN then lit "IN " else []) ++
  (if has_bits ev POLLPRI then lit "PRI " else []) ++
  (if has_bits ev POLLOUT then lit "OUT " else []) ++
  (if has_bits ev POLLHUP then lit "HUP " else []) ++
  (if has_bits ev POLLRDHUP then lit "RDHUP " else []) ++
  (if has_bits ev POLLERR then lit "ERR " else []) ++
  (if has_bits ev POLLNVAL then lit "NVAL " else []).

Definition reventsToString (c : Channel) : bytes := eventsToString (fd_ c) (revents_ c).

(** ** Dispatch

    The callbacks act on a state [S] that contains the channel object: [chan]
    reads it ([None] once it is destroyed) and [set_chan] writes it.  An empty
    [std::function] is [None]. *)
Section dispatch.
Context {S : Type} (chan : S -> option Channel) (set_chan : Channel -> S -> S).

Record Callbacks := mkCallbacks {
  readCallback_ : option (Z -> S -> outcome S);
  writeCallback_ : option (S -> outcome S);
  closeCallback_ : option (S -> outcome S);
  errorCallback_ : option (S -> outcome S);
}.

Definition deref_chan (s : S) : outcome Channel := get_or UndefinedBehaviour (chan s).

(** [if (cond) { if (cb) cb(); }], the condition read from the live channel. *)
Definition call_if (cond : Channel -> bool) (cb : option (S -> outcome S)) (s : S) : outcome S :=
  c ← deref_chan s;
  match cb with
  | Some f => if cond c then f s else Ok s
  | None => Ok s
  end.

Definition wants_close (c : Channel) : bool :=
  has_bits (revents_ c) POLLHUP && negb (has_bits (revents_ c) POLLIN).
Definition wants_error (c : Channel) : bool := has_bits (revents_ c) (Z.lor POLLERR POLLNVAL).
Definition wants_read (c : Channel) : bool :=
  has_bits (revents_ c) (Z.lor POLLIN (Z.lor POLLPRI POLLRDHUP)).
Definition wants_write (c : Channel) : bool := has_bits (revents_ c) POLLOUT.

Definition handleEventWithGuard (cbs : Callbacks) (receiveTime : Z) (s : S) : outcome S :=
  c ← deref_chan s;
  let s := set_chan (set_eventHandling true c) s in
  s ← call_if wants_close (closeCallback_ cbs) s;
  s ← call_if wants_error (errorCallback_ cbs) s;
  s ← call_if wants_read ((fun f => f receiveTime) <$> readCallback_ cbs) s;
  s ← call_if wants_write (writeCallback_ cbs) s;
  c ← deref_chan s;
  Ok (set_chan (set_eventHandling false c) s).

(** [locked owner] is whether [tie_.lock()] finds the owner alive. *)
Definition handleEvent (locked : Z -> bool) (cbs : Callbacks) (receiveTime : Z) (s : S) : outcome S :=
  c ← deref_chan s;
  if tied_ c then
    match tie_ c with
    | Some owner => if locked owner then handleEventWithGuard cbs receiveTime s else Ok s
    | None => Ok s
    end
  else handleEventWithGuard cbs receiveTime s.

(** *** The dispatch as a list of the callbacks to run *)
Definition due_callbacks (cbs : Callbacks) (receiveTime revents : Z) : list (S -> outcome S) :=
  let c := set_revents revents (newChannel 0) in
  (if wants_close c then option_list (closeCallback_ cbs) else []) ++
  (if wants_error c then option_list (errorCallback_ cbs) else []) ++
  (if wants_read c then option_list ((fun f => f receiveTime) <$> readCallback_ cbs) else []) ++
  (if wants_write c then option_list (writeCallback_ cbs) else []).

(** Callbacks keep the channel alive and leave its received events alone. *)
Definition keeps_revents (f : S -> outcome S) : Prop :=
  forall s s' c, chan s = Some c -> f s = Ok s' ->
    exists c', chan s' = Some c' /\ revents_ c' = revents_ c.

Definition run_all (fs : list (S -> outcome S)) (s : S) : outcome S :=
  foldM (fun s f => f s) s fs.

Lemma call_if_run (w : Channel -> bool) (cb : option (S -> outcome S)) s c r :
  chan s = Some c -> revents_ c = r ->
  (forall c1 c2, revents_ c1 = revents_ c2 -> w c1 = w c2) ->
  call_if w cb s = run_all (if w (set_revents r (newChannel 0)) then option_list cb else []) s.
Proof.
  intros Hc Hr Hw. unfold call_if, deref_chan. rewrite Hc. simpl.
  rewrite (Hw c (set_revents r (newChannel 0))) by done.
  unfold run_all. destruct cb as [f|], (w _); simpl; try done. by destruct (f s).
Qed.

Lemma run_all_keeps fs s s' c :
  (forall f, f ∈ fs -> keeps_revents f) -> chan s = Some c -> run_all fs s = Ok s' ->
  exists c', chan s' = Some c' /\ revents_ c' = revents_ c.
Proof.
  revert s c; induction fs as [|f fs IH]; intros s c Hf Hc Hrun; unfold run_all in Hrun; simpl in Hrun; inv_ok.
  - subst; eauto.
  - destruct (Hf f ltac:(left) _ _ _ Hc H) as (c1 & Hc1 & <-).
    eapply IH; [|done..]. intros g Hg; apply Hf; by right.
Qed.

Lemma run_all_app fs gs s : run_all (fs ++ gs) s = s' ← run_all fs s; run_all gs s'.
Proof. apply foldM_app. Qed.

(** One guarded call, then the rest of the dispatch. *)
Lemma call_if_then (w : Channel -> bool) cb s c r rest (k : S -> outcome S) :
  chan s = Some c -> revents_ c = r ->
  (forall c1 c2, revents_ c1 = revents_ c2 -> w c1 = w c2) ->
  (forall f, f ∈ option_list cb -> keeps_revents f) ->
  (forall s' c', chan s' = Some c' -> revents_ c' = r -> k s' = run_all rest s') ->
  (s ← call_if w cb s; k s) =
  run_all ((if w (set_revents r (newChannel 0)) then option_list cb else []) ++ rest) s.
Proof.
  intros Hc Hr Hw Hk Hrest. erewrite call_if_run by done. rewrite run_all_app.
  destruct (run_all _ s) as [s'|] eqn:E; [simpl|done].
  eapply run_all_keeps in E as (c' & Hc' & ?); [| |done].
  2: { intros f. case_match; [apply Hk|]. intros Hf. by apply not_elem_of_nil in Hf. }
  apply (Hrest _ c'); congruence.
Qed.

Definition callbacks_keep (cbs : Callbacks) : Prop :=
  (forall t f, readCallback_ cbs = Some f -> keeps_revents (f t)) /\
  (forall f, writeCallback_ cbs = Some f -> keeps_revents f) /\
  (forall f, closeCallback_ cbs = Some f -> keeps_revents f) /\
  (forall f, errorCallback_ cbs = Some f -> keeps_revents f).

(** The end of the handler: the channel, still alive, leaves its handling phase. *)
Definition leave_handling (s : S) : outcome S :=
  c ← deref_chan s; Ok (set_chan (set_eventHandling false c) s).

(** The received events decide which callbacks run and in which order: the
    handler is the sequence of due callbacks between entering and leaving the
    handling phase. *)
Theorem dispatch_exact (cbs : Callbacks) (receiveTime : Z) (s : S) (c : Channel)
  (Hset : forall c s, chan (set_chan c s) = Some c)
  (Hkeep : callbacks_keep cbs) (Hc : chan s = Some c) :
  handleEventWithGuard cbs receiveTime s =
  s' ← run_all (due_callbacks cbs receiveTime (revents_ c)) (set_chan (set_eventHandling true c) s);
  leave_handling s'.
Proof.
  destruct Hkeep as (Hr & Hw & Hcl & He).
  unfold handleEventWithGuard, due_callbacks. rewrite (ltac:(by unfold deref_chan; rewrite Hc) : deref_chan s = Ok c).
  cbn [mbind outcome_bind].
  assert (Hl : forall s', leave_handling s' = run_all [leave_handling] s')
    by (intros s'; unfold run_all; simpl; by destruct (leave_handling s')).
  transitivity (run_all (due_callbacks cbs receiveTime (revents_ c) ++ [leave_handling])
                  (set_chan (set_eventHandling true c) s)).
  2: { rewrite run_all_app. destruct (run_all _ _) as [s'|]; [|done]. symmetry; apply Hl. }
  unfold due_callbacks. rewrite <- !(assoc_L (++)).
  assert (Hcall : forall g (o : option (S -> outcome S)),
    (forall f, o = Some f -> keeps_revents f) -> g ∈ option_list o -> keeps_revents g).
  { intros g [f|] Hf Hg; simpl in Hg; [|set_solver].
    apply list_elem_of_singleton in Hg as ->. by apply Hf. }
  eapply call_if_then; [apply Hset|done|by unfold wants_close; intros ?? ->|eauto|].
  intros s1 c1 Hc1 Hr1. eapply call_if_then; [done..|by unfold wants_error; intros ?? ->|eauto|].
  intros s2 c2 Hc2 Hr2. eapply call_if_then; [done..|by unfold wants_read; intros ?? ->| |].
  { intros f. apply Hcall. intros g Hg. destruct (readCallback_ cbs) as [h|] eqn:E; simpl in Hg; [|done].
    simplify_eq. by apply Hr. }
  intros s3 c3 Hc3 Hr3. eapply call_if_then; [done..|by unfold wants_write; intros ?? ->|eauto|].
  intros s4 c4 _ _. apply Hl.
Qed.

End dispatch.
Arguments Callbacks : clear implicits.
Arguments mkCallbacks {S}.

(** A state that is the channel and a trace of the callbacks that ran. *)
Definition trace_callbacks : Callbacks (Channel * list string) :=
  mkCallbacks (Some (fun _ '(c, l) => Ok (c, l ++ ["read"%string])))
    (Some (fun '(c, l) => Ok (c, l ++ ["write"%string])))
    (Some (fun '(c, l) => Ok (c, l ++ ["close"%string])))
    (Some (fun '(c, l) => Ok (c, l ++ ["error"%string]))).

Lemma dispatch_exact_witness :
  let s := (set_revents (Z.lor POLLIN POLLOUT) (newChannel 7), @nil string) in
  exists s', handleEventWithGuard (fun s => Some (fst s)) (fun c s => (c, snd s)) trace_callbacks 0 s = Ok s' /\
    snd s' = ["read"%string; "write"%string].
Proof.
  intros s. eexists. split.
  - etransitivity; [apply (dispatch_exact (fun s => Some (fst s)) (fun c s => (c, snd s))) with (c := fst s)|].
    + done.
    + repeat split; intros; simplify_eq; intros [c0 l0] s' c1 H1 H2; simpl in *; simplify_eq; simpl; eauto.
    + done.
    + reflexivity.
  - reflexivity.
Defined.
