(* ===== verification/Poller.v ===== *)
(** * Poller: net/Poller.h, Poller.cc, poller/EPollPoller.{h,cc}, poller/PollPoller.{h,cc},
      poller/DefaultPoller.cc

    The two I/O multiplexers.  [Poller] is the virtual interface; its instances
    are [EPollPoller], which mirrors the channels' masks into the kernel's
    interest list, and [PollPoller], which keeps an array of [struct pollfd]
    indexed by [Channel::index_].  Both write [index_] (and [revents_]) of the
    channels they are given, so every operation takes and returns the heap of
    channels.

    What the operating system does is written out: the interest list of an epoll
    descriptor with the errors of [epoll_ctl], the batch of [epoll_wait], the
    [revents] that [poll] stores.  Which descriptors are ready, and in which
    order the kernel lists them, is the argument [Kernel] of [poll].

    [PollerLaws] is what the event loop relies on: against the life cycle of a
    channel (fresh, watched, idle, removed) no assertion fails and no epoll_ctl
    is refused, and [poll] reports exactly the watched channels that are ready.
    Both pollers satisfy it. *)

From S2P Require Import Prelude Format Channel.

(** ** The operating system's part *)
Record Kernel := mkKernel {
  ready : Z -> Z;        (* the condition of each descriptor, as POLL bits *)
  order : list Z;        (* the order of the kernel's ready list *)
}.

(** The bits of a descriptor that are reported for an interest in [events]. *)
Definition epoll_report (k : Kernel) (fd events : Z) : Z :=
  Z.land (ready k fd) (Z.lor events (Z.lor POLLERR POLLHUP)).
Definition poll_report (k : Kernel) (fd events : Z) : Z :=
  Z.land (ready k fd) (Z.lor events (Z.lor POLLERR (Z.lor POLLHUP POLLNVAL))).

(** ** The interface *)
Class Poller (P : Type) := {
  newPoller : P;
  channels_of : P -> gmap Z Z;                      (* channels_: fd to Channel ptr *)
  updateChannel : Z -> Channels -> P -> outcome (Channels * P);
  removeChannel : Z -> Channels -> P -> outcome (Channels * P);
  (* [None]: the system call fails, which is only logged *)
  poll : option Kernel -> list Z -> Channels -> P -> outcome (list Z * Channels * P);
}.

Definition deref (cs : Channels) (channel : Z) : outcome Channel :=
  get_or UndefinedBehaviour (cs !! channel).

Definition maps_to (m : gmap Z Z) (fd channel : Z) : bool := bool_decide (m !! fd = Some channel).
Definition mapped (m : gmap Z Z) (fd : Z) : bool := bool_decide (is_Some (m !! fd)).

Definition hasChannel {P} `{Poller P} (channel : Z) (cs : Channels) (p : P) : outcome bool :=
  c ← deref cs channel;
  Ok (maps_to (channels_of p) (fd_ c) channel).

(** ** EPollPoller *)
Module EPollPoller.

Definition kNew : Z := -1.
Definition kAdded : Z := 1.
Definition kDeleted : Z := 2.
Definition kInitEventListSize : Z := 16.

Definition EPOLL_CTL_ADD : Z := 1.
Definition EPOLL_CTL_DEL : Z := 2.
Definition EPOLL_CTL_MOD : Z := 3.

(** [struct epoll_event] is (events, data.ptr). *)
Record EPollPoller := mkEPoll {
  channels_ : gmap Z Z;
  interest : gmap Z (Z * Z);      (* the kernel's interest list of epollfd_ *)
  events_ : list (Z * Z);
}.

Definition newEPollPoller : EPollPoller :=
  mkEPoll ∅ ∅ (replicate (Z.to_nat kInitEventListSize) (0, 0)).

Definition operationToString (op : Z) : outcome bytes :=
  if op =? EPOLL_CTL_ADD then Ok (lit "ADD")
  else if op =? EPOLL_CTL_DEL then Ok (lit "DEL")
  else if op =? EPOLL_CTL_MOD then Ok (lit "MOD")
  else Fault AssertFailed.

(** epoll_ctl(2): EEXIST on adding a member, ENOENT on changing or deleting a
    descriptor that is not one. *)
Definition epoll_ctl (i : gmap Z (Z * Z)) (op fd : Z) (event : Z * Z) : option (gmap Z (Z * Z)) :=
  if op =? EPOLL_CTL_ADD then
    match i !! fd with Some _ => None | None => Some (<[fd := event]> i) end
  else if op =? EPOLL_CTL_DEL then
    match i !! fd with Some _ => Some (delete fd i) | None => None end
  else if op =? EPOLL_CTL_MOD then
    match i !! fd with Some _ => Some (<[fd := event]> i) | None => None end
  else None.

(** epoll_wait(2): at most [maxevents] ready members, in the kernel's order. *)
Definition epoll_wait (k : Kernel) (i : gmap Z (Z * Z)) (maxevents : Z) : list (Z * Z) :=
  ztake maxevents
    (omap (fun fd =>
       match i !! fd with
       | Some (e, ptr) => if epoll_report k fd e =? 0 then None else Some (epoll_report k fd e, ptr)
       | None => None
       end) (order k)).

Definition update (operation channel : Z) (cs : Channels) (p : EPollPoller) : outcome EPollPoller :=
  c ← deref cs channel;
  let event := (Channel.events_ c, channel) in
  operationToString operation;;
  match epoll_ctl (interest p) operation (fd_ c) event with
  | Some i => Ok (mkEPoll (channels_ p) i (events_ p))
  | None => if operation =? EPOLL_CTL_DEL then Ok p else Fault FatalLog
  end.

Definition updateChannel (channel : Z) (cs : Channels) (p : EPollPoller)
  : outcome (Channels * EPollPoller) :=
  c ← deref cs channel;
  let index := index_ c in
  let fd := fd_ c in
  if (index =? kNew) || (index =? kDeleted) then
    p ← (if index =? kNew then
           c_assert (negb (mapped (channels_ p) fd));;
           Ok (mkEPoll (<[fd := channel]> (channels_ p)) (interest p) (events_ p))
         else
           c_assert (mapped (channels_ p) fd);;
           c_assert (maps_to (channels_ p) fd channel);;
           Ok p);
    let cs := <[channel := set_index kAdded c]> cs in
    p ← update EPOLL_CTL_ADD channel cs p;
    Ok (cs, p)
  else
    c_assert (mapped (channels_ p) fd);;
    c_assert (maps_to (channels_ p) fd channel);;
    c_assert (index =? kAdded);;
    if isNoneEvent c then
      p ← update EPOLL_CTL_DEL channel cs p;
      Ok (<[channel := set_index kDeleted c]> cs, p)
    else
      p ← update EPOLL_CTL_MOD channel cs p;
      Ok (cs, p).

Definition removeChannel (channel : Z) (cs : Channels) (p : EPollPoller)
  : outcome (Channels * EPollPoller) :=
  c ← deref cs channel;
  let fd := fd_ c in
  c_assert (mapped (channels_ p) fd);;
  c_assert (maps_to (channels_ p) fd channel);;
  c_assert (isNoneEvent c);;
  let index := index_ c in
  c_assert ((index =? kAdded) || (index =? kDeleted));;
  let p := mkEPoll (delete fd (channels_ p)) (interest p) (events_ p) in
  p ← (if index =? kAdded then update EPOLL_CTL_DEL channel cs p else Ok p);
  Ok (<[channel := set_index kNew c]> cs, p).

(** The loop of [fillActiveChannels] over the reported events. *)
Definition fill_one (p : EPollPoller) (st : list Z * Channels) (event : Z * Z)
  : outcome (list Z * Channels) :=
  let '(activeChannels, cs) := st in
  let '(events, channel) := event in
  c ← deref cs channel;
  c_assert (mapped (channels_ p) (fd_ c));;
  c_assert (maps_to (channels_ p) (fd_ c) channel);;
  Ok (activeChannels ++ [channel], <[channel := set_revents events c]> cs).

Definition fillActiveChannels (numEvents : Z) (activeChannels : list Z) (cs : Channels)
  (p : EPollPoller) : outcome (list Z * Channels) :=
  c_assert (numEvents <=? zlen (events_ p));;
  foldM (fill_one p) (activeChannels, cs) (ztake numEvents (events_ p)).

Definition poll (k : option Kernel) (activeChannels : list Z) (cs : Channels) (p : EPollPoller)
  : outcome (list Z * Channels * EPollPoller) :=
  match k with
  | None => Ok (activeChannels, cs, p)
  | Some k =>
      let reported := epoll_wait k (interest p) (zlen (events_ p)) in
      let numEvents := zlen reported in
      let p := mkEPoll (channels_ p) (interest p) (zwrite 0 reported (events_ p)) in
      if 0 <? numEvents then
        '(active, cs) ← fillActiveChannels numEvents activeChannels cs p;
        if numEvents =? zlen (events_ p) then
          Ok (active, cs,
              mkEPoll (channels_ p) (interest p) (zresize (0, 0) (zlen (events_ p) * 2) (events_ p)))
        else Ok (active, cs, p)
      else Ok (activeChannels, cs, p)
  end.

#[global] Instance EPollPoller_Poller : Poller EPollPoller := {
  newPoller := newEPollPoller;
  channels_of := channels_;
  Poller.updateChannel := updateChannel;
  Poller.removeChannel := removeChannel;
  Poller.poll := poll;
}.

End EPollPoller.

(** ** PollPoller *)
Module PollPoller.

Record pollfd := mkPollfd { fd : Z; events : Z; revents : Z }.

Record PollPoller := mkPoll {
  channels_ : gmap Z Z;
  pollfds_ : list pollfd;
}.

Definition newPollPoller : PollPoller := mkPoll ∅ [].

(** poll(2): entries with a negative descriptor are skipped. *)
Definition sys_poll (k : Kernel) (l : list pollfd) : list pollfd :=
  map (fun pfd => mkPollfd (fd pfd) (events pfd)
                    (if fd pfd <? 0 then 0 else i16 (poll_report k (fd pfd) (events pfd)))) l.

Definition count_ready (l : list pollfd) : Z :=
  zlen (filter (fun pfd => revents pfd <> 0) l).

Fixpoint fillActiveChannels (numEvents : Z) (l : list pollfd) (channels : gmap Z Z)
  (activeChannels : list Z) (cs : Channels) : outcome (list Z * Channels) :=
  match l with
  | [] => Ok (activeChannels, cs)
  | pfd :: l =>
      if 0 <? numEvents then
        if 0 <? revents pfd then
          channel ← get_or AssertFailed (channels !! fd pfd);
          c ← deref cs channel;
          c_assert (fd_ c =? fd pfd);;
          fillActiveChannels (numEvents - 1) l channels (activeChannels ++ [channel])
            (<[channel := set_revents (revents pfd) c]> cs)
        else fillActiveChannels numEvents l channels activeChannels cs
      else Ok (activeChannels, cs)
  end.

(** [&*pollfds_.begin()] dereferences the first element. *)
Definition poll (k : option Kernel) (activeChannels : list Z) (cs : Channels) (p : PollPoller)
  : outcome (list Z * Channels * PollPoller) :=
  match pollfds_ p with
  | [] => Fault UndefinedBehaviour
  | _ :: _ =>
      match k with
      | None => Ok (activeChannels, cs, p)
      | Some k =>
          let p := mkPoll (channels_ p) (sys_poll k (pollfds_ p)) in
          let numEvents := count_ready (pollfds_ p) in
          if 0 <? numEvents then
            '(active, cs) ← fillActiveChannels numEvents (pollfds_ p) (channels_ p) activeChannels cs;
            Ok (active, cs, p)
          else Ok (activeChannels, cs, p)
      end
  end.

Definition updateChannel (channel : Z) (cs : Channels) (p : PollPoller)
  : outcome (Channels * PollPoller) :=
  c ← deref cs channel;
  if index_ c <? 0 then
    c_assert (negb (mapped (channels_ p) (fd_ c)));;
    let pfd := mkPollfd (fd_ c) (i16 (Channel.events_ c)) 0 in
    let pollfds := pollfds_ p ++ [pfd] in
    let idx := i32 (zlen pollfds) - 1 in
    Ok (<[channel := set_index idx c]> cs, mkPoll (<[fd_ c := channel]> (channels_ p)) pollfds)
  else
    c_assert (mapped (channels_ p) (fd_ c));;
    c_assert (maps_to (channels_ p) (fd_ c) channel);;
    let idx := index_ c in
    c_assert ((0 <=? idx) && (idx <? i32 (zlen (pollfds_ p))));;
    pfd ← get_or UndefinedBehaviour (zget (pollfds_ p) idx);
    c_assert ((fd pfd =? fd_ c) || (fd pfd =? - fd_ c - 1));;
    let fd' := if isNoneEvent c then - fd_ c - 1 else fd_ c in
    Ok (cs, mkPoll (channels_ p) (zset (pollfds_ p) idx (mkPollfd fd' (i16 (Channel.events_ c)) 0))).

Definition removeChannel (channel : Z) (cs : Channels) (p : PollPoller)
  : outcome (Channels * PollPoller) :=
  c ← deref cs channel;
  c_assert (mapped (channels_ p) (fd_ c));;
  c_assert (maps_to (channels_ p) (fd_ c) channel);;
  c_assert (isNoneEvent c);;
  let idx := index_ c in
  c_assert ((0 <=? idx) && (idx <? i32 (zlen (pollfds_ p))));;
  pfd ← get_or UndefinedBehaviour (zget (pollfds_ p) idx);
  c_assert ((fd pfd =? - fd_ c - 1) && (events pfd =? Channel.events_ c));;
  let channels := delete (fd_ c) (channels_ p) in
  if idx =? zlen (pollfds_ p) - 1 then
    Ok (cs, mkPoll channels (removelast (pollfds_ p)))
  else
    back ← get_or UndefinedBehaviour (last (pollfds_ p));
    let channelAtEnd := if fd back <? 0 then - fd back - 1 else fd back in
    let swapped := zset (zset (pollfds_ p) idx back) (zlen (pollfds_ p) - 1) pfd in
    other ← get_or UndefinedBehaviour (channels !! channelAtEnd);
    co ← deref cs other;
    Ok (<[other := set_index idx co]> cs, mkPoll channels (removelast swapped)).

#[global] Instance PollPoller_Poller : Poller PollPoller := {
  newPoller := newPollPoller;
  channels_of := channels_;
  Poller.updateChannel := updateChannel;
  Poller.removeChannel := removeChannel;
  Poller.poll := poll;
}.

End PollPoller.

(** ** newDefaultPoller

    The environment variable MUDUO_USE_POLL selects the poller. *)
Inductive AnyPoller :=
| UsePoll (p : PollPoller.PollPoller)
| UseEPoll (p : EPollPoller.EPollPoller).

Definition newDefaultPoller (muduo_use_poll : option bytes) : AnyPoller :=
  match muduo_use_poll with
  | Some _ => UsePoll PollPoller.newPollPoller
  | None => UseEPoll EPollPoller.newEPollPoller
  end.

(** ** The life cycle of a channel, as a specification *)
Inductive status := Fresh | Watched | Idle | Removed.

#[export] Instance status_eq_dec : EqDecision status.
Proof. solve_decision. Defined.

Record ChanSpec := mkSpec {
  s_fd : Z;
  s_events : Z;
  s_status : status;
}.

Abbreviation Spec := (gmap Z ChanSpec).

Definition registered (s : ChanSpec) : Prop := s_status s = Watched \/ s_status s = Idle.

#[export] Instance registered_dec s : Decision (registered s).
Proof. unfold registered. apply _. Defined.

(** Linux never hands out a descriptor above its ceiling for nr_open. *)
Definition fd_limit : Z := 2 ^ 30.

Definition entry_ok (s : ChanSpec) : Prop :=
  0 <= s_fd s < fd_limit /\ event_mask (s_events s) /\ (s_events s <> 0 <-> s_status s = Watched).

Definition agrees (s : ChanSpec) (c : Channel) : Prop :=
  fd_ c = s_fd s /\ events_ c = s_events s.

(** What both pollers keep: the heap is the one specified, registered channels
    have distinct descriptors, and [channels_] is the map of them. *)
Record common (S : Spec) (cs : Channels) (channels : gmap Z Z) : Prop := {
  co_heap : forall ptr, option_Forall2 agrees (S !! ptr) (cs !! ptr);
  co_entry : forall ptr s, S !! ptr = Some s -> entry_ok s;
  co_fd : forall p1 p2 s1 s2, S !! p1 = Some s1 -> S !! p2 = Some s2 ->
    registered s1 -> registered s2 -> s_fd s1 = s_fd s2 -> p1 = p2;
  co_chan : forall fd ptr, channels !! fd = Some ptr <->
    exists s, S !! ptr = Some s /\ s_fd s = fd /\ registered s;
}.

(** The descriptor of [ptr] is not used by another registered channel. *)
Definition fd_free (S : Spec) (fd : Z) : Prop :=
  forall ptr s, S !! ptr = Some s -> registered s -> s_fd s <> fd.

(** When [updateChannel] may be called with the mask [e]. *)
Definition can_update (S : Spec) (s : ChanSpec) (e : Z) : Prop :=
  event_mask e /\
  match s_status s with
  | Fresh => e <> 0 /\ fd_free S (s_fd s)
  | Watched => True
  | Idle => e <> 0
  | Removed => False
  end.

Definition updated (s : ChanSpec) (e : Z) : ChanSpec :=
  mkSpec (s_fd s) e (if e =? 0 then Idle else Watched).

(** Equal but for what the pollers write, and equal in what they read. *)
Definition same_but_index (c1 c2 : Channel) : Prop := set_index 0 c1 = set_index 0 c2.
Definition same_core (c1 c2 : Channel) : Prop :=
  fd_ c1 = fd_ c2 /\ events_ c1 = events_ c2 /\ index_ c1 = index_ c2.

Definition is_ready (k : Kernel) (s : ChanSpec) : Prop :=
  s_status s = Watched /\ epoll_report k (s_fd s) (s_events s) <> 0.

(** Descriptors stay open while they are registered, so no POLLNVAL. *)
Record kernel_ok (k : Kernel) : Prop := {
  ko_order : NoDup (order k);
  ko_ready : forall fd, ready k fd <> 0 -> fd ∈ order k;
  ko_bits : forall fd, 0 <= ready k fd < 2 ^ 14 /\ Z.land (ready k fd) POLLNVAL = 0;
}.

(** What one call of [poll] reports. *)
Record poll_result (k : Kernel) (S : Spec) (batch : Z) (new : list Z) (cs cs' : Channels) : Prop := {
  pr_nodup : NoDup new;
  pr_sound : forall ptr, ptr ∈ new -> exists s, S !! ptr = Some s /\ is_ready k s;
  pr_complete : zlen new < batch ->
    forall ptr s, S !! ptr = Some s -> is_ready k s -> ptr ∈ new;
  pr_revents : forall ptr s c, S !! ptr = Some s -> cs !! ptr = Some c ->
    cs' !! ptr = Some (if decide (ptr ∈ new) then set_revents (epoll_report k (s_fd s) (s_events s)) c else c);
}.

(** The contract between a poller and the event loop. *)
Class PollerLaws (P : Type) `{Poller P} := {
  inv : Spec -> Channels -> P -> Prop;
  batch : P -> Z;
  inv_init : inv ∅ ∅ newPoller;
  inv_common S cs p : inv S cs p -> common S cs (channels_of p);
  inv_core S cs cs' p : inv S cs p ->
    (forall ptr, option_Forall2 same_core (cs !! ptr) (cs' !! ptr)) -> inv S cs' p;
  inv_construct S cs p ptr fd : inv S cs p -> S !! ptr = None -> 0 <= fd < fd_limit ->
    inv (<[ptr := mkSpec fd 0 Fresh]> S) (<[ptr := newChannel fd]> cs) p;
  inv_destroy S cs p ptr s : inv S cs p -> S !! ptr = Some s -> ~ registered s ->
    inv (delete ptr S) (delete ptr cs) p;
  update_law S cs p ptr s c e : inv S cs p -> S !! ptr = Some s -> cs !! ptr = Some c ->
    can_update S s e ->
    let cs1 := <[ptr := set_events e c]> cs in
    exists cs' p', updateChannel ptr cs1 p = Ok (cs', p') /\ inv (<[ptr := updated s e]> S) cs' p' /\
      forall q, option_Forall2 same_but_index (cs1 !! q) (cs' !! q);
  remove_law S cs p ptr s : inv S cs p -> S !! ptr = Some s -> s_status s = Idle ->
    exists cs' p', removeChannel ptr cs p = Ok (cs', p') /\
      inv (<[ptr := mkSpec (s_fd s) 0 Removed]> S) cs' p' /\
      forall q, option_Forall2 same_but_index (cs !! q) (cs' !! q);
  poll_law S cs p k active : inv S cs p -> kernel_ok k -> (exists ptr s, S !! ptr = Some s /\ registered s) ->
    exists new cs' p', poll (Some k) active cs p = Ok (active ++ new, cs', p') /\ inv S cs' p' /\
      poll_result k S (batch p) new cs cs';
}.

(** *** Shared lemmas *)
Lemma common_chan S cs ch ptr s :
  common S cs ch -> S !! ptr = Some s -> exists c, cs !! ptr = Some c /\ fd_ c = s_fd s /\ events_ c = s_events s.
Proof.
  intros Hco Hs. pose proof (co_heap _ _ _ Hco ptr) as Hh. rewrite Hs in Hh.
  inversion Hh as [? c Ha|]; subst. destruct Ha. eauto.
Qed.

Lemma common_spec S cs ch ptr c :
  common S cs ch -> cs !! ptr = Some c -> exists s, S !! ptr = Some s /\ fd_ c = s_fd s /\ events_ c = s_events s.
Proof.
  intros Hco Hs. pose proof (co_heap _ _ _ Hco ptr) as Hh. rewrite Hs in Hh.
  inversion Hh as [s ? Ha|]; subst. destruct Ha. eauto.
Qed.

Lemma common_lookup S cs ch ptr s :
  common S cs ch -> S !! ptr = Some s -> registered s -> ch !! s_fd s = Some ptr.
Proof. intros Hco ??. apply (co_chan _ _ _ Hco). eauto. Qed.

Lemma common_free S cs ch ptr s :
  common S cs ch -> S !! ptr = Some s -> fd_free S (s_fd s) -> ch !! s_fd s = None.
Proof.
  intros Hco ? Hfree. destruct (ch !! s_fd s) as [q|] eqn:E; [|done].
  apply (co_chan _ _ _ Hco) in E as (s' & ? & ? & ?). by destruct (Hfree q s').
Qed.

Lemma agrees_heap_core (S : Spec) (cs cs' : Channels) ptr :
  option_Forall2 agrees (S !! ptr) (cs !! ptr) -> option_Forall2 same_core (cs !! ptr) (cs' !! ptr) ->
  option_Forall2 agrees (S !! ptr) (cs' !! ptr).
Proof.
  intros [s c [H1 H2]|] Hc; inversion Hc as [? c' (H3 & H4 & _)|]; constructor.
  unfold agrees. split; congruence.
Qed.

Lemma common_core S cs cs' ch :
  common S cs ch -> (forall ptr, option_Forall2 same_core (cs !! ptr) (cs' !! ptr)) -> common S cs' ch.
Proof. intros [H1 H2 H3 H4] Hc. split; [|done..]. intros ptr. by eapply agrees_heap_core. Qed.

Lemma common_construct S cs ch ptr fd :
  common S cs ch -> S !! ptr = None -> 0 <= fd < fd_limit ->
  common (<[ptr := mkSpec fd 0 Fresh]> S) (<[ptr := newChannel fd]> cs) ch.
Proof.
  intros [H1 H2 H3 H4] Hn Hfd. split.
  - intros q. destruct (decide (q = ptr)) as [->|]; [rewrite !lookup_insert_eq; by constructor|].
    by rewrite !lookup_insert_ne.
  - intros q s [[<- <-]|[? ?]]%lookup_insert_Some; [|by eapply H2].
    split; [done|]. split; [by left|]. simpl; split; [lia|done].
  - intros p1 p2 s1 s2 [[<- <-]|[? ?]]%lookup_insert_Some [[<- <-]|[? ?]]%lookup_insert_Some R1 R2; eauto.
    + by destruct R1.
    + by destruct R2.
  - intros f q. rewrite H4. split; intros (s & Hs & ? & Hr).
    + exists s. rewrite lookup_insert_ne; [done|]. congruence.
    + apply lookup_insert_Some in Hs as [[<- <-]|[? ?]]; [by destruct Hr|eauto].
Qed.

Lemma common_destroy S cs ch ptr s :
  common S cs ch -> S !! ptr = Some s -> ~ registered s -> common (delete ptr S) (delete ptr cs) ch.
Proof.
  intros [H1 H2 H3 H4] Hs Hr. split.
  - intros q. destruct (decide (q = ptr)) as [->|]; [rewrite !lookup_delete_eq; by constructor|].
    by rewrite !lookup_delete_ne.
  - intros q s' [? ?]%lookup_delete_Some. by eapply H2.
  - intros p1 p2 s1 s2 [? ?]%lookup_delete_Some [? ?]%lookup_delete_Some; eauto.
  - intros f q. rewrite H4. split; intros (s' & Hs' & ? & ?).
    + exists s'. rewrite lookup_delete_ne; [done|]. by intros ->; simplify_eq.
    + apply lookup_delete_Some in Hs' as [? ?]. eauto.
Qed.

(** The channel [ptr] becomes, or stays, registered. *)
Lemma common_register S cs cs' ch ptr s s' :
  common S cs ch -> S !! ptr = Some s -> s_fd s' = s_fd s -> entry_ok s' -> registered s' ->
  (registered s \/ fd_free S (s_fd s)) ->
  (forall q, option_Forall2 agrees (<[ptr := s']> S !! q) (cs' !! q)) ->
  common (<[ptr := s']> S) cs' (<[s_fd s := ptr]> ch).
Proof.
  intros [H1 H2 H3 H4] Hs Hfd Hok Hr Hor Hag. split; [done|..].
  - intros q s0 [[<- <-]|[? ?]]%lookup_insert_Some; [done|by eapply H2].
  - intros p1 p2 s1 s2 [[<- <-]|[? ?]]%lookup_insert_Some [[<- <-]|[? ?]]%lookup_insert_Some R1 R2 E; eauto.
    + destruct Hor as [Hrs|Hf]; [eapply H3; eauto; congruence|]. destruct (Hf p2 s2); eauto; congruence.
    + destruct Hor as [Hrs|Hf]; [eapply H3; eauto; congruence|]. destruct (Hf p1 s1); eauto; congruence.
  - intros f q. split.
    + intros [[<- <-]|[Hne Hq]]%lookup_insert_Some; [exists s'; by rewrite lookup_insert_eq|].
      apply H4 in Hq as (s0 & ? & ? & ?). exists s0. rewrite lookup_insert_ne; [done|]. by intros ->; simplify_eq.
    + intros (s0 & [[<- <-]|[Hne ?]]%lookup_insert_Some & <- & ?); [by rewrite Hfd, lookup_insert_eq|].
      rewrite lookup_insert_ne; [apply H4; eauto|]. intros E.
      destruct Hor as [Hrs|Hf]; [by destruct Hne; eapply H3; eauto; congruence|]. by destruct (Hf q s0).
Qed.

Lemma common_unregister S cs cs' ch ptr s :
  common S cs ch -> S !! ptr = Some s -> registered s ->
  (forall q, option_Forall2 agrees (<[ptr := mkSpec (s_fd s) 0 Removed]> S !! q) (cs' !! q)) ->
  common (<[ptr := mkSpec (s_fd s) 0 Removed]> S) cs' (delete (s_fd s) ch).
Proof.
  intros [H1 H2 H3 H4] Hs Hr Hag. split; [done|..].
  - intros q s0 [[<- <-]|[? ?]]%lookup_insert_Some; [|by eapply H2].
    split; [apply (H2 _ _ Hs)|]. split; [by left|]. simpl; split; [lia|done].
  - intros p1 p2 s1 s2 [[<- <-]|[? ?]]%lookup_insert_Some [[<- <-]|[? ?]]%lookup_insert_Some R1 R2 E; eauto;
      by (destruct R1) || by (destruct R2).
  - intros f q. rewrite lookup_delete_Some, H4. split.
    + intros (Hne & s0 & ? & ? & ?). exists s0. rewrite lookup_insert_ne; [done|]. by intros ->; simplify_eq.
    + intros (s0 & [[<- <-]|[Hne ?]]%lookup_insert_Some & <- & Hr0); [by destruct Hr0|].
      split; [|eauto]. intros E. destruct Hne. eapply H3; eauto.
Qed.

Lemma same_but_index_core c1 c2 : same_but_index c1 c2 -> fd_ c1 = fd_ c2 /\ events_ c1 = events_ c2.
Proof. destruct c1, c2; unfold same_but_index, set_index; simpl. intros [= -> -> _ _ _ _ _ _]; done. Qed.

#[export] Instance same_but_index_equiv : Equivalence same_but_index.
Proof. split; [done|by intros ??|intros ???; unfold same_but_index; congruence]. Qed.

Lemma same_set_index i c : same_but_index c (set_index i c).
Proof. done. Qed.

(** Writing the index of one channel. *)
Lemma same_insert_index (cs : Channels) ptr c i q :
  cs !! ptr = Some c -> option_Forall2 same_but_index (cs !! q) (<[ptr := set_index i c]> cs !! q).
Proof.
  intros Hc. destruct (decide (q = ptr)) as [->|]; [rewrite lookup_insert_eq, Hc; by constructor|].
  rewrite lookup_insert_ne by done. reflexivity.
Qed.

(** The heap agrees with the updated specification whatever the indices became. *)
Lemma agrees_updated S cs ch (cs' : Channels) ptr s s' c e :
  common S cs ch -> cs !! ptr = Some c -> S !! ptr = Some s -> s_fd s' = s_fd s -> s_events s' = e ->
  (forall q, option_Forall2 same_but_index (<[ptr := set_events e c]> cs !! q) (cs' !! q)) ->
  forall q, option_Forall2 agrees (<[ptr := s']> S !! q) (cs' !! q).
Proof.
  intros Hco Hc Hs Hfd He Hsame q. specialize (Hsame q).
  assert (Hq : option_Forall2 agrees (<[ptr := s']> S !! q) (<[ptr := set_events e c]> cs !! q)).
  { destruct (decide (q = ptr)) as [->|].
    - rewrite !lookup_insert_eq. constructor. split; simpl; [|done].
      destruct (common_spec _ _ _ _ _ Hco Hc) as (? & ? & ? & ?). congruence.
    - rewrite !lookup_insert_ne by done. apply (co_heap _ _ _ Hco). }
  destruct Hq as [x y [Hx Hy]|]; inversion Hsame as [? z Hz|]; constructor.
  apply same_but_index_core in Hz as [? ?]. split; congruence.
Qed.

Lemma updated_ok s e : entry_ok s -> event_mask e -> entry_ok (updated s e).
Proof.
  intros (H1 & H2 & H3) He. split; [done|]. split; [done|]. simpl.
  destruct (Z.eqb_spec e 0); simpl; split; done || lia.
Qed.

Lemma updated_registered s e : registered (updated s e).
Proof. unfold registered, updated; simpl. destruct (e =? 0); auto. Qed.

Lemma unwatched_events s : entry_ok s -> s_status s <> Watched -> s_events s = 0.
Proof. intros (_ & _ & He) Hs. destruct (decide (s_events s = 0)) as [|n]; [done|]. by apply He in n. Qed.

Lemma set_events_id c e : events_ c = e -> set_events e c = c.
Proof. intros <-. by destruct c. Qed.

Lemma maps_to_true (m : gmap Z Z) fd q : m !! fd = Some q -> mapped m fd = true /\ maps_to m fd q = true.
Proof. unfold mapped, maps_to. intros ->. split; apply bool_decide_eq_true; done. Qed.

Lemma mapped_false (m : gmap Z Z) fd : m !! fd = None -> mapped m fd = false.
Proof. unfold mapped. intros ->. apply bool_decide_eq_false. by intros [??]. Qed.

(** The descriptors reported ready have the revents of the specification. *)
Definition mark (evs : list (Z * Z)) (cs : Channels) : Channels :=
  foldl (fun cs '(e, ptr) => alter (set_revents e) ptr cs) cs evs.

Lemma mark_cons e q evs cs : mark ((e, q) :: evs) cs = mark evs (alter (set_revents e) q cs).
Proof. done. Qed.

Lemma mark_lookup_out evs cs ptr : ptr ∉ map snd evs -> mark evs cs !! ptr = cs !! ptr.
Proof.
  revert cs; induction evs as [|[e q] evs IH]; intros cs Hn; simpl in Hn; [done|].
  rewrite mark_cons, IH by set_solver. apply lookup_alter_ne. set_solver.
Qed.

Lemma mark_lookup_in evs cs ptr e :
  NoDup (map snd evs) -> (e, ptr) ∈ evs -> mark evs cs !! ptr = set_revents e <$> cs !! ptr.
Proof.
  revert cs; induction evs as [|[e0 q] evs IH]; intros cs Hnd Hin; [set_solver|].
  simpl in Hnd. apply NoDup_cons in Hnd as [Hq Hnd]. rewrite mark_cons.
  apply elem_of_cons in Hin as [[= <- <-]|Hin].
  - rewrite (mark_lookup_out evs) by done. by rewrite lookup_alter_eq.
  - rewrite IH by done. rewrite lookup_alter_ne; [done|]. intros ->. destruct Hq.
    change ptr with (snd (e, ptr)). by apply list_elem_of_fmap_2.
Qed.

Lemma mark_core evs cs ptr : option_Forall2 same_core (cs !! ptr) (mark evs cs !! ptr).
Proof.
  revert cs; induction evs as [|[e q] evs IH]; intros cs.
  - unfold mark; simpl. destruct (cs !! ptr); constructor. done.
  - rewrite mark_cons. specialize (IH (alter (set_revents e) q cs)).
    destruct (decide (q = ptr)) as [->|].
    + rewrite lookup_alter_eq in IH. destruct (cs !! ptr); simpl in IH; [|done].
      inversion IH as [? ? H|]; constructor. exact H.
    + by rewrite lookup_alter_ne in IH.
Qed.

(** ** EPollPoller satisfies the contract *)
Module EPollLaws.
Import EPollPoller.

Definition index_of (st : status) (index : Z) : Prop :=
  match st with
  | Fresh => index = kNew
  | Watched => index = kAdded
  | Idle => index = kDeleted
  | Removed => True
  end.

(** The kernel's interest list is the set of watched channels. *)
Definition interest_of (S : Spec) (i : gmap Z (Z * Z)) : Prop :=
  forall fd ev, i !! fd = Some ev <->
    exists ptr s, S !! ptr = Some s /\ s_fd s = fd /\ s_status s = Watched /\ ev = (s_events s, ptr).

Record einv (S : Spec) (cs : Channels) (p : EPollPoller) : Prop := {
  e_common : common S cs (channels_ p);
  e_index : forall ptr s c, S !! ptr = Some s -> cs !! ptr = Some c -> index_of (s_status s) (index_ c);
  e_interest : interest_of S (interest p);
  e_events : 0 < zlen (events_ p);
}.

Lemma interest_none S cs ch i ptr s :
  common S cs ch -> interest_of S i -> S !! ptr = Some s ->
  (registered s /\ s_status s <> Watched) \/ fd_free S (s_fd s) -> i !! s_fd s = None.
Proof.
  intros Hco Hi Hs Hor. destruct (i !! s_fd s) as [ev|] eqn:E; [|done].
  apply Hi in E as (q & s' & Hq & Hfd & Hw & _).
  assert (registered s') by by left.
  destruct Hor as [[Hr Hne]|Hf]; [|by destruct (Hf q s')].
  assert (q = ptr) as -> by (by eapply (co_fd _ _ _ Hco)). by simplify_eq.
Qed.

Lemma interest_watch S cs ch i ptr s e :
  common S cs ch -> interest_of S i -> S !! ptr = Some s -> (registered s \/ fd_free S (s_fd s)) ->
  e <> 0 -> interest_of (<[ptr := updated s e]> S) (<[s_fd s := (e, ptr)]> i).
Proof.
  intros Hco Hi Hs Hor He fd ev. unfold updated. rewrite (proj2 (Z.eqb_neq _ _) He).
  destruct (decide (fd = s_fd s)) as [->|Hne].
  - rewrite lookup_insert_eq. split.
    + intros [= <-]. exists ptr. eexists. rewrite lookup_insert_eq. done.
    + intros (q & s' & [[<- <-]|[Hq Hs']]%lookup_insert_Some & Hfd & Hw & ->); [done|].
      assert (registered s') by by left.
      destruct Hor as [Hr|Hf]; [|by destruct (Hf q s')].
      destruct Hq. by eapply (co_fd _ _ _ Hco).
  - rewrite lookup_insert_ne by done. rewrite (Hi fd ev). split.
    + intros (q & s' & Hq & Hfd & Hw & ->). exists q, s'. rewrite lookup_insert_ne; [done|].
      intros ->. simplify_eq.
    + intros (q & s' & [[<- <-]|[Hq Hs']]%lookup_insert_Some & Hfd & Hw & ->); [done|]. eauto 10.
Qed.

Lemma interest_unwatch S cs ch i ptr s s' :
  common S cs ch -> interest_of S i -> S !! ptr = Some s -> registered s ->
  s_status s' <> Watched -> interest_of (<[ptr := s']> S) (delete (s_fd s) i).
Proof.
  intros Hco Hi Hs Hr Hnw fd ev. rewrite lookup_delete_Some, (Hi fd ev). split.
  - intros (Hne & q & s0 & Hq & Hfd & Hw & ->). exists q, s0. rewrite lookup_insert_ne; [done|].
    intros ->. simplify_eq.
  - intros (q & s0 & [[<- <-]|[Hq Hs']]%lookup_insert_Some & Hfd & Hw & ->); [done|].
    split; [|by eauto 10]. intros E. destruct Hq. eapply (co_fd _ _ _ Hco); [done..|by left|congruence].
Qed.

Lemma watched_interest S i ptr s :
  interest_of S i -> S !! ptr = Some s -> s_status s = Watched -> i !! s_fd s = Some (s_events s, ptr).
Proof. intros Hi ??. apply Hi. eauto 10. Qed.

(** Only [ptr] changes its index. *)
Lemma index_insert (S : Spec) (cs : Channels) ptr s' c' :
  (forall q s c, S !! q = Some s -> cs !! q = Some c -> index_of (s_status s) (index_ c)) ->
  index_of (s_status s') (index_ c') ->
  forall q s c, <[ptr := s']> S !! q = Some s -> <[ptr := c']> cs !! q = Some c ->
    index_of (s_status s) (index_ c).
Proof.
  intros H H' q s c. destruct (decide (q = ptr)) as [->|].
  - rewrite !lookup_insert_eq. by intros [= <-] [= <-].
  - rewrite !lookup_insert_ne by done. apply H.
Qed.

Lemma update_step S cs p ptr s c e :
  einv S cs p -> S !! ptr = Some s -> cs !! ptr = Some c -> can_update S s e ->
  exists i j, updateChannel ptr (<[ptr := set_events e c]> cs) p =
    Ok (<[ptr := set_index j (set_events e c)]> cs, mkEPoll (<[s_fd s := ptr]> (channels_ p)) i (events_ p)) /\
    interest_of (<[ptr := updated s e]> S) i /\ index_of (s_status (updated s e)) j.
Proof.
  intros [Hco Hidx Hint Hev] Hs Hc (Hm & Hst).
  destruct (common_spec _ _ _ _ _ Hco Hc) as (s0 & Hs0 & Hfd & Hevs). rewrite Hs in Hs0. injection Hs0 as <-.
  pose proof (Hidx _ _ _ Hs Hc) as Hi. unfold updateChannel, deref.
  rewrite lookup_insert_eq. cbn [get_or mbind outcome_bind set_events index_ fd_]. rewrite Hfd.
  destruct (s_status s) eqn:Est; simpl in Hi; [| | |done]; rewrite Hi.
  - (* Fresh *)
    destruct Hst as [He Hfree]. simpl.
    rewrite (mapped_false _ _ (common_free _ _ _ _ _ Hco Hs Hfree)). simpl.
    unfold update, deref. rewrite lookup_insert_eq. simpl. unfold epoll_ctl; simpl. rewrite Hfd.
    rewrite (interest_none _ _ _ _ _ _ Hco Hint Hs) by by right.
    eexists _, kAdded. split; [rewrite insert_insert_eq; reflexivity|].
    split; [eapply interest_watch; eauto|]. unfold updated. by rewrite (proj2 (Z.eqb_neq _ _) He).
  - (* Watched *)
    assert (Hr : registered s) by by left.
    pose proof (common_lookup _ _ _ _ _ Hco Hs Hr) as Hlk.
    destruct (maps_to_true _ _ _ Hlk) as [-> ->]. simpl.
    unfold isNoneEvent; simpl. unfold update, deref. rewrite lookup_insert_eq. simpl.
    unfold epoll_ctl; simpl. rewrite Hfd, (watched_interest _ _ _ _ Hint Hs Est), (insert_id (channels_ p)) by done.
    destruct (Z.eqb_spec e kNoneEvent) as [He|He]; simpl; unfold kNoneEvent in He.
    + eexists _, kDeleted. split; [rewrite insert_insert_eq; reflexivity|].
      unfold updated. rewrite He. simpl. split; [|done]. eapply interest_unwatch; eauto; done.
    + eexists _, kAdded. split.
      * replace (set_index kAdded (set_events e c)) with (set_events e c); [reflexivity|].
        unfold set_events, set_index; simpl. by rewrite Hi.
      * split; [eapply interest_watch; eauto|]. unfold updated. by rewrite (proj2 (Z.eqb_neq _ _) He).
  - (* Idle *)
    assert (Hr : registered s) by by right.
    pose proof (common_lookup _ _ _ _ _ Hco Hs Hr) as Hlk. simpl.
    destruct (maps_to_true _ _ _ Hlk) as [-> ->]. simpl.
    unfold update, deref. rewrite lookup_insert_eq. simpl. unfold epoll_ctl; simpl. rewrite Hfd.
    rewrite (interest_none _ _ _ _ _ _ Hco Hint Hs) by (left; split; [done|congruence]).
    eexists _, kAdded. split; [rewrite insert_insert_eq, (insert_id (channels_ p)) by done; reflexivity|].
    split; [eapply interest_watch; eauto|]. unfold updated. by rewrite (proj2 (Z.eqb_neq _ _) Hst).
Qed.

Lemma can_update_free S s e : can_update S s e -> registered s \/ fd_free S (s_fd s).
Proof. unfold can_update, registered. destruct (s_status s); naive_solver. Qed.

Lemma einv_update S cs p ptr s c e :
  einv S cs p -> S !! ptr = Some s -> cs !! ptr = Some c -> can_update S s e ->
  exists cs' p', updateChannel ptr (<[ptr := set_events e c]> cs) p = Ok (cs', p') /\
    einv (<[ptr := updated s e]> S) cs' p' /\
    forall q, option_Forall2 same_but_index (<[ptr := set_events e c]> cs !! q) (cs' !! q).
Proof.
  intros Hinv Hs Hc Hcan. destruct (update_step _ _ _ _ _ _ _ Hinv Hs Hc Hcan) as (i & j & Hu & Hi & Hj).
  destruct Hinv as [Hco Hidx Hint Hev].
  assert (Hsame : forall q, option_Forall2 same_but_index (<[ptr := set_events e c]> cs !! q)
                              (<[ptr := set_index j (set_events e c)]> cs !! q)).
  { intros q. rewrite <- (insert_insert_eq cs ptr (set_index j (set_events e c)) (set_events e c)). apply same_insert_index, lookup_insert_eq. }
  eexists _, _. split; [exact Hu|]. split; [|exact Hsame]. split; simpl; [| |done..].
  - eapply common_register; [exact Hco|exact Hs|done|apply updated_ok; [by eapply co_entry|apply Hcan]|
      apply updated_registered|by eapply can_update_free|].
    eapply agrees_updated; [exact Hco|exact Hc|exact Hs|done..|exact Hsame].
  - apply index_insert; [done|exact Hj].
Qed.

Lemma einv_remove S cs p ptr s :
  einv S cs p -> S !! ptr = Some s -> s_status s = Idle ->
  exists cs' p', removeChannel ptr cs p = Ok (cs', p') /\
    einv (<[ptr := mkSpec (s_fd s) 0 Removed]> S) cs' p' /\
    forall q, option_Forall2 same_but_index (cs !! q) (cs' !! q).
Proof.
  intros [Hco Hidx Hint Hev] Hs Hst. assert (Hr : registered s) by by right.
  destruct (common_chan _ _ _ _ _ Hco Hs) as (c & Hc & Hfd & Hevs).
  pose proof (Hidx _ _ _ Hs Hc) as Hi. rewrite Hst in Hi; simpl in Hi.
  assert (E0 : Channel.events_ c = 0)
    by (rewrite Hevs; apply unwatched_events; [by eapply co_entry|congruence]).
  pose proof (common_lookup _ _ _ _ _ Hco Hs Hr) as Hlk.
  unfold removeChannel, deref. rewrite Hc. cbn [get_or mbind outcome_bind]. rewrite Hfd.
  destruct (maps_to_true _ _ _ Hlk) as [-> ->]. unfold isNoneEvent. rewrite E0, Hi. simpl.
  eexists _, _. split; [reflexivity|].
  assert (Hsame : forall q, option_Forall2 same_but_index (cs !! q) (<[ptr := set_index kNew c]> cs !! q))
    by (intros; by apply same_insert_index).
  split; [|done]. split; simpl; [| | |done].
  - eapply common_unregister; eauto. eapply agrees_updated; [done..|].
    intros q. rewrite (set_events_id c) by (rewrite E0; done).
    by rewrite (insert_id cs).
  - by apply index_insert.
  - rewrite <- (delete_id (interest p) (s_fd s)).
    + eapply interest_unwatch; eauto; done.
    + eapply interest_none; eauto. left. split; [done|congruence].
Qed.

(** *** poll *)

(** The entries of the batch, before it is cut to the size of the event list. *)
Definition all_ready (k : Kernel) (i : gmap Z (Z * Z)) : list (Z * Z) :=
  omap (fun fd =>
    match i !! fd with
    | Some (e, ptr) => if epoll_report k fd e =? 0 then None else Some (epoll_report k fd e, ptr)
    | None => None
    end) (order k).

Lemma all_ready_elem S k i r ptr :
  interest_of S i -> kernel_ok k ->
  (r, ptr) ∈ all_ready k i <->
  exists s, S !! ptr = Some s /\ is_ready k s /\ r = epoll_report k (s_fd s) (s_events s).
Proof.
  intros Hi Hk. unfold all_ready. rewrite list_elem_of_omap. split.
  - intros (fd & Hfd & He). destruct (i !! fd) as [[e q]|] eqn:E; [|done].
    destruct (Z.eqb_spec (epoll_report k fd e) 0); [done|]. simplify_eq.
    apply Hi in E as (q & s & Hs & <- & Hw & [= -> ->]). by exists s.
  - intros (s & Hs & [Hw Hr] & ->). exists (s_fd s). split.
    + apply (ko_ready _ Hk). intros E. apply Hr. unfold epoll_report. by rewrite E.
    + rewrite (watched_interest _ _ _ _ Hi Hs Hw). by rewrite (proj2 (Z.eqb_neq _ _) Hr).
Qed.

Lemma all_ready_nodup S cs ch k i :
  common S cs ch -> interest_of S i -> kernel_ok k -> NoDup (map snd (all_ready k i)).
Proof.
  intros Hco Hi Hk. unfold all_ready. pose proof (ko_order _ Hk) as Hnd.
  induction (order k) as [|fd l IH]; simpl; [constructor|].
  apply NoDup_cons in Hnd as [Hfd Hnd]. destruct (i !! fd) as [[e ptr]|] eqn:E; [|by apply IH].
  destruct (epoll_report k fd e =? 0); [by apply IH|]. simpl. apply NoDup_cons. split; [|by apply IH].
  intros Hin. apply list_elem_of_fmap in Hin as ([r q] & Hq & Hin). simpl in Hq; subst q.
  apply list_elem_of_omap in Hin as (fd' & Hfd' & He).
  destruct (i !! fd') as [[e' q]|] eqn:E'; [|done]. destruct (epoll_report k fd' e' =? 0); [done|].
  simplify_eq. apply Hi in E as (? & s1 & Hs1 & <- & _ & [= -> <-]).
  apply Hi in E' as (? & s2 & Hs2 & <- & _ & [= -> <-]). simplify_eq. done.
Qed.

Lemma fill_marks p evs active cs :
  (forall r ptr, (r, ptr) ∈ evs -> exists c, cs !! ptr = Some c /\ channels_ p !! fd_ c = Some ptr) ->
  foldM (fill_one p) (active, cs) evs = Ok (active ++ map snd evs, mark evs cs).
Proof.
  revert active cs; induction evs as [|[r ptr] evs IH]; intros active cs Hev; simpl.
  - by rewrite app_nil_r.
  - destruct (Hev r ptr ltac:(left)) as (c & Hc & Hch). unfold deref. rewrite Hc. simpl.
    destruct (maps_to_true _ _ _ Hch) as [-> ->]. simpl. rewrite IH.
    + rewrite <- (assoc_L (++)). f_equal. f_equal.
      change (mark evs (<[ptr := set_revents r c]> cs) = mark evs (alter (set_revents r) ptr cs)).
      f_equal. apply map_eq. intros q. destruct (decide (q = ptr)) as [->|].
      * by rewrite lookup_insert_eq, lookup_alter_eq, Hc.
      * by rewrite lookup_insert_ne, lookup_alter_ne.
    + intros r' q Hq. destruct (Hev r' q ltac:(by right)) as (c' & Hc' & Hch').
      destruct (decide (q = ptr)) as [->|].
      * rewrite lookup_insert_eq. eexists; split; [done|]. simpl. congruence.
      * rewrite lookup_insert_ne by done. eauto.
Qed.

Lemma einv_core S cs cs' p :
  einv S cs p -> (forall ptr, option_Forall2 same_core (cs !! ptr) (cs' !! ptr)) -> einv S cs' p.
Proof.
  intros [Hco Hidx Hint Hev] Hc. split; [by eapply common_core| |done..].
  intros ptr s c' Hs Hc'. specialize (Hc ptr). rewrite Hc' in Hc.
  inversion Hc as [c ? (_ & _ & Hi)|]; subst. rewrite <- Hi. by eapply Hidx.
Qed.

Lemma poll_result_of S cs ch k i n :
  common S cs ch -> interest_of S i -> kernel_ok k -> 0 < n ->
  poll_result k S n (map snd (ztake n (all_ready k i))) cs (mark (ztake n (all_ready k i)) cs).
Proof.
  intros Hco Hi Hk Hn.
  assert (Hnd : NoDup (map snd (ztake n (all_ready k i)))).
  { pose proof (all_ready_nodup _ _ _ _ _ Hco Hi Hk) as Hnd.
    rewrite <- (ztake_zdrop n (all_ready k i)), map_app in Hnd. by apply NoDup_app in Hnd as [? _]. }
  assert (Hsub : forall x, x ∈ ztake n (all_ready k i) -> x ∈ all_ready k i).
  { intros x Hx. rewrite <- (ztake_zdrop n (all_ready k i)). apply elem_of_app. by left. }
  split; [done|..].
  - intros ptr ([r q] & -> & Hin)%list_elem_of_fmap. apply Hsub, (all_ready_elem S) in Hin as (s & ? & ? & _); eauto.
  - intros Hlt ptr s Hs Hr. rewrite zlen_map in Hlt.
    assert (Hin : (epoll_report k (s_fd s) (s_events s), ptr) ∈ ztake n (all_ready k i)).
    { rewrite ztake_all.
      - apply (all_ready_elem S); eauto.
      - destruct (decide (zlen (all_ready k i) <= n)); [done|]. rewrite zlen_ztake in Hlt by lia. lia. }
    apply list_elem_of_fmap. by eexists (_, _).
  - intros ptr s c Hs Hc. case_decide as Hin.
    + apply list_elem_of_fmap in Hin as ([r q] & Hq & Hin). simpl in Hq; subst q.
      rewrite (mark_lookup_in _ _ _ _ Hnd Hin), Hc. simpl.
      apply Hsub, (all_ready_elem S) in Hin as (s' & Hs' & _ & ->); [|done..]. by simplify_eq.
    + by rewrite mark_lookup_out, Hc.
Qed.

Lemma einv_poll S cs p k active :
  einv S cs p -> kernel_ok k ->
  exists new cs' p', poll (Some k) active cs p = Ok (active ++ new, cs', p') /\ einv S cs' p' /\
    poll_result k S (zlen (events_ p)) new cs cs' /\
    zlen (events_ p') = (if zlen new =? zlen (events_ p) then 2 * zlen (events_ p) else zlen (events_ p)).
Proof.
  intros Hinv Hk. destruct (Hinv) as [Hco Hidx Hint Hev].
  pose proof (poll_result_of _ _ _ _ _ _ Hco Hint Hk Hev) as Hres.
  unfold poll, epoll_wait. fold (all_ready k (interest p)).
  set (evs := ztake (zlen (events_ p)) (all_ready k (interest p))) in *.
  assert (Hle : zlen evs <= zlen (events_ p)).
  { unfold evs. destruct (decide (zlen (events_ p) <= zlen (all_ready k (interest p)))).
    - rewrite zlen_ztake; lia.
    - rewrite ztake_all; lia. }
  pose proof (zlen_nonneg evs) as Hnn.
  set (p1 := mkEPoll (channels_ p) (interest p) (zwrite 0 evs (events_ p))).
  assert (Hl1 : zlen (events_ p1) = zlen (events_ p)) by (apply zlen_zwrite; lia).
  assert (Hinv' : forall es, 0 < zlen es -> einv S (mark evs cs) (mkEPoll (channels_ p) (interest p) es)).
  { intros es Hes. apply (einv_core S cs); [by split|]. intros; apply mark_core. }
  cbn zeta. destruct (Z.ltb_spec 0 (zlen evs)) as [Hpos|Hz].
  - unfold fillActiveChannels. rewrite Hl1, (proj2 (Z.leb_le _ _) Hle). cbn [c_assert mbind outcome_bind].
    replace (ztake (zlen evs) (events_ p1)) with evs.
    2: { change (events_ p1) with (evs ++ zdrop (zlen evs) (events_ p)). symmetry. by apply ztake_app_exact. }
    rewrite fill_marks.
    2: { intros r ptr Hin. destruct (pr_sound _ _ _ _ _ _ Hres ptr) as (s & Hs & Hw & _).
         { apply list_elem_of_fmap. by exists (r, ptr). }
         destruct (common_chan _ _ _ _ _ Hco Hs) as (c & Hc & Hfd & _). exists c. split; [done|]. simpl.
         rewrite Hfd. eapply common_lookup; eauto. by left. }
    cbn [mbind outcome_bind].
    destruct (Z.eqb_spec (zlen evs) (zlen (events_ p))) as [Heq|Hne].
    + eexists _, _, _. split; [reflexivity|]. rewrite zlen_map. split; [apply Hinv'; rewrite zlen_zresize; lia|].
      split; [done|]. simpl. rewrite (proj2 (Z.eqb_eq _ _) Heq). rewrite zlen_zresize; simpl in *; lia.
    + eexists _, _, _. split; [reflexivity|]. rewrite zlen_map. split; [apply Hinv'; unfold p1 in Hl1; simpl in Hl1; lia|].
      split; [done|]. by rewrite (proj2 (Z.eqb_neq _ _) Hne).
  - assert (Hnil : evs = []) by (apply zlen_0_nil; lia).
    rewrite Hnil in Hres. rewrite Hnil in Hinv'.
    exists [], cs, p1. rewrite app_nil_r. split; [done|]. split; [apply (Hinv' (events_ p1)); lia|].
    split; [done|]. rewrite Hl1. change (zlen (@nil Z)) with 0. by rewrite (proj2 (Z.eqb_neq _ _)) by lia.
Qed.

#[global] Instance EPollPoller_Laws : PollerLaws EPollPoller.
Proof.
  refine {| inv := einv; batch := fun p => zlen (events_ p) |}.
  - split; [|by intros ???|intros ??; split; [done|by intros (? & ? & ? & _)]|done].
    split; [intros; rewrite !lookup_empty; constructor|done..|].
    intros ??; split; [done|]. by intros (? & ? & _).
  - intros S cs p []. done.
  - apply einv_core.
  - intros S cs p ptr fd [Hco Hidx Hint Hev] Hn Hfd. split; [by apply common_construct|..|done].
    + by apply index_insert.
    + intros f ev. rewrite (Hint f ev). split; intros (q & s & Hq & Hf & Hw & ->).
      * exists q, s. rewrite lookup_insert_ne; [done|]. congruence.
      * apply lookup_insert_Some in Hq as [[<- <-]|[? ?]]; [done|]. eauto 10.
  - intros S cs p ptr s [Hco Hidx Hint Hev] Hs Hr. split; [by eapply common_destroy|..|done].
    + intros q s' c [? ?]%lookup_delete_Some [? ?]%lookup_delete_Some. by eapply Hidx.
    + intros f ev. rewrite (Hint f ev). split; intros (q & s' & Hq & Hf & Hw & ->).
      * exists q, s'. rewrite lookup_delete_ne; [done|]. intros ->. simplify_eq. destruct Hr. by left.
      * apply lookup_delete_Some in Hq as [? ?]. eauto 10.
  - intros S cs p ptr s c e Hinv Hs Hc Hcan. by apply einv_update.
  - apply einv_remove.
  - intros S cs p k active Hinv Hk _.
    destruct (einv_poll S cs p k active Hinv Hk) as (new & cs' & p' & ? & ? & ? & _). eauto 10.
Defined.

End EPollLaws.

(** ** PollPoller satisfies the contract *)
Module PollLaws.
Import PollPoller.

Definition decode (f : Z) : Z := if f <? 0 then - f - 1 else f.

(** The pollfd of a registered channel. *)
Definition entry (s : ChanSpec) (pfd : pollfd) : Prop :=
  fd pfd = (if decide (s_status s = Watched) then s_fd s else - s_fd s - 1) /\ events pfd = s_events s.

Record pinv (S : Spec) (cs : Channels) (p : PollPoller) : Prop := {
  p_common : common S cs (channels_ p);
  p_fresh : forall ptr s c, S !! ptr = Some s -> cs !! ptr = Some c -> s_status s = Fresh -> index_ c = -1;
  p_own : forall ptr s c, S !! ptr = Some s -> cs !! ptr = Some c -> registered s ->
    0 <= index_ c /\ exists pfd, pollfds_ p !! Z.to_nat (index_ c) = Some pfd /\ entry s pfd;
  p_all : forall i pfd, pollfds_ p !! i = Some pfd -> exists ptr s c,
    S !! ptr = Some s /\ cs !! ptr = Some c /\ registered s /\ index_ c = Z.of_nat i;
}.

Lemma entry_decode s pfd : 0 <= s_fd s -> entry s pfd -> decode (fd pfd) = s_fd s.
Proof.
  intros Hs [-> _]. unfold decode. case_decide; [rewrite (proj2 (Z.ltb_ge _ _)); lia|].
  rewrite (proj2 (Z.ltb_lt _ _)); lia.
Qed.

Lemma entry_watched s pfd : 0 <= s_fd s -> entry s pfd -> 0 <= fd pfd <-> s_status s = Watched.
Proof. intros Hs [-> _]. case_decide; split; intros; lia || done. Qed.

(** Every slot belongs to exactly one registered channel. *)
Lemma slot_owner S cs p i pfd :
  pinv S cs p -> pollfds_ p !! i = Some pfd ->
  exists ptr s c, S !! ptr = Some s /\ cs !! ptr = Some c /\ registered s /\ index_ c = Z.of_nat i /\
    entry s pfd /\ decode (fd pfd) = s_fd s.
Proof.
  intros Hinv Hi. destruct (p_all _ _ _ Hinv _ _ Hi) as (ptr & s & c & Hs & Hc & Hr & Hx).
  destruct (p_own _ _ _ Hinv _ _ _ Hs Hc Hr) as (_ & pfd' & Hp & He).
  rewrite Hx, Nat2Z.id in Hp. rewrite Hi in Hp. injection Hp as <-.
  exists ptr, s, c. repeat (split; [done|]). apply (entry_decode s); [|done].
  apply (co_entry _ _ _ (p_common _ _ _ Hinv) _ _ Hs).
Qed.

Lemma slots_nodup S cs p : pinv S cs p -> NoDup (map (fun pfd => decode (fd pfd)) (pollfds_ p)).
Proof.
  intros Hinv. apply NoDup_alt. intros i j x Hi Hj.
  apply list_lookup_fmap_Some in Hi as (pi & -> & Hi). apply list_lookup_fmap_Some in Hj as (pj & Hij & Hj).
  destruct (slot_owner _ _ _ _ _ Hinv Hi) as (p1 & s1 & c1 & H1 & Hc1 & R1 & X1 & _ & D1).
  destruct (slot_owner _ _ _ _ _ Hinv Hj) as (p2 & s2 & c2 & H2 & Hc2 & R2 & X2 & _ & D2).
  assert (p1 = p2) as -> by (eapply (co_fd _ _ _ (p_common _ _ _ Hinv)); eauto; congruence).
  simplify_eq. lia.
Qed.

(** There are no more slots than descriptors, so the int index never wraps. *)
Lemma slots_bound S cs p : pinv S cs p -> zlen (pollfds_ p) <= fd_limit.
Proof.
  intros Hinv. pose proof (slots_nodup _ _ _ Hinv) as Hnd.
  apply (NoDup_submseteq _ (seqZ 0 fd_limit)) in Hnd.
  - apply submseteq_length in Hnd. rewrite length_seqZ, length_map in Hnd. unfold zlen.
    assert (0 <= fd_limit) by (unfold fd_limit; lia). lia.
  - intros x Hx. apply list_elem_of_fmap in Hx as (pfd & -> & Hin).
    apply list_elem_of_lookup_1 in Hin as (i & Hi).
    destruct (slot_owner _ _ _ _ _ Hinv Hi) as (q & s & c & Hs & _ & _ & _ & _ & ->).
    apply elem_of_seqZ. destruct (co_entry _ _ _ (p_common _ _ _ Hinv) _ _ Hs) as [? _]. lia.
Qed.

Lemma i32_small n : 0 <= n <= fd_limit + 1 -> i32 n = n.
Proof. unfold fd_limit. intros. apply wrapS_id; [lia|]. unfold in_s. lia. Qed.

Lemma i16_mask e : event_mask e -> i16 e = e.
Proof. intros He. apply event_mask_range in He. apply wrapS_id; [lia|]. unfold in_s. lia. Qed.

Lemma zget_nat {A} (l : list A) i : 0 <= i -> zget l i = l !! Z.to_nat i.
Proof. intros. unfold zget. by rewrite (proj2 (Z.ltb_ge _ _)). Qed.

Lemma zset_nat {A} (l : list A) i x : 0 <= i -> zset l i x = <[Z.to_nat i := x]> l.
Proof. intros. unfold zset. by rewrite (proj2 (Z.ltb_ge _ _)). Qed.

(** A registered channel and its slot. *)
Lemma own_slot S cs p ptr s :
  pinv S cs p -> S !! ptr = Some s -> registered s -> exists c pfd,
    cs !! ptr = Some c /\ fd_ c = s_fd s /\ events_ c = s_events s /\
    channels_ p !! s_fd s = Some ptr /\ 0 <= index_ c < zlen (pollfds_ p) /\
    zget (pollfds_ p) (index_ c) = Some pfd /\ entry s pfd /\
    (0 <=? index_ c) && (index_ c <? i32 (zlen (pollfds_ p))) = true.
Proof.
  intros Hinv Hs Hr. destruct (Hinv) as [Hco _ Hown _].
  destruct (common_chan _ _ _ _ _ Hco Hs) as (c & Hc & Hfd & Hev).
  destruct (Hown _ _ _ Hs Hc Hr) as (H0 & pfd & Hp & He).
  pose proof (lookup_lt_Some _ _ _ Hp) as Hlt. pose proof (slots_bound _ _ _ Hinv) as Hb.
  assert (index_ c < zlen (pollfds_ p)) by (unfold zlen; lia).
  exists c, pfd. repeat (split; [done|]). split; [by eapply common_lookup|]. split; [done|].
  split; [by rewrite zget_nat|]. split; [done|]. rewrite i32_small by (unfold zlen in *; lia). lia.
Qed.

(** An existing slot is rewritten in place. *)
Lemma pinv_rewrite S cs p ptr s c e pfd' :
  pinv S cs p -> S !! ptr = Some s -> cs !! ptr = Some c -> registered s -> event_mask e ->
  entry (updated s e) pfd' ->
  pinv (<[ptr := updated s e]> S) (<[ptr := set_events e c]> cs)
    (mkPoll (channels_ p) (<[Z.to_nat (index_ c) := pfd']> (pollfds_ p))).
Proof.
  intros Hinv Hs Hc Hr He Hpfd. destruct (Hinv) as [Hco Hfresh Hown Hall].
  destruct (Hown _ _ _ Hs Hc Hr) as (H0 & pfd & Hp & _). pose proof (lookup_lt_Some _ _ _ Hp) as Hlt.
  split; simpl.
  - rewrite <- (insert_id (channels_ p) (s_fd s) ptr) by (by eapply common_lookup).
    eapply common_register; [exact Hco|exact Hs|done|apply updated_ok; [by eapply co_entry|done]|
      apply updated_registered|by left|].
    eapply agrees_updated; [exact Hco|exact Hc|exact Hs|done..].
  - intros q s0 c0. destruct (decide (q = ptr)) as [->|]; [|rewrite !lookup_insert_ne by done; eauto].
    rewrite !lookup_insert_eq. intros [= <-] [= <-] Hst. unfold updated in Hst. simpl in Hst. by destruct (e =? 0).
  - intros q s0 c0. destruct (decide (q = ptr)) as [->|].
    + rewrite !lookup_insert_eq. intros [= <-] [= <-] _. simpl. split; [done|].
      exists pfd'. by rewrite list_lookup_insert_eq.
    + rewrite !lookup_insert_ne by done. intros Hs0 Hc0 Hr0. destruct (Hown _ _ _ Hs0 Hc0 Hr0) as (? & pfd0 & Hp0 & E0).
      split; [done|]. exists pfd0. rewrite list_lookup_insert_ne; [done|]. intros Eq.
      destruct (slot_owner _ _ _ _ _ Hinv Hp0) as (q' & s' & c' & ? & ? & ? & ? & ? & ?). 
      assert (decode (fd pfd0) = s_fd s0) by (apply (entry_decode s0); [apply (co_entry _ _ _ Hco _ _ Hs0)|done]).
      assert (decode (fd pfd) = s_fd s).
      { apply (entry_decode s); [apply (co_entry _ _ _ Hco _ _ Hs)|].
        destruct (Hown _ _ _ Hs Hc Hr) as (_ & pfd1 & Hp1 & ?). congruence. }
      rewrite Eq in Hp. rewrite Hp in Hp0. injection Hp0 as <-.
      destruct n. eapply (co_fd _ _ _ Hco); eauto. congruence.
  - intros i pfd0 Hi.
    assert (Hex : exists pfd1, pollfds_ p !! i = Some pfd1).
    { apply lookup_lt_is_Some_2. apply lookup_lt_Some in Hi. by rewrite length_insert in Hi. }
    destruct Hex as (pfd1 & Hi1). destruct (Hall _ _ Hi1) as (q & s0 & c0 & Hs0 & Hc0 & Hr0 & Hx).
    exists q. destruct (decide (q = ptr)) as [->|].
    + rewrite !lookup_insert_eq. eexists _, _. split; [done|]. split; [done|]. simplify_eq.
      split; [apply updated_registered|done].
    + rewrite !lookup_insert_ne by done. eauto 10.
Qed.

(** A fresh channel gets the slot at the end. *)
Lemma pinv_push S cs p ptr s c e :
  pinv S cs p -> S !! ptr = Some s -> cs !! ptr = Some c -> fd_free S (s_fd s) -> event_mask e -> e <> 0 ->
  pinv (<[ptr := updated s e]> S)
    (<[ptr := set_index (zlen (pollfds_ p)) (set_events e c)]> cs)
    (mkPoll (<[s_fd s := ptr]> (channels_ p)) (pollfds_ p ++ [mkPollfd (s_fd s) e 0])).
Proof.
  intros Hinv Hs Hc Hfree He Hne. destruct (Hinv) as [Hco Hfresh Hown Hall].
  assert (Hunreg : forall q s0, S !! q = Some s0 -> registered s0 -> q <> ptr).
  { intros q s0 Hq Hr ->. simplify_eq. by eapply Hfree. }
  assert (Hst : updated s e = mkSpec (s_fd s) e Watched)
    by (unfold updated; by rewrite (proj2 (Z.eqb_neq _ _) Hne)).
  split; simpl.
  - eapply common_register; [exact Hco|exact Hs|done|apply updated_ok; [by eapply co_entry|done]|
      apply updated_registered|by right|].
    eapply agrees_updated; [exact Hco|exact Hc|exact Hs|done..|]. intros q.
    rewrite <- (insert_insert_eq cs ptr (set_index (zlen (pollfds_ p)) (set_events e c)) (set_events e c)).
    apply same_insert_index, lookup_insert_eq.
  - intros q s0 c0. destruct (decide (q = ptr)) as [->|]; [|rewrite !lookup_insert_ne by done; eauto].
    rewrite !lookup_insert_eq, Hst. by intros [= <-].
  - intros q s0 c0. destruct (decide (q = ptr)) as [->|].
    + rewrite !lookup_insert_eq, Hst. intros [= <-] [= <-] _. simpl. split; [apply zlen_nonneg|].
      eexists. unfold zlen. rewrite Nat2Z.id, list_lookup_middle by done. split; [done|]. by split.
    + rewrite !lookup_insert_ne by done. intros Hs0 Hc0 Hr0. destruct (Hown _ _ _ Hs0 Hc0 Hr0) as (? & pfd0 & Hp0 & E0).
      split; [done|]. exists pfd0. split; [|done]. by apply lookup_app_l_Some.
  - intros i pfd0 [Hi|[Hle Hi]]%lookup_app_Some.
    + destruct (Hall _ _ Hi) as (q & s0 & c0 & Hs0 & Hc0 & Hr0 & Hx). exists q.
      rewrite !lookup_insert_ne by (intros <-; by eapply Hunreg). eauto 10.
    + apply list_lookup_singleton_Some in Hi as [Hi <-]. exists ptr. rewrite !lookup_insert_eq.
      eexists _, _. split; [done|]. split; [done|]. split; [apply updated_registered|]. simpl. unfold zlen. lia.
Qed.

Lemma pinv_update S cs p ptr s c e :
  pinv S cs p -> S !! ptr = Some s -> cs !! ptr = Some c -> can_update S s e ->
  exists cs' p', updateChannel ptr (<[ptr := set_events e c]> cs) p = Ok (cs', p') /\
    pinv (<[ptr := updated s e]> S) cs' p' /\
    forall q, option_Forall2 same_but_index (<[ptr := set_events e c]> cs !! q) (cs' !! q).
Proof.
  intros Hinv Hs Hc (Hm & Hst). destruct (common_spec _ _ _ _ _ (p_common _ _ _ Hinv) Hc) as (s0 & Hs0 & Hfd & _).
  rewrite Hs in Hs0. injection Hs0 as <-.
  unfold updateChannel, deref. rewrite lookup_insert_eq. cbn [get_or mbind outcome_bind set_events index_ fd_].
  destruct (decide (registered s)) as [Hr|Hnr].
  - destruct (own_slot _ _ _ _ _ Hinv Hs Hr) as (c' & pfd & Hc' & _ & _ & Hch & Hix & Hget & Hent & Hcond).
    rewrite Hc in Hc'. injection Hc' as <-.
    rewrite (proj2 (Z.ltb_ge _ _)) by lia. rewrite Hfd. destruct (maps_to_true _ _ _ Hch) as [-> ->].
    cbn [c_assert mbind outcome_bind]. rewrite Hcond, Hget. cbn [c_assert mbind outcome_bind get_or].
    assert (Hpf : (fd pfd =? s_fd s) || (fd pfd =? - s_fd s - 1) = true).
    { destruct Hent as [-> _]. case_decide; lia. }
    rewrite Hpf. cbn [c_assert mbind outcome_bind]. eexists _, _. split; [reflexivity|]. split; [|reflexivity].
    rewrite zset_nat by lia. apply pinv_rewrite; [done..|].
    unfold entry, updated, isNoneEvent, kNoneEvent; simpl. rewrite i16_mask by done.
    by destruct (e =? 0).
  - assert (Hf : s_status s = Fresh) by (unfold registered in Hnr; destruct (s_status s); naive_solver).
    rewrite Hf in Hst. destruct Hst as [He Hfree].
    rewrite (p_fresh _ _ _ Hinv _ _ _ Hs Hc Hf). simpl. rewrite Hfd.
    rewrite (mapped_false _ _ (common_free _ _ _ _ _ (p_common _ _ _ Hinv) Hs Hfree)). simpl.
    pose proof (slots_bound _ _ _ Hinv) as Hb. pose proof (zlen_nonneg (pollfds_ p)).
    rewrite i32_small by (rewrite zlen_app; change (zlen [_]) with 1; lia).
    rewrite zlen_app. change (zlen [_]) with 1. replace (zlen (pollfds_ p) + 1 - 1) with (zlen (pollfds_ p)) by lia.
    eexists _, _. split; [reflexivity|]. rewrite insert_insert_eq, i16_mask by done. split; [by apply pinv_push|].
    intros q. rewrite <- (insert_insert_eq cs ptr (set_index (zlen (pollfds_ p)) (set_events e c)) (set_events e c)).
    apply same_insert_index, lookup_insert_eq.
Qed.

(** The array after the slot [idx] is dropped: the last slot moves into it. *)
Definition drop_slot {A} (l : list A) (idx : nat) (back : A) : list A :=
  take (pred (length l)) (<[idx := back]> l).

Lemma drop_slot_lookup {A} (l : list A) idx back i x :
  (idx < length l)%nat -> drop_slot l idx back !! i = Some x <->
  (i < pred (length l))%nat /\ (if decide (i = idx) then x = back else l !! i = Some x).
Proof.
  intros Hidx. unfold drop_slot. rewrite lookup_take_Some. split.
  - intros [Hi Hlt]. split; [done|]. case_decide as E.
    + subst. rewrite list_lookup_insert_eq in Hi by done. congruence.
    + by rewrite list_lookup_insert_ne in Hi.
  - intros [Hlt Hi]. split; [|done]. case_decide as E.
    + subst. by rewrite list_lookup_insert_eq.
    + by rewrite list_lookup_insert_ne.
Qed.

(** [ptr] leaves slot [idx]; the owner [other] of the last slot takes it over. *)
Lemma pinv_drop S cs p ptr s c back other so co j :
  pinv S cs p -> S !! ptr = Some s -> cs !! ptr = Some c -> s_status s = Idle ->
  last (pollfds_ p) = Some back ->
  S !! other = Some so -> cs !! other = Some co -> registered so ->
  index_ co = zlen (pollfds_ p) - 1 -> j = index_ c ->
  pinv (<[ptr := mkSpec (s_fd s) 0 Removed]> S) (<[other := set_index j co]> cs)
    (mkPoll (delete (s_fd s) (channels_ p)) (drop_slot (pollfds_ p) (Z.to_nat (index_ c)) back)).
Proof.
  intros Hinv Hs Hc Hst Hlast Hso Hco Hro Hxo ->. destruct (Hinv) as [Hcom Hfresh Hown Hall].
  assert (Hr : registered s) by by right.
  destruct (Hown _ _ _ Hs Hc Hr) as (H0 & pfd & Hp & _). pose proof (lookup_lt_Some _ _ _ Hp) as Hlt.
  rewrite last_lookup in Hlast. unfold zlen in Hxo.
  assert (Hinj : forall q1 q2 s1 s2 c1 c2, S !! q1 = Some s1 -> S !! q2 = Some s2 -> cs !! q1 = Some c1 ->
    cs !! q2 = Some c2 -> registered s1 -> registered s2 -> index_ c1 = index_ c2 -> q1 = q2).
  { intros q1 q2 s1 s2 c1 c2 A1 A2 B1 B2 R1 R2 E.
    destruct (Hown _ _ _ A1 B1 R1) as (_ & f1 & F1 & E1). destruct (Hown _ _ _ A2 B2 R2) as (_ & f2 & F2 & E2).
    rewrite E in F1. rewrite F1 in F2. injection F2 as <-.
    apply entry_decode in E1; [|apply (co_entry _ _ _ Hcom _ _ A1)].
    apply entry_decode in E2; [|apply (co_entry _ _ _ Hcom _ _ A2)].
    eapply (co_fd _ _ _ Hcom); eauto; congruence. }
  split; simpl.
  - eapply common_unregister; [exact Hcom|exact Hs|done|].
    eapply (agrees_updated S cs _ _ ptr s _ c 0); [exact Hcom|exact Hc|exact Hs|done..|].
    intros q. rewrite (set_events_id c), (insert_id cs) by done || (destruct (common_spec _ _ _ _ _ Hcom Hc) as (s1 & ? & _ & ->);
      apply unwatched_events; [by eapply co_entry|]; by simplify_eq; congruence).
    by apply same_insert_index.
  - intros q s0 c0 [[<- <-]|[Hq Hs0]]%lookup_insert_Some Hc0 Hf; [done|].
    apply lookup_insert_Some in Hc0 as [[<- <-]|[? ?]]; [|by eauto].
    simplify_eq. destruct Hro; congruence.
  - intros q s0 c0 [[<- <-]|[Hq Hs0]]%lookup_insert_Some Hc0 Hr0; [by destruct Hr0|].
    assert (Hcq : exists c1, cs !! q = Some c1 /\ (q = other /\ c0 = set_index (index_ c) co \/ q <> other /\ c0 = c1)).
    { apply lookup_insert_Some in Hc0 as [[<- <-]|[? ?]]; eauto 10. }
    destruct Hcq as (c1 & Hc1 & [[-> ->]|[Hqo ->]]); simpl.
    + split; [done|]. simplify_eq. destruct (Hown _ _ _ Hso Hco Hro) as (_ & f & F & Ef).
      exists f. split; [|done]. apply drop_slot_lookup; [done|]. rewrite decide_True by done.
      assert (index_ c <> index_ co) by (intros E; apply Hq; eapply Hinj; eauto).
      replace (Z.to_nat (index_ co)) with (pred (length (pollfds_ p))) in F by lia. split; [lia|congruence].
    + destruct (Hown _ _ _ Hs0 Hc1 Hr0) as (Hn & f & F & Ef). split; [done|]. exists f. split; [|done].
      apply drop_slot_lookup; [done|]. pose proof (lookup_lt_Some _ _ _ F).
      assert (index_ c1 <> index_ c) by (intros E; apply Hq; symmetry; eapply Hinj; eauto).
      assert (index_ c1 <> index_ co) by (intros E; apply Hqo; eapply Hinj; eauto).
      rewrite decide_False by lia. split; [lia|done].
  - intros i f [Hi Hf]%drop_slot_lookup; [|done]. case_decide as Ei.
    + exists other, so. exists (set_index (index_ c) co).
      assert (other <> ptr) by (intros ->; simplify_eq; lia).
      rewrite lookup_insert_ne, lookup_insert_eq by done. simpl. repeat split; [done..|lia].
    + destruct (Hall _ _ Hf) as (q & s0 & c0 & Hs0 & Hc0 & Hr0 & Hx). exists q, s0, c0.
      rewrite !lookup_insert_ne; [done|..]; intros <-; simplify_eq; lia.
Qed.

Lemma pinv_remove S cs p ptr s :
  pinv S cs p -> S !! ptr = Some s -> s_status s = Idle ->
  exists cs' p', removeChannel ptr cs p = Ok (cs', p') /\
    pinv (<[ptr := mkSpec (s_fd s) 0 Removed]> S) cs' p' /\
    forall q, option_Forall2 same_but_index (cs !! q) (cs' !! q).
Proof.
  intros Hinv Hs Hst. assert (Hr : registered s) by by right.
  destruct (own_slot _ _ _ _ _ Hinv Hs Hr) as (c & pfd & Hc & Hfd & Hev & Hch & Hix & Hget & Hent & Hcond).
  assert (E0 : events_ c = 0)
    by (rewrite Hev; apply unwatched_events; [by eapply (co_entry _ _ _ (p_common _ _ _ Hinv))|congruence]).
  unfold removeChannel, deref. rewrite Hc. cbn [get_or mbind outcome_bind]. rewrite Hfd.
  destruct (maps_to_true _ _ _ Hch) as [-> ->]. unfold isNoneEvent. rewrite Hcond, Hget, E0.
  cbn [c_assert mbind outcome_bind get_or Z.eqb kNoneEvent].
  assert (Hpf : (fd pfd =? - s_fd s - 1) && (events pfd =? 0) = true).
  { destruct Hent as [-> ->]. rewrite decide_False by congruence. rewrite <- Hev. lia. }
  rewrite Hpf. cbn [c_assert mbind outcome_bind].
  rewrite zget_nat in Hget by lia.
  assert (Hlen : 0 < zlen (pollfds_ p)) by lia. unfold zlen in Hlen.
  destruct (last (pollfds_ p)) as [back|] eqn:Hlast; [|apply last_None in Hlast; rewrite Hlast in Hlen; simpl in Hlen; lia].
  pose proof Hlast as Hlk. rewrite last_lookup in Hlk.
  destruct (slot_owner _ _ _ _ _ Hinv Hlk) as (other & so & co & Hso & Hco & Hro & Hxo & Heo & Hdo).
  assert (Hxo' : index_ co = zlen (pollfds_ p) - 1) by (unfold zlen; lia).
  pose proof (pinv_drop _ _ _ _ _ _ _ _ _ _ _ Hinv Hs Hc Hst Hlast Hso Hco Hro Hxo' eq_refl) as Hdrop.
  destruct (Z.eqb_spec (index_ c) (zlen (pollfds_ p) - 1)) as [Elast|Elast].
  - assert (Hid : forall q, <[other := set_index (index_ c) co]> cs !! q = cs !! q).
    { intros q. destruct (decide (q = other)) as [->|]; [|by rewrite lookup_insert_ne].
      rewrite lookup_insert_eq, Hco. f_equal. rewrite Elast, <- Hxo'. by destruct co. }
    rewrite (map_eq _ _ Hid) in Hdrop. eexists cs, _. split; [reflexivity|]. split; [|reflexivity].
    replace (removelast (pollfds_ p)) with (drop_slot (pollfds_ p) (Z.to_nat (index_ c)) back); [done|].
    unfold drop_slot. rewrite removelast_firstn_len. rewrite list_insert_id; [done|].
    rewrite <- Hlk. f_equal. unfold zlen in Elast. lia.
  - cbn [get_or mbind outcome_bind]. fold (decode (fd back)). rewrite Hdo.
    assert (Hne : s_fd so <> s_fd s).
    { intros E. apply Elast. assert (other = ptr) as -> by (by eapply (co_fd _ _ _ (p_common _ _ _ Hinv))).
      by simplify_eq. }
    rewrite lookup_delete_ne by done.
    rewrite (common_lookup _ _ _ _ _ (p_common _ _ _ Hinv) Hso Hro). cbn [get_or mbind outcome_bind].
    rewrite Hco. cbn [get_or mbind outcome_bind]. eexists _, _. split; [reflexivity|].
    split; [|intros; by apply same_insert_index].
    replace (removelast _) with (drop_slot (pollfds_ p) (Z.to_nat (index_ c)) back); [done|].
    rewrite removelast_firstn_len, !zset_nat by (unfold zlen; lia). rewrite !length_insert. unfold drop_slot.
    rewrite (take_insert_ge (<[Z.to_nat (index_ c) := back]> (pollfds_ p))); [reflexivity|]. unfold zlen. lia.
Qed.

(** *** poll *)
Lemma report_eq k fd e : kernel_ok k -> poll_report k fd e = epoll_report k fd e.
Proof.
  intros Hk. unfold poll_report, epoll_report. destruct (ko_bits _ Hk fd) as [_ Hn].
  rewrite !Z.lor_assoc, Z.land_lor_distr_r, Hn, Z.lor_0_r. done.
Qed.

Lemma report_range k fd e : kernel_ok k -> 0 <= epoll_report k fd e < 2 ^ 14.
Proof.
  intros Hk. unfold epoll_report. destruct (ko_bits _ Hk fd) as [Hb _].
  rewrite <- (Z.mod_small (ready k fd) (2 ^ 14)) by done. rewrite <- Z.land_ones by lia.
  rewrite <- Z.land_assoc, (Z.land_comm (Z.ones 14)), Z.land_assoc, Z.land_ones by lia.
  apply Z.mod_pos_bound. lia.
Qed.

Lemma report_i16 k fd e : kernel_ok k -> i16 (poll_report k fd e) = epoll_report k fd e.
Proof.
  intros Hk. rewrite report_eq by done. pose proof (report_range k fd e Hk).
  apply wrapS_id; [lia|]. unfold in_s. lia.
Qed.

(** The slots with something to report, as (revents, channel). *)
Definition reported (channels : gmap Z Z) (l : list pollfd) : list (Z * Z) :=
  omap (fun pfd => if revents pfd =? 0 then None else (fun ch => (revents pfd, ch)) <$> channels !! fd pfd) l.

Lemma reported_cons channels pfd l :
  reported channels (pfd :: l) =
  match (if revents pfd =? 0 then None else (fun ch => (revents pfd, ch)) <$> channels !! fd pfd) with
  | Some x => x :: reported channels l
  | None => reported channels l
  end.
Proof. done. Qed.

Lemma count_ready_cons pfd l :
  count_ready (pfd :: l) = (if revents pfd =? 0 then 0 else 1) + count_ready l.
Proof.
  unfold count_ready. destruct (Z.eqb_spec (revents pfd) 0).
  - rewrite filter_cons_False by (intros ?; done). lia.
  - rewrite filter_cons_True by done. by rewrite zlen_cons.
Qed.

Lemma fill_reported channels l active cs :
  (forall pfd, pfd ∈ l -> 0 <= revents pfd) ->
  (forall pfd, pfd ∈ l -> revents pfd <> 0 ->
     exists ch c, channels !! fd pfd = Some ch /\ cs !! ch = Some c /\ fd_ c = fd pfd) ->
  fillActiveChannels (count_ready l) l channels active cs =
  Ok (active ++ map snd (reported channels l), mark (reported channels l) cs).
Proof.
  revert active cs; induction l as [|pfd l IH]; intros active cs Hnn Hex; cbn [fillActiveChannels].
  - simpl. by rewrite app_nil_r.
  - rewrite count_ready_cons, reported_cons. pose proof (zlen_nonneg (filter (fun pfd => revents pfd <> 0) l)) as Hc0.
    fold (count_ready l) in Hc0. pose proof (Hnn pfd ltac:(left)) as Hp.
    destruct (Z.eqb_spec (revents pfd) 0) as [E|E].
    + rewrite Z.add_0_l, E. change (0 <? 0) with false. cbn match. destruct (Z.ltb_spec 0 (count_ready l)) as [Hlt|Hge].
      * apply IH; intros; [apply Hnn; by right|apply Hex; [by right|done]].
      * assert (count_ready l = 0) as Hz by lia.
        rewrite <- (IH active cs); [|intros; apply Hnn; by right|intros; apply Hex; [by right|done]].
        rewrite Hz. by destruct l.
    + destruct (Hex pfd ltac:(left) E) as (ch & c & Hch & Hc & Hfd).
      rewrite (proj2 (Z.ltb_lt 0 (1 + _))) by lia. rewrite (proj2 (Z.ltb_lt 0 (revents pfd))) by lia.
      rewrite Hch. cbn [get_or mbind outcome_bind fmap option_fmap option_map]. unfold deref. rewrite Hc.
      cbn [get_or mbind outcome_bind]. rewrite (proj2 (Z.eqb_eq _ _) Hfd). cbn [c_assert mbind outcome_bind].
      replace (1 + count_ready l - 1) with (count_ready l) by lia. rewrite IH.
      * rewrite <- (assoc_L (++)). f_equal. f_equal.
        rewrite mark_cons. f_equal. apply map_eq. intros q. destruct (decide (q = ch)) as [->|].
        -- by rewrite lookup_insert_eq, lookup_alter_eq, Hc.
        -- by rewrite lookup_insert_ne, lookup_alter_ne.
      * intros; apply Hnn; by right.
      * intros pfd' Hin Hne. destruct (Hex pfd' ltac:(by right) Hne) as (ch' & c' & ? & Hc' & ?).
        destruct (decide (ch' = ch)) as [->|].
        -- exists ch. rewrite lookup_insert_eq. simplify_eq. eauto.
        -- exists ch', c'. by rewrite lookup_insert_ne.
Qed.

Lemma pinv_core S cs cs' p :
  pinv S cs p -> (forall ptr, option_Forall2 same_core (cs !! ptr) (cs' !! ptr)) -> pinv S cs' p.
Proof.
  intros [Hco Hfresh Hown Hall] Hc.
  assert (Hback : forall ptr c', cs' !! ptr = Some c' -> exists c, cs !! ptr = Some c /\ index_ c = index_ c').
  { intros ptr c' Hc'. specialize (Hc ptr). rewrite Hc' in Hc. inversion Hc as [c ? (_ & _ & ?)|]; subst. eauto. }
  split; [by eapply common_core|..].
  - intros ptr s c' Hs (c & Hcc & <-)%Hback ?. by eapply Hfresh.
  - intros ptr s c' Hs (c & Hcc & <-)%Hback ?. by eapply Hown.
  - intros i pfd Hi. destruct (Hall _ _ Hi) as (ptr & s & c & Hs & Hcc & Hr & Hx).
    specialize (Hc ptr). rewrite Hcc in Hc. inversion Hc as [? c' (_ & _ & E)|]; subst.
    exists ptr, s, c'. repeat split; [done..|congruence].
Qed.

(** The system call only fills in [revents]. *)
Lemma pinv_sys_poll S cs p k : pinv S cs p -> pinv S cs (mkPoll (channels_ p) (sys_poll k (pollfds_ p))).
Proof.
  intros [Hco Hfresh Hown Hall]. split; simpl; [done..| |].
  - intros ptr s c Hs Hc Hr. destruct (Hown _ _ _ Hs Hc Hr) as (? & pfd & Hp & He). split; [done|].
    eexists. unfold sys_poll. rewrite list_lookup_fmap, Hp. split; [done|exact He].
  - intros i pfd (pfd0 & -> & Hi)%list_lookup_fmap_Some. by apply (Hall _ pfd0).
Qed.

Lemma reported_elem S cs p k r ptr :
  pinv S cs p -> kernel_ok k ->
  (r, ptr) ∈ reported (channels_ p) (sys_poll k (pollfds_ p)) <->
  exists s, S !! ptr = Some s /\ is_ready k s /\ r = epoll_report k (s_fd s) (s_events s).
Proof.
  intros Hinv Hk. unfold reported, sys_poll. rewrite list_elem_of_omap. split.
  - intros (pfd' & (pfd & -> & Hin)%list_elem_of_fmap & He). simpl in He.
    apply list_elem_of_lookup_1 in Hin as (i & Hi).
    destruct (slot_owner _ _ _ _ _ Hinv Hi) as (q & s & c & Hs & Hc & Hr & Hx & Hent & Hd).
    pose proof (co_entry _ _ _ (p_common _ _ _ Hinv) _ _ Hs) as (Hfd & _).
    pose proof (entry_watched s pfd ltac:(lia) Hent) as Hw.
    destruct (Z.ltb_spec (fd pfd) 0) as [Hneg|Hpos]; [done|]. rewrite report_i16 in He by done.
    apply Hw in Hpos as Hws. destruct Hent as [Hf Hev]. rewrite decide_True in Hf by done.
    rewrite Hf, Hev in He. destruct (Z.eqb_spec (epoll_report k (s_fd s) (s_events s)) 0); [done|].
    rewrite (common_lookup _ _ _ _ _ (p_common _ _ _ Hinv) Hs Hr) in He. simpl in He. simplify_eq.
    exists s. repeat split; done.
  - intros (s & Hs & [Hw Hr] & ->). assert (Hreg : registered s) by by left.
    destruct (own_slot _ _ _ _ _ Hinv Hs Hreg) as (c & pfd & Hc & Hfd & Hev & Hch & Hix & Hget & [Hf He] & _).
    rewrite decide_True in Hf by done. rewrite zget_nat in Hget by lia.
    eexists. split; [apply list_elem_of_fmap; exists pfd; split; [reflexivity|by eapply list_elem_of_lookup_2]|].
    simpl. pose proof (co_entry _ _ _ (p_common _ _ _ Hinv) _ _ Hs) as (Hb & _).
    rewrite Hf, He, (proj2 (Z.ltb_ge _ _)), report_i16 by (done || lia).
    by rewrite (proj2 (Z.eqb_neq _ _) Hr), Hch.
Qed.

Lemma reported_nodup S cs p k :
  pinv S cs p -> kernel_ok k -> NoDup (map snd (reported (channels_ p) (sys_poll k (pollfds_ p)))).
Proof.
  intros Hinv Hk. pose proof (slots_nodup _ _ _ Hinv) as Hnd.
  assert (Hsub : forall l, l ⊆ pollfds_ p -> NoDup (map (fun pfd => decode (fd pfd)) l) ->
    NoDup (map snd (reported (channels_ p) (sys_poll k l)))); [|by apply Hsub].
  induction l as [|pfd l IH]; intros Hl Hn; [constructor|]. simpl in Hn. apply NoDup_cons in Hn as [Hout Hn].
  specialize (IH ltac:(set_solver) Hn). cbn [sys_poll map]. rewrite reported_cons. cbn [revents fd].
  fold (sys_poll k l). destruct (_ =? 0); [done|]. destruct (channels_ p !! fd pfd) as [ch|] eqn:Hch; [|done]. cbn [fmap option_fmap option_map map].
  apply NoDup_cons. split; [|done]. intros ([r q] & Hq & Hin)%list_elem_of_fmap. simpl in Hq; subst q.
  unfold reported, sys_poll in Hin. apply list_elem_of_omap in Hin as (pfd' & (pfd2 & -> & Hin2)%list_elem_of_fmap & He).
  cbn [revents fd] in He. destruct ((if fd pfd2 <? 0 then _ else _) =? 0); [done|]. destruct (channels_ p !! fd pfd2) as [ch2|] eqn:Hch2; [|done]. simpl in He.
  simplify_eq. apply (co_chan _ _ _ (p_common _ _ _ Hinv)) in Hch as (s1 & Hs1 & E1 & _).
  apply (co_chan _ _ _ (p_common _ _ _ Hinv)) in Hch2 as (s2 & Hs2 & E2 & _). simplify_eq.
  destruct Hout. apply list_elem_of_fmap. exists pfd2. split; [|done]. congruence.
Qed.

Lemma reported_length channels l : zlen (reported channels l) <= zlen l.
Proof.
  induction l as [|pfd l IH]; [done|]. rewrite reported_cons.
  case_match; rewrite ?zlen_cons; lia.
Qed.

Lemma reported_none k l channels :
  kernel_ok k -> count_ready (sys_poll k l) <= 0 -> reported channels (sys_poll k l) = [].
Proof.
  intros Hk. induction l as [|pfd l IH]; [done|]. cbn [sys_poll map]. rewrite count_ready_cons. intros Hc.
  pose proof (zlen_nonneg (filter (fun pfd => revents pfd <> 0) (sys_poll k l))) as Hc0.
  fold (sys_poll k l) in Hc |- *. fold (count_ready (sys_poll k l)) in Hc0.
  rewrite reported_cons. cbn [revents fd] in *. destruct (_ =? 0); [|lia]. apply IH. lia.
Qed.

Lemma pinv_poll S cs p k active :
  pinv S cs p -> kernel_ok k -> (exists ptr s, S !! ptr = Some s /\ registered s) ->
  exists new cs' p', poll (Some k) active cs p = Ok (active ++ new, cs', p') /\ pinv S cs' p' /\
    poll_result k S (zlen (pollfds_ p) + 1) new cs cs'.
Proof.
  intros Hinv Hk (ptr & s & Hs & Hr). unfold poll.
  set (evs := reported (channels_ p) (sys_poll k (pollfds_ p))).
  assert (Hres : poll_result k S (zlen (pollfds_ p) + 1) (map snd evs) cs (mark evs cs)).
  { pose proof (reported_nodup _ _ _ _ Hinv Hk) as Hnd. fold evs in Hnd. split; [done|..].
    - intros q ([r q'] & -> & Hin)%list_elem_of_fmap. apply (reported_elem S cs) in Hin as (s0 & ? & ? & _); eauto.
    - intros _ q s0 Hq Hrd. apply list_elem_of_fmap. exists (epoll_report k (s_fd s0) (s_events s0), q).
      split; [done|]. apply (reported_elem S cs); eauto.
    - intros q s0 c Hq Hc. case_decide as Hin.
      + apply list_elem_of_fmap in Hin as ([r q'] & Hq' & Hin). simpl in Hq'; subst q'.
        rewrite (mark_lookup_in _ _ _ _ Hnd Hin), Hc. simpl.
        apply (reported_elem S cs) in Hin as (s' & Hs' & _ & ->); [|done..]. by simplify_eq.
      + by rewrite mark_lookup_out, Hc. }
  assert (Hinv' : pinv S (mark evs cs) (mkPoll (channels_ p) (sys_poll k (pollfds_ p)))).
  { eapply pinv_core; [by apply pinv_sys_poll|]. intros; apply mark_core. }
  destruct (own_slot _ _ _ _ _ Hinv Hs Hr) as (c & pfd & _ & _ & _ & _ & Hix & _).
  assert (El : forall A (x y : A), (match pollfds_ p with [] => x | _ :: _ => y end) = y).
  { intros A x y. destruct (pollfds_ p); [change (zlen (@nil pollfd)) with 0 in Hix; lia|done]. }
  rewrite El. clear El. cbn zeta. cbn [PollPoller.pollfds_ PollPoller.channels_].
  destruct (Z.ltb_spec 0 (count_ready (sys_poll k (pollfds_ p)))) as [Hpos|Hz].
  - rewrite fill_reported.
    + eexists _, _, _. split; [reflexivity|]. done.
    + intros pf (pf0 & -> & _)%list_elem_of_fmap. simpl. case_match; [lia|]. rewrite report_i16 by done.
      apply report_range, Hk.
    + intros pf (pf0 & -> & Hin)%list_elem_of_fmap. simpl. case_match eqn:Hneg; [by intros []|]. intros _.
      apply list_elem_of_lookup_1 in Hin as (i & Hi).
      destruct (slot_owner _ _ _ _ _ Hinv Hi) as (q & s0 & c0 & Hs0 & Hc0 & Hr0 & Hx & Hent & Hd).
      unfold decode in Hd. rewrite Hneg in Hd. rewrite Hd. exists q, c0.
      split; [by eapply common_lookup; [apply (p_common _ _ _ Hinv)|..]|]. split; [done|].
      destruct (common_spec _ _ _ _ _ (p_common _ _ _ Hinv) Hc0) as (s1 & ? & ? & _). congruence.
  - assert (Hnil : evs = []) by (by apply reported_none). rewrite Hnil in Hres, Hinv'.
    eexists [], _, _. rewrite app_nil_r. split; [reflexivity|]. done.
Qed.

#[global] Instance PollPoller_Laws : PollerLaws PollPoller.
Proof.
  refine {| inv := pinv; batch := fun p => zlen (pollfds_ p) + 1 |}.
  - split; [|by intros ???..].
    split; [intros; rewrite !lookup_empty; constructor|done..|].
    intros ??; split; [done|]. by intros (? & ? & _).
  - intros S cs p []. done.
  - apply pinv_core.
  - intros S cs p ptr fd [Hco Hfresh Hown Hall] Hn Hfd. split; [by apply common_construct|..].
    + intros q s c. destruct (decide (q = ptr)) as [->|]; [rewrite !lookup_insert_eq; by intros _ [= <-]|].
      rewrite !lookup_insert_ne by done. apply Hfresh.
    + intros q s c. destruct (decide (q = ptr)) as [->|]; [rewrite !lookup_insert_eq; by intros [= <-] _ [?|?]|].
      rewrite !lookup_insert_ne by done. apply Hown.
    + intros i pfd Hi. destruct (Hall _ _ Hi) as (q & s & c & Hs & Hc & Hr & Hx). exists q, s, c.
      rewrite !lookup_insert_ne by congruence. done.
  - intros S cs p ptr s [Hco Hfresh Hown Hall] Hs Hr. split; [by eapply common_destroy|..].
    + intros q s' c [? ?]%lookup_delete_Some [? ?]%lookup_delete_Some. by eapply Hfresh.
    + intros q s' c [? ?]%lookup_delete_Some [? ?]%lookup_delete_Some. by eapply Hown.
    + intros i pfd Hi. destruct (Hall _ _ Hi) as (q & s' & c & Hs' & Hc & Hr' & Hx). exists q, s', c.
      rewrite !lookup_delete_ne by (by intros ->; simplify_eq). done.
  - intros S cs p ptr s c e Hinv Hs Hc Hcan. by apply pinv_update.
  - apply pinv_remove.
  - apply pinv_poll.
Defined.

(** A batch of PollPoller is never full: there are fewer ready channels than
    slots plus one. *)
Lemma poll_batch_room S cs p k new cs' :
  inv S cs p -> poll_result k S (batch p) new cs cs' -> zlen new < batch p.
Proof.
  intros Hinv Hres. simpl in *. pose proof (pr_nodup _ _ _ _ _ _ Hres) as Hnd.
  apply (NoDup_fmap_2_strong (fun ptr => from_option s_fd 0 (S !! ptr))) in Hnd.
  - apply (NoDup_submseteq _ (map (fun pfd => decode (fd pfd)) (pollfds_ p))) in Hnd.
    + apply submseteq_length in Hnd. rewrite length_fmap, length_map in Hnd. unfold zlen. lia.
    + intros x (ptr & -> & Hin)%list_elem_of_fmap.
      destruct (pr_sound _ _ _ _ _ _ Hres _ Hin) as (s & Hs & Hw & _). rewrite Hs. simpl.
      destruct (own_slot _ _ _ _ _ Hinv Hs ltac:(by left)) as (c & pfd & _ & _ & _ & _ & Hix & Hget & Hent & _).
      apply list_elem_of_fmap. exists pfd. split.
      * symmetry. apply entry_decode; [|done]. apply (co_entry _ _ _ (p_common _ _ _ Hinv) _ _ Hs).
      * rewrite zget_nat in Hget by lia. by eapply list_elem_of_lookup_2.
  - intros p1 p2 H1 H2 E. destruct (pr_sound _ _ _ _ _ _ Hres _ H1) as (s1 & Hs1 & Hw1 & _).
    destruct (pr_sound _ _ _ _ _ _ Hres _ H2) as (s2 & Hs2 & Hw2 & _). rewrite Hs1, Hs2 in E. simpl in E.
    eapply (co_fd _ _ _ (p_common _ _ _ Hinv)); [exact Hs1|exact Hs2|by left|by left|done].
Qed.

(** With PollPoller, a channel whose first update carries no events
    (disableAll on a channel that was never enabled) cannot be removed: the slot
    it got is not an ignored one and the assertion of removeChannel fails. *)
Theorem poll_remove_never_enabled (cs : Channels) (p : PollPoller) (ptr : Z) (c : Channel)
  (Hc : cs !! ptr = Some c) (Hnew : index_ c = -1) (Hnone : isNoneEvent c = true) (Hfd : 0 <= fd_ c)
  (Hfree : channels_ p !! fd_ c = None) (Hroom : zlen (pollfds_ p) <= fd_limit) :
  exists cs' p', updateChannel ptr cs p = Ok (cs', p') /\ removeChannel ptr cs' p' = Fault AssertFailed.
Proof.
  unfold updateChannel, deref. rewrite Hc. cbn [get_or mbind outcome_bind]. rewrite Hnew. simpl.
  rewrite mapped_false by done. simpl. pose proof (zlen_nonneg (pollfds_ p)).
  rewrite zlen_app. change (zlen [_]) with 1. rewrite i32_small by lia.
  replace (zlen (pollfds_ p) + 1 - 1) with (zlen (pollfds_ p)) by lia.
  eexists _, _. split; [reflexivity|].
  unfold removeChannel, deref. rewrite lookup_insert_eq. cbn [get_or mbind outcome_bind PollPoller.channels_ PollPoller.pollfds_].
  set (c1 := set_index (zlen (pollfds_ p)) c). change (fd_ c1) with (fd_ c). change (isNoneEvent c1) with (isNoneEvent c).
  change (index_ c1) with (zlen (pollfds_ p)).
  destruct (maps_to_true (<[fd_ c := ptr]> (channels_ p)) (fd_ c) ptr (lookup_insert_eq _ _ _)) as [-> ->].
  rewrite Hnone.
  cbn [c_assert mbind outcome_bind]. rewrite zlen_app. change (zlen [_]) with 1. rewrite i32_small by lia.
  rewrite (proj2 (Z.leb_le _ _)), (proj2 (Z.ltb_lt _ _)) by lia. cbn [andb c_assert mbind outcome_bind].
  rewrite zget_app_first. cbn [get_or mbind outcome_bind fd]. by rewrite (proj2 (Z.eqb_neq (fd_ c) (- fd_ c - 1))) by lia.
Qed.

Lemma poll_remove_never_enabled_witness :
  exists cs' p', updateChannel 1000 {[1000 := newChannel 7]} newPollPoller = Ok (cs', p') /\
    removeChannel 1000 cs' p' = Fault AssertFailed.
Proof.
  apply (poll_remove_never_enabled {[1000 := newChannel 7]} newPollPoller 1000 (newChannel 7)); try reflexivity.
  - simpl; lia.
  - change (zlen (pollfds_ newPollPoller)) with 0. unfold fd_limit. lia.
Defined.

End PollLaws.
