(* ===== verification/EventLoop.v ===== *)
(** * EventLoop: net/EventLoop.h, net/EventLoop.cc, and the loop side of net/Channel.cc

    [Module Loop] is the loop thread: the poller (any instance of [Poller]), the
    heap of channels, the channels of the current batch; the operations of
    [Channel] that go through the loop; one turn of [loop].  Against the life
    cycle of channels no operation fails with either poller, and both pollers
    report the same ready channels.

    [Module Functors] is the part shared between threads: the queue of pending
    functors, the wakeup eventfd and the quit flag, as a step function on the
    atomic actions of the loop thread and of any number of other threads.
    Functors run in the order they were queued, each once; a loop blocked in poll
    has nothing left to do unless a caller is still about to wake it; quit stops
    a running loop. *)

From S2P Require Import Prelude Channel Poller.

(** ** The loop thread *)
Module Loop.
Section loop.
Context {P : Type} `{PL : PollerLaws P}.

Record EventLoop := mkLoop {
  poller_ : P;
  heap : Channels;                      (* the live Channel objects *)
  eventHandling_ : bool;
  activeChannels_ : list Z;
  currentActiveChannel_ : option Z;
  iteration_ : Z;
  pollReturnTime_ : Z;
}.

Definition newEventLoop : EventLoop := mkLoop newPoller ∅ false [] None 0 0.

Definition with_heap (cs : Channels) (l : EventLoop) : EventLoop :=
  mkLoop (poller_ l) cs (eventHandling_ l) (activeChannels_ l) (currentActiveChannel_ l) (iteration_ l)
    (pollReturnTime_ l).
Definition with_poller (r : Channels * P) (l : EventLoop) : EventLoop :=
  mkLoop (snd r) (fst r) (eventHandling_ l) (activeChannels_ l) (currentActiveChannel_ l) (iteration_ l)
    (pollReturnTime_ l).
Definition with_current (h : bool) (c : option Z) (l : EventLoop) : EventLoop :=
  mkLoop (poller_ l) (heap l) h (activeChannels_ l) c (iteration_ l) (pollReturnTime_ l).

(** *** EventLoop's channel operations *)
Definition updateChannel (channel : Z) (l : EventLoop) : outcome EventLoop :=
  r ← Poller.updateChannel channel (heap l) (poller_ l);
  Ok (with_poller r l).

Definition removeChannel (channel : Z) (l : EventLoop) : outcome EventLoop :=
  (if eventHandling_ l then
     c_assert (bool_decide (currentActiveChannel_ l = Some channel) ||
               bool_decide (channel ∉ activeChannels_ l))
   else Ok tt);;
  r ← Poller.removeChannel channel (heap l) (poller_ l);
  Ok (with_poller r l).

Definition hasChannel (channel : Z) (l : EventLoop) : outcome bool :=
  Poller.hasChannel channel (heap l) (poller_ l).

(** *** Channel's operations *)
Definition update (channel : Z) (l : EventLoop) : outcome EventLoop :=
  c ← deref (heap l) channel;
  updateChannel channel (with_heap (<[channel := set_addedToLoop true c]> (heap l)) l).

Definition change_events (f : Z -> Z) (channel : Z) (l : EventLoop) : outcome EventLoop :=
  c ← deref (heap l) channel;
  update channel (with_heap (<[channel := set_events (f (events_ c)) c]> (heap l)) l).

Definition enableReading := change_events read_enabled.
Definition disableReading := change_events read_disabled.
Definition enableWriting := change_events write_enabled.
Definition disableWriting := change_events write_disabled.
Definition disableAll := change_events (fun _ => kNoneEvent).

Definition remove (channel : Z) (l : EventLoop) : outcome EventLoop :=
  c ← deref (heap l) channel;
  c_assert (isNoneEvent c);;
  removeChannel channel (with_heap (<[channel := set_addedToLoop false c]> (heap l)) l).

Definition construct (channel fd : Z) (l : EventLoop) : outcome EventLoop :=
  match heap l !! channel with
  | Some _ => Fault BadAlloc
  | None => Ok (with_heap (<[channel := newChannel fd]> (heap l)) l)
  end.

Definition destroy (channel : Z) (l : EventLoop) : outcome EventLoop :=
  c ← deref (heap l) channel;
  c_assert (negb (Channel.eventHandling_ c));;
  c_assert (negb (addedToLoop_ c));;
  h ← hasChannel channel l;
  c_assert (negb h);;
  Ok (with_heap (delete channel (heap l)) l).

(** *** One turn of loop() *)
Definition poll_turn (k : option Kernel) (now : Z) (l : EventLoop) : outcome EventLoop :=
  '(active, cs, p) ← Poller.poll k [] (heap l) (poller_ l);
  Ok (mkLoop p cs (eventHandling_ l) active (currentActiveChannel_ l) (iteration_ l + 1) now).

Definition set_channel (channel : Z) (c : Channel) (l : EventLoop) : EventLoop :=
  with_heap (<[channel := c]> (heap l)) l.

(** The loop over the active channels; [cbs] are the channels' callbacks. *)
Definition handle_one (locked : Z -> bool) (cbs : Z -> Callbacks EventLoop) (l : EventLoop) (channel : Z)
  : outcome EventLoop :=
  let l := with_current true (Some channel) l in
  handleEvent (fun l => heap l !! channel) (set_channel channel) locked (cbs channel) (pollReturnTime_ l) l.

Definition turn (k : option Kernel) (now : Z) (locked : Z -> bool) (cbs : Z -> Callbacks EventLoop)
  (doPendingFunctors : EventLoop -> outcome EventLoop) (l : EventLoop) : outcome EventLoop :=
  l ← poll_turn k now l;
  l ← foldM (handle_one locked cbs) (with_current true (currentActiveChannel_ l) l) (activeChannels_ l);
  doPendingFunctors (with_current false None l).

(** *** Programs over channels, and what the life cycle allows *)
Inductive chan_op :=
| Construct (channel fd : Z)
| EnableReading (channel : Z)
| DisableReading (channel : Z)
| EnableWriting (channel : Z)
| DisableWriting (channel : Z)
| DisableAll (channel : Z)
| Remove (channel : Z)
| Destroy (channel : Z)
| Poll (k : Kernel) (now : Z).

Definition perform (l : EventLoop) (op : chan_op) : outcome EventLoop :=
  match op with
  | Construct ch fd => construct ch fd l
  | EnableReading ch => enableReading ch l
  | DisableReading ch => disableReading ch l
  | EnableWriting ch => enableWriting ch l
  | DisableWriting ch => disableWriting ch l
  | DisableAll ch => disableAll ch l
  | Remove ch => remove ch l
  | Destroy ch => destroy ch l
  | Poll k now => poll_turn (Some k) now l
  end.

End loop.
Arguments EventLoop : clear implicits.

(** The mask an operation asks for. *)
Definition wanted (op : chan_op) (e : Z) : option (Z * Z) :=
  match op with
  | EnableReading ch => Some (ch, read_enabled e)
  | DisableReading ch => Some (ch, read_disabled e)
  | EnableWriting ch => Some (ch, write_enabled e)
  | DisableWriting ch => Some (ch, write_disabled e)
  | DisableAll ch => Some (ch, kNoneEvent)
  | _ => None
  end.

Inductive allowed : Spec -> chan_op -> Spec -> Prop :=
| allow_construct S ch fd : S !! ch = None -> 0 <= fd < fd_limit ->
    allowed S (Construct ch fd) (<[ch := mkSpec fd 0 Fresh]> S)
| allow_update S op ch s e : wanted op (s_events s) = Some (ch, e) -> S !! ch = Some s -> can_update S s e ->
    allowed S op (<[ch := updated s e]> S)
| allow_remove S ch s : S !! ch = Some s -> s_status s = Idle ->
    allowed S (Remove ch) (<[ch := mkSpec (s_fd s) 0 Removed]> S)
| allow_destroy S ch s : S !! ch = Some s -> ~ registered s -> allowed S (Destroy ch) (delete ch S)
| allow_poll S k now : kernel_ok k -> (exists ch s, S !! ch = Some s /\ registered s) ->
    allowed S (Poll k now) S.

Inductive allowed_trace : Spec -> list chan_op -> Spec -> Prop :=
| trace_nil S : allowed_trace S [] S
| trace_cons S S1 S2 op ops : allowed S op S1 -> allowed_trace S1 ops S2 -> allowed_trace S (op :: ops) S2.

Section laws.
Context {P : Type} `{PL : PollerLaws P}.

(** Outside event handling: the poller's invariant, and the flag of the channels
    that are registered with the loop. *)
Record linv (S : Spec) (l : EventLoop P) : Prop := {
  l_inv : inv S (heap l) (poller_ l);
  l_added : forall ch s c, S !! ch = Some s -> heap l !! ch = Some c ->
    (addedToLoop_ c = true -> registered s) /\ Channel.eventHandling_ c = false;
  l_idle : eventHandling_ l = false;
}.

Lemma same_flags c1 c2 :
  same_but_index c1 c2 ->
  addedToLoop_ c1 = addedToLoop_ c2 /\ Channel.eventHandling_ c1 = Channel.eventHandling_ c2.
Proof. destruct c1, c2; unfold same_but_index, set_index; simpl. intros [=]; by subst. Qed.

Lemma edit_core (cs : Channels) ch c c' q :
  cs !! ch = Some c -> same_core c c' -> option_Forall2 same_core (cs !! q) (<[ch := c']> cs !! q).
Proof.
  intros Hc Hs. destruct (decide (q = ch)) as [->|]; [rewrite lookup_insert_eq, Hc; by constructor|].
  rewrite lookup_insert_ne by done. destruct (cs !! q); constructor. done.
Qed.

(** What the pollers leave alone in the other channels. *)
Lemma added_transfer (S S' : Spec) (cs cs1 cs' : Channels) ch s' :
  (forall q s c, S !! q = Some s -> cs !! q = Some c ->
     (addedToLoop_ c = true -> registered s) /\ Channel.eventHandling_ c = false) ->
  (forall q, option_Forall2 same_but_index (cs1 !! q) (cs' !! q)) ->
  (forall q, q <> ch -> S' !! q = S !! q /\ cs1 !! q = cs !! q) ->
  S' !! ch = Some s' ->
  (forall c, cs1 !! ch = Some c -> (addedToLoop_ c = true -> registered s') /\ Channel.eventHandling_ c = false) ->
  forall q s c, S' !! q = Some s -> cs' !! q = Some c ->
    (addedToLoop_ c = true -> registered s) /\ Channel.eventHandling_ c = false.
Proof.
  intros Hadd Hsame Hout Hch Hc1 q s c Hs Hc. specialize (Hsame q). rewrite Hc in Hsame.
  inversion Hsame as [c1 ? Hsb Heq|]; subst. symmetry in Heq.
  destruct (same_flags _ _ Hsb) as [<- <-]. destruct (decide (q = ch)) as [->|Hne].
  - rewrite Hch in Hs. injection Hs as <-. by apply Hc1.
  - destruct (Hout q Hne) as [E1 E2]. eapply Hadd; [by rewrite <- E1|by rewrite <- E2].
Qed.

Lemma linv_update S l ch s e (f : Z -> Z) :
  linv S l -> S !! ch = Some s -> f (s_events s) = e -> can_update S s e ->
  exists l', change_events f ch l = Ok l' /\ linv (<[ch := updated s e]> S) l'.
Proof.
  intros [Hinv Hadd Hidle] Hs <- Hcan.
  destruct (common_chan _ _ _ _ _ (inv_common _ _ _ Hinv) Hs) as (c & Hc & Hfd & Hev).
  set (c1 := set_addedToLoop true c).
  assert (Hinv1 : inv S (<[ch := c1]> (heap l)) (poller_ l))
    by (eapply inv_core; [exact Hinv|intros; by eapply edit_core]).
  destruct (update_law S _ _ ch s c1 (f (s_events s)) Hinv1 Hs (lookup_insert_eq _ _ _) Hcan)
    as (cs' & p' & Hup & Hinv2 & Hsame).
  rewrite insert_insert_eq in Hup, Hsame.
  exists (with_poller (cs', p') l). split.
  - unfold change_events, update, deref. rewrite Hc. cbn [get_or mbind outcome_bind with_heap heap].
    rewrite lookup_insert_eq. cbn [get_or mbind outcome_bind]. unfold updateChannel.
    cbn [with_heap heap poller_]. rewrite Hev, insert_insert_eq.
    change (set_addedToLoop true (set_events (f (s_events s)) c)) with (set_events (f (s_events s)) c1).
    by rewrite Hup.
  - split; [exact Hinv2| |exact Hidle].
    eapply (added_transfer S _ (heap l) _ cs' ch); [exact Hadd|exact Hsame| |apply lookup_insert_eq|].
    + intros q Hq. by rewrite !lookup_insert_ne.
    + intros c2. rewrite lookup_insert_eq. intros [= <-]. split; [intros; apply updated_registered|].
      by destruct (Hadd _ _ _ Hs Hc).
Qed.

Lemma linv_remove S l ch s :
  linv S l -> S !! ch = Some s -> s_status s = Idle ->
  exists l', remove ch l = Ok l' /\ linv (<[ch := mkSpec (s_fd s) 0 Removed]> S) l'.
Proof.
  intros [Hinv Hadd Hidle] Hs Hst.
  destruct (common_chan _ _ _ _ _ (inv_common _ _ _ Hinv) Hs) as (c & Hc & Hfd & Hev).
  set (c1 := set_addedToLoop false c).
  assert (Hinv1 : inv S (<[ch := c1]> (heap l)) (poller_ l))
    by (eapply inv_core; [exact Hinv|intros; by eapply edit_core]).
  destruct (remove_law S _ _ ch s Hinv1 Hs Hst) as (cs' & p' & Hrm & Hinv2 & Hsame).
  assert (E0 : isNoneEvent c = true).
  { unfold isNoneEvent. rewrite Hev, unwatched_events; [done|by eapply (co_entry _ _ _ (inv_common _ _ _ Hinv))|congruence]. }
  exists (with_poller (cs', p') l). split.
  - unfold remove, deref. rewrite Hc. cbn [get_or mbind outcome_bind]. rewrite E0. cbn [c_assert mbind outcome_bind].
    unfold removeChannel. cbn [with_heap heap poller_ eventHandling_]. rewrite Hidle. cbn [mbind outcome_bind].
    fold c1. by rewrite Hrm.
  - split; [exact Hinv2| |exact Hidle].
    eapply (added_transfer S _ (heap l) _ cs' ch); [exact Hadd|exact Hsame| |apply lookup_insert_eq|].
    + intros q Hq. by rewrite !lookup_insert_ne.
    + intros c2. rewrite lookup_insert_eq. intros [= <-]. split; [done|]. by destruct (Hadd _ _ _ Hs Hc).
Qed.

Lemma linv_construct S l ch fd :
  linv S l -> S !! ch = None -> 0 <= fd < fd_limit ->
  exists l', construct ch fd l = Ok l' /\ linv (<[ch := mkSpec fd 0 Fresh]> S) l'.
Proof.
  intros [Hinv Hadd Hidle] Hs Hfd. pose proof (co_heap _ _ _ (inv_common _ _ _ Hinv) ch) as Hh.
  rewrite Hs in Hh. unfold construct. destruct (heap l !! ch); [by inversion Hh|].
  eexists. split; [done|]. split; simpl; [by apply inv_construct| |done].
  intros q s c. destruct (decide (q = ch)) as [->|]; [rewrite !lookup_insert_eq; by intros [= <-] [= <-]|].
  rewrite !lookup_insert_ne by done. apply Hadd.
Qed.

Lemma linv_destroy S l ch s :
  linv S l -> S !! ch = Some s -> ~ registered s ->
  exists l', destroy ch l = Ok l' /\ linv (delete ch S) l'.
Proof.
  intros [Hinv Hadd Hidle] Hs Hr. pose proof (inv_common _ _ _ Hinv) as Hco.
  destruct (common_chan _ _ _ _ _ Hco Hs) as (c & Hc & Hfd & Hev).
  destruct (Hadd _ _ _ Hs Hc) as [Ha He].
  unfold destroy, deref. rewrite Hc. cbn [get_or mbind outcome_bind]. rewrite He. simpl.
  destruct (addedToLoop_ c); [by destruct Hr; apply Ha|]. simpl.
  unfold hasChannel, Poller.hasChannel, deref. rewrite Hc. simpl.
  assert (Hm : maps_to (channels_of (poller_ l)) (fd_ c) ch = false).
  { apply bool_decide_eq_false. intros E. apply (co_chan _ _ _ Hco) in E as (s' & ? & _ & ?). by simplify_eq. }
  rewrite Hm. simpl. eexists. split; [done|]. split; simpl; [by eapply inv_destroy| |done].
  intros q s' c' [? ?]%lookup_delete_Some [? ?]%lookup_delete_Some. by eapply Hadd.
Qed.

Lemma linv_poll S l k now :
  linv S l -> kernel_ok k -> (exists ch s, S !! ch = Some s /\ registered s) ->
  exists l', poll_turn (Some k) now l = Ok l' /\ linv S l' /\
    poll_result k S (batch (poller_ l)) (activeChannels_ l') (heap l) (heap l').
Proof.
  intros [Hinv Hadd Hidle] Hk Hex.
  destruct (poll_law S (heap l) (poller_ l) k [] Hinv Hk Hex) as (new & cs' & p' & Hp & Hinv' & Hres).
  unfold poll_turn. rewrite Hp. simpl. eexists. split; [done|]. split; [|done].
  split; simpl; [done| |done]. intros q s c' Hs Hc'.
  destruct (common_chan _ _ _ _ _ (inv_common _ _ _ Hinv) Hs) as (c & Hc & _).
  pose proof (pr_revents _ _ _ _ _ _ Hres q s c Hs Hc) as E. rewrite Hc' in E. injection E as ->.
  destruct (Hadd _ _ _ Hs Hc). by case_decide.
Qed.

Lemma linv_perform S l op S' :
  linv S l -> allowed S op S' -> exists l', perform l op = Ok l' /\ linv S' l'.
Proof.
  intros Hl Hal. inversion Hal as [? ch fd Hn Hfd|? op' ch s e Hw Hs Hcan|? ch s Hs Hst|? ch s Hs Hr|? k now Hk Hex]; subst.
  - by apply linv_construct.
  - destruct op as [ ? ? | ch' | ch' | ch' | ch' | ch' | | | ]; simpl in Hw; try discriminate Hw;
      injection Hw as -> <-; simpl.
    all: unfold enableReading, disableReading, enableWriting, disableWriting, disableAll.
    all: by eapply linv_update.
  - by apply linv_remove.
  - by eapply linv_destroy.
  - destruct (linv_poll S' l k now Hl Hk Hex) as (l' & ? & ? & _). eauto.
Qed.

Lemma linv_init : linv ∅ (newEventLoop (P := P)).
Proof. split; [apply inv_init|done..]. Qed.

Lemma linv_run S l ops S' :
  linv S l -> allowed_trace S ops S' -> exists l', foldM perform l ops = Ok l' /\ linv S' l'.
Proof.
  intros Hl Htr. revert l Hl. induction Htr as [|S S1 S2 op ops Hal Htr IH]; intros l Hl; [by exists l|].
  destruct (linv_perform _ _ _ _ Hl Hal) as (l1 & Hp & Hl1). destruct (IH l1 Hl1) as (l' & Hr & Hl').
  exists l'. simpl. by rewrite Hp.
Qed.

(** C9: Whatever the poller, a program over channels that follows their life
    cycle runs without a failed assertion or a refused epoll_ctl and keeps the
    invariant of loop and poller ([linv]: the poller's tables are those of the
    channels' life cycle, flags included), as does the next poll, which reports
    only watched channels that are ready, each once, with the bits the kernel
    found, and all of them if they are fewer than the batch. *)
Theorem channels_never_fail ops S k now
  (Htrace : allowed_trace ∅ ops S) (Hk : kernel_ok k)
  (Hreg : exists ch s, S !! ch = Some s /\ registered s) :
  exists l l', foldM perform (newEventLoop (P := P)) ops = Ok l /\ linv S l /\
    poll_turn (Some k) now l = Ok l' /\ linv S l' /\
    poll_result k S (batch (poller_ l)) (activeChannels_ l') (heap l) (heap l').
Proof.
  destruct (linv_run ∅ newEventLoop ops S linv_init Htrace) as (l & Hrun & Hl).
  destruct (linv_poll S l k now Hl Hk Hreg) as (l' & Hp & Hl' & Hres). by exists l, l'.
Qed.

End laws.

(** A channel is watched, a second one is watched and goes idle, the first one
    has data. *)
Definition sample_kernel : Kernel := mkKernel (fun fd => if fd =? 5 then POLLIN else 0) [5].
Definition sample_ops : list chan_op :=
  [Construct 1000 5; EnableReading 1000; Construct 2000 6; EnableWriting 2000; DisableAll 2000].
Definition sample_spec : Spec := {[1000 := mkSpec 5 3 Watched; 2000 := mkSpec 6 0 Idle]}.

Lemma sample_kernel_ok : kernel_ok sample_kernel.
Proof.
  split; simpl.
  - apply NoDup_singleton.
  - intros fd. destruct (Z.eqb_spec fd 5); [intros _; subst; left|done]. 
  - intros fd. destruct (fd =? 5); by vm_compute.
Qed.

Lemma sample_trace : allowed_trace ∅ sample_ops sample_spec.
Proof.
  eapply trace_cons; [apply allow_construct; [done|unfold fd_limit; lia]|].
  eapply trace_cons; [eapply (allow_update _ _ 1000); [reflexivity|reflexivity|]|].
  { split; [vm_compute; tauto|]. split; [done|]. intros ptr s H Hr.
    apply lookup_insert_Some in H as [[<- <-]|[_ H]]; [by destruct Hr|by rewrite lookup_empty in H]. }
  eapply trace_cons; [apply allow_construct; [done|unfold fd_limit; lia]|].
  eapply trace_cons; [eapply (allow_update _ _ 2000); [reflexivity|reflexivity|]|].
  { split; [vm_compute; tauto|]. split; [done|]. intros ptr s H Hr.
    apply lookup_insert_Some in H as [[<- <-]|[_ H]]; [by destruct Hr|].
    apply lookup_insert_Some in H as [[<- <-]|[_ H]]; [done|].
    apply lookup_insert_Some in H as [[<- <-]|[_ H]]; [by destruct Hr|by rewrite lookup_empty in H]. }
  eapply trace_cons; [eapply (allow_update _ _ 2000); [reflexivity|reflexivity|]|].
  { split; [vm_compute; tauto|done]. }
  replace sample_spec with
    (<[2000 := updated (mkSpec 6 4 Watched) kNoneEvent]>
      (<[2000 := updated (mkSpec 6 0 Fresh) (write_enabled 0)]>
        (<[2000 := mkSpec 6 0 Fresh]>
          (<[1000 := updated (mkSpec 5 0 Fresh) (read_enabled 0)]> (<[1000 := mkSpec 5 0 Fresh]> (∅ : Spec)))))).
  - apply trace_nil.
  - by vm_compute.
Qed.

Lemma sample_registered : exists ch s, sample_spec !! ch = Some s /\ registered s.
Proof. exists 1000. eexists. split; [reflexivity|by left]. Qed.

Lemma channels_never_fail_witness :
  (exists l l', foldM perform (newEventLoop (P := EPollPoller.EPollPoller)) sample_ops = Ok l /\
     poll_turn (Some sample_kernel) 0 l = Ok l' /\ 1000 ∈ activeChannels_ l') /\
  (exists l l', foldM perform (newEventLoop (P := PollPoller.PollPoller)) sample_ops = Ok l /\
     poll_turn (Some sample_kernel) 0 l = Ok l' /\ 1000 ∈ activeChannels_ l').
Proof.
  split.
  - destruct (channels_never_fail (P := EPollPoller.EPollPoller) sample_ops sample_spec sample_kernel 0
      sample_trace sample_kernel_ok sample_registered) as (l & l' & Hr & _ & Hp & _).
    exists l, l'. split; [done|]. split; [done|].
    vm_compute in Hr. injection Hr as <-. vm_compute in Hp. injection Hp as <-. simpl. left.
  - destruct (channels_never_fail (P := PollPoller.PollPoller) sample_ops sample_spec sample_kernel 0
      sample_trace sample_kernel_ok sample_registered) as (l & l' & Hr & _ & Hp & _).
    exists l, l'. split; [done|]. split; [done|].
    vm_compute in Hr. injection Hr as <-. vm_compute in Hp. injection Hp as <-. simpl. left.
Defined.

Import EPollPoller PollPoller.

(** C10: After the same program that follows the life cycle of channels, on a kernel
    whose registered descriptors stay open, the two pollers report the same ready
    channels with the same received events, if epoll reports fewer than a batch. *)
Theorem pollers_agree ops S k now
  (Htrace : allowed_trace ∅ ops S) (Hk : kernel_ok k)
  (Hreg : exists ch s, S !! ch = Some s /\ registered s) :
  exists (le le' : EventLoop EPollPoller) (lp lp' : EventLoop PollPoller),
    foldM perform newEventLoop ops = Ok le /\ poll_turn (Some k) now le = Ok le' /\
    foldM perform newEventLoop ops = Ok lp /\ poll_turn (Some k) now lp = Ok lp' /\
    (zlen (activeChannels_ le') < zlen (EPollPoller.events_ (poller_ le)) ->
     activeChannels_ le' ≡ₚ activeChannels_ lp' /\
     forall ch, ch ∈ activeChannels_ le' ->
       exists r, revents_ <$> heap le' !! ch = Some r /\ revents_ <$> heap lp' !! ch = Some r).
Proof.
  destruct (linv_run (P := EPollPoller) ∅ newEventLoop ops S linv_init Htrace) as (le & Hre & Hle).
  destruct (linv_run (P := PollPoller) ∅ newEventLoop ops S linv_init Htrace) as (lp & Hrp & Hlp).
  destruct (linv_poll S le k now Hle Hk Hreg) as (le' & Hpe & _ & Rese).
  destruct (linv_poll S lp k now Hlp Hk Hreg) as (lp' & Hpp & Hlp' & Resp).
  exists le, le', lp, lp'. repeat (split; [done|]). intros Hfull.
  assert (Hbp : zlen (activeChannels_ lp') < batch (poller_ lp)) by (eapply PollLaws.poll_batch_room; [apply Hlp|done]).
  assert (Hiff : forall ch, ch ∈ activeChannels_ le' <-> ch ∈ activeChannels_ lp').
  { intros ch; split; intros Hin.
    - destruct (pr_sound _ _ _ _ _ _ Rese _ Hin) as (s & Hs & Hrd). by eapply (pr_complete _ _ _ _ _ _ Resp Hbp).
    - destruct (pr_sound _ _ _ _ _ _ Resp _ Hin) as (s & Hs & Hrd). by eapply (pr_complete _ _ _ _ _ _ Rese Hfull). }
  split; [by apply NoDup_Permutation; [apply Rese|apply Resp|]|].
  intros ch Hin. destruct (pr_sound _ _ _ _ _ _ Rese _ Hin) as (s & Hs & Hrd).
  destruct (common_chan _ _ _ _ _ (inv_common _ _ _ (l_inv _ _ Hle)) Hs) as (c1 & Hc1 & _).
  destruct (common_chan _ _ _ _ _ (inv_common _ _ _ (l_inv _ _ Hlp)) Hs) as (c2 & Hc2 & _).
  rewrite (pr_revents _ _ _ _ _ _ Rese _ _ _ Hs Hc1), (pr_revents _ _ _ _ _ _ Resp _ _ _ Hs Hc2).
  rewrite !decide_True by (done || by apply Hiff). simpl. eauto.
Qed.

Lemma pollers_agree_witness :
  exists (le le' : EventLoop EPollPoller) (lp lp' : EventLoop PollPoller),
    foldM perform newEventLoop sample_ops = Ok le /\ poll_turn (Some sample_kernel) 0 le = Ok le' /\
    foldM perform newEventLoop sample_ops = Ok lp /\ poll_turn (Some sample_kernel) 0 lp = Ok lp' /\
    activeChannels_ le' ≡ₚ activeChannels_ lp'.
Proof.
  destruct (pollers_agree sample_ops sample_spec sample_kernel 0 sample_trace sample_kernel_ok sample_registered)
    as (le & le' & lp & lp' & H1 & H2 & H3 & H4 & H5).
  exists le, le', lp, lp'. repeat (split; [done|]). apply H5.
  vm_compute in H1. injection H1 as <-. vm_compute in H2. injection H2 as <-. by vm_compute.
Defined.

End Loop.

(** ** Functors, wakeup and quit across threads *)
Module Functors.

(** Where the loop thread is. *)
Inductive LoopPc :=
| BeforeLoop                       (* loop() not called yet *)
| Polling                          (* in poller_->poll *)
| Handling (wakeupActive : bool)   (* events being handled; the wakeup channel still to be handled *)
| Entered                          (* callingPendingFunctors_ set, queue not swapped yet *)
| Calling (functors : list nat)    (* the functors swapped out and not run yet *)
| Stopped.                         (* loop() returned *)

Record State := mkState {
  pc : LoopPc;
  looping_ : bool;
  quit_ : bool;
  callingPendingFunctors_ : bool;
  iteration_ : Z;
  pendingFunctors_ : list nat;
  wakeupFd_ : Z;                   (* the counter of the eventfd *)
  waking : nat;                    (* threads between their store and their wakeup() *)
  queued : list nat;               (* history: functors passed to queueInLoop *)
  executed : list nat;             (* history: functors run by doPendingFunctors *)
}.

Definition newState : State := mkState BeforeLoop false false false 0 [] 0 0 [] [].

Definition set_pc (p : LoopPc) (s : State) : State :=
  mkState p (looping_ s) (quit_ s) (callingPendingFunctors_ s) (iteration_ s) (pendingFunctors_ s)
    (wakeupFd_ s) (waking s) (queued s) (executed s).
Definition set_waking (n : nat) (s : State) : State :=
  mkState (pc s) (looping_ s) (quit_ s) (callingPendingFunctors_ s) (iteration_ s) (pendingFunctors_ s)
    (wakeupFd_ s) n (queued s) (executed s).
Definition set_quit (s : State) : State :=
  mkState (pc s) (looping_ s) true (callingPendingFunctors_ s) (iteration_ s) (pendingFunctors_ s)
    (wakeupFd_ s) (waking s) (queued s) (executed s).
Definition set_calling (b : bool) (s : State) : State :=
  mkState (pc s) (looping_ s) (quit_ s) b (iteration_ s) (pendingFunctors_ s)
    (wakeupFd_ s) (waking s) (queued s) (executed s).

(** [write] of 1 to an eventfd: EAGAIN, only logged, when the counter is at its
    maximum. *)
Definition wakeup (s : State) : State :=
  mkState (pc s) (looping_ s) (quit_ s) (callingPendingFunctors_ s) (iteration_ s) (pendingFunctors_ s)
    (if wakeupFd_ s <? 2 ^ 64 - 2 then wakeupFd_ s + 1 else wakeupFd_ s) (waking s) (queued s) (executed s).

(** [read] of the eventfd resets the counter. *)
Definition handleRead (s : State) : State :=
  mkState (pc s) (looping_ s) (quit_ s) (callingPendingFunctors_ s) (iteration_ s) (pendingFunctors_ s)
    0 (waking s) (queued s) (executed s).

(** The locked part of [queueInLoop]. *)
Definition push (f : nat) (s : State) : State :=
  mkState (pc s) (looping_ s) (quit_ s) (callingPendingFunctors_ s) (iteration_ s) (pendingFunctors_ s ++ [f])
    (wakeupFd_ s) (waking s) (queued s ++ [f]) (executed s).

(** [queueInLoop] up to its wakeup: in the loop thread it wakes at once or not
    at all; another thread has its wakeup still to come. *)
Definition queueInLoop (inLoopThread : bool) (f : nat) (s : State) : State :=
  let s := push f s in
  if negb inLoopThread then set_waking (S (waking s)) s
  else if callingPendingFunctors_ s then wakeup s else s.

Definition quit (inLoopThread : bool) (s : State) : State :=
  let s := set_quit s in
  if negb inLoopThread then set_waking (S (waking s)) s else s.

(** [functors.swap(pendingFunctors_)] under the lock. *)
Definition swap_functors (s : State) : State :=
  mkState (Calling (pendingFunctors_ s)) (looping_ s) (quit_ s) (callingPendingFunctors_ s) (iteration_ s) []
    (wakeupFd_ s) (waking s) (queued s) (executed s).

Definition start_loop (s : State) : State :=
  mkState Polling true false (callingPendingFunctors_ s) (iteration_ s) (pendingFunctors_ s)
    (wakeupFd_ s) (waking s) (queued s) (executed s).

(** Another thread calls quit() between [quit_ = false] and the first test of
    [while (!quit_)]: loop() returns without a turn. *)
Definition start_and_stop (s : State) : State :=
  mkState Stopped false true (callingPendingFunctors_ s) (iteration_ s) (pendingFunctors_ s)
    (wakeupFd_ s) (S (waking s)) (queued s) (executed s).

(** [seen]: the wakeup channel is among the active ones if it is readable; it may be
    missing when poll failed with EINTR or its batch of events was full. *)
Definition poll_returns (seen : bool) (s : State) : State :=
  mkState (Handling (seen && (0 <? wakeupFd_ s))) (looping_ s) (quit_ s) (callingPendingFunctors_ s) (iteration_ s + 1)
    (pendingFunctors_ s) (wakeupFd_ s) (waking s) (queued s) (executed s).

Definition run_functor (f : nat) (rest : list nat) (s : State) : State :=
  mkState (Calling rest) (looping_ s) (quit_ s) (callingPendingFunctors_ s) (iteration_ s) (pendingFunctors_ s)
    (wakeupFd_ s) (waking s) (queued s) (executed s ++ [f]).

(** The end of [doPendingFunctors] and the test of [while (!quit_)]. *)
Definition end_turn (s : State) : State :=
  let s := set_calling false s in
  if quit_ s then
    mkState Stopped false (quit_ s) (callingPendingFunctors_ s) (iteration_ s) (pendingFunctors_ s)
      (wakeupFd_ s) (waking s) (queued s) (executed s)
  else set_pc Polling s.

(** The atomic actions. *)
Inductive action :=
| Start                  (* loop thread: loop() up to its first poll *)
| StartAndStop           (* the same, with another thread's quit() up to its wakeup in between *)
| PollReturns            (* loop thread: poll returns, for any reason *)
| PollMisses             (* loop thread: poll returns without the wakeup channel *)
| HandleWakeup           (* loop thread: the wakeup channel's handler *)
| EndHandling            (* loop thread: all active channels handled *)
| SwapFunctors           (* loop thread: the swap in doPendingFunctors *)
| RunFunctor             (* loop thread: the next functor *)
| EndTurn                (* loop thread: doPendingFunctors returns, test of quit_ *)
| LoopQueues (f : nat)   (* loop thread: queueInLoop by a handler, a functor or before loop() *)
| LoopQuits              (* loop thread: quit() *)
| OtherQueues (f : nat)  (* another thread: queueInLoop up to its wakeup *)
| OtherQuits             (* another thread: quit() up to its wakeup *)
| OtherWakes.            (* another thread: its wakeup *)

(** The loop thread can run user code here. *)
Definition user_code (s : State) : bool :=
  match pc s with
  | BeforeLoop | Handling _ | Calling _ => true
  | _ => false
  end.

Definition step (s : State) (a : action) : option State :=
  match a with
  | Start => match pc s with BeforeLoop => Some (start_loop s) | _ => None end
  | StartAndStop => match pc s with BeforeLoop => Some (start_and_stop s) | _ => None end
  | PollReturns => match pc s with Polling => Some (poll_returns true s) | _ => None end
  | PollMisses => match pc s with Polling => Some (poll_returns false s) | _ => None end
  | HandleWakeup => match pc s with Handling true => Some (set_pc (Handling false) (handleRead s)) | _ => None end
  | EndHandling =>
      match pc s with Handling false => Some (set_pc Entered (set_calling true s)) | _ => None end
  | SwapFunctors => match pc s with Entered => Some (swap_functors s) | _ => None end
  | RunFunctor => match pc s with Calling (f :: rest) => Some (run_functor f rest s) | _ => None end
  | EndTurn => match pc s with Calling [] => Some (end_turn s) | _ => None end
  | LoopQueues f => if user_code s then Some (queueInLoop true f s) else None
  | LoopQuits => if user_code s then Some (quit true s) else None
  | OtherQueues f => Some (queueInLoop false f s)
  | OtherQuits => Some (quit false s)
  | OtherWakes => match waking s with S n => Some (set_waking n (wakeup s)) | O => None end
  end.

Fixpoint run (s : State) (l : list action) : option State :=
  match l with
  | [] => Some s
  | a :: l => s' ← step s a; run s' l
  end.

(** *** Invariant *)
Definition swapped_out (s : State) : list nat :=
  match pc s with Calling l => l | _ => [] end.

(** Someone will make poll return. *)
Definition awake (s : State) : Prop := 0 < wakeupFd_ s \/ (0 < waking s)%nat.

Record finv (s : State) : Prop := {
  f_fifo : executed s ++ swapped_out s ++ pendingFunctors_ s = queued s;
  f_calling : callingPendingFunctors_ s = match pc s with Entered | Calling _ => true | _ => false end;
  f_counter : 0 <= wakeupFd_ s;
  f_iteration : 0 <= iteration_ s;
  f_woken : match pc s with
            | Calling _ => pendingFunctors_ s <> [] -> awake s
            | Polling => iteration_ s <> 0 -> pendingFunctors_ s <> [] -> awake s
            | _ => True
            end;
  f_quit : pc s = Polling -> quit_ s = true -> awake s;
  f_turns : match pc s with BeforeLoop => iteration_ s = 0 | Polling | Stopped => True | _ => 0 < iteration_ s end;
}.

Lemma awake_wakeup s : 0 <= wakeupFd_ s -> awake (wakeup s).
Proof. intros H. left. simpl. destruct (Z.ltb_spec (wakeupFd_ s) (2 ^ 64 - 2)); lia. Qed.

Lemma finv_init : finv newState.
Proof. by split. Qed.

Lemma finv_step s a s' : finv s -> step s a = Some s' -> finv s'.
Proof.
  intros [Hf Hc Hn Hi Hw Hq Ht] Hs. destruct s as [p lo q ca it pend wfd wk que exe]; simpl in *.
  destruct a; simpl in Hs.
  - destruct p; simplify_eq. split; simpl in *; done || naive_solver lia.
  - destruct p; simplify_eq. split; simpl in *; done || naive_solver lia.
  - destruct p; simplify_eq. split; simpl in *; done || lia.
  - destruct p; simplify_eq. split; simpl in *; done || lia.
  - destruct p as [| |[]| | |]; simplify_eq. split; simpl in *; done || lia.
  - destruct p as [| |[]| | |]; simplify_eq. split; simpl in *; done || lia.
  - destruct p; simplify_eq. split; simpl in *; try done. by rewrite app_nil_r.
  - destruct p as [| | | |[|f l]|]; simplify_eq. split; simpl in *; try done. by rewrite <- (assoc_L (++)).
  - destruct p as [| | | |[|f l]|]; simplify_eq. unfold end_turn; simpl. destruct q; split; simpl in *; done.
  - destruct (user_code _) eqn:Hu; simplify_eq. unfold queueInLoop, push; simpl.
    pose proof (awake_wakeup (push f (mkState p lo q true it pend wfd wk que exe)) Hn) as Haw.
    unfold user_code in Hu; simpl in Hu.
    destruct p; try discriminate Hu; simpl in *; split; simpl in *; try done.
    all: try (rewrite <- Hf; unfold swapped_out; simpl; by rewrite !(assoc_L (++))).
    destruct (wfd <? 2 ^ 64 - 2); lia.
  - destruct (user_code _) eqn:Hu; simplify_eq. unfold user_code in Hu; simpl in Hu.
    destruct p; try discriminate Hu; split; simpl in *; done.
  - simplify_eq. unfold queueInLoop, push; simpl.
    split; simpl in *; try done.
    + rewrite <- Hf. unfold swapped_out. simpl. by rewrite !(assoc_L (++)).
    + destruct p; try done; intros; right; simpl; lia.
    + intros; right; simpl; lia.
  - simplify_eq. split; simpl in *; try done.
    + destruct p; try done; intros; right; simpl; lia.
    + intros; right; simpl; lia.
  - destruct wk as [|wk]; simplify_eq.
    assert (Haw : awake (mkState p lo q false it pend (if wfd <? 2 ^ 64 - 2 then wfd + 1 else wfd) wk que exe))
      by (left; simpl; destruct (Z.ltb_spec wfd (2 ^ 64 - 2)); lia).
    split; simpl in *; try done.
    + destruct (wfd <? 2 ^ 64 - 2); lia.
    + destruct p; try done; intros; exact Haw.
Qed.

Lemma finv_run s l s' : finv s -> run s l = Some s' -> finv s'.
Proof.
  revert s; induction l as [|a l IH]; intros s Hi Hr; simpl in Hr; [by simplify_eq|].
  destruct (step s a) as [s1|] eqn:E; [|done]. by eapply IH; [eapply finv_step|].
Qed.

(** The loop is blocked: nothing makes poll return before its timeout. *)
Definition blocked (s : State) : Prop := pc s = Polling /\ wakeupFd_ s = 0 /\ waking s = O.

(** C4: Functors run in the order they were queued, each exactly once: at every
    moment of every interleaving the functors run so far, those swapped out and
    those pending make up the sequence queued; and once a loop that has turned at
    least once is blocked with no caller in the middle of queueInLoop or quit,
    everything queued has run and no quit is outstanding. *)
Theorem no_functor_lost l s :
  run newState l = Some s ->
  executed s ++ swapped_out s ++ pendingFunctors_ s = queued s /\
  (blocked s -> iteration_ s <> 0 -> executed s = queued s /\ quit_ s = false).
Proof.
  intros Hr. pose proof (finv_run _ _ _ finv_init Hr) as [Hf Hc Hn Hi Hw Hq Ht].
  split; [done|]. intros (Hp & Hz & Hk) Hit. rewrite Hp in Hw.
  assert (Hna : ~ awake s) by (intros [?|?]; lia).
  assert (pendingFunctors_ s = []) as Hnil.
  { destruct (pendingFunctors_ s) as [|f r] eqn:E; [done|]. destruct Hna. by apply Hw. }
  split.
  - rewrite <- Hf, Hnil. unfold swapped_out. rewrite Hp. simpl. by rewrite app_nil_r.
  - destruct (quit_ s) eqn:E; [|done]. destruct Hna. by apply Hq.
Qed.

(** Before loop() the loop thread does not wake itself: a functor it queues there is
    still pending when the first poll blocks. *)
Theorem functor_before_loop_waits :
  exists s, run newState [LoopQueues 1%nat; Start] = Some s /\ blocked s /\ executed s = [] /\ queued s = [1%nat].
Proof. eexists. by split. Qed.

(** Two threads queue three functors, one of which queues another; the loop
    turns until it blocks. *)
Definition sample_run : list action :=
  [Start; OtherQueues 1; OtherQueues 2; OtherWakes; PollReturns; HandleWakeup; OtherWakes; EndHandling;
   SwapFunctors; RunFunctor; LoopQueues 3; RunFunctor; EndTurn;
   PollReturns; HandleWakeup; EndHandling; SwapFunctors; RunFunctor; EndTurn]%nat.

Lemma no_functor_lost_witness :
  exists s, run newState sample_run = Some s /\ executed s = [1; 2; 3]%nat /\ queued s = [1; 2; 3]%nat.
Proof.
  destruct (run newState sample_run) as [s|] eqn:E; [|vm_compute in E; discriminate].
  destruct (no_functor_lost sample_run s E) as [_ Hb]. exists s. split; [done|].
  vm_compute in E. injection E as <-. destruct Hb as [He _]; [done|done|]. simpl in *. done.
Defined.

(** *** The loop's own progress *)

(** The rest of the current turn, taken by the loop thread alone. *)
Definition finish_turn (s : State) : list action :=
  match pc s with
  | BeforeLoop | Stopped => []
  | Polling => PollReturns :: (if 0 <? wakeupFd_ s then [HandleWakeup] else []) ++
               [EndHandling; SwapFunctors] ++ replicate (length (pendingFunctors_ s)) RunFunctor ++ [EndTurn]
  | Handling b => (if b then [HandleWakeup] else []) ++
               [EndHandling; SwapFunctors] ++ replicate (length (pendingFunctors_ s)) RunFunctor ++ [EndTurn]
  | Entered => SwapFunctors :: replicate (length (pendingFunctors_ s)) RunFunctor ++ [EndTurn]
  | Calling l => replicate (length l) RunFunctor ++ [EndTurn]
  end.

Lemma run_app s l1 l2 : run s (l1 ++ l2) = s' ← run s l1; run s' l2.
Proof.
  revert s; induction l1 as [|a l1 IH]; intros s; simpl; [done|]. destruct (step s a); simpl; [apply IH|done].
Qed.

Lemma run_functors l s :
  pc s = Calling l ->
  run s (replicate (length l) RunFunctor) =
  Some (mkState (Calling []) (looping_ s) (quit_ s) (callingPendingFunctors_ s) (iteration_ s)
          (pendingFunctors_ s) (wakeupFd_ s) (waking s) (queued s) (executed s ++ l)).
Proof.
  revert s; induction l as [|f l IH]; intros s Hp.
  - destruct s; simpl in *; subst. by rewrite app_nil_r.
  - cbn [length replicate run]. unfold step. rewrite Hp. cbn [mbind option_bind].
    rewrite IH by done. simpl. by rewrite <- (assoc_L (++)).
Qed.

Lemma finish_calling s l :
  pc s = Calling l ->
  exists s', run s (replicate (length l) RunFunctor ++ [EndTurn]) = Some s' /\
    pc s' = (if quit_ s then Stopped else Polling) /\ executed s' = executed s ++ l /\
    looping_ s' = (if quit_ s then false else looping_ s).
Proof.
  intros Hp. rewrite run_app, (run_functors l s Hp). simpl. unfold end_turn; simpl.
  destruct (quit_ s); eauto.
Qed.

(** C12: From any point inside loop() the loop thread, left alone, completes its
    turn in as many actions as there are functors to run plus five; every
    functor that was queued by then has run unless it was queued during the
    running of functors; and if quit was requested the loop has ended. *)
Theorem turn_completes s (Hin : looping_ s = true) (Hpc : pc s <> BeforeLoop /\ pc s <> Stopped) :
  exists s', run s (finish_turn s) = Some s' /\
    (length (finish_turn s) <= 5 + length (pendingFunctors_ s) + length (swapped_out s))%nat /\
    (executed s' = match pc s with
                   | Calling l => executed s ++ l
                   | _ => executed s ++ pendingFunctors_ s
                   end) /\
    (if quit_ s then pc s' = Stopped /\ looping_ s' = false else pc s' = Polling).
Proof.
  assert (Hgo : forall t l, pc t = Calling l -> quit_ t = quit_ s ->
    exists s', run t (replicate (length l) RunFunctor ++ [EndTurn]) = Some s' /\ executed s' = executed t ++ l /\
      (if quit_ s then pc s' = Stopped /\ looping_ s' = false else pc s' = Polling)).
  { intros t l Ht Hqt. destruct (finish_calling t l Ht) as (s' & Hr & Hp & He & Hl).
    exists s'. rewrite Hqt in Hp, Hl. split; [done|]. split; [done|]. by destruct (quit_ s). }
  unfold finish_turn, swapped_out. destruct (pc s) as [| |b| |l|] eqn:Ep; [naive_solver|..|naive_solver].
  - destruct (Hgo (mkState (Calling (pendingFunctors_ s)) (looping_ s) (quit_ s) true (iteration_ s + 1) []
        (if 0 <? wakeupFd_ s then 0 else wakeupFd_ s) (waking s) (queued s) (executed s)) _ eq_refl eq_refl)
      as (s' & Hr & He & Hf).
    exists s'. split; [|split; [|by split]].
    + simpl run. rewrite Ep. simpl. unfold poll_returns. simpl. destruct (0 <? wakeupFd_ s); simpl; exact Hr.
    + simpl. rewrite length_app. destruct (0 <? wakeupFd_ s); simpl; rewrite length_app, length_replicate; simpl; lia.
  - destruct (Hgo (mkState (Calling (pendingFunctors_ s)) (looping_ s) (quit_ s) true (iteration_ s) []
        (if b then 0 else wakeupFd_ s) (waking s) (queued s) (executed s)) _ eq_refl eq_refl) as (s' & Hr & He & Hf).
    exists s'. split; [|split; [|by split]].
    + destruct b; simpl; rewrite Ep; simpl; exact Hr.
    + rewrite !length_app. destruct b; simpl; rewrite ?length_app, length_replicate; simpl; lia.
  - destruct (Hgo (swap_functors s) _ eq_refl eq_refl) as (s' & Hr & He & Hf).
    exists s'. split; [|split; [|by split]].
    + simpl. rewrite Ep. simpl. exact Hr.
    + simpl. rewrite length_app, length_replicate; simpl; lia.
  - destruct (Hgo s l Ep eq_refl) as (s' & Hr & He & Hf). exists s'. split; [done|]. split; [|by split].
    rewrite length_app, length_replicate; simpl; lia.
Qed.

Lemma turn_completes_witness :
  exists s s', run newState [Start; OtherQueues 7; OtherQuits; OtherWakes; OtherWakes]%nat = Some s /\
    run s (finish_turn s) = Some s' /\ pc s' = Stopped /\ executed s' = [7]%nat.
Proof.
  destruct (run newState [Start; OtherQueues 7; OtherQuits; OtherWakes; OtherWakes]%nat) as [s|] eqn:E;
    [|vm_compute in E; discriminate].
  vm_compute in E. injection E as <-. eexists.
  destruct (turn_completes (mkState Polling true true false 0 [7%nat] 2 0 [7%nat] [])) as (s' & Hr & _ & He & Hq & _);
    [done|done|]. exists s'. split; [reflexivity|]. split; [exact Hr|]. split; [exact Hq|exact He].
Defined.

(** A quit requested before loop() is entered is overwritten: the loop goes
    to poll as if nothing had been asked. *)
Theorem quit_before_loop_is_lost :
  exists s, run newState [OtherQuits; OtherWakes; Start] = Some s /\ pc s = Polling /\ quit_ s = false.
Proof. eexists. split; [reflexivity|done]. Qed.

End Functors.
