(* ===== verification/TcpConnection.v ===== *)
(** * TcpConnection: net/TcpConnection.h, net/TcpConnection.cc

    A connection on the event loop of EventLoop.v (with any poller) and two
    buffers of Buffer.v.  The state has the fields of the class, the loop it
    belongs to, the functors it has queued in the loop and not seen run, and the
    socket as the kernel sees it ([wire]: the bytes accepted by write, [shut]:
    whether the write side was shut down).  The history fields [accepted],
    [received], [taken] and the counters record what crossed the interface.

    User callbacks run inside the handlers and may call the connection back; what
    a callback does is an argument of the handler, a list of [user_action].  The
    answers of read and write are arguments too.

    Theorems: over every run, the bytes accepted by send are, in order, those on
    the wire followed by those in the output buffer, the channel asks for
    writability exactly while the output buffer is not empty, the write side is
    shut down only after everything accepted is on the wire, the connection
    callback is called once up and once down, and no assertion fails; and three
    sequences of calls that do end in a failed assertion. *)

From S2P Require Import Prelude Buffer Channel Poller EventLoop.

Inductive StateE := kDisconnected | kConnecting | kConnected | kDisconnecting.

#[export] Instance StateE_eq_dec : EqDecision StateE.
Proof. solve_decision. Defined.

Definition EPIPE : Z := 32.
Definition ECONNRESET : Z := 104.
Definition EWOULDBLOCK : Z := 11.

(** The functors a connection queues in its loop. *)
Inductive functor :=
| FSend (message : bytes)         (* sendInLoop(message) *)
| FShutdown                       (* shutdownInLoop *)
| FForceClose                     (* forceCloseInLoop *)
| FWriteComplete                  (* writeCompleteCallback_ *)
| FHighWater (size : Z)           (* highWaterMarkCallback_ *)
| FStartRead
| FStopRead.

(** What write(2) does: takes some bytes, or fails. *)
Inductive write_answer := Wrote (n : Z) | WriteFails (errno : Z).

(** What a user callback does with the connection. *)
Inductive user_action :=
| USend (message : bytes) (answer : write_answer)
| USendInput (answer : write_answer)      (* conn->send(conn->inputBuffer()) *)
| UTake (n : Z)                           (* retrieve up to n bytes of the input *)
| UShutdown
| UForceClose
| UForceCloseWithDelay
| UStartRead
| UStopRead.

Module TcpConnection.
Section connection.
Context {P : Type} `{PL : PollerLaws P}.

Record TcpConnection := mkConn {
  loop_ : Loop.EventLoop P;
  state_ : StateE;
  reading_ : bool;
  channel_ : Z;
  hasWriteComplete : bool;          (* writeCompleteCallback_ is set *)
  hasHighWater : bool;              (* highWaterMarkCallback_ is set *)
  highWaterMark_ : Z;
  inputBuffer_ : Buffer;
  outputBuffer_ : Buffer;
  functors : list functor;          (* queued in the loop, oldest first *)
  delayed : nat;                    (* timers that will call forceClose *)
  wire : bytes;
  shut : bool;
  accepted : bytes;                 (* sent and not given up *)
  received : bytes;                 (* read from the socket *)
  taken : bytes;                    (* retrieved from the input by the user *)
  ups : Z;                          (* calls of connectionCallback_ while connected *)
  downs : Z;                        (* ... while disconnected *)
  closes : Z;                       (* calls of closeCallback_ *)
  removed : bool;                   (* connectDestroyed ran *)
}.

Definition with_loop l (c : TcpConnection) : TcpConnection :=
  mkConn l (state_ c) (reading_ c) (channel_ c) (hasWriteComplete c) (hasHighWater c) (highWaterMark_ c)
    (inputBuffer_ c) (outputBuffer_ c) (functors c) (delayed c) (wire c) (shut c) (accepted c) (received c)
    (taken c) (ups c) (downs c) (closes c) (removed c).
Definition setState (s : StateE) (c : TcpConnection) : TcpConnection :=
  mkConn (loop_ c) s (reading_ c) (channel_ c) (hasWriteComplete c) (hasHighWater c) (highWaterMark_ c)
    (inputBuffer_ c) (outputBuffer_ c) (functors c) (delayed c) (wire c) (shut c) (accepted c) (received c)
    (taken c) (ups c) (downs c) (closes c) (removed c).
Definition with_reading b (c : TcpConnection) : TcpConnection :=
  mkConn (loop_ c) (state_ c) b (channel_ c) (hasWriteComplete c) (hasHighWater c) (highWaterMark_ c)
    (inputBuffer_ c) (outputBuffer_ c) (functors c) (delayed c) (wire c) (shut c) (accepted c) (received c)
    (taken c) (ups c) (downs c) (closes c) (removed c).
Definition with_input b t (c : TcpConnection) : TcpConnection :=
  mkConn (loop_ c) (state_ c) (reading_ c) (channel_ c) (hasWriteComplete c) (hasHighWater c) (highWaterMark_ c)
    b (outputBuffer_ c) (functors c) (delayed c) (wire c) (shut c) (accepted c) (received c)
    t (ups c) (downs c) (closes c) (removed c).
Definition with_received b r (c : TcpConnection) : TcpConnection :=
  mkConn (loop_ c) (state_ c) (reading_ c) (channel_ c) (hasWriteComplete c) (hasHighWater c) (highWaterMark_ c)
    b (outputBuffer_ c) (functors c) (delayed c) (wire c) (shut c) (accepted c) r
    (taken c) (ups c) (downs c) (closes c) (removed c).
Definition with_output b (c : TcpConnection) : TcpConnection :=
  mkConn (loop_ c) (state_ c) (reading_ c) (channel_ c) (hasWriteComplete c) (hasHighWater c) (highWaterMark_ c)
    (inputBuffer_ c) b (functors c) (delayed c) (wire c) (shut c) (accepted c) (received c)
    (taken c) (ups c) (downs c) (closes c) (removed c).
Definition with_functors l (c : TcpConnection) : TcpConnection :=
  mkConn (loop_ c) (state_ c) (reading_ c) (channel_ c) (hasWriteComplete c) (hasHighWater c) (highWaterMark_ c)
    (inputBuffer_ c) (outputBuffer_ c) l (delayed c) (wire c) (shut c) (accepted c) (received c)
    (taken c) (ups c) (downs c) (closes c) (removed c).
Definition with_delayed n (c : TcpConnection) : TcpConnection :=
  mkConn (loop_ c) (state_ c) (reading_ c) (channel_ c) (hasWriteComplete c) (hasHighWater c) (highWaterMark_ c)
    (inputBuffer_ c) (outputBuffer_ c) (functors c) n (wire c) (shut c) (accepted c) (received c)
    (taken c) (ups c) (downs c) (closes c) (removed c).
Definition with_socket w s (c : TcpConnection) : TcpConnection :=
  mkConn (loop_ c) (state_ c) (reading_ c) (channel_ c) (hasWriteComplete c) (hasHighWater c) (highWaterMark_ c)
    (inputBuffer_ c) (outputBuffer_ c) (functors c) (delayed c) w s (accepted c) (received c)
    (taken c) (ups c) (downs c) (closes c) (removed c).
Definition with_accepted a (c : TcpConnection) : TcpConnection :=
  mkConn (loop_ c) (state_ c) (reading_ c) (channel_ c) (hasWriteComplete c) (hasHighWater c) (highWaterMark_ c)
    (inputBuffer_ c) (outputBuffer_ c) (functors c) (delayed c) (wire c) (shut c) a (received c)
    (taken c) (ups c) (downs c) (closes c) (removed c).
Definition with_calls u d k (c : TcpConnection) : TcpConnection :=
  mkConn (loop_ c) (state_ c) (reading_ c) (channel_ c) (hasWriteComplete c) (hasHighWater c) (highWaterMark_ c)
    (inputBuffer_ c) (outputBuffer_ c) (functors c) (delayed c) (wire c) (shut c) (accepted c) (received c)
    (taken c) u d k (removed c).
Definition with_removed b (c : TcpConnection) : TcpConnection :=
  mkConn (loop_ c) (state_ c) (reading_ c) (channel_ c) (hasWriteComplete c) (hasHighWater c) (highWaterMark_ c)
    (inputBuffer_ c) (outputBuffer_ c) (functors c) (delayed c) (wire c) (shut c) (accepted c) (received c)
    (taken c) (ups c) (downs c) (closes c) b.

(** The constructor, on a channel object already allocated in the loop's heap. *)
Definition newTcpConnection (loop : Loop.EventLoop P) (channel sockfd : Z) (writeComplete highWater : bool)
  : outcome TcpConnection :=
  loop ← Loop.construct channel sockfd loop;
  input ← newBuffer kInitialSize;
  output ← newBuffer kInitialSize;
  Ok (mkConn loop kConnecting true channel writeComplete highWater (64 * 1024 * 1024) input output
        [] 0 [] false [] [] [] 0 0 0 false).

Definition setHighWaterMark (mark : Z) (c : TcpConnection) : TcpConnection :=
  mkConn (loop_ c) (state_ c) (reading_ c) (channel_ c) (hasWriteComplete c) true mark
    (inputBuffer_ c) (outputBuffer_ c) (functors c) (delayed c) (wire c) (shut c) (accepted c) (received c)
    (taken c) (ups c) (downs c) (closes c) (removed c).

Definition stateToString (c : TcpConnection) : bytes :=
  match state_ c with
  | kDisconnected => lit "kDisconnected"
  | kConnecting => lit "kConnecting"
  | kConnected => lit "kConnected"
  | kDisconnecting => lit "kDisconnecting"
  end.

Definition connected (c : TcpConnection) : bool := bool_decide (state_ c = kConnected).
Definition disconnected (c : TcpConnection) : bool := bool_decide (state_ c = kDisconnected).
Definition is_open (c : TcpConnection) : bool :=
  bool_decide (state_ c = kConnected) || bool_decide (state_ c = kDisconnecting).

(** *** The channel, the loop and the socket *)
Definition channel (c : TcpConnection) : outcome Channel := deref (Loop.heap (loop_ c)) (channel_ c).

Definition on_channel (op : Z -> Loop.EventLoop P -> outcome (Loop.EventLoop P)) (c : TcpConnection)
  : outcome TcpConnection :=
  l ← op (channel_ c) (loop_ c);
  Ok (with_loop l c).

Definition tie_channel (c : TcpConnection) : outcome TcpConnection :=
  ch ← channel c;
  Ok (with_loop (Loop.set_channel (channel_ c) (tie (channel_ c) ch) (loop_ c)) c).

Definition queueInLoop (f : functor) (c : TcpConnection) : TcpConnection :=
  with_functors (functors c ++ [f]) c.

(** [sockets::write]: the number of bytes, or an errno; nothing can be written
    after the write side was shut down. *)
Definition sock_write (answer : write_answer) (data : bytes) (c : TcpConnection)
  : (Z + Z) * TcpConnection :=
  if shut c then (inr EPIPE, c)
  else
    match answer with
    | Wrote n => let w := ztake n data in (inl (zlen w), with_socket (wire c ++ w) false c)
    | WriteFails errno => (inr errno, c)
    end.

(** *** Sending *)

(** The direct write: bytes written, bytes remaining, whether the error is fatal
    for the message. *)
Definition try_write (ch : Channel) (answer : write_answer) (data : bytes) (c : TcpConnection)
  : Z * Z * bool * TcpConnection :=
  if negb (isWriting ch) && (readableBytes (outputBuffer_ c) =? 0) then
    match sock_write answer data c with
    | (inl n, c) =>
        let remaining := zlen data - n in
        (n, remaining, false,
         if (remaining =? 0) && hasWriteComplete c then queueInLoop FWriteComplete c else c)
    | (inr errno, c) =>
        (0, zlen data,
         negb (errno =? EWOULDBLOCK) && ((errno =? EPIPE) || (errno =? ECONNRESET)), c)
    end
  else (0, zlen data, false, c).

(** The rest of the message goes to the output buffer. *)
Definition queue_rest (ch : Channel) (remaining : Z) (rest : bytes) (c : TcpConnection)
  : outcome TcpConnection :=
  let oldLen := readableBytes (outputBuffer_ c) in
  let c :=
    if (highWaterMark_ c <=? u64 (oldLen + remaining)) && (oldLen <? highWaterMark_ c) && hasHighWater c
    then queueInLoop (FHighWater (u64 (oldLen + remaining))) c else c in
  out ← append rest (outputBuffer_ c);
  let c := with_output out c in
  if negb (isWriting ch) then on_channel Loop.enableWriting c else Ok c.

Definition sendInLoop (answer : write_answer) (data : bytes) (c : TcpConnection) : outcome TcpConnection :=
  if disconnected c then Ok c
  else
    ch ← channel c;
    let '(nwrote, remaining, faultError, c) := try_write ch answer data c in
    c_assert (remaining <=? zlen data);;
    let c := if (faultError : bool) then c else with_accepted (accepted c ++ data) c in
    if negb faultError && (0 <? remaining) then queue_rest ch remaining (zdrop nwrote data) c
    else Ok c.

(** [send(const StringPiece&)]; from another thread the message is copied into
    a functor. *)
Definition send (inLoopThread : bool) (answer : write_answer) (message : bytes) (c : TcpConnection)
  : outcome TcpConnection :=
  if connected c then
    if inLoopThread then sendInLoop answer message c else Ok (queueInLoop (FSend message) c)
  else Ok c.

(** [send] of a [Buffer] pointer: the caller's buffer is emptied when the message is taken. *)
Definition sendBuffer (inLoopThread : bool) (answer : write_answer) (buf : Buffer) (c : TcpConnection)
  : outcome (Buffer * TcpConnection) :=
  if connected c then
    if inLoopThread then
      c ← sendInLoop answer (content buf) c;
      Ok (retrieveAll buf, c)
    else
      '(message, buf) ← retrieveAllAsString buf;
      Ok (buf, queueInLoop (FSend message) c)
  else Ok (buf, c).

(** *** Closing *)
Definition shutdownInLoop (c : TcpConnection) : outcome TcpConnection :=
  ch ← channel c;
  if negb (isWriting ch) then Ok (with_socket (wire c) true c) else Ok c.

Definition shutdown (inLoopThread : bool) (c : TcpConnection) : outcome TcpConnection :=
  if connected c then
    let c := setState kDisconnecting c in
    if inLoopThread then shutdownInLoop c else Ok (queueInLoop FShutdown c)
  else Ok c.

Definition forceClose (c : TcpConnection) : TcpConnection :=
  if is_open c then queueInLoop FForceClose (setState kDisconnecting c) else c.

Definition forceCloseWithDelay (c : TcpConnection) : TcpConnection :=
  if is_open c then with_delayed (S (delayed c)) (setState kDisconnecting c) else c.

(** *** Reading on and off *)
Definition startReadInLoop (c : TcpConnection) : outcome TcpConnection :=
  ch ← channel c;
  if negb (reading_ c) || negb (isReading ch) then
    c ← on_channel Loop.enableReading c;
    Ok (with_reading true c)
  else Ok c.

Definition stopReadInLoop (c : TcpConnection) : outcome TcpConnection :=
  ch ← channel c;
  if reading_ c || isReading ch then
    c ← on_channel Loop.disableReading c;
    Ok (with_reading false c)
  else Ok c.

Definition startRead (inLoopThread : bool) (c : TcpConnection) : outcome TcpConnection :=
  if inLoopThread then startReadInLoop c else Ok (queueInLoop FStartRead c).

Definition stopRead (inLoopThread : bool) (c : TcpConnection) : outcome TcpConnection :=
  if inLoopThread then stopReadInLoop c else Ok (queueInLoop FStopRead c).

(** *** User code inside a callback, in the loop thread *)
Definition user (c : TcpConnection) (a : user_action) : outcome TcpConnection :=
  match a with
  | USend message answer => send true answer message c
  | USendInput answer =>
      '(buf, c') ← sendBuffer true answer (inputBuffer_ c) c;
      Ok (if connected c then with_input buf (taken c ++ content (inputBuffer_ c)) c' else c')
  | UTake n =>
      let n := Z.max 0 (Z.min n (readableBytes (inputBuffer_ c))) in
      '(s, buf) ← retrieveAsString n (inputBuffer_ c);
      Ok (with_input buf (taken c ++ s) c)
  | UShutdown => shutdown true c
  | UForceClose => Ok (forceClose c)
  | UForceCloseWithDelay => Ok (forceCloseWithDelay c)
  | UStartRead => startRead true c
  | UStopRead => stopRead true c
  end.

Definition connectionCallback (acts : list user_action) (c : TcpConnection) : outcome TcpConnection :=
  foldM user
    (if connected c then with_calls (ups c + 1) (downs c) (closes c) c
     else with_calls (ups c) (downs c + 1) (closes c) c) acts.

Definition messageCallback (acts : list user_action) (c : TcpConnection) : outcome TcpConnection :=
  foldM user c acts.

(** [TcpServer::removeConnection], which has [connectDestroyed] queued later. *)
Definition closeCallback (c : TcpConnection) : TcpConnection :=
  with_calls (ups c) (downs c) (closes c + 1) c.

(** *** Life cycle *)
Definition connectEstablished (acts : list user_action) (c : TcpConnection) : outcome TcpConnection :=
  c_assert (bool_decide (state_ c = kConnecting));;
  c ← tie_channel (setState kConnected c);
  c ← on_channel Loop.enableReading c;
  connectionCallback acts c.

Definition connectDestroyed (acts : list user_action) (c : TcpConnection) : outcome TcpConnection :=
  c ← (if connected c then
         c ← on_channel Loop.disableAll (setState kDisconnected c);
         connectionCallback acts c
       else Ok c);
  c ← on_channel Loop.remove c;
  Ok (with_removed true c).

(** The destructor, with the channel's. *)
Definition destroyTcpConnection (c : TcpConnection) : outcome TcpConnection :=
  c_assert (disconnected c);;
  on_channel Loop.destroy c.

(** *** Events *)
Definition handleClose (acts : list user_action) (c : TcpConnection) : outcome TcpConnection :=
  c_assert (is_open c);;
  c ← on_channel Loop.disableAll (setState kDisconnected c);
  c ← connectionCallback acts c;
  Ok (closeCallback c).

Definition forceCloseInLoop (acts : list user_action) (c : TcpConnection) : outcome TcpConnection :=
  if is_open c then handleClose acts c else Ok c.

(** SO_ERROR is read and logged. *)
Definition handleError (c : TcpConnection) : TcpConnection := c.

Definition handleRead (readv : Z -> io_result) (acts down : list user_action) (c : TcpConnection)
  : outcome TcpConnection :=
  '(n, _, buf) ← readFd readv (inputBuffer_ c);
  if 0 <? n then
    messageCallback acts
      (with_received buf (received c ++ zdrop (zlen (content (inputBuffer_ c))) (content buf)) c)
  else if n =? 0 then handleClose down (with_received buf (received c) c)
  else Ok (handleError c).

Definition handleWrite (answer : write_answer) (c : TcpConnection) : outcome TcpConnection :=
  ch ← channel c;
  if isWriting ch then
    match sock_write answer (content (outputBuffer_ c)) c with
    | (inl n, c) =>
        if 0 <? n then
          out ← retrieve n (outputBuffer_ c);
          let c := with_output out c in
          if readableBytes out =? 0 then
            c ← on_channel Loop.disableWriting c;
            let c := if hasWriteComplete c then queueInLoop FWriteComplete c else c in
            if bool_decide (state_ c = kDisconnecting) then shutdownInLoop c else Ok c
          else Ok c
        else Ok c
    | (inr _, c) => Ok c
    end
  else Ok c.

(** *** One step of the connection's world *)
Inductive event :=
| Established (acts : list user_action)
| ReadReady (readv : Z -> io_result) (acts down : list user_action)
| WriteReady (answer : write_answer)
| CloseReady (acts : list user_action)
| ErrorReady
| RunFunctor (answer : write_answer) (acts : list user_action)   (* the oldest functor *)
| TimerFires                                                     (* a delayed forceClose *)
| OtherSend (message : bytes)
| OtherShutdown
| OtherForceClose
| OtherStartRead
| OtherStopRead
| Destroy (acts : list user_action).

Definition run_functor (f : functor) (answer : write_answer) (acts : list user_action) (c : TcpConnection)
  : outcome TcpConnection :=
  match f with
  | FSend message => sendInLoop answer message c
  | FShutdown => shutdownInLoop c
  | FForceClose => forceCloseInLoop acts c
  | FWriteComplete => foldM user c acts
  | FHighWater _ => foldM user c acts
  | FStartRead => startReadInLoop c
  | FStopRead => stopReadInLoop c
  end.

Definition step (c : TcpConnection) (e : event) : outcome TcpConnection :=
  match e with
  | Established acts => connectEstablished acts c
  | ReadReady readv acts down => handleRead readv acts down c
  | WriteReady answer => handleWrite answer c
  | CloseReady acts => handleClose acts c
  | ErrorReady => Ok (handleError c)
  | RunFunctor answer acts =>
      match functors c with
      | [] => Ok c
      | f :: rest => run_functor f answer acts (with_functors rest c)
      end
  | TimerFires =>
      match delayed c with
      | O => Ok c
      | S n => Ok (forceClose (with_delayed n c))
      end
  | OtherSend message => send false (Wrote 0) message c
  | OtherShutdown => shutdown false c
  | OtherForceClose => Ok (forceClose c)
  | OtherStartRead => startRead false c
  | OtherStopRead => stopRead false c
  | Destroy acts => connectDestroyed acts c
  end.

(** *** The invariant *)
Definition chan_state (S : Spec) (c : TcpConnection) (s : ChanSpec) : Prop :=
  match state_ c with
  | kConnecting =>
      s_status s = Fresh /\ fd_free S (s_fd s) /\ content (outputBuffer_ c) = [] /\ reading_ c = true
  | kConnected | kDisconnecting =>
      registered s /\ removed c = false /\ has_bits (s_events s) kReadEvent = reading_ c /\
      has_bits (s_events s) kWriteEvent = bool_decide (content (outputBuffer_ c) <> [])
  | kDisconnected => s_status s = if removed c then Removed else Idle
  end.

(** A queued message is one that fits a string; a queued shutdown has already
    changed the state. *)
Definition functor_ok (st : StateE) (f : functor) : Prop :=
  match f with
  | FSend message => zlen message <= vector_max_size
  | FShutdown => st = kDisconnecting \/ st = kDisconnected
  | _ => True
  end.

(** The state only moves forward. *)
Lemma functor_ok_mono st st' l :
  (st = kDisconnecting \/ st = kDisconnected -> st' = kDisconnecting \/ st' = kDisconnected) ->
  Forall (functor_ok st) l -> Forall (functor_ok st') l.
Proof. intros Hm Hl. eapply Forall_impl; [exact Hl|]. intros [] Hf; simpl in *; auto. Qed.

Record cinv (S : Spec) (c : TcpConnection) : Prop := {
  ci_loop : Loop.linv S (loop_ c);
  ci_chan : exists s, S !! channel_ c = Some s /\ chan_state S c s;
  ci_input : wf (inputBuffer_ c);
  ci_output : wf (outputBuffer_ c);
  ci_sent : wire c ++ content (outputBuffer_ c) = accepted c;
  ci_received : taken c ++ content (inputBuffer_ c) = received c;
  ci_shut : shut c = true ->
    state_ c = kDisconnected \/ state_ c = kDisconnecting /\ content (outputBuffer_ c) = [];
  ci_functors : Forall (functor_ok (state_ c)) (functors c);
  ci_ups : ups c = if decide (state_ c = kConnecting) then 0 else 1;
  ci_downs : downs c = if decide (state_ c = kDisconnected) then 1 else 0;
  ci_closes : 0 <= closes c <= downs c;
  ci_removed : removed c = true -> state_ c = kDisconnected;
}.

(** Something keeps the channel registered for events. *)
Definition watched (c : TcpConnection) : Prop :=
  reading_ c = true \/ content (outputBuffer_ c) <> [].

Lemma is_open_true (c : TcpConnection) : is_open c = true <-> state_ c = kConnected \/ state_ c = kDisconnecting.
Proof. unfold is_open. rewrite orb_true_iff, !bool_decide_eq_true. done. Qed.

Lemma connected_true (c : TcpConnection) : connected c = true <-> state_ c = kConnected.
Proof. apply bool_decide_eq_true. Qed.

Lemma readable_nil b : wf b -> (readableBytes b =? 0) = bool_decide (content b = []).
Proof.
  intros Hb. rewrite <- content_length by done. case_bool_decide as E.
  - rewrite E. done.
  - apply Z.eqb_neq. intros Hz. by apply zlen_0_nil in Hz.
Qed.

(** The channel object of a connection and its mask. *)
Lemma chan_object S (c : TcpConnection) s :
  Loop.linv S (loop_ c) -> S !! channel_ c = Some s ->
  event_mask (s_events s) /\ exists ch, channel c = Ok ch /\ events_ ch = s_events s.
Proof.
  intros Hl Hs. pose proof (inv_common _ _ _ (Loop.l_inv _ _ Hl)) as Hco.
  split; [apply (co_entry _ _ _ Hco _ _ Hs)|].
  destruct (common_chan _ _ _ _ _ Hco Hs) as (ch & Hc & _ & He). exists ch.
  split; [|done]. unfold channel, deref. by rewrite Hc.
Qed.

Lemma open_chan S c :
  cinv S c -> is_open c = true -> exists s ch,
    S !! channel_ c = Some s /\ registered s /\ removed c = false /\ event_mask (s_events s) /\
    channel c = Ok ch /\ isReading ch = reading_ c /\
    isWriting ch = bool_decide (content (outputBuffer_ c) <> []) /\
    has_bits (s_events s) kReadEvent = reading_ c /\
    has_bits (s_events s) kWriteEvent = bool_decide (content (outputBuffer_ c) <> []).
Proof.
  intros Hc Ho. destruct (ci_chan _ _ Hc) as (s & Hs & Hst).
  destruct (chan_object _ _ _ (ci_loop _ _ Hc) Hs) as (Hm & ch & Hch & He).
  unfold chan_state in Hst. apply is_open_true in Ho.
  assert (Hst' : registered s /\ removed c = false /\ has_bits (s_events s) kReadEvent = reading_ c /\
      has_bits (s_events s) kWriteEvent = bool_decide (content (outputBuffer_ c) <> []))
    by (destruct Ho as [Ho|Ho]; by rewrite Ho in Hst).
  destruct Hst' as (Hr & Hrm & Hrd & Hwr). exists s, ch. unfold isReading, isWriting. rewrite He.
  repeat (split; [done|]). done.
Qed.

Lemma on_channel_update S (c : TcpConnection) s (f : Z -> Z) e :
  Loop.linv S (loop_ c) -> S !! channel_ c = Some s -> f (s_events s) = e -> can_update S s e ->
  exists l, on_channel (Loop.change_events f) c = Ok (with_loop l c) /\
    Loop.linv (<[channel_ c := updated s e]> S) l.
Proof.
  intros Hl Hs Hf Hcan. destruct (Loop.linv_update S (loop_ c) _ s e f Hl Hs Hf Hcan) as (l & Hu & Hl').
  exists l. unfold on_channel. by rewrite Hu.
Qed.

Lemma can_update_open S s e : registered s -> event_mask e -> (e <> 0 \/ s_status s = Watched) -> can_update S s e.
Proof.
  intros Hr Hm Hor. split; [done|]. destruct Hr as [-> | Hi]; [done|]. rewrite Hi in *.
  destruct Hor as [|Hw]; [done|]. congruence.
Qed.

Lemma watched_status S c s :
  cinv S c -> is_open c = true -> S !! channel_ c = Some s -> watched c -> s_status s = Watched.
Proof.
  intros Hc Ho Hs Hw. destruct (open_chan _ _ Hc Ho) as (s' & ch & Hs' & _ & _ & Hm & _ & _ & _ & Hr & Hwr).
  rewrite Hs in Hs'. injection Hs' as <-.
  destruct (co_entry _ _ _ (inv_common _ _ _ (Loop.l_inv _ _ (ci_loop _ _ Hc))) _ _ Hs) as (_ & _ & Hst).
  apply Hst. destruct (event_mask_bits _ Hm) as (_ & _ & _ & _ & _ & _ & _ & _ & Hb). apply Hb.
  rewrite Hr, Hwr. destruct Hw as [->|Hne]; [by left|right]. by apply bool_decide_eq_true.
Qed.

(** *** sendInLoop *)
Lemma ztake_rest (n : Z) (l : bytes) : ztake n l ++ zdrop (zlen (ztake n l)) l = l.
Proof.
  destruct (decide (n <= 0)) as [Hn|Hn].
  - assert (ztake n l = []) as -> by (unfold ztake; by replace (Z.to_nat n) with O by lia). done.
  - destruct (decide (n <= zlen l)).
    + rewrite zlen_ztake by lia. apply ztake_zdrop.
    + rewrite ztake_all by lia. rewrite zdrop_all by lia. by rewrite app_nil_r.
Qed.

Lemma zlen_ztake_le {A} n (l : list A) : zlen (ztake n l) <= zlen l.
Proof. unfold zlen, ztake. rewrite length_take. lia. Qed.

(** The tail of [sendInLoop]: the invariant holds but for the bytes about to be
    queued. *)
Lemma queue_rest_post S c ch rest remaining (HC : cinv S c) s :
  is_open c = true -> shut c = false -> channel c = Ok ch -> S !! channel_ c = Some s ->
  registered s -> event_mask (s_events s) ->
  has_bits (s_events s) kReadEvent = reading_ c -> isWriting ch = has_bits (s_events s) kWriteEvent ->
  zlen rest <= vector_max_size -> rest <> [] ->
  post (fun c' => exists S', cinv S' c' /\ state_ c' = state_ c) (eq LengthError)
    (queue_rest ch remaining rest (with_accepted (accepted c ++ rest) c)).
Proof.
  intros Ho Hsh Hch Hs Hr Hm Hrd Hwr Hsz Hne. unfold queue_rest. cbn zeta.
  set (c1 := if _ && _ && _ then _ else _).
  assert (E : outputBuffer_ c1 = outputBuffer_ c) by (unfold c1; by destruct (_ && _ && _)).
  assert (Hc1 : forall out, wf out -> content out = content (outputBuffer_ c) ++ rest ->
    forall S' l, Loop.linv S' l -> (exists s', S' !! channel_ c = Some s' /\ registered s' /\
      has_bits (s_events s') kReadEvent = reading_ c /\ has_bits (s_events s') kWriteEvent = true) ->
    cinv S' (with_loop l (with_output out c1))).
  { intros out Hwo Hco S' l Hl (s' & Hs' & Hr' & Hrd' & Hwr').
    assert (Hnil : content out <> []) by (rewrite Hco; by destruct (content (outputBuffer_ c)), rest).
    assert (Hst : state_ c1 = state_ c /\ channel_ c1 = channel_ c /\ reading_ c1 = reading_ c /\
      removed c1 = removed c /\ shut c1 = false /\ wire c1 = wire c /\ accepted c1 = accepted c ++ rest /\
      inputBuffer_ c1 = inputBuffer_ c /\ taken c1 = taken c /\ received c1 = received c /\
      ups c1 = ups c /\ downs c1 = downs c /\ closes c1 = closes c /\ Forall (functor_ok (state_ c)) (functors c1)).
    { unfold c1. pose proof (ci_functors _ _ HC). destruct (_ && _ && _); simpl; repeat (split; [done|]); [|done].
      apply Forall_app. split; [done|]. by repeat constructor. }
    destruct Hst as (E1 & E2 & E3 & E4 & E5 & E6 & E7 & E8 & E9 & E10 & E11 & E12 & E13 & Hfun).
    assert (Hrm : removed c = false).
    { destruct (removed c) eqn:Erm; [|done]. pose proof (ci_removed _ _ HC Erm).
      apply is_open_true in Ho as [Ho|Ho]; congruence. }
    destruct HC as [_ _ Hin _ Hsent Hrecv _ _ Hup Hdn Hcl _].
    constructor; simpl; rewrite ?E1, ?E2, ?E3, ?E4, ?E5, ?E6, ?E7, ?E8, ?E9, ?E10, ?E11, ?E12, ?E13;
      try done; try congruence.
    - exists s'. split; [done|]. unfold chan_state. simpl. rewrite E1, E3, E4.
      rewrite Hwr', bool_decide_eq_true_2 by done.
      apply is_open_true in Ho as [-> | ->]; done.
    - by rewrite Hco, (assoc_L (++)), Hsent. }
  eapply post_bind; [rewrite E; apply append_post; [apply HC|done]|].
  intros out _ (Hwo & Hco). rewrite Hwr.
  destruct (has_bits (s_events s) kWriteEvent) eqn:Hw.
  - simpl. exists S. split; [|unfold c1; by destruct (_ && _ && _)].
    pose proof (Hc1 out Hwo Hco S (loop_ c) (ci_loop _ _ HC)) as Hci.
    replace (with_output out c1) with (with_loop (loop_ c) (with_output out c1)); [apply Hci; eauto 10|].
    unfold c1. by destruct (_ && _ && _).
  - simpl. assert (Hloop : loop_ (with_output out c1) = loop_ c /\ channel_ (with_output out c1) = channel_ c)
      by (unfold c1; by destruct (_ && _ && _)).
    destruct Hloop as [El Ec].
    destruct (event_mask_ops _ Hm) as (_ & _ & Hme & _ & _ & Hne0).
    destruct (event_mask_bits _ Hm) as (_ & _ & _ & _ & Hb1 & Hb2 & _).
    destruct (on_channel_update S (with_output out c1) s write_enabled (write_enabled (s_events s)))
      as (l & Hu & Hl); [rewrite El; apply HC|by rewrite Ec|done|by apply can_update_open; auto|].
    unfold Loop.enableWriting. rewrite Hu. simpl. rewrite Ec in Hl. eexists. split.
    + apply Hc1; [done..|]. exists (updated s (write_enabled (s_events s))). rewrite lookup_insert_eq.
      split; [done|]. split; [apply updated_registered|]. simpl. split; [congruence|done].
    + unfold c1. by destruct (_ && _ && _).
Qed.

Lemma cinv_queue S c f : cinv S c -> functor_ok (state_ c) f -> cinv S (queueInLoop f c).
Proof.
  intros [] Hf. constructor; simpl; try done. apply Forall_app. split; [done|]. by repeat constructor.
Qed.

(** Bytes that went straight to the socket. *)
Lemma cinv_wrote S c w :
  cinv S c -> content (outputBuffer_ c) = [] -> shut c = false ->
  cinv S (with_accepted (accepted c ++ w) (with_socket (wire c ++ w) false c)).
Proof.
  intros [] Hn Hs. constructor; simpl; try done.
  rewrite <- ci_sent0, Hn. by rewrite !app_nil_r.
Qed.

Lemma sendInLoop_post S c answer data :
  cinv S c -> state_ c <> kConnecting -> zlen data <= vector_max_size ->
  post (fun c' => exists S', cinv S' c' /\ state_ c' = state_ c) (eq LengthError) (sendInLoop answer data c).
Proof.
  intros Hc Hnc Hsz. unfold sendInLoop. pose proof (zlen_nonneg data) as Hd0.
  destruct (disconnected c) eqn:Hdis; [simpl; eauto|].
  assert (Ho : is_open c = true).
  { apply is_open_true. apply bool_decide_eq_false in Hdis. destruct (state_ c); auto; done. }
  destruct (open_chan _ _ Hc Ho) as (s & ch & Hs & Hr & Hrm & Hm & Hch & Hrd & Hwr & Hb1 & Hb2).
  rewrite Hch. cbn [mbind outcome_bind]. unfold try_write. rewrite (readable_nil _ (ci_output _ _ Hc)), Hwr.
  assert (Hwr' : isWriting ch = has_bits (s_events s) kWriteEvent) by congruence.
  destruct (decide (content (outputBuffer_ c) = [])) as [Hnil|Hnn].
  - rewrite (bool_decide_eq_false_2 (_ <> [])) by naive_solver. rewrite bool_decide_eq_true_2 by done.
    cbn [negb andb]. unfold sock_write. destruct (shut c) eqn:Hsh.
    + (* EPIPE *)
      cbn [c_assert mbind outcome_bind]. rewrite (proj2 (Z.leb_le _ _)) by lia. simpl. eauto.
    + destruct answer as [n|errno].
      * set (w := ztake n data). pose proof (zlen_ztake_le n data) as Hw. fold w in Hw.
        pose proof (zlen_nonneg w) as Hw0. cbn [c_assert mbind outcome_bind].
        rewrite (proj2 (Z.leb_le _ _)) by lia. cbn [c_assert mbind outcome_bind negb andb].
        pose proof (ztake_rest n data) as Hsplit. fold w in Hsplit.
        assert (Hmid : cinv S (with_accepted (accepted c ++ w) (with_socket (wire c ++ w) false c)))
          by (by apply cinv_wrote).
        destruct (Z.eqb_spec (zlen data - zlen w) 0) as [Hz|Hz].
        -- assert (Hall : w = data) by (rewrite zdrop_all, app_nil_r in Hsplit by lia; exact Hsplit).
           rewrite (proj2 (Z.ltb_ge _ _)) by lia. simpl. exists S. rewrite Hall in Hmid |- *.
           destruct (hasWriteComplete c); simpl; [|done]. split; [|done].
           exact (cinv_queue _ _ FWriteComplete Hmid I).
        -- cbn [andb]. rewrite (proj2 (Z.ltb_lt _ _)) by lia.
           assert (Hrest : zlen (zdrop (zlen w) data) = zlen data - zlen w) by (apply zlen_zdrop; lia).
           pose proof (queue_rest_post S _ ch (zdrop (zlen w) data) (zlen data - zlen w) Hmid s) as Hq.
           simpl in Hq. rewrite <- (assoc_L (++)), Hsplit in Hq.
           apply Hq; try done; [lia|]. intros E. rewrite E in Hrest.
           change (zlen (@nil ascii)) with 0 in Hrest. lia.
      * cbn [c_assert mbind outcome_bind]. rewrite (proj2 (Z.leb_le _ _)) by lia. cbn [c_assert mbind outcome_bind].
        destruct (negb (errno =? EWOULDBLOCK) && _) eqn:Hf; simpl; [eauto|].
        destruct (Z.ltb_spec 0 (zlen data)) as [Hpos|Hz].
        -- rewrite zdrop_0. eapply queue_rest_post; eauto. intros ->. change (zlen (@nil ascii)) with 0 in Hpos. lia.
        -- assert (data = []) as -> by (apply zlen_0_nil; lia). rewrite app_nil_r. exists S. split; [|done].
           destruct c; exact Hc.
  - rewrite (bool_decide_eq_true_2 (_ <> [])) by done. cbn [negb andb c_assert mbind outcome_bind].
    rewrite (proj2 (Z.leb_le _ _)) by lia. cbn [c_assert mbind outcome_bind].
    assert (Hsh : shut c = false).
    { destruct (shut c) eqn:E; [|done]. destruct (ci_shut _ _ Hc E) as [Hx|[_ Hx]]; [|done].
      apply is_open_true in Ho as [Ho|Ho]; congruence. }
    destruct (Z.ltb_spec 0 (zlen data)) as [Hpos|Hz].
    + rewrite zdrop_0. eapply queue_rest_post; eauto. intros ->. change (zlen (@nil ascii)) with 0 in Hpos. lia.
    + assert (data = []) as -> by (apply zlen_0_nil; lia). rewrite app_nil_r. exists S. split; [|done].
      destruct c; exact Hc.
Qed.

(** *** Reading on and off, shutdown *)
Lemma startRead_post S c :
  cinv S c -> is_open c = true ->
  post (fun c' => exists S', cinv S' c' /\ state_ c' = state_ c) (eq LengthError) (startReadInLoop c).
Proof.
  intros Hc Ho. destruct (open_chan _ _ Hc Ho) as (s & ch & Hs & Hr & Hrm & Hm & Hch & Hrd & Hwr & Hb1 & Hb2).
  unfold startReadInLoop. rewrite Hch. cbn [mbind outcome_bind]. rewrite Hrd.
  destruct (reading_ c) eqn:Erd; simpl; [eauto|].
  destruct (event_mask_ops _ Hm) as (Hme & _ & _ & _ & Hne0 & _).
  destruct (event_mask_bits _ Hm) as (B1 & B2 & _).
  destruct (on_channel_update S c s read_enabled _ (ci_loop _ _ Hc) Hs eq_refl) as (l & Hu & Hl);
    [by apply can_update_open; auto|].
  unfold Loop.enableReading. rewrite Hu. simpl. eexists. split; [|done].
  destruct Hc. constructor; simpl; try done. eexists. rewrite lookup_insert_eq. split; [done|].
  unfold chan_state. simpl. apply is_open_true in Ho.
  destruct Ho as [-> | ->]; (split; [apply updated_registered|]); simpl; rewrite B1, B2, Hb2; done.
Qed.

Lemma stopRead_post S c :
  cinv S c -> is_open c = true ->
  post (fun c' => exists S', cinv S' c' /\ state_ c' = state_ c) (eq LengthError) (stopReadInLoop c).
Proof.
  intros Hc Ho. destruct (open_chan _ _ Hc Ho) as (s & ch & Hs & Hr & Hrm & Hm & Hch & Hrd & Hwr & Hb1 & Hb2).
  unfold stopReadInLoop. rewrite Hch. cbn [mbind outcome_bind]. rewrite Hrd.
  destruct (reading_ c) eqn:Erd; simpl; [|eauto].
  destruct (event_mask_ops _ Hm) as (_ & Hme & _). destruct (event_mask_bits _ Hm) as (_ & _ & B1 & B2 & _).
  assert (Hw : s_status s = Watched) by (eapply watched_status; eauto; by left).
  destruct (on_channel_update S c s read_disabled _ (ci_loop _ _ Hc) Hs eq_refl) as (l & Hu & Hl);
    [by apply can_update_open; auto|].
  unfold Loop.disableReading. rewrite Hu. simpl. eexists. split; [|done].
  destruct Hc. constructor; simpl; try done. eexists. rewrite lookup_insert_eq. split; [done|].
  unfold chan_state. simpl. apply is_open_true in Ho.
  destruct Ho as [-> | ->]; (split; [apply updated_registered|]); simpl; rewrite B1, B2, Hb2; done.
Qed.

(** In a connection being closed the write side is shut once the output is out. *)
Lemma shutdownInLoop_post S c :
  cinv S c -> state_ c = kDisconnecting \/ state_ c = kDisconnected ->
  post (fun c' => cinv S c' /\ state_ c' = state_ c /\
          (state_ c = kDisconnecting -> shut c' = bool_decide (content (outputBuffer_ c) = []) || shut c))
    (eq LengthError) (shutdownInLoop c).
Proof.
  intros Hc Hor. unfold shutdownInLoop. destruct Hor as [Hst|Hst].
  - assert (Ho : is_open c = true) by (apply is_open_true; auto).
    destruct (open_chan _ _ Hc Ho) as (s & ch & Hs & _ & _ & _ & Hch & _ & Hwr & _).
    rewrite Hch. simpl. rewrite Hwr.
    destruct (decide (content (outputBuffer_ c) = [])) as [Hnil|Hnn].
    + rewrite (bool_decide_eq_false_2 (_ <> [])) by naive_solver. simpl. rewrite bool_decide_eq_true_2 by done.
      split; [|done]. destruct Hc. constructor; simpl; try done. intros _. right. done.
    + rewrite (bool_decide_eq_true_2 (_ <> [])) by done. simpl. rewrite (bool_decide_eq_false_2 (_ = [])) by done.
      split; [done|]. split; [done|]. by destruct (shut c).
  - destruct (ci_chan _ _ Hc) as (s & Hs & _). destruct (chan_object _ _ _ (ci_loop _ _ Hc) Hs) as (_ & ch & Hch & _).
    rewrite Hch. simpl. destruct (isWriting ch); simpl; [split; [done|]; split; [done|]; congruence|].
    split; [|split; [done|congruence]]. destruct Hc. constructor; simpl; try done. intros _. by left.
Qed.

(** Sending does not touch the input side. *)
Lemma on_channel_frame op (c c' : TcpConnection) :
  on_channel op c = Ok c' -> exists l, c' = with_loop l c.
Proof. unfold on_channel. intros H1. inv_ok. subst. eauto. Qed.

Lemma sendInLoop_input answer data (c : TcpConnection) :
  post (fun c' => taken c' = taken c /\ inputBuffer_ c' = inputBuffer_ c) (fun _ => True)
    (sendInLoop answer data c).
Proof.
  unfold sendInLoop. destruct (disconnected c); [done|].
  destruct (channel c) as [ch|]; [|done]. cbn [mbind outcome_bind].
  destruct (try_write ch answer data c) as [[[nw rem] fe] c1] eqn:Ew.
  assert (H1 : taken c1 = taken c /\ inputBuffer_ c1 = inputBuffer_ c).
  { unfold try_write, sock_write in Ew. repeat case_match; simplify_eq; done. }
  destruct H1 as [Ht Hi]. destruct (rem <=? zlen data); [|done]. cbn [c_assert mbind outcome_bind].
  set (c2 := if fe then c1 else _).
  assert (H2 : taken c2 = taken c /\ inputBuffer_ c2 = inputBuffer_ c) by (unfold c2; by destruct fe).
  destruct (negb fe && (0 <? rem)); [|exact H2]. unfold queue_rest. cbn zeta. clearbody c2.
  set (c3 := if _ && _ && _ then _ else _).
  assert (H3 : taken c3 = taken c /\ inputBuffer_ c3 = inputBuffer_ c) by (unfold c3; by destruct (_ && _ && _)).
  clearbody c3. destruct (append _ _) as [out|]; [|done]. cbn [mbind outcome_bind].
  destruct (negb (isWriting ch)); [|exact H3].
  destruct (on_channel _ _) as [c4|] eqn:E; [|done]. apply on_channel_frame in E as (l & ->). exact H3.
Qed.

Lemma cinv_disconnecting S c : cinv S c -> is_open c = true -> cinv S (setState kDisconnecting c).
Proof.
  intros Hc Ho. destruct (open_chan _ _ Hc Ho) as (s & ch & Hs & Hr & Hrm & _ & _ & _ & _ & Hb1 & Hb2).
  apply is_open_true in Ho. destruct Hc. constructor; simpl; try done.
  - by exists s.
  - intros Hsh. destruct (ci_shut0 Hsh) as [?|[_ ?]]; [destruct Ho; congruence|by right].
  - eapply functor_ok_mono; [|done]. auto.
  - rewrite ci_ups0. by destruct Ho as [-> | ->].
  - rewrite ci_downs0. by destruct Ho as [-> | ->].
  - congruence.
Qed.

Lemma shutdown_post S c :
  cinv S c ->
  post (fun c' => cinv S c' /\ (is_open c = true -> is_open c' = true) /\ (is_open c = false -> c' = c))
    (eq LengthError) (shutdown true c).
Proof.
  intros Hc. unfold shutdown. destruct (connected c) eqn:Hcn; [|by simpl].
  apply connected_true in Hcn. assert (Ho : is_open c = true) by (apply is_open_true; auto).
  eapply post_mono; [apply shutdownInLoop_post; [by apply cinv_disconnecting|by left]|].
  intros c' (Hc' & Hst & _). split; [done|]. simpl in Hst. split; [intros _; apply is_open_true; auto|congruence].
Qed.

Lemma cinv_forceClose S c : cinv S c -> cinv S (forceClose c) /\ (is_open c = is_open (forceClose c)).
Proof.
  intros Hc. unfold forceClose. destruct (is_open c) eqn:Ho; [|done].
  split; [|done]. apply cinv_queue; [by apply cinv_disconnecting|done].
Qed.

Lemma cinv_delayed S c n : cinv S c -> cinv S (with_delayed n c).
Proof. intros []. by constructor. Qed.

(** The input buffer gives up a prefix. *)
Lemma cinv_take S c b t :
  cinv S c -> wf b -> t ++ content b = taken c ++ content (inputBuffer_ c) -> cinv S (with_input b t c).
Proof. intros [] Hb Ht. constructor; simpl; try done. congruence. Qed.

Lemma retrieveAsString_take n b :
  wf b -> 0 <= n <= readableBytes b ->
  exists b', retrieveAsString n b = Ok (ztake n (content b), b') /\ wf b' /\ content b' = zdrop n (content b).
Proof.
  intros Hb Hn. unfold retrieveAsString. rewrite (proj2 (Z.leb_le _ _)) by lia. simpl.
  destruct (retrieve_spec n b Hb Hn) as (b' & -> & Hb' & Hc & _). exists b'. simpl.
  rewrite zslice_peek by done. done.
Qed.

Lemma take_post S c n :
  cinv S c ->
  post (fun c' => cinv S c' /\ state_ c' = state_ c /\ closes c' = closes c /\ removed c' = removed c)
    (eq LengthError) (user c (UTake n)).
Proof.
  intros Hc. pose proof (ci_input _ _ Hc) as Hin.
  assert (0 <= readableBytes (inputBuffer_ c)) by (rewrite <- content_length by done; apply zlen_nonneg).
  cbn [user]. destruct (retrieveAsString_take (Z.max 0 (Z.min n (readableBytes (inputBuffer_ c)))) (inputBuffer_ c) Hin)
    as (b' & -> & Hb' & Hcb); [lia|]. simpl. split; [|done].
  apply cinv_take; [done..|]. by rewrite Hcb, <- (assoc_L (++)), ztake_zdrop.
Qed.

(** Messages a user passes to send. *)
Definition act_ok (a : user_action) : Prop :=
  match a with USend message _ => zlen message <= vector_max_size | _ => True end.

(** Calls that switch reading on and off. *)
Definition switches_reading (a : user_action) : bool :=
  match a with UStartRead | UStopRead => true | _ => false end.

Lemma user_open_post S c a :
  cinv S c -> is_open c = true -> act_ok a ->
  post (fun c' => exists S', cinv S' c' /\ is_open c' = true) (eq LengthError) (user c a).
Proof.
  intros Hc Ho Ha.
  assert (Hopen : forall c', state_ c' = state_ c -> is_open c' = true)
    by (intros c' E; unfold is_open in *; by rewrite E).
  assert (Hnc : state_ c <> kConnecting) by (apply is_open_true in Ho; destruct Ho; congruence).
  destruct a as [message answer|answer|n| | | | | ].
  - simpl in *. unfold send. destruct (connected c); [|simpl; eauto].
    eapply post_mono; [by apply (sendInLoop_post S)|]. intros c' (S' & ? & ?). eauto.
  - cbn [user]. unfold sendBuffer. destruct (connected c) eqn:Hcn; [|simpl; eauto].
    pose proof (ci_input _ _ Hc) as Hin.
    assert (Hsz : zlen (content (inputBuffer_ c)) <= vector_max_size)
      by (rewrite content_length, readableBytes_wf by done; wf_lia).
    apply (post_bind (fun r => exists S' c', r = (retrieveAll (inputBuffer_ c), c') /\ cinv S' c' /\ state_ c' = state_ c /\
        taken c' = taken c /\ inputBuffer_ c' = inputBuffer_ c)).
    + eapply post_bind; [eapply post_conj; [apply (sendInLoop_post S c answer _ Hc Hnc Hsz)|
        apply (sendInLoop_input answer (content (inputBuffer_ c)) c)]|].
      intros c' _ ((S' & Hc' & Hst) & Ht & Hi). simpl. eauto 10.
    + intros r _ (S' & c' & -> & Hc' & Hst & Ht & Hi). simpl. exists S'. split; [|by apply Hopen].
      apply cinv_take; [done|by apply retrieveAll_wf|]. rewrite retrieveAll_content, app_nil_r. by rewrite Ht, Hi.
  - eapply post_mono; [by apply (take_post S)|]. intros c' (? & ? & _). eauto.
  - eapply post_mono; [by apply (shutdown_post S)|]. intros c' (? & ? & _). eauto.
  - simpl. destruct (cinv_forceClose S c Hc). exists S. split; [done|congruence].
  - simpl. exists S. unfold forceCloseWithDelay. rewrite Ho.
    split; [by apply cinv_delayed, cinv_disconnecting|done].
  - eapply post_mono; [by apply (startRead_post S)|]. intros c' (S' & ? & ?). eauto.
  - eapply post_mono; [by apply (stopRead_post S)|]. intros c' (S' & ? & ?). eauto.
Qed.

Lemma users_open_post acts S c :
  cinv S c -> is_open c = true -> Forall act_ok acts ->
  post (fun c' => exists S', cinv S' c' /\ is_open c' = true) (eq LengthError) (foldM user c acts).
Proof.
  revert S c; induction acts as [|a acts IH]; intros S c Hc Ho Hf; simpl; [eauto|].
  apply Forall_cons in Hf as [Ha Hf]. eapply post_bind; [by apply (user_open_post S)|].
  intros c' _ (S' & Hc' & Ho'). by eapply IH.
Qed.

(** After the close nothing a callback may call does more than take input. *)
Lemma user_closed_post S c a :
  cinv S c -> state_ c = kDisconnected -> switches_reading a = false ->
  post (fun c' => cinv S c' /\ state_ c' = kDisconnected /\ closes c' = closes c /\ removed c' = removed c)
    (eq LengthError) (user c a).
Proof.
  intros Hc Hst Hsw.
  assert (Hcn : connected c = false) by (unfold connected; rewrite Hst; done).
  assert (Ho : is_open c = false) by (unfold is_open; rewrite Hst; done).
  destruct a as [message answer|answer|n| | | | | ]; try discriminate Hsw.
  - cbn [user]. unfold send. by rewrite Hcn.
  - cbn [user]. unfold sendBuffer. by rewrite Hcn.
  - eapply post_mono; [by apply take_post|]. intros c' (Hx & Hy & Hz & Hw). split; [exact Hx|]. split; [congruence|done].
  - cbn [user]. unfold shutdown. by rewrite Hcn.
  - cbn [user]. unfold forceClose. by rewrite Ho.
  - cbn [user]. unfold forceCloseWithDelay. by rewrite Ho.
Qed.

Lemma users_closed_post acts S c :
  cinv S c -> state_ c = kDisconnected -> Forall (fun a => switches_reading a = false) acts ->
  post (fun c' => cinv S c' /\ state_ c' = kDisconnected /\ closes c' = closes c /\ removed c' = removed c)
    (eq LengthError) (foldM user c acts).
Proof.
  revert c; induction acts as [|a acts IH]; intros c Hc Ho Hf; simpl; [done|].
  apply Forall_cons in Hf as [Ha Hf]. eapply post_bind; [by apply (user_closed_post S)|].
  intros c' _ (Hc' & Ho' & <- & <-). by apply IH.
Qed.

(** *** Closing *)
Lemma enter_closed S c :
  cinv S c -> is_open c = true -> watched c ->
  exists l S', on_channel Loop.disableAll (setState kDisconnected c) = Ok (with_loop l (setState kDisconnected c)) /\
    cinv S' (with_calls (ups c) (downs c + 1) (closes c) (with_loop l (setState kDisconnected c))) /\ closes c = 0.
Proof.
  intros Hc Ho Hw. destruct (open_chan _ _ Hc Ho) as (s & ch & Hs & Hr & Hrm & Hm & _).
  pose proof (watched_status _ _ _ Hc Ho Hs Hw) as Hst.
  destruct (on_channel_update S (setState kDisconnected c) s (fun _ => kNoneEvent) kNoneEvent (ci_loop _ _ Hc) Hs eq_refl)
    as (l & Hu & Hl); [apply can_update_open; [done|by left|by right]|].
  exists l, (<[channel_ c := updated s kNoneEvent]> S). split; [exact Hu|].
  apply is_open_true in Ho. assert (Hd : downs c = 0) by (rewrite (ci_downs _ _ Hc); destruct Ho as [-> | ->]; done).
  assert (Hu1 : ups c = 1) by (rewrite (ci_ups _ _ Hc); destruct Ho as [-> | ->]; done).
  destruct Hc. rewrite Hd in *. split; [|lia]. constructor; simpl; try done; [|by left|eapply functor_ok_mono; [|done]; auto|lia].
  eexists. rewrite lookup_insert_eq. split; [done|]. unfold chan_state; simpl. by rewrite Hrm.
Qed.

Definition down_ok (acts : list user_action) : Prop := Forall (fun a => switches_reading a = false) acts.

Lemma handleClose_post S c acts :
  cinv S c -> is_open c = true -> watched c -> down_ok acts ->
  post (fun c' => exists S', cinv S' c' /\ state_ c' = kDisconnected) (eq LengthError) (handleClose acts c).
Proof.
  intros Hc Ho Hw Ha. unfold handleClose. rewrite Ho. cbn [c_assert mbind outcome_bind].
  destruct (enter_closed S c Hc Ho Hw) as (l & S' & Hu & Hc' & Hk). rewrite Hu. cbn [mbind outcome_bind].
  eapply post_bind; [unfold connectionCallback; apply (users_closed_post acts S' _ Hc'); [done|exact Ha]|].
  intros c' _ (Hc1 & Hst & Hcl & Hrm). simpl in Hcl. exists S'. split; [|done].
  pose proof (ci_downs _ _ Hc1) as Hd. rewrite Hst in Hd. simpl in Hd.
  destruct Hc1. constructor; simpl; try done. lia.
Qed.

Lemma linv_tie S (l : Loop.EventLoop P) ch c0 o :
  Loop.linv S l -> Loop.heap l !! ch = Some c0 -> Loop.linv S (Loop.set_channel ch (tie o c0) l).
Proof.
  intros [Hi Ha Hh] Hc. constructor; simpl; [|intros q s c Hs Hq|done].
  - eapply inv_core; [exact Hi|]. intros q. by eapply Loop.edit_core.
  - destruct (decide (q = ch)) as [->|].
    + rewrite lookup_insert_eq in Hq. injection Hq as <-. simpl. by eapply Ha.
    + rewrite lookup_insert_ne in Hq by done. by eapply Ha.
Qed.

Lemma established_post S c acts :
  cinv S c -> state_ c = kConnecting -> Forall act_ok acts ->
  post (fun c' => exists S', cinv S' c' /\ is_open c' = true) (eq LengthError) (connectEstablished acts c).
Proof.
  intros Hc Hst Ha. unfold connectEstablished. rewrite bool_decide_eq_true_2 by done. cbn [c_assert mbind outcome_bind].
  destruct (ci_chan _ _ Hc) as (s & Hs & Hcs). unfold chan_state in Hcs. rewrite Hst in Hcs.
  destruct Hcs as (Hfr & Hfree & Hnil & Hrd).
  destruct (chan_object _ _ _ (ci_loop _ _ Hc) Hs) as (Hm & ch & Hch & He).
  unfold tie_channel. change (channel (setState kConnected c)) with (channel c). rewrite Hch. cbn [mbind outcome_bind].
  assert (Hlk : Loop.heap (loop_ c) !! channel_ c = Some ch).
  { unfold channel, deref in Hch. destruct (Loop.heap (loop_ c) !! channel_ c); simpl in Hch; congruence. }
  set (c1 := with_loop _ _).
  assert (Hl1 : Loop.linv S (loop_ c1)) by (apply linv_tie; [apply Hc|done]).
  assert (E0 : s_events s = 0) by (apply unwatched_events;
    [eapply (co_entry _ _ _ (inv_common _ _ _ (Loop.l_inv _ _ Hl1))); exact Hs|congruence]).
  destruct (on_channel_update S c1 s read_enabled (read_enabled (s_events s)) Hl1 Hs eq_refl) as (l & Hu & Hl).
  { rewrite E0. split; [right; left; reflexivity|]. rewrite Hfr. done. }
  unfold Loop.enableReading. rewrite Hu. cbn [mbind outcome_bind]. unfold connectionCallback. simpl.
  eapply users_open_post; [|done|done].
  pose proof (ci_ups _ _ Hc) as Hup. rewrite Hst in Hup. simpl in Hup.
  pose proof (ci_downs _ _ Hc) as Hdn. rewrite Hst in Hdn. simpl in Hdn.
  assert (Hrm : removed c = false).
  { destruct (removed c) eqn:E; [|done]. apply (ci_removed _ _ Hc) in E. congruence. }
  destruct Hc. constructor; simpl; try done; [| | |lia|congruence].
  - eexists. rewrite lookup_insert_eq. split; [done|]. unfold chan_state; simpl.
    split; [apply updated_registered|]. rewrite Hrm, E0, Hnil, Hrd. done.
  - intros Hsh. destruct (ci_shut0 Hsh) as [?|[? _]]; congruence.
  - eapply functor_ok_mono; [|done]. intros [?|?]; congruence.
Qed.

Lemma remove_post S c :
  cinv S c -> state_ c = kDisconnected -> removed c = false ->
  exists S' c', on_channel Loop.remove c = Ok c' /\ cinv S' (with_removed true c').
Proof.
  intros Hc Hst Hrm. destruct (ci_chan _ _ Hc) as (s & Hs & Hcs). unfold chan_state in Hcs.
  rewrite Hst, Hrm in Hcs. destruct (Loop.linv_remove S (loop_ c) _ s (ci_loop _ _ Hc) Hs Hcs) as (l & Hu & Hl).
  eexists _, (with_loop l c). unfold on_channel. rewrite Hu. split; [done|].
  destruct Hc. constructor; simpl; try done. eexists. rewrite lookup_insert_eq. split; [done|].
  unfold chan_state; simpl. by rewrite Hst.
Qed.

Lemma destroyed_post S c acts :
  cinv S c -> removed c = false -> (state_ c = kDisconnected \/ state_ c = kConnected /\ watched c) -> down_ok acts ->
  post (fun c' => exists S', cinv S' c') (eq LengthError) (connectDestroyed acts c).
Proof.
  intros Hc Hrm Hor Ha. unfold connectDestroyed.
  apply (post_bind (fun c1 => exists S1, cinv S1 c1 /\ state_ c1 = kDisconnected /\ removed c1 = false)).
  - destruct Hor as [Hst|[Hst Hw]].
    + unfold connected. rewrite Hst. simpl. eauto.
    + assert (Ho : is_open c = true) by (apply is_open_true; auto).
      rewrite (proj2 (connected_true c) Hst).
      destruct (enter_closed S c Hc Ho Hw) as (l & S' & Hu & Hc' & Hk). rewrite Hu. cbn [mbind outcome_bind].
      unfold connectionCallback.
      eapply post_mono; [apply (users_closed_post acts S' _ Hc'); [done|exact Ha]|].
      intros c' (Hc1 & Hst1 & _ & Hrm1). eauto 10.
  - intros c1 _ (S1 & Hc1 & Hst1 & Hrm1). destruct (remove_post S1 c1 Hc1 Hst1 Hrm1) as (S2 & c2 & Hu & Hc2).
    rewrite Hu. simpl. eauto.
Qed.

(** *** I/O events *)
Definition readv_fits (readv : Z -> io_result) : Prop :=
  forall room data, 0 <= room -> readv room = IoBytes data -> zlen data <= room.

Lemma handleRead_post S c readv acts down :
  cinv S c -> is_open c = true -> reading_ c = true -> readv_fits readv -> Forall act_ok acts -> down_ok down ->
  post (fun c' => exists S', cinv S' c') (eq LengthError) (handleRead readv acts down c).
Proof.
  intros Hc Ho Hrd Hfit Ha Hd. unfold handleRead. pose proof (ci_input _ _ Hc) as Hin.
  pose proof (readFd_post readv Hfit (inputBuffer_ c) Hin) as Hrf.
  destruct (readv _) as [errno|data].
  - rewrite Hrf. simpl. eauto.
  - eapply post_bind; [exact Hrf|]. intros r _ (b' & -> & Hb' & Hcb). pose proof (zlen_nonneg data).
    cbn iota beta. destruct (Z.ltb_spec 0 (zlen data)) as [Hpos|Hz].
    + unfold messageCallback. eapply post_mono; [eapply (users_open_post acts S)|];
        [|done|done|intros c' (S' & ? & _); eauto].
      rewrite Hcb, zdrop_app_exact by done. destruct Hc. constructor; simpl; try done.
      by rewrite Hcb, (assoc_L (++)), ci_received0.
    + assert (data = []) as -> by (apply zlen_0_nil; lia). rewrite app_nil_r in Hcb. simpl.
      eapply post_mono; [eapply (handleClose_post S)|intros c' (S' & ? & _); eauto]; [|done|by left|done].
      destruct Hc. constructor; simpl; try done. congruence.
Qed.

Lemma not_open_quiet S c : cinv S c -> is_open c = false -> exists ch, channel c = Ok ch /\ isWriting ch = false.
Proof.
  intros Hc Ho. destruct (ci_chan _ _ Hc) as (s & Hs & Hcs).
  destruct (chan_object _ _ _ (ci_loop _ _ Hc) Hs) as (Hm & ch & Hch & He). exists ch. split; [done|].
  assert (Hnw : s_status s <> Watched).
  { unfold chan_state in Hcs. unfold is_open in Ho. destruct (state_ c); try discriminate Ho.
    - rewrite Hcs. by destruct (removed c).
    - destruct Hcs as [-> _]. done. }
  unfold isWriting. rewrite He, unwatched_events; [done| |done].
  eapply (co_entry _ _ _ (inv_common _ _ _ (Loop.l_inv _ _ (ci_loop _ _ Hc)))); exact Hs.
Qed.

(** The output went on the wire up to [rest]. *)
Lemma cinv_drained S c w out :
  cinv S c -> is_open c = true -> wf out -> content (outputBuffer_ c) = w ++ content out -> shut c = false ->
  content out <> [] -> cinv S (with_output out (with_socket (wire c ++ w) false c)).
Proof.
  intros Hc Ho Hwo Hsplit Hsh Hne. destruct (open_chan _ _ Hc Ho) as (s & ch & Hs & Hr & Hrm & _ & _ & _ & _ & Hb1 & Hb2).
  apply is_open_true in Ho. destruct Hc. constructor; simpl; try done.
  - exists s. split; [done|]. unfold chan_state; simpl.
    rewrite (bool_decide_eq_true_2 (content out <> [])) by done.
    rewrite bool_decide_eq_true_2 in Hb2 by (rewrite Hsplit; by destruct w, (content out)).
    destruct Ho as [-> | ->]; done.
  - by rewrite <- (assoc_L (++)), <- Hsplit.
Qed.

Lemma drained_disable S c w out :
  cinv S c -> is_open c = true -> wf out -> content (outputBuffer_ c) = w -> w <> [] -> content out = [] ->
  shut c = false ->
  exists l S', on_channel Loop.disableWriting (with_output out (with_socket (wire c ++ w) false c)) =
    Ok (with_loop l (with_output out (with_socket (wire c ++ w) false c))) /\
    cinv S' (with_loop l (with_output out (with_socket (wire c ++ w) false c))).
Proof.
  intros Hc Ho Hwo Hw Hne Hnil Hsh.
  destruct (open_chan _ _ Hc Ho) as (s & ch & Hs & Hr & Hrm & Hm & _ & _ & _ & Hb1 & Hb2).
  pose proof (watched_status _ _ _ Hc Ho Hs ltac:(right; congruence)) as Hst.
  destruct (event_mask_ops _ Hm) as (_ & _ & _ & Hme & _).
  destruct (event_mask_bits _ Hm) as (_ & _ & _ & _ & _ & _ & B1 & B2 & _).
  destruct (on_channel_update S (with_output out (with_socket (wire c ++ w) false c)) s write_disabled
    (write_disabled (s_events s)) (ci_loop _ _ Hc) Hs eq_refl) as (l & Hu & Hl);
    [apply can_update_open; [done|done|by right]|].
  exists l. eexists. split; [exact Hu|]. apply is_open_true in Ho. destruct Hc. constructor; simpl; try done.
  - eexists. rewrite lookup_insert_eq. split; [done|]. unfold chan_state; simpl. rewrite Hnil.
    destruct Ho as [-> | ->]; (split; [apply updated_registered|]); simpl; rewrite B1, B2; done.
  - by rewrite Hnil, app_nil_r, <- ci_sent0, Hw.
Qed.

Lemma handleWrite_post S c answer :
  cinv S c -> post (fun c' => exists S', cinv S' c' /\ state_ c' = state_ c /\
    (state_ c = kDisconnecting -> content (outputBuffer_ c) <> [] -> content (outputBuffer_ c') = [] ->
     shut c' = true /\ wire c' = accepted c')) (eq LengthError) (handleWrite answer c).
Proof.
  intros Hc. unfold handleWrite. destruct (is_open c) eqn:Ho.
  2: { destruct (not_open_quiet S c Hc Ho) as (ch & -> & Hw). simpl. rewrite Hw. simpl. exists S. split; [done|].
       split; [done|]. intros E. unfold is_open in Ho. by rewrite E in Ho. }
  destruct (open_chan _ _ Hc Ho) as (s & ch & Hs & Hr & Hrm & Hm & Hch & Hrd & Hwr & Hb1 & Hb2).
  rewrite Hch. cbn [mbind outcome_bind]. rewrite Hwr. case_bool_decide as Hne; [|simpl; exists S; naive_solver].
  assert (Hsh : shut c = false).
  { destruct (shut c) eqn:E; [|done]. destruct (ci_shut _ _ Hc E) as [Hx|[_ Hx]]; [|done].
    apply is_open_true in Ho as [Ho|Ho]; congruence. }
  unfold sock_write. rewrite Hsh. destruct answer as [n|errno]; [|simpl; exists S; naive_solver].
  set (w := ztake n (content (outputBuffer_ c))). pose proof (zlen_ztake_le n (content (outputBuffer_ c))) as Hle.
  fold w in Hle. pose proof (ci_output _ _ Hc) as Hwo. rewrite content_length in Hle by done.
  pose proof (ztake_rest n (content (outputBuffer_ c))) as Hsplit. fold w in Hsplit.
  destruct (Z.ltb_spec 0 (zlen w)) as [Hpos|Hz].
  - destruct (retrieve_spec (zlen w) (outputBuffer_ c) Hwo ltac:(lia)) as (out & Hret & Hwf & Hco & _).
    simpl. rewrite Hret. cbn [mbind outcome_bind]. rewrite (readable_nil _ Hwf). case_bool_decide as Hnil.
    + assert (Hwall : content (outputBuffer_ c) = w) by (rewrite <- Hsplit at 1; by rewrite <- Hco, Hnil, app_nil_r).
      destruct (drained_disable S c w out Hc Ho Hwf Hwall ltac:(congruence) Hnil Hsh) as (l & S' & Hu & Hc').
      rewrite Hu. cbn [mbind outcome_bind]. simpl.
      set (c2 := with_loop l _) in *.
      set (c3 := if hasWriteComplete c then queueInLoop FWriteComplete c2 else c2).
      assert (Hc3 : cinv S' c3) by (unfold c3; destruct (hasWriteComplete c); [by apply cinv_queue|done]).
      assert (E3 : state_ c3 = state_ c /\ content (outputBuffer_ c3) = [] /\ wire c3 = wire c ++ w /\ accepted c3 = accepted c)
        by (unfold c3, c2; by destruct (hasWriteComplete c)).
      destruct E3 as (E3 & E4 & E5 & E6). rewrite E3. case_bool_decide as Hdg.
      * eapply post_mono; [apply shutdownInLoop_post; [exact Hc3|left; congruence]|].
        intros c' (Hcc & Hstc & Hshc). exists S'. split; [done|]. split; [congruence|]. intros _ _ Hn'.
        rewrite Hshc, bool_decide_eq_true_2 by congruence. split; [done|].
        by rewrite <- (ci_sent _ _ Hcc), Hn', app_nil_r.
      * simpl. exists S'. naive_solver.
    + simpl. exists S. split; [|naive_solver]. apply cinv_drained; try done. by rewrite Hco, Hsplit.
  - simpl. exists S. assert (Hwn : w = []) by (apply zlen_0_nil; pose proof (zlen_nonneg w); lia).
    split; [|naive_solver]. rewrite Hwn, app_nil_r.
    replace (with_socket (wire c) false c) with c; [done|]. rewrite <- Hsh. by destruct c.
Qed.

(** *** Runs *)

(** When an event may happen.  The poller reports only what the channel asked
    for; before [connectEstablished] nobody holds the connection.  Left out are
    calls that break an assertion (the theorems at the end of the file): switching
    reading after the close, a forced close of a channel with no events, and
    [connectDestroyed] of a connection being shut down. *)
Definition permitted (c : TcpConnection) (e : event) : Prop :=
  match e with
  | Established acts => state_ c = kConnecting /\ Forall act_ok acts
  | ReadReady readv acts down =>
      is_open c = true /\ reading_ c = true /\ readv_fits readv /\ Forall act_ok acts /\ down_ok down
  | CloseReady acts => is_open c = true /\ watched c /\ down_ok acts
  | RunFunctor _ acts =>
      state_ c <> kConnecting /\
      match functors c with
      | FForceClose :: _ => (is_open c = true -> watched c) /\ down_ok acts
      | FStartRead :: _ | FStopRead :: _ => is_open c = true
      | FWriteComplete :: _ | FHighWater _ :: _ => Forall act_ok acts /\ (is_open c = true \/ down_ok acts)
      | _ => True
      end
  | OtherSend message => zlen message <= vector_max_size
  | Destroy acts =>
      removed c = false /\ (state_ c = kDisconnected \/ state_ c = kConnected /\ watched c) /\ down_ok acts
  | WriteReady _ | ErrorReady | TimerFires | OtherShutdown | OtherForceClose | OtherStartRead | OtherStopRead => True
  end.

Fixpoint permitted_run (c : TcpConnection) (es : list event) : Prop :=
  match es with
  | [] => True
  | e :: es => permitted c e /\ forall c', step c e = Ok c' -> permitted_run c' es
  end.

Lemma cinv_functors S c l : cinv S c -> Forall (functor_ok (state_ c)) l -> cinv S (with_functors l c).
Proof. intros [] Hl. by constructor. Qed.

Lemma functor_post S c f answer acts :
  cinv S c -> functor_ok (state_ c) f -> state_ c <> kConnecting ->
  match f with
  | FForceClose => (is_open c = true -> watched c) /\ down_ok acts
  | FStartRead | FStopRead => is_open c = true
  | FWriteComplete | FHighWater _ => Forall act_ok acts /\ (is_open c = true \/ down_ok acts)
  | _ => True
  end ->
  post (fun c' => exists S', cinv S' c') (eq LengthError) (run_functor f answer acts c).
Proof.
  intros Hc Hf Hn Hp.
  assert (Hcb : Forall act_ok acts /\ (is_open c = true \/ down_ok acts) ->
    post (fun c' => exists S', cinv S' c') (eq LengthError) (foldM user c acts)).
  { intros [Ha [Ho|Hd]].
    - eapply post_mono; [by apply (users_open_post acts S)|]. intros c' (S' & ? & _). eauto.
    - destruct (is_open c) eqn:Ho.
      + eapply post_mono; [by apply (users_open_post acts S)|]. intros c' (S' & ? & _). eauto.
      + assert (Hst : state_ c = kDisconnected) by (unfold is_open in Ho; destruct (state_ c); done).
        eapply post_mono; [by apply (users_closed_post acts S)|]. intros c' (? & _). eauto. }
  destruct f as [message| | | |size| | ]; cbn [run_functor].
  - eapply post_mono; [by apply (sendInLoop_post S)|]. intros c' (S' & ? & _). eauto.
  - eapply post_mono; [by apply (shutdownInLoop_post S)|]. intros c' (? & _). eauto.
  - destruct Hp as [Hw Hd]. unfold forceCloseInLoop. destruct (is_open c) eqn:Ho; [|simpl; eauto].
    eapply post_mono; [apply (handleClose_post S); auto|]. intros c' (S' & ? & _). eauto.
  - auto.
  - auto.
  - eapply post_mono; [by apply (startRead_post S)|]. intros c' (S' & ? & _). eauto.
  - eapply post_mono; [by apply (stopRead_post S)|]. intros c' (S' & ? & _). eauto.
Qed.

Lemma handleWrite_drains S c :
  cinv S c -> is_open c = true -> content (outputBuffer_ c) <> [] -> shut c = false ->
  exists c', handleWrite (Wrote (zlen (content (outputBuffer_ c)))) c = Ok c' /\
    content (outputBuffer_ c') = [] /\ accepted c' = accepted c.
Proof.
  intros Hc Ho Hne Hsh. destruct (open_chan _ _ Hc Ho) as (s & ch & Hs & _ & _ & _ & Hch & _ & Hwr & _).
  pose proof (ci_output _ _ Hc) as Hwo.
  unfold handleWrite, sock_write. rewrite Hch. cbn [mbind outcome_bind]. rewrite bool_decide_eq_true_2 in Hwr by done. rewrite Hwr, Hsh.
  rewrite ztake_all by lia.
  assert (0 < zlen (content (outputBuffer_ c))).
  { pose proof (zlen_nonneg (content (outputBuffer_ c))).
    destruct (decide (zlen (content (outputBuffer_ c)) = 0)) as [E|]; [|lia]. by apply zlen_0_nil in E. }
  rewrite (proj2 (Z.ltb_lt _ _)) by done.
  destruct (retrieve_spec (zlen (content (outputBuffer_ c))) (outputBuffer_ c) Hwo) as (out & Hret & Hwf & Hco & _);
    [rewrite content_length by done; rewrite content_length in * by done; lia|].
  rewrite zdrop_all in Hco by lia.
  cbn [outputBuffer_ with_socket]. rewrite Hret. cbn [mbind outcome_bind]. rewrite (readable_nil _ Hwf), (bool_decide_eq_true_2 (content out = [])) by done.
  destruct (drained_disable S c _ out Hc Ho Hwf eq_refl Hne Hco Hsh) as (l & S' & Hu & Hc').
  rewrite Hu. cbn [mbind outcome_bind]. cbn zeta.
  set (c3 := if hasWriteComplete _ then _ else _).
  assert (Hc3 : cinv S' c3) by (unfold c3; case_match; [by apply cinv_queue|done]).
  assert (E3 : content (outputBuffer_ c3) = [] /\ accepted c3 = accepted c) by (unfold c3; by case_match).
  destruct (bool_decide (state_ c3 = kDisconnecting)); [|exists c3; done].
  unfold shutdownInLoop. destruct (ci_chan _ _ Hc3) as (s3 & Hs3 & _).
  destruct (chan_object _ _ _ (ci_loop _ _ Hc3) Hs3) as (_ & ch3 & -> & _). cbn [mbind outcome_bind].
  clearbody c3. destruct (isWriting ch3); cbn [negb]; eexists; (split; [reflexivity|exact E3]).
Qed.

Lemma remove_watched_aborts S c s :
  Loop.linv S (loop_ c) -> S !! channel_ c = Some s -> s_status s = Watched ->
  on_channel Loop.remove c = Fault AssertFailed.
Proof.
  intros Hl Hs Hw. destruct (chan_object _ _ _ Hl Hs) as (_ & ch & Hch & He).
  unfold on_channel, Loop.remove. unfold channel in Hch. rewrite Hch. cbn [mbind outcome_bind].
  unfold isNoneEvent. rewrite He. destruct (Z.eqb_spec (s_events s) kNoneEvent) as [E|E]; [|done].
  destruct (co_entry _ _ _ (inv_common _ _ _ (Loop.l_inv _ _ Hl)) _ _ Hs) as (_ & _ & Hst). by apply Hst in Hw.
Qed.

Lemma step_post S c e :
  cinv S c -> permitted c e -> post (fun c' => exists S', cinv S' c') (eq LengthError) (step c e).
Proof.
  intros Hc Hp.
  destruct e as [acts|readv acts down|answer|acts| |answer acts| |message| | | | |acts]; cbn [step permitted] in *.
  - destruct Hp. eapply post_mono; [by apply (established_post S)|]. intros c' (S' & ? & _). eauto.
  - destruct Hp as (? & ? & ? & ? & ?). by apply (handleRead_post S).
  - eapply post_mono; [by apply (handleWrite_post S)|]. intros c' (S' & ? & _). eauto.
  - destruct Hp as (? & ? & ?). eapply post_mono; [by apply (handleClose_post S)|]. intros c' (S' & ? & _). eauto.
  - simpl. eauto.
  - destruct Hp as [Hn Hp]. destruct (functors c) as [|f rest] eqn:Ef; [simpl; eauto|].
    pose proof (ci_functors _ _ Hc) as Hfs. rewrite Ef in Hfs. apply Forall_cons in Hfs as [Hf Hfs].
    eapply (functor_post S); [by apply cinv_functors|done|done|]. by destruct f.
  - destruct (delayed c) as [|n]; simpl; [eauto|]. exists S. by apply cinv_forceClose, cinv_delayed.
  - unfold send. destruct (connected c) eqn:Hcn; simpl; [|eauto]. exists S. by apply cinv_queue.
  - unfold shutdown. destruct (connected c) eqn:Hcn; simpl; [|eauto]. exists S.
    apply cinv_queue; [apply cinv_disconnecting; [done|]|by left].
    apply connected_true in Hcn. apply is_open_true; auto.
  - simpl. exists S. by apply cinv_forceClose.
  - simpl. exists S. by apply cinv_queue.
  - simpl. exists S. by apply cinv_queue.
  - destruct Hp as (? & ? & ?). by apply (destroyed_post S).
Qed.

Lemma run_post es S c :
  cinv S c -> permitted_run c es -> post (fun c' => exists S', cinv S' c') (eq LengthError) (foldM step c es).
Proof.
  revert S c; induction es as [|e es IH]; intros S c Hc Hp; simpl; [eauto|]. destruct Hp as [Hp Hr].
  eapply post_bind; [by apply (step_post S)|]. intros c' E (S' & Hc'). by eapply IH; [|apply Hr].
Qed.

Lemma new_post S loop ch fd wc hw :
  Loop.linv S loop -> S !! ch = None -> 0 <= fd < fd_limit -> fd_free S fd ->
  exists c S', newTcpConnection loop ch fd wc hw = Ok c /\ cinv S' c /\ state_ c = kConnecting.
Proof.
  intros Hl Hn Hfd Hfree. unfold newTcpConnection.
  destruct (Loop.linv_construct S loop ch fd Hl Hn Hfd) as (l & -> & Hl'). cbn [mbind outcome_bind].
  destruct (newBuffer_spec kInitialSize) as (b & -> & Hb & Hbc & _); [unfold kInitialSize, vector_max_size, kCheapPrepend; lia..|].
  cbn [mbind outcome_bind]. eexists _, _. split; [done|]. split; [|done].
  constructor; simpl; try done. eexists. rewrite lookup_insert_eq. split; [done|].
  unfold chan_state; simpl. split; [done|]. split; [|done].
  intros q s [[<- <-]|[_ Hq]]%lookup_insert_Some Hr; [by destruct Hr|]. by eapply Hfree.
Qed.

(** What holds of a connection after any run. *)
Record conn_ok (c : TcpConnection) : Prop := {
  ok_sent : wire c ++ content (outputBuffer_ c) = accepted c;
  ok_received : taken c ++ content (inputBuffer_ c) = received c;
  ok_writing : is_open c = true -> exists ch, channel c = Ok ch /\
    isWriting ch = bool_decide (content (outputBuffer_ c) <> []) /\ isReading ch = reading_ c;
  ok_shut : shut c = true -> state_ c = kDisconnected \/ state_ c = kDisconnecting /\ wire c = accepted c;
  ok_ups : ups c = if decide (state_ c = kConnecting) then 0 else 1;
  ok_downs : downs c = if decide (state_ c = kDisconnected) then 1 else 0;
  ok_closes : closes c <= downs c;
}.

Lemma cinv_ok S c : cinv S c -> conn_ok c.
Proof.
  intros Hc. constructor; try apply Hc.
  - intros Ho. destruct (open_chan _ _ Hc Ho) as (s & ch & _ & _ & _ & _ & Hch & Hrd & Hwr & _). eauto.
  - intros Hs. destruct (ci_shut _ _ Hc Hs) as [?|[? Hn]]; [by left|right]. split; [done|].
    by rewrite <- (ci_sent _ _ Hc), Hn, app_nil_r.
Qed.


(** A state a connection can be in. *)
Definition reachable (c : TcpConnection) : Prop :=
  exists ops S loop ch fd wc hw es c0,
    Loop.allowed_trace ∅ ops S /\ foldM Loop.perform (Loop.newEventLoop (P := P)) ops = Ok loop /\
    S !! ch = None /\ 0 <= fd < fd_limit /\ fd_free S fd /\
    newTcpConnection loop ch fd wc hw = Ok c0 /\ permitted_run c0 es /\ foldM step c0 es = Ok c.

Lemma reachable_cinv c : reachable c -> exists S, cinv S c.
Proof.
  intros (ops & S & loop & ch & fd & wc & hw & es & c0 & Htr & Hloop & Hn & Hfd & Hfree & Hc0 & Hp & Hr).
  destruct (Loop.linv_run ∅ Loop.newEventLoop ops S Loop.linv_init Htr) as (l & Hl & Hinv).
  rewrite Hloop in Hl. injection Hl as <-.
  destruct (new_post S loop ch fd wc hw Hinv Hn Hfd Hfree) as (c1 & S' & Hc1 & Hci & _).
  rewrite Hc0 in Hc1. injection Hc1 as <-. pose proof (run_post es S' c0 Hci Hp) as Hpost. by rewrite Hr in Hpost.
Qed.

(** C11: Shutdown is never lost and never early: in a connection being shut down
    with output still pending, a write event that the kernel takes whole puts
    every accepted byte on the wire and then shuts the write side. *)
Theorem shutdown_after_drain c
  (Hreach : reachable c) (Hst : state_ c = kDisconnecting) (Hpend : content (outputBuffer_ c) <> []) :
  shut c = false /\
  exists c', handleWrite (Wrote (zlen (content (outputBuffer_ c)))) c = Ok c' /\
    content (outputBuffer_ c') = [] /\ wire c' = accepted c /\ shut c' = true.
Proof.
  destruct (reachable_cinv c Hreach) as (S & Hc).
  assert (Ho : is_open c = true) by (apply is_open_true; auto).
  assert (Hsh : shut c = false).
  { destruct (shut c) eqn:E; [|done]. destruct (ci_shut _ _ Hc E) as [Hx|[_ Hx]]; [congruence|done]. }
  split; [done|]. pose proof (handleWrite_drains S c Hc Ho Hpend Hsh) as (c' & Hw & Hn & Hacc).
  pose proof (handleWrite_post S c (Wrote (zlen (content (outputBuffer_ c)))) Hc) as Hpost.
  rewrite Hw in Hpost. simpl in Hpost. destruct Hpost as (S' & _ & _ & Hfin).
  destruct (Hfin Hst Hpend Hn) as [Hs Hwire]. exists c'. rewrite Hacc in Hwire. done.
Qed.

(** ConnectDestroyed on a connection that is being shut down (as the
    destructor of TcpServer calls it on every connection) fails the assertion
    in Channel::remove, because only a connected one has its events disabled. *)
Theorem destroy_while_disconnecting_aborts c acts
  (Hreach : reachable c) (Hst : state_ c = kDisconnecting) (Hw : watched c) :
  connectDestroyed acts c = Fault AssertFailed.
Proof.
  destruct (reachable_cinv c Hreach) as (S & Hc).
  assert (Ho : is_open c = true) by (apply is_open_true; auto).
  unfold connectDestroyed, connected. rewrite Hst. cbn [bool_decide decide]. simpl.
  destruct (ci_chan _ _ Hc) as (s & Hs & _).
  by rewrite (remove_watched_aborts S c s (ci_loop _ _ Hc) Hs (watched_status _ _ _ Hc Ho Hs Hw)).
Qed.

(** Reading switched on again after the close (startRead has no check of the
    state, and may be queued by another thread before the close) registers the
    channel once more, and connectDestroyed then fails the assertion in
    Channel::remove. *)
Theorem startRead_after_close_aborts c acts
  (Hreach : reachable c) (Hst : state_ c = kDisconnected) (Hrm : removed c = false) :
  exists c', startReadInLoop c = Ok c' /\ connectDestroyed acts c' = Fault AssertFailed.
Proof.
  destruct (reachable_cinv c Hreach) as (S & Hc). destruct (ci_chan _ _ Hc) as (s & Hs & Hcs).
  unfold chan_state in Hcs. rewrite Hst, Hrm in Hcs.
  destruct (chan_object _ _ _ (ci_loop _ _ Hc) Hs) as (Hm & ch & Hch & He).
  assert (E0 : s_events s = 0) by (apply unwatched_events;
    [eapply (co_entry _ _ _ (inv_common _ _ _ (Loop.l_inv _ _ (ci_loop _ _ Hc)))); exact Hs|congruence]).
  destruct (on_channel_update S c s read_enabled (read_enabled (s_events s)) (ci_loop _ _ Hc) Hs eq_refl)
    as (l & Hu & Hl).
  { rewrite E0. split; [right; left; reflexivity|]. rewrite Hcs. done. }
  unfold startReadInLoop. rewrite Hch. cbn [mbind outcome_bind]. unfold isReading. rewrite He, E0.
  rewrite orb_true_r. unfold Loop.enableReading. rewrite Hu. cbn [mbind outcome_bind].
  eexists. split; [reflexivity|].
  unfold connectDestroyed, connected. simpl. rewrite Hst. simpl.
  rewrite (remove_watched_aborts _ (with_reading true (with_loop l c)) (updated s (read_enabled (s_events s))) Hl);
    [done|apply lookup_insert_eq|by rewrite E0].
Qed.

End connection.
Arguments TcpConnection : clear implicits.

(** ** Concrete runs *)
Section samples.
Import EPollPoller.
Abbreviation EConn := (TcpConnection EPollPoller).

Definition start : outcome EConn := newTcpConnection Loop.newEventLoop 1000 7 true true.

Lemma empty_free fd : fd_free ∅ fd.
Proof. intros ptr s H. by rewrite lookup_empty in H. Qed.

(** The user sends on connecting, the kernel takes two bytes; then shutdown. *)
Definition send_then_shutdown : list event :=
  [Established [USend (lit "hello") (Wrote 2); UShutdown]].

(** The peer closes right after the connection is up. *)
Definition peer_closes : list event := [Established []; CloseReady []].

Lemma send_then_shutdown_permitted c : start = Ok c -> permitted_run c send_then_shutdown.
Proof.
  intros E. split; [|done]. split.
  - assert (Hs : state_ <$> start = Ok kConnecting) by (vm_compute; reflexivity).
    rewrite E in Hs. simpl in Hs. by injection Hs.
  - repeat constructor. unfold act_ok, vector_max_size. change (zlen (lit "hello")) with 5. lia.
Qed.

Lemma peer_closes_permitted c : start = Ok c -> permitted_run c peer_closes.
Proof.
  intros E. split; [split; [|by constructor]|].
  - assert (Hs : state_ <$> start = Ok kConnecting) by (vm_compute; reflexivity).
    rewrite E in Hs. simpl in Hs. by injection Hs.
  - intros c' E'. split; [|done].
    assert (Hp : (c1 ← start; (fun c => (is_open c, reading_ c)) <$> step c1 (Established [])) = Ok (true, true))
      by (vm_compute; reflexivity).
    rewrite E in Hp. cbn [mbind outcome_bind] in Hp. rewrite E' in Hp. simpl in Hp. injection Hp as H1 H2.
    split; [done|]. split; [by left|constructor].
Qed.

Lemma sample_reachable es c0 c :
  start = Ok c0 -> permitted_run c0 es -> foldM step c0 es = Ok c -> reachable c.
Proof.
  intros H0 Hp Hr. exists [], ∅, Loop.newEventLoop, 1000, 7, true, true, es, c0.
  repeat split; [constructor|done..|unfold fd_limit; lia|apply empty_free|done|done|done].
Qed.


Lemma shutdown_after_drain_witness :
  exists c c' : EConn, state_ c = kDisconnecting /\ content (outputBuffer_ c) = lit "llo" /\
    handleWrite (Wrote (zlen (content (outputBuffer_ c)))) c = Ok c' /\ wire c' = lit "hello" /\ shut c' = true.
Proof.
  assert (Hp : (c0 ← start; (fun c => (state_ c, content (outputBuffer_ c), accepted c)) <$> foldM step c0 send_then_shutdown)
    = Ok (kDisconnecting, lit "llo", lit "hello")) by (vm_compute; reflexivity).
  destruct start as [c0|] eqn:E0; [|discriminate Hp]. cbn [mbind outcome_bind] in Hp.
  destruct (foldM step c0 send_then_shutdown) as [c|] eqn:E; [|discriminate Hp]. simpl in Hp. injection Hp as H1 H2 H3.
  destruct (shutdown_after_drain c) as (_ & c' & Hw & _ & Hwire & Hsh); [|done|by rewrite H2|].
  - eapply sample_reachable; [exact E0|by apply send_then_shutdown_permitted|exact E].
  - exists c, c'. rewrite Hwire, H3. done.
Defined.

Lemma destroy_while_disconnecting_aborts_witness :
  exists c : EConn, state_ c = kDisconnecting /\ connectDestroyed [] c = Fault AssertFailed.
Proof.
  assert (Hp : (c0 ← start; (fun c => (state_ c, reading_ c)) <$> foldM step c0 send_then_shutdown)
    = Ok (kDisconnecting, true)) by (vm_compute; reflexivity).
  destruct start as [c0|] eqn:E0; [|discriminate Hp]. cbn [mbind outcome_bind] in Hp.
  destruct (foldM step c0 send_then_shutdown) as [c|] eqn:E; [|discriminate Hp]. simpl in Hp. injection Hp as H1 H2.
  exists c. split; [done|]. apply (destroy_while_disconnecting_aborts c []); [|done|by left].
  eapply sample_reachable; [exact E0|by apply send_then_shutdown_permitted|exact E].
Defined.

Lemma startRead_after_close_aborts_witness :
  exists c c' : EConn, state_ c = kDisconnected /\ startReadInLoop c = Ok c' /\
    connectDestroyed [] c' = Fault AssertFailed.
Proof.
  assert (Hp : (c0 ← start; (fun c => (state_ c, removed c)) <$> foldM step c0 peer_closes)
    = Ok (kDisconnected, false)) by (vm_compute; reflexivity).
  destruct start as [c0|] eqn:E0; [|discriminate Hp]. cbn [mbind outcome_bind] in Hp.
  destruct (foldM step c0 peer_closes) as [c|] eqn:E; [|discriminate Hp]. simpl in Hp. injection Hp as H1 H2.
  destruct (startRead_after_close_aborts c []) as (c' & Hs & Hd); [|done|done|].
  - eapply sample_reachable; [exact E0|by apply peer_closes_permitted|exact E].
  - exists c, c'. done.
Defined.

(** The peer resets a connection that stopped reading and was then told to
    close: everything the kernel reports on descriptor 7 is a hang-up. *)
Definition reset_kernel : Kernel := mkKernel (fun fd => if fd =? 7 then Z.lor POLLERR POLLHUP else 0) [7].

Definition stop_then_close : list event :=
  [Established [UStopRead; UForceClose]; RunFunctor (Wrote 0) []].

(** Whether a poll of the loop reports the connection's channel for closing, and
    what the close handler then does. *)
Definition closed_twice {P} `{Poller P} (c : TcpConnection P) : outcome (bool * bool) :=
  l ← Loop.poll_turn (Some reset_kernel) 0 (loop_ c);
  ch ← deref (Loop.heap l) (channel_ c);
  Ok (bool_decide (channel_ c ∈ Loop.activeChannels_ l) && wants_close ch,
      match handleClose [] (with_loop l c) with Fault AssertFailed => true | _ => false end).

(** StopRead followed by forceClose disables a channel that has no events
    any more, and EPollPoller then adds the descriptor to the interest list with
    an empty mask; a reset by the peer before connectDestroyed runs is reported
    on the closed connection, whose handleClose fails its assertion.  PollPoller
    ignores the descriptor. *)
Theorem stopRead_forceClose_reset_aborts :
  (c0 ← start; c ← foldM step c0 stop_then_close; c1 ← Ok c; r ← closed_twice c1; Ok (state_ c1, removed c1, r))
    = Ok (kDisconnected, false, (true, true)) /\
  (c0 ← newTcpConnection (P := PollPoller.PollPoller) Loop.newEventLoop 1000 7 true true;
   c ← foldM step c0 stop_then_close; r ← closed_twice c; Ok (state_ c, removed c, fst r))
    = Ok (kDisconnected, false, false).
Proof. split; vm_compute; reflexivity. Qed.

End samples.

End TcpConnection.
