(* ===== verification/Monitor.v ===== *)
(** * Monitor: base/Mutex.h, base/Condition.h

    Threads that share data under a mutex with condition variables, for any data
    and any methods.  A method body runs while the mutex is held, from the lock
    or from the return of a wait, to its return or to its next wait: it either
    blocks on a condition, or returns a result, the new data and the signals it
    sent ([notify], [notifyAll]).  The machine interleaves any number of threads:
    calls, acquisitions of the mutex in any order, runs of the body, and spurious
    wakeups; a thread that is signalled or woken must acquire the mutex again and
    its body starts over at the while loop.  The thread id kept in
    [MutexLock::holder_] is part of the state.

    The clients are the queues, the latch and the thread pool (Queues.v,
    ThreadPool.v). *)

From S2P Require Import Prelude.

(** ** Counting *)
Fixpoint count {A} (f : A -> bool) (l : list A) : Z :=
  match l with
  | [] => 0
  | x :: l => Z.b2z (f x) + count f l
  end.

Lemma count_nonneg {A} (f : A -> bool) l : 0 <= count f l.
Proof. induction l as [|x l IH]; simpl; [lia|]. destruct (f x); simpl; lia. Qed.

Lemma count_app {A} (f : A -> bool) l1 l2 : count f (l1 ++ l2) = count f l1 + count f l2.
Proof. induction l1 as [|x l1 IH]; simpl; [done|]. lia. Qed.

Lemma count_insert {A} (f : A -> bool) l i x y :
  l !! i = Some x -> count f (<[i := y]> l) = count f l - Z.b2z (f x) + Z.b2z (f y).
Proof.
  revert i; induction l as [|z l IH]; intros [|i] Hi; simpl in *; try done; [simplify_eq; lia|].
  rewrite (IH i Hi). lia.
Qed.

Lemma count_pos {A} (f : A -> bool) l : 0 < count f l <-> exists i x, l !! i = Some x /\ f x = true.
Proof.
  induction l as [|z l IH]; simpl.
  - split; [lia|]. by intros (i & x & ? & _).
  - pose proof (count_nonneg f l). destruct (f z) eqn:E; simpl.
    + split; [intros _; by exists O, z|lia].
    + rewrite IH. split; intros (i & x & Hi & Hx); [by exists (S i), x|].
      destruct i as [|i]; simpl in Hi; [congruence|eauto].
Qed.

Lemma count_none {A} (f : A -> bool) l : count f l = 0 <-> forall i x, l !! i = Some x -> f x = false.
Proof.
  pose proof (count_nonneg f l). split.
  - intros Hz i x Hi. destruct (f x) eqn:E; [|done].
    assert (0 < count f l) by (apply count_pos; eauto). lia.
  - intros Hn. destruct (decide (0 < count f l)) as [Hp|]; [|lia].
    apply count_pos in Hp as (i & x & Hi & Hx). rewrite (Hn i x Hi) in Hx. done.
Qed.

Lemma count_map {A B} (f : B -> bool) (g : A -> B) l : count f (map g l) = count (fun x => f (g x)) l.
Proof. induction l as [|x l IH]; simpl; [done|]. by rewrite IH. Qed.

Lemma count_mono {A} (f g : A -> bool) l : (forall x, f x = true -> g x = true) -> count f l <= count g l.
Proof.
  intros Hfg. induction l as [|x l IH]; simpl; [lia|].
  destruct (f x) eqn:E; [rewrite (Hfg _ E); simpl; lia|]. destruct (g x); simpl; lia.
Qed.

(** ** The mutex *)
Record MutexLock := mkMutex { holder_ : Z }.

Definition newMutexLock : MutexLock := mkMutex 0.
Definition isLockedByThisThread (tid : Z) (mx : MutexLock) : bool := holder_ mx =? tid.
Definition assertLocked (tid : Z) (mx : MutexLock) : outcome unit := c_assert (isLockedByThisThread tid mx).
Definition assignHolder (tid : Z) (mx : MutexLock) : MutexLock := mkMutex tid.
Definition unassignHolder (mx : MutexLock) : MutexLock := mkMutex 0.
Definition destroyMutexLock (mx : MutexLock) : outcome unit := c_assert (holder_ mx =? 0).

(** ** The machine *)
Section machine.
Context {St Op Res Cond : Type} `{EqDecision Cond}.

Inductive signal := Notify (c : Cond) | NotifyAll (c : Cond).

(** What a method body does once it holds the mutex. *)
Inductive verdict :=
| Block (c : Cond)
| Return (s : St) (r : Res) (signals : list signal)
| Crash (f : fault).

Context (body : Z -> MutexLock -> Op -> St -> verdict).

(** Where a thread is: outside with the result of its last call, waiting for the
    mutex, inside, or waiting on a condition. *)
Inductive phase :=
| Outside (last : option Res)
| Ready (op : Op)
| Inside (op : Op)
| Waiting (c : Cond) (op : Op).

Record State := mkState {
  shared : St;
  mutex_ : MutexLock;
  threads : list phase;
}.

(** Kernel thread ids are positive. *)
Definition tid_of (t : nat) : Z := Z.of_nat t + 1.

Definition waits_on (c : Cond) (p : phase) : bool :=
  match p with Waiting c' _ => bool_decide (c' = c) | _ => false end.

Definition wake (p : phase) : phase :=
  match p with Waiting _ op => Ready op | _ => p end.

(** The first thread waiting on [c]. *)
Fixpoint first_waiter (c : Cond) (l : list phase) : option nat :=
  match l with
  | [] => None
  | p :: l => if waits_on c p then Some O else S <$> first_waiter c l
  end.

(** [pthread_cond_signal] wakes one waiter, the scheduler's [choice] if it is
    one; [pthread_cond_broadcast] wakes them all. *)
Definition deliver (choice : nat) (l : list phase) (sg : signal) : list phase :=
  match sg with
  | Notify c =>
      match l !! choice with
      | Some p => if waits_on c p then <[choice := wake p]> l
                  else match first_waiter c l with
                       | Some i => alter wake i l
                       | None => l
                       end
      | None => match first_waiter c l with Some i => alter wake i l | None => l end
      end
  | NotifyAll c => map (fun p => if waits_on c p then wake p else p) l
  end.

Inductive action :=
| Spawn                        (* a new thread *)
| Call (t : nat) (op : Op)
| Acquire (t : nat)
| Run (t : nat) (choice : nat)
| Spurious (t : nat).

(** An action that is not enabled leaves the state alone. *)
Definition step (s : State) (a : action) : outcome State :=
  match a with
  | Spawn => Ok (mkState (shared s) (mutex_ s) (threads s ++ [Outside None]))
  | Call t op =>
      match threads s !! t with
      | Some (Outside _) => Ok (mkState (shared s) (mutex_ s) (<[t := Ready op]> (threads s)))
      | _ => Ok s
      end
  | Acquire t =>
      match threads s !! t with
      | Some (Ready op) =>
          if holder_ (mutex_ s) =? 0
          then Ok (mkState (shared s) (assignHolder (tid_of t) (mutex_ s)) (<[t := Inside op]> (threads s)))
          else Ok s
      | _ => Ok s
      end
  | Run t choice =>
      match threads s !! t with
      | Some (Inside op) =>
          match body (tid_of t) (mutex_ s) op (shared s) with
          | Block c => Ok (mkState (shared s) (unassignHolder (mutex_ s)) (<[t := Waiting c op]> (threads s)))
          | Return st r signals =>
              Ok (mkState st (unassignHolder (mutex_ s))
                    (foldl (deliver choice) (<[t := Outside (Some r)]> (threads s)) signals))
          | Crash f => Fault f
          end
      | _ => Ok s
      end
  | Spurious t =>
      match threads s !! t with
      | Some (Waiting _ op) => Ok (mkState (shared s) (mutex_ s) (<[t := Ready op]> (threads s)))
      | _ => Ok s
      end
  end.

Definition start (st : St) : State := mkState st newMutexLock [].

Definition run (st : St) (l : list action) : outcome State := foldM step (start st) l.

(** *** What signals do *)
Lemma first_waiter_some c l i : first_waiter c l = Some i -> exists op, l !! i = Some (Waiting c op).
Proof.
  revert i; induction l as [|p l IH]; intros i; simpl; [done|].
  destruct (waits_on c p) eqn:E.
  - intros [= <-]. destruct p as [| | |c' op]; simpl in E; try discriminate.
    apply bool_decide_eq_true in E as ->. by exists op.
  - destruct (first_waiter c l) as [j|]; simpl; [|done]. intros [= <-]. by apply IH.
Qed.

Lemma first_waiter_none c l : first_waiter c l = None -> count (waits_on c) l = 0.
Proof.
  induction l as [|p l IH]; simpl; [done|]. destruct (waits_on c p); [done|].
  destruct (first_waiter c l); [done|]. simpl. intros _. by rewrite IH.
Qed.

(** A notify wakes exactly one waiter if there is one. *)
Lemma deliver_notify choice c l :
  (exists i op, l !! i = Some (Waiting c op) /\ deliver choice l (Notify c) = <[i := Ready op]> l) \/
  (count (waits_on c) l = 0 /\ deliver choice l (Notify c) = l).
Proof.
  assert (Hfirst : (exists i op, l !! i = Some (Waiting c op) /\
      match first_waiter c l with Some i => alter wake i l | None => l end = <[i := Ready op]> l) \/
    (count (waits_on c) l = 0 /\ match first_waiter c l with Some i => alter wake i l | None => l end = l)).
  { destruct (first_waiter c l) as [i|] eqn:E.
    - left. destruct (first_waiter_some _ _ _ E) as (op & Hi). exists i, op. split; [done|].
      apply list_eq. intros j. pose proof (lookup_lt_Some _ _ _ Hi).
      destruct (decide (j = i)) as [->|].
      + by rewrite list_lookup_alter_eq, Hi, list_lookup_insert_eq.
      + by rewrite list_lookup_alter_ne, list_lookup_insert_ne.
    - right. split; [by apply first_waiter_none|done]. }
  simpl. destruct (l !! choice) as [p|] eqn:E; [|exact Hfirst].
  destruct (waits_on c p) eqn:Hw; [|exact Hfirst].
  left. destruct p as [| | |c' op]; simpl in Hw; try discriminate.
  apply bool_decide_eq_true in Hw as ->. by exists choice, op.
Qed.

Lemma deliver_all_lookup choice c l i :
  deliver choice l (NotifyAll c) !! i = (fun p => if waits_on c p then wake p else p) <$> l !! i.
Proof. apply list_lookup_fmap. Qed.

(** No signal puts a thread inside or makes it wait. *)
Lemma deliver_inside choice l sg i op :
  deliver choice l sg !! i = Some (Inside op) <-> l !! i = Some (Inside op).
Proof.
  destruct sg as [c|c].
  - destruct (deliver_notify choice c l) as [(j & op' & Hj & ->)|[_ ->]]; [|done].
    pose proof (lookup_lt_Some _ _ _ Hj). destruct (decide (i = j)) as [->|].
    + rewrite list_lookup_insert_eq by done. rewrite Hj. split; intros [=].
    + by rewrite list_lookup_insert_ne.
  - rewrite deliver_all_lookup. destruct (l !! i) as [p|]; [|done]. simpl.
    destruct p as [| | |c' op']; simpl; [done..|]. destruct (bool_decide (c' = c)); split; intros [=].
Qed.

Lemma deliver_waiting choice l sg i c op :
  deliver choice l sg !! i = Some (Waiting c op) -> l !! i = Some (Waiting c op).
Proof.
  destruct sg as [c'|c'].
  - destruct (deliver_notify choice c' l) as [(j & op' & Hj & ->)|[_ ->]]; [|done].
    pose proof (lookup_lt_Some _ _ _ Hj). destruct (decide (i = j)) as [->|].
    + rewrite list_lookup_insert_eq by done. intros [=].
    + by rewrite list_lookup_insert_ne.
  - rewrite deliver_all_lookup. destruct (l !! i) as [p|]; [|done]. simpl.
    destruct p as [| | |c1 op1]; simpl; [done..|]. destruct (bool_decide (c1 = c')); [intros [=]|done].
Qed.

Lemma delivers_inside choice signals l i op :
  foldl (deliver choice) l signals !! i = Some (Inside op) <-> l !! i = Some (Inside op).
Proof.
  revert l; induction signals as [|sg signals IH]; intros l; simpl; [done|]. rewrite IH. apply deliver_inside.
Qed.

Lemma delivers_waiting choice signals l i c op :
  foldl (deliver choice) l signals !! i = Some (Waiting c op) -> l !! i = Some (Waiting c op).
Proof.
  revert l; induction signals as [|sg signals IH]; intros l; simpl; [done|].
  intros H1. by eapply deliver_waiting, IH.
Qed.

(** A thread that is not the actor of a step is where it was, or was woken. *)
Definition woken (p q : phase) : Prop := q = p \/ exists c op, p = Waiting c op /\ q = Ready op.

Lemma woken_trans p q r : woken p q -> woken q r -> woken p r.
Proof. intros [->|(c & op & -> & ->)] [->|(c' & op' & ? & ->)]; simplify_eq; unfold woken; eauto. Qed.

Lemma deliver_lookup choice l sg i p :
  l !! i = Some p -> exists q, deliver choice l sg !! i = Some q /\ woken p q.
Proof.
  intros Hi. destruct sg as [c|c].
  - destruct (deliver_notify choice c l) as [(j & op & Hj & ->)|[_ ->]]; [|exists p; split; [done|by left]].
    pose proof (lookup_lt_Some _ _ _ Hj). destruct (decide (i = j)) as [->|].
    + rewrite list_lookup_insert_eq by done. exists (Ready op). split; [done|]. right. exists c, op. split; [congruence|done].
    + rewrite list_lookup_insert_ne by done. exists p. split; [done|by left].
  - rewrite deliver_all_lookup, Hi. simpl. eexists. split; [done|]. destruct p as [| | |c' op]; simpl; try (by left).
    case_bool_decide; [right; eauto|by left].
Qed.

Lemma delivers_lookup choice signals l i p :
  l !! i = Some p -> exists q, foldl (deliver choice) l signals !! i = Some q /\ woken p q.
Proof.
  revert l p; induction signals as [|sg signals IH]; intros l p Hi; simpl; [exists p; split; [done|by left]|].
  destruct (deliver_lookup choice l sg i p Hi) as (q & Hq & Hpq).
  destruct (IH _ _ Hq) as (r & Hr & Hqr). exists r. split; [done|]. by eapply woken_trans.
Qed.

Lemma deliver_length choice l sg : length (deliver choice l sg) = length l.
Proof.
  destruct sg as [c|c]; [|apply length_map].
  destruct (deliver_notify choice c l) as [(j & op & Hj & ->)|[_ ->]]; [by rewrite length_insert|done].
Qed.

Lemma delivers_length choice signals l : length (foldl (deliver choice) l signals) = length l.
Proof.
  revert l; induction signals as [|sg signals IH]; intros l; simpl; [done|]. rewrite IH. apply deliver_length.
Qed.

(** *** Mutual exclusion *)
Record minv (s : State) : Prop := {
  mi_inside : forall t op, threads s !! t = Some (Inside op) -> holder_ (mutex_ s) = tid_of t;
  mi_held : holder_ (mutex_ s) <> 0 -> exists t op, threads s !! t = Some (Inside op);
}.

Lemma minv_start st : minv (start st).
Proof. by split. Qed.

(** Replacing a thread that is outside the mutex by another such phase. *)
Lemma minv_set s t p q st :
  minv s -> threads s !! t = Some p -> (forall op, p <> Inside op) -> (forall op, q <> Inside op) ->
  minv (mkState st (mutex_ s) (<[t := q]> (threads s))).
Proof.
  intros [H1 H2] Hp Hpi Hqi. pose proof (lookup_lt_Some _ _ _ Hp). split; simpl.
  - intros t' op. destruct (decide (t' = t)) as [->|].
    + rewrite list_lookup_insert_eq by done. intros [= E]. by destruct (Hqi op).
    + rewrite list_lookup_insert_ne by done. apply H1.
  - intros Hh. destruct (H2 Hh) as (t' & op & Ht). exists t', op. rewrite list_lookup_insert_ne; [done|].
    intros ->. destruct (Hpi op). congruence.
Qed.

(** The thread inside leaves the mutex. *)
Lemma minv_leave s t op l' st :
  minv s -> threads s !! t = Some (Inside op) ->
  (forall t' op', l' !! t' = Some (Inside op') -> t' <> t /\ threads s !! t' = Some (Inside op')) ->
  minv (mkState st (unassignHolder (mutex_ s)) l').
Proof.
  intros [H1 H2] Ht Hl. split; simpl; [|done]. intros t' op' Ht'. destruct (Hl _ _ Ht') as [Hne Hin].
  pose proof (H1 _ _ Ht). pose proof (H1 _ _ Hin). unfold tid_of in *. lia.
Qed.

Lemma minv_step s a s' : minv s -> step s a = Ok s' -> minv s'.
Proof.
  intros Hm Hs. destruct a as [|t op|t|t choice|t]; simpl in Hs.
  - simplify_eq. destruct Hm as [H1 H2]. split; simpl.
    + intros t op [Ht|[_ Ht]]%lookup_app_Some; [by eapply H1|].
      apply list_lookup_singleton_Some in Ht as [_ [=]].
    + intros Hh. destruct (H2 Hh) as (t & op & Ht). exists t, op. by apply lookup_app_l_Some.
  - destruct (threads s !! t) as [[]|] eqn:Et; simplify_eq; try done. by eapply minv_set.
  - destruct (threads s !! t) as [[]|] eqn:Et; simplify_eq; try done.
    destruct (Z.eqb_spec (holder_ (mutex_ s)) 0) as [Hz|]; simplify_eq; [|done].
    pose proof (lookup_lt_Some _ _ _ Et). destruct Hm as [H1 H2]. split; simpl.
    + intros t' op'. destruct (decide (t' = t)) as [->|]; [done|]. rewrite list_lookup_insert_ne by done.
      intros Ht'. pose proof (H1 _ _ Ht'). unfold tid_of in *. lia.
    + intros _. eexists t, _. by rewrite list_lookup_insert_eq.
  - destruct (threads s !! t) as [[]|] eqn:Et; simplify_eq; try done.
    pose proof (lookup_lt_Some _ _ _ Et).
    assert (Hset : forall q, (forall op', q <> Inside op') -> forall t' op',
      <[t := q]> (threads s) !! t' = Some (Inside op') -> t' <> t /\ threads s !! t' = Some (Inside op')).
    { intros q Hq t' op'. destruct (decide (t' = t)) as [->|].
      - rewrite list_lookup_insert_eq by done. intros [= E]. by destruct (Hq op').
      - by rewrite list_lookup_insert_ne. }
    destruct (body _ _ _ _) as [c|st r signals|]; simplify_eq; try done.
    + eapply minv_leave; eauto. by apply Hset.
    + eapply minv_leave; eauto. intros t' op' Ht'%delivers_inside. by apply (Hset (Outside (Some r))).
  - destruct (threads s !! t) as [[]|] eqn:Et; simplify_eq; try done. by eapply minv_set.
Qed.

(** *** No lost signal

    A condition [c] stands for a resource: [avail] of it in the data, consumed by
    the methods [consumes]; while [open] a consumer that finds none waits on [c],
    once closed nobody waits on it any more. *)
Class Resource (c : Cond) := {
  consumes : Op -> bool;
  avail : St -> Z;
  open : St -> bool;
  blocks_only : forall tid mx op s, body tid mx op s = Block c ->
    consumes op = true /\ open s = true /\ avail s <= 0;
  blocks_other : forall tid mx op s c', body tid mx op s = Block c' -> c' <> c -> consumes op = false;
  returns_signal : forall tid mx op s s' r signals, body tid mx op s = Return s' r signals ->
    if open s' then
      open s = true /\
      (NotifyAll c ∈ signals \/
       avail s' <= avail s - Z.b2z (consumes op) +
                   count (fun sg => match sg with Notify c' => bool_decide (c' = c) | _ => false end) signals)
    else open s = false \/ NotifyAll c ∈ signals;
}.

Section resource.
Context (c : Cond) `{HR : !Resource c}.

(** The threads that will look at the resource again. *)
Definition is_active (p : phase) : bool :=
  match p with Ready op | Inside op => consumes op | _ => false end.

Definition waiting (s : State) : Z := count (waits_on c) (threads s).
Definition active (s : State) : Z := count is_active (threads s).

(** Only consumers wait on [c]. *)
Definition waiters_ok (l : list phase) : Prop :=
  forall i op, l !! i = Some (Waiting c op) -> consumes op = true.

Definition notifies (signals : list signal) : Z :=
  count (fun sg => match sg with Notify c' => bool_decide (c' = c) | _ => false end) signals.

Lemma deliver_effect choice l sg :
  waiters_ok l ->
  waiters_ok (deliver choice l sg) /\
  count (waits_on c) (deliver choice l sg) <= count (waits_on c) l /\
  (count (waits_on c) (deliver choice l sg) = 0 \/
   count is_active l + notifies [sg] <= count is_active (deliver choice l sg)) /\
  (sg = NotifyAll c -> count (waits_on c) (deliver choice l sg) = 0).
Proof.
  intros Hok. split; [intros i op Hi; eapply Hok, deliver_waiting, Hi|].
  unfold notifies. destruct sg as [c'|c'].
  - destruct (deliver_notify choice c' l) as [(i & op & Hi & ->)|[Hz ->]].
    + rewrite !(count_insert _ _ _ _ _ Hi). simpl.
      destruct (decide (c' = c)) as [->|Hne].
      * rewrite bool_decide_eq_true_2 by done. rewrite (Hok _ _ Hi). simpl. split; [lia|]. split; [right; lia|done].
      * rewrite bool_decide_eq_false_2 by done. simpl. split; [lia|]. split; [right|congruence].
        destruct (consumes op); simpl; lia.
    + split; [lia|]. split; [|done]. simpl. case_bool_decide; simpl; [subst; by left|right; lia].
  - simpl. rewrite !count_map. assert (Hle : forall p,
      Z.b2z (waits_on c (if waits_on c' p then wake p else p)) <= Z.b2z (waits_on c p) /\
      Z.b2z (is_active p) <= Z.b2z (is_active (if waits_on c' p then wake p else p))).
    { intros [| | |c1 op1]; simpl; try lia. case_bool_decide; simpl; [|lia].
      split; [destruct (bool_decide (c1 = c)); simpl; lia|destruct (consumes op1); simpl; lia]. }
    split; [|split].
    + clear Hok. induction l as [|p l IH]; simpl; [lia|]. destruct (Hle p). lia.
    + right. clear Hok. induction l as [|p l IH]; simpl; [lia|]. destruct (Hle p). lia.
    + intros [= Hcc]. apply count_none. intros i [| | |c1 op1] _; simpl; try done.
      rewrite Hcc. by case_bool_decide as E; simpl; [|rewrite bool_decide_eq_false_2].
Qed.

Lemma delivers_effect choice signals l :
  waiters_ok l ->
  waiters_ok (foldl (deliver choice) l signals) /\
  count (waits_on c) (foldl (deliver choice) l signals) <= count (waits_on c) l /\
  (count (waits_on c) (foldl (deliver choice) l signals) = 0 \/
   count is_active l + notifies signals <= count is_active (foldl (deliver choice) l signals)) /\
  (NotifyAll c ∈ signals -> count (waits_on c) (foldl (deliver choice) l signals) = 0).
Proof.
  revert l; induction signals as [|sg signals IH]; intros l Hok; simpl.
  - split; [done|]. split; [lia|]. split; [right; unfold notifies; simpl; lia|]. intros Hin. by apply not_elem_of_nil in Hin.
  - destruct (deliver_effect choice l sg Hok) as (Hok1 & Hle1 & Hor1 & Hall1).
    destruct (IH _ Hok1) as (Hok2 & Hle2 & Hor2 & Hall2).
    pose proof (count_nonneg (waits_on c) (foldl (deliver choice) (deliver choice l sg) signals)) as Hnn.
    split; [done|]. split; [lia|]. split.
    + destruct Hor1 as [?|Hor1]; [left; lia|]. destruct Hor2 as [?|Hor2]; [by left|]. right.
      unfold notifies in *. simpl in *. lia.
    + intros [Hsg|Hin]%elem_of_cons; [specialize (Hall1 (eq_sym Hsg)); lia|by apply Hall2].
Qed.

Record rinv (s : State) : Prop := {
  ri_waiters : waiters_ok (threads s);
  ri_closed : open (shared s) = false -> waiting s = 0;
  ri_open : open (shared s) = true -> 0 < waiting s -> avail (shared s) <= active s;
}.

(** A thread outside the wait set changes to another such phase, and no fewer
    threads will look. *)
Lemma rinv_set s t p q mx :
  rinv s -> threads s !! t = Some p -> (forall op, q <> Waiting c op) ->
  Z.b2z (is_active p) <= Z.b2z (is_active q) -> waits_on c q = false ->
  rinv (mkState (shared s) mx (<[t := q]> (threads s))).
Proof.
  intros [H1 H2 H3] Hp Hq Hle Hw. pose proof (lookup_lt_Some _ _ _ Hp). unfold waiting, active in *.
  assert (Hwp : 0 <= Z.b2z (waits_on c p)) by (destruct (waits_on c p); simpl; lia).
  pose proof (count_nonneg (waits_on c) (<[t := q]> (threads s))) as Hnn.
  split; simpl; unfold waiting, active; simpl.
  - intros i op. destruct (decide (i = t)) as [->|].
    + rewrite list_lookup_insert_eq by done. intros [= E]. by destruct (Hq op).
    + rewrite list_lookup_insert_ne by done. apply H1.
  - intros Ho. specialize (H2 Ho). rewrite (count_insert _ _ _ _ _ Hp), Hw in *. simpl in *. lia.
  - intros Ho. rewrite !(count_insert _ _ _ _ _ Hp), Hw. simpl. intros Hpos. specialize (H3 Ho ltac:(lia)). lia.
Qed.

Lemma rinv_step s a s' : rinv s -> step s a = Ok s' -> rinv s'.
Proof.
  intros Hr Hs. destruct a as [|t op|t|t choice|t]; simpl in Hs.
  - simplify_eq. destruct Hr as [H1 H2 H3]. unfold waiting, active in *.
    split; simpl; unfold waiting, active; simpl; rewrite ?count_app; simpl; rewrite ?Z.add_0_r; [|done|done].
    intros i op [Hi|[_ Hi]]%lookup_app_Some; [by eapply H1|]. apply list_lookup_singleton_Some in Hi as [_ [=]].
  - destruct (threads s !! t) as [[]|] eqn:Et; simplify_eq; try done.
    eapply rinv_set; [exact Hr|exact Et|done|simpl; destruct (consumes op); simpl; lia|done].
  - destruct (threads s !! t) as [[]|] eqn:Et; simplify_eq; try done.
    destruct (_ =? 0); simplify_eq; [|done]. eapply rinv_set; [exact Hr|exact Et|done|simpl; lia|done].
  - destruct (threads s !! t) as [[]|] eqn:Et; simplify_eq; try done.
    pose proof (lookup_lt_Some _ _ _ Et) as Hlt.
    destruct (body _ _ _ _) as [c'|st r signals|] eqn:Eb; simplify_eq; try done.
    + destruct (decide (c' = c)) as [->|Hne].
      * destruct (blocks_only _ _ _ _ Eb) as (Hc & Ho & Ha). destruct Hr as [H1 H2 H3].
        split; simpl; [|congruence|].
        -- intros i op'. destruct (decide (i = t)) as [->|].
           ++ rewrite list_lookup_insert_eq by done. by intros [= <-].
           ++ rewrite list_lookup_insert_ne by done. apply H1.
        -- intros _ _. pose proof (count_nonneg is_active (<[t := Waiting c op]> (threads s))).
           unfold active; simpl. lia.
      * eapply rinv_set; [exact Hr|exact Et|congruence| |by apply bool_decide_eq_false_2].
        simpl. by rewrite (blocks_other _ _ _ _ _ Eb Hne).
    + pose proof (returns_signal _ _ _ _ _ _ _ Eb) as Hret. destruct Hr as [H1 H2 H3].
      unfold waiting, active in *. set (l1 := <[t := Outside (Some r)]> (threads s)).
      assert (Hw1 : waiters_ok l1).
      { intros i op'. unfold l1. destruct (decide (i = t)) as [->|];
          [rewrite list_lookup_insert_eq by done; intros [=]|rewrite list_lookup_insert_ne by done; apply H1]. }
      assert (Ew : count (waits_on c) l1 = count (waits_on c) (threads s))
        by (unfold l1; rewrite (count_insert _ _ _ _ _ Et); simpl; lia).
      assert (Ea : count is_active l1 = count is_active (threads s) - Z.b2z (consumes op))
        by (unfold l1; rewrite (count_insert _ _ _ _ _ Et); simpl; lia).
      destruct (delivers_effect choice signals l1 Hw1) as (Hok & Hle & Hor & Hall).
      pose proof (count_nonneg (waits_on c) (foldl (deliver choice) l1 signals)) as Hnn.
      split; simpl; unfold waiting, active; simpl; [done|..].
      * intros Ho. rewrite Ho in Hret. destruct Hret as [Hc|Hin]; [specialize (H2 Hc); lia|by apply Hall].
      * intros Ho Hpos. rewrite Ho in Hret. destruct Hret as [Hos [Hin|Hav]]; [specialize (Hall Hin); lia|].
        destruct Hor as [?|Hor]; [lia|]. specialize (H3 Hos ltac:(lia)). unfold notifies in Hor. lia.
  - destruct (threads s !! t) as [[]|] eqn:Et; simplify_eq; try done.
    eapply rinv_set; [exact Hr|exact Et|done|simpl; destruct (consumes op); simpl; lia|done].
Qed.

Lemma rinv_start st : rinv (start st).
Proof. split; [done|done|]. simpl. intros _ Hw. unfold waiting in Hw. simpl in Hw. lia. Qed.

Lemma rinv_run st l s : run st l = Ok s -> rinv s.
Proof.
  unfold run. intros Hr. eapply (foldM_invariant rinv); [|apply rinv_start|exact Hr].
  intros s0 a s1 H0 _ H1. by eapply rinv_step.
Qed.

(** All threads are blocked: none is on its way to the mutex or inside. *)
Definition stuck (s : State) : Prop :=
  forall t p, threads s !! t = Some p -> match p with Ready _ | Inside _ => False | _ => True end.

Lemma stuck_inactive s : stuck s -> active s = 0.
Proof.
  intros Hs. apply count_none. intros i p Hi. specialize (Hs i p Hi). by destruct p.
Qed.

(** A stuck machine has waiters on [c] only if the resource is exhausted. *)
Lemma stuck_exhausted st l s :
  run st l = Ok s -> stuck s -> 0 < waiting s -> open (shared s) = true /\ avail (shared s) <= 0.
Proof.
  intros Hr Hs Hw. destruct (rinv_run _ _ _ Hr) as [H1 H2 H3]. pose proof (stuck_inactive s Hs).
  destruct (open (shared s)) eqn:E; [|specialize (H2 eq_refl); lia]. split; [done|].
  specialize (H3 eq_refl Hw). lia.
Qed.

End resource.

(** No thread can take the mutex, and none inside it can go on. *)
Definition idle (s : State) : Prop := forall t choice, step s (Acquire t) = Ok s /\ step s (Run t choice) = Ok s.

Lemma idle_stuck s : minv s -> idle s -> stuck s.
Proof.
  intros Hm Hi. assert (Hin : forall t op, threads s !! t <> Some (Inside op)).
  { intros t op Ht. destruct (Hi t O) as [_ H]. pose proof (lookup_lt_Some _ _ _ Ht) as Hlt. cbn [step] in H. rewrite Ht in H.
    destruct (body _ _ _ _) as [c|st r sg|f]; [|..|done]; apply (f_equal (fun o => match o with Ok s => threads s | Fault _ => [] end)) in H;
      cbn [threads] in H; rewrite <- H in Ht.
    - by rewrite list_lookup_insert_eq in Ht.
    - apply delivers_inside in Ht. by rewrite list_lookup_insert_eq in Ht. }
  intros t p Ht. destruct p as [| |op|]; [done| |by apply (Hin t op)|done]. destruct (Hi t O) as [H _]. cbn [step] in H. rewrite Ht in H.
  destruct (Z.eqb_spec (holder_ (mutex_ s)) 0) as [_|Hh]; [|by destruct (mi_held _ Hm Hh) as (t' & op' & ?%Hin)].
  apply (f_equal (fun o => match o with Ok s => threads s | Fault _ => [] end)) in H. cbn [threads] in H.
  pose proof (lookup_lt_Some _ _ _ Ht) as Hlt. rewrite <- H in Ht. by rewrite list_lookup_insert_eq in Ht.
Qed.

(** *** Runs *)
Lemma minv_run st l s : run st l = Ok s -> minv s.
Proof.
  unfold run. intros Hr. eapply (foldM_invariant minv); [|apply minv_start|exact Hr].
  intros s0 a s1 H0 _ H1. by eapply minv_step.
Qed.

(** An invariant of the data alone, kept by every method body. *)
Lemma shared_run (I : St -> Prop) st l s :
  I st ->
  (forall tid mx op s s' r sg, I s -> body tid mx op s = Return s' r sg -> I s') ->
  run st l = Ok s -> I (shared s).
Proof.
  intros H0 Hstep Hr. unfold run in Hr.
  refine (foldM_invariant (fun s => I (shared s)) step l _ (start st) s H0 Hr).
  intros s0 a s1 Hi _ Hs. destruct a as [|t op|t|t choice|t]; simpl in Hs.
  - by simplify_eq.
  - destruct (threads s0 !! t) as [[]|]; by simplify_eq.
  - destruct (threads s0 !! t) as [[]|]; simplify_eq; try done. destruct (_ =? 0); by simplify_eq.
  - destruct (threads s0 !! t) as [[]|]; simplify_eq; try done.
    destruct (body _ _ _ _) eqn:Eb; simplify_eq; simpl; [done|]. by eapply Hstep.
  - destruct (threads s0 !! t) as [[]|]; by simplify_eq.
Qed.

(** No method crashes: every step and every run has a result. *)
Lemma step_total s a :
  (forall tid mx op s f, holder_ mx = tid -> body tid mx op s <> Crash f) -> minv s ->
  exists s', step s a = Ok s'.
Proof.
  intros Hb Hm. destruct a as [|t op|t|t choice|t]; simpl; repeat case_match; eauto.
  exfalso. eapply Hb; [|eassumption]. by eapply (mi_inside _ Hm).
Qed.

Lemma run_total st l :
  (forall tid mx op s f, holder_ mx = tid -> body tid mx op s <> Crash f) ->
  exists s, run st l = Ok s.
Proof.
  intros Hb. unfold run. pose proof (minv_start st) as Hm. revert Hm. generalize (start st).
  induction l as [|a l IH]; intros s Hm; simpl; [eauto|].
  destruct (step_total s a Hb Hm) as (s' & Hs'). rewrite Hs'. simpl. apply IH. by eapply minv_step.
Qed.

End machine.
