(* ===== verification/Queues.v ===== *)
(** * Queues: base/BlockingQueue.h, base/BoundedBlockingQueue.h, base/CountDownLatch.h,
      base/CountDownLatch.cc

    Instances of the machine of Monitor.v.  The data of each class is extended
    with the history of what was put, taken or counted; [boost::circular_buffer]
    is its content and capacity.

    Theorems, over every interleaving of any number of threads: values come out
    in the order they went in, none is lost or taken twice, the bounded queue
    never exceeds its capacity; no signal is lost, so threads are left waiting
    only when there is nothing to wait for. *)

From S2P Require Import Prelude Monitor.

(** ** BlockingQueue *)
Module BlockingQueue.
Section queue.
Context {T : Type}.

Record Data := mkData {
  queue_ : list T;
  puts : list T;         (* history *)
  takes : list T;        (* history *)
}.

Inductive Op := Put (x : T) | Take | Size.
Inductive Res := RUnit | RValue (x : T) | RSize (n : Z).

(** The only condition variable is notEmpty_. *)
Abbreviation Cond := unit.

Definition empty (d : Data) : bool := match queue_ d with [] => true | _ => false end.

Definition put (x : T) (d : Data) : verdict (St := Data) (Res := Res) (Cond := Cond) :=
  Return (mkData (queue_ d ++ [x]) (puts d ++ [x]) (takes d)) RUnit [Notify tt].

Definition take (d : Data) : verdict (St := Data) (Res := Res) (Cond := Cond) :=
  if empty d then Block tt
  else match (c_assert (negb (empty d)), queue_ d) with
       | (Ok _, front :: rest) => Return (mkData rest (puts d) (takes d ++ [front])) (RValue front) []
       | (Fault f, _) => Crash f
       | (Ok _, []) => Crash UndefinedBehaviour
       end.

Definition size (d : Data) : verdict (St := Data) (Res := Res) (Cond := Cond) := Return d (RSize (zlen (queue_ d))) [].

Definition body (tid : Z) (mx : MutexLock) (op : Op) (d : Data) : verdict (St := Data) (Res := Res) (Cond := Cond) :=
  match op with
  | Put x => put x d
  | Take => take d
  | Size => size d
  end.

Definition newBlockingQueue : Data := mkData [] [] [].

#[global, refine] Instance notEmpty : Resource body tt := {|
  consumes op := match op with Take => true | _ => false end;
  avail d := zlen (queue_ d);
  open _ := true
|}.
Proof.
  - intros tid mx op d. destruct op; simpl; try done. unfold take, empty. destruct (queue_ d); done.
  - intros tid mx op d [] _ Hne. done.
  - intros tid mx op d d' r sg. simpl. destruct op as [x| |]; simpl.
    + intros [= <- <- <-]. split; [done|]. right. simpl. rewrite zlen_app. change (zlen [x]) with 1. lia.
    + unfold take, empty. destruct (queue_ d) as [|y q]; [done|]. intros [= <- <- <-]. split; [done|]. right.
      simpl. rewrite zlen_cons. lia.
    + intros [= <- <- <-]. split; [done|]. right. simpl. lia.
Defined.

(** Whatever the interleaving of any number of producers and consumers, the
    run never fails, values are taken in the order they were put, each once, at
    most one thread is inside and it is the recorded holder of the mutex; and if
    every thread is blocked while some consumer waits, the queue is empty. *)
Theorem blocking_queue_correct l :
  exists s, run body newBlockingQueue l = Ok s /\
    takes (shared s) ++ queue_ (shared s) = puts (shared s) /\
    (forall t op, threads s !! t = Some (Inside op) -> holder_ (mutex_ s) = tid_of t) /\
    (stuck s -> 0 < waiting tt s -> queue_ (shared s) = []).
Proof.
  destruct (run_total body newBlockingQueue l) as (s & Hs).
  { intros tid mx op d f _. destruct op; simpl; try done. unfold take, empty. by destruct (queue_ d). }
  exists s. split; [done|]. split; [|split].
  - refine (shared_run body (fun d => takes d ++ queue_ d = puts d) newBlockingQueue l s eq_refl _ Hs).
    intros tid mx op d d' r sg Hd. destruct op as [x| |]; simpl.
    + intros [= <- <- <-]. simpl. by rewrite (assoc_L (++)), Hd.
    + unfold take, empty. destruct (queue_ d) as [|y q] eqn:Eq; [done|]. intros [= <- <- <-]. simpl.
      rewrite <- Hd. by rewrite <- (assoc_L (++)).
    + by intros [= <- <- <-].
  - intros t op. apply (mi_inside _ (minv_run _ _ _ _ Hs)).
  - intros Hst Hw. destruct (stuck_exhausted body tt _ _ _ Hs Hst Hw) as [_ Ha]. simpl in Ha.
    apply zlen_0_nil. pose proof (zlen_nonneg (queue_ (shared s))). lia.
Qed.

End queue.
Arguments Op : clear implicits.
Arguments Data : clear implicits.
End BlockingQueue.

(** ** BoundedBlockingQueue *)
Module BoundedBlockingQueue.
Section queue.
Context {T : Type}.

Record Data := mkData {
  queue_ : list T;
  capacity_ : Z;         (* of the circular buffer *)
  puts : list T;         (* history *)
  takes : list T;        (* history *)
}.

Inductive Op := Put (x : T) | Take | Empty | Full | Size | Capacity.
Inductive Res := RUnit | RValue (x : T) | RBool (b : bool) | RSize (n : Z).
Inductive Cond := NotEmpty | NotFull.

#[global] Instance Cond_eq_dec : EqDecision Cond.
Proof. solve_decision. Defined.

(** A negative [int] becomes a [size_t] no buffer can have. *)
Definition newBoundedBlockingQueue (maxSize : Z) : outcome Data :=
  let capacity := u64 maxSize in
  if 2 ^ 63 <=? capacity then Fault LengthError else Ok (mkData [] capacity [] []).

Definition empty (d : Data) : bool := match queue_ d with [] => true | _ => false end.

Definition full (d : Data) : bool := zlen (queue_ d) =? capacity_ d.

Definition put (x : T) (d : Data) : verdict (St := Data) (Res := Res) (Cond := Cond) :=
  if full d then Block NotFull
  else match c_assert (negb (full d)) with
       | Ok _ => Return (mkData (queue_ d ++ [x]) (capacity_ d) (puts d ++ [x]) (takes d)) RUnit [Notify NotEmpty]
       | Fault f => Crash f
       end.

Definition take (d : Data) : verdict (St := Data) (Res := Res) (Cond := Cond) :=
  if empty d then Block NotEmpty
  else match (c_assert (negb (empty d)), queue_ d) with
       | (Ok _, front :: rest) =>
           Return (mkData rest (capacity_ d) (puts d) (takes d ++ [front])) (RValue front) [Notify NotFull]
       | (Fault f, _) => Crash f
       | (Ok _, []) => Crash UndefinedBehaviour
       end.

Definition body (tid : Z) (mx : MutexLock) (op : Op) (d : Data) : verdict (St := Data) (Res := Res) (Cond := Cond) :=
  match op with
  | Put x => put x d
  | Take => take d
  | Empty => Return d (RBool (empty d)) []
  | Full => Return d (RBool (full d)) []
  | Size => Return d (RSize (zlen (queue_ d))) []
  | Capacity => Return d (RSize (capacity_ d)) []
  end.

#[global, refine] Instance notEmpty : Resource body NotEmpty := {|
  consumes op := match op with Take => true | _ => false end;
  avail d := zlen (queue_ d);
  open _ := true
|}.
Proof.
  - intros tid mx op d. destruct op; simpl; try done.
    + unfold put. by destruct (full d).
    + unfold take, empty. by destruct (queue_ d).
  - intros tid mx op d c'. destruct op; simpl; try done. unfold take, empty. destruct (queue_ d); [|done]. by intros [= <-].
  - intros tid mx op d d' r sg. simpl. destruct op as [x| | | | |]; simpl; try (intros [= <- <- <-]; split; [done|]; right; simpl; lia).
    + unfold put. destruct (full d); [done|]. intros [= <- <- <-]. split; [done|]. right. simpl.
      rewrite zlen_app. change (zlen [x]) with 1. lia.
    + unfold take, empty. destruct (queue_ d) as [|y q]; [done|]. intros [= <- <- <-]. split; [done|]. right.
      simpl. rewrite zlen_cons. lia.
Defined.

#[global, refine] Instance notFull : Resource body NotFull := {|
  consumes op := match op with Put _ => true | _ => false end;
  avail d := capacity_ d - zlen (queue_ d);
  open _ := true
|}.
Proof.
  - intros tid mx op d. destruct op; simpl; try done.
    + unfold put, full. destruct (Z.eqb_spec (zlen (queue_ d)) (capacity_ d)); [|done]. intros _. split; [done|].
      split; [done|]. lia.
    + unfold take, empty. by destruct (queue_ d).
  - intros tid mx op d c'. destruct op; simpl; try done. unfold put. destruct (full d); [|done]. by intros [= <-].
  - intros tid mx op d d' r sg. simpl. destruct op as [x| | | | |]; simpl; try (intros [= <- <- <-]; split; [done|]; right; simpl; lia).
    + unfold put. destruct (full d); [done|]. intros [= <- <- <-]. split; [done|]. right. simpl.
      rewrite zlen_app. change (zlen [x]) with 1. lia.
    + unfold take, empty. destruct (queue_ d) as [|y q]; [done|]. intros [= <- <- <-]. split; [done|]. right.
      simpl. rewrite zlen_cons. lia.
Defined.

Definition data_ok (d : Data) : Prop :=
  takes d ++ queue_ d = puts d /\ zlen (queue_ d) <= capacity_ d.

Lemma data_ok_body tid mx op d d' r sg :
  data_ok d -> body tid mx op d = Return d' r sg -> data_ok d' /\ capacity_ d' = capacity_ d.
Proof.
  intros [Hd Hc]. unfold data_ok. destruct op as [x| | | | |]; simpl; try (by intros [= <- <- <-]).
  - unfold put, full. destruct (Z.eqb_spec (zlen (queue_ d)) (capacity_ d)); [done|]. intros [= <- <- <-]. simpl.
    rewrite (assoc_L (++)), Hd, zlen_app. change (zlen [x]) with 1. split; [split; [done|lia]|done].
  - unfold take, empty. destruct (queue_ d) as [|y q] eqn:Eq; [done|]. intros [= <- <- <-]. simpl.
    rewrite zlen_cons in Hc. rewrite <- Hd, <- (assoc_L (++)). split; [split; [done|lia]|done].
Qed.

(** C7: A bounded queue of capacity at least one, under any interleaving of
    producers and consumers: runs never fail, the queue never holds more than
    its capacity, values are taken in the order they were put, each once; and it
    cannot deadlock: never are all threads blocked with both a producer and a
    consumer among them. *)
Theorem bounded_queue_correct maxSize d0 l
  (Hsize : 0 < maxSize < 2 ^ 31) (Hnew : newBoundedBlockingQueue maxSize = Ok d0) :
  exists s, run body d0 l = Ok s /\
    takes (shared s) ++ queue_ (shared s) = puts (shared s) /\ zlen (queue_ (shared s)) <= maxSize /\
    (stuck s -> 0 < waiting NotEmpty s -> waiting NotFull s = 0 /\ queue_ (shared s) = []).
Proof.
  unfold newBoundedBlockingQueue in Hnew. rewrite (wrapU_id 64) in Hnew by (unfold in_u; lia).
  rewrite (proj2 (Z.leb_gt _ _)) in Hnew by lia. injection Hnew as <-.
  destruct (run_total body (mkData [] maxSize [] []) l) as (s & Hs).
  { intros tid mx op d f _. destruct op; simpl; try done; [unfold put; by destruct (full d)|unfold take, empty; by destruct (queue_ d)]. }
  exists s. split; [done|].
  assert (Hok : data_ok (shared s) /\ capacity_ (shared s) = maxSize).
  { refine (shared_run body (fun d => data_ok d /\ capacity_ d = maxSize) (mkData [] maxSize [] []) l s _ _ Hs).
    - split; [|done]. split; [done|]. simpl. change (zlen (@nil T)) with 0. lia.
    - intros tid mx op d d' r sg [Hd Hc] Hb. destruct (data_ok_body _ _ _ _ _ _ _ Hd Hb). split; [done|congruence]. }
  destruct Hok as [[Hf Hc] Hcap]. split; [done|]. split; [lia|]. intros Hst Hw.
  destruct (stuck_exhausted body NotEmpty _ _ _ Hs Hst Hw) as [_ Ha]. simpl in Ha.
  pose proof (zlen_nonneg (queue_ (shared s))). split; [|apply zlen_0_nil; lia].
  pose proof (count_nonneg (waits_on NotFull) (threads s)). fold (waiting NotFull s) in *.
  destruct (decide (0 < waiting NotFull s)) as [Hp|]; [|unfold waiting in *; lia].
  destruct (stuck_exhausted body NotFull _ _ _ Hs Hst Hp) as [_ Hb]. simpl in Hb. lia.
Qed.

End queue.
Arguments Op : clear implicits.
Arguments Data : clear implicits.

(** Two producers and a consumer on a queue of one slot. *)
Definition sample_run : list (action (Op := Op Z)) :=
  [Spawn; Spawn; Spawn; Call 0%nat Take; Acquire 0%nat; Run 0%nat 0%nat;
   Call 1%nat (Put 7); Acquire 1%nat; Run 1%nat 0%nat;
   Call 2%nat (Put 8); Acquire 2%nat; Run 2%nat 0%nat; Acquire 0%nat; Run 0%nat 2%nat;
   Acquire 2%nat; Run 2%nat 0%nat].

Lemma bounded_queue_correct_witness :
  exists d0 s, newBoundedBlockingQueue 1 = Ok d0 /\ run body d0 sample_run = Ok s /\
    takes (shared s) = [7] /\ queue_ (shared s) = [8].
Proof.
  destruct (bounded_queue_correct 1 (mkData [] 1 [] []) sample_run) as (s & Hs & _); [lia|done|].
  exists (mkData [] 1 [] []), s. split; [done|]. split; [done|].
  vm_compute in Hs. injection Hs as <-. done.
Defined.
End BoundedBlockingQueue.

(** ** CountDownLatch *)
Module CountDownLatch.

Record Data := mkData {
  count_ : Z;
  downs : Z;            (* history: calls of countDown *)
}.

Inductive Op := Wait | CountDown | GetCount.
Inductive Res := RUnit | RCount (n : Z).
Abbreviation Cond := unit.

Definition newCountDownLatch (n : Z) : Data := mkData n 0.

Definition wait (d : Data) : verdict (St := Data) (Res := Res) (Cond := Cond) :=
  if 0 <? count_ d then Block tt else Return d RUnit [].

(** [--count_] on an [int]. *)
Definition countDown (d : Data) : verdict (St := Data) (Res := Res) (Cond := Cond) :=
  if count_ d =? - 2 ^ 31 then Crash Overflow
  else
    let d' := mkData (count_ d - 1) (downs d + 1) in
    Return d' RUnit (if count_ d' =? 0 then [NotifyAll tt] else []).

Definition getCount (d : Data) : verdict (St := Data) (Res := Res) (Cond := Cond) := Return d (RCount (count_ d)) [].

Definition body (tid : Z) (mx : MutexLock) (op : Op) (d : Data) : verdict (St := Data) (Res := Res) (Cond := Cond) :=
  match op with
  | Wait => wait d
  | CountDown => countDown d
  | GetCount => getCount d
  end.

(** Nobody consumes the count: the latch closes when it reaches zero. *)
#[global, refine] Instance condition : Resource body tt := {|
  consumes op := match op with Wait => true | _ => false end;
  avail _ := 0;
  open d := 0 <? count_ d
|}.
Proof.
  - intros tid mx op d. destruct op; simpl; try done.
    + unfold wait. destruct (0 <? count_ d); done.
    + unfold countDown. by destruct (_ =? _).
  - intros tid mx op d [] _ Hne. done.
  - intros tid mx op d d' r sg. simpl. destruct op; simpl.
    + unfold wait. destruct (0 <? count_ d) eqn:E; [done|]. intros [= <- <- <-]. rewrite E. by left.
    + unfold countDown. destruct (count_ d =? - 2 ^ 31); [done|]. intros [= <- <- <-]. simpl.
      destruct (Z.ltb_spec 0 (count_ d - 1)) as [Hp|Hn].
      * split; [lia|]. right. rewrite (proj2 (Z.eqb_neq _ _)) by lia. simpl. lia.
      * destruct (Z.eqb_spec (count_ d - 1) 0); [right; left|left; lia].
    + intros [= <- <- <-]. destruct (0 <? count_ d) eqn:E; [|by left]. split; [done|]. right. simpl. lia.
Defined.

(** The latch counts exactly the calls of countDown; a thread still waiting
    on it means the count has not reached zero, in particular once count calls
    were made nobody is left waiting, however the wakeups were ordered. *)
Theorem latch_correct n l s (Hrun : run body (newCountDownLatch n) l = Ok s) :
  count_ (shared s) = n - downs (shared s) /\
  (0 < waiting tt s -> 0 < count_ (shared s)) /\ (n <= downs (shared s) -> waiting tt s = 0).
Proof.
  assert (Hc : count_ (shared s) = n - downs (shared s)).
  { refine (shared_run body (fun d => count_ d = n - downs d) (newCountDownLatch n) l s _ _ Hrun); [simpl; lia|].
    intros tid mx op d d' r sg Hd. destruct op; simpl.
    - unfold wait. destruct (0 <? count_ d); [done|]. by intros [= <- <- <-].
    - unfold countDown. destruct (_ =? _); [done|]. intros [= <- <- <-]. simpl. lia.
    - by intros [= <- <- <-]. }
  destruct (rinv_run body tt _ _ _ Hrun) as [_ Hclosed _]. simpl in Hclosed.
  pose proof (count_nonneg (waits_on tt) (threads s)) as Hnn. fold (waiting tt s) in Hnn.
  assert (Hw : 0 < waiting tt s -> 0 < count_ (shared s)).
  { intros Hp. destruct (Z.ltb_spec 0 (count_ (shared s))); [done|]. specialize (Hclosed eq_refl). lia. }
  split; [done|]. split; [done|]. intros Hd.
  destruct (decide (0 < waiting tt s)) as [Hp|]; [specialize (Hw Hp); lia|]. unfold waiting in *. lia.
Qed.

(** Two waiters, count two. *)
Lemma latch_correct_witness :
  let l := [Spawn; Spawn; Spawn; Call 0%nat Wait; Acquire 0%nat; Run 0%nat 0%nat;
            Call 1%nat Wait; Acquire 1%nat; Run 1%nat 0%nat;
            Call 2%nat CountDown; Acquire 2%nat; Run 2%nat 0%nat;
            Call 2%nat CountDown; Acquire 2%nat; Run 2%nat 0%nat] in
  exists s, run body (newCountDownLatch 2) l = Ok s /\ waiting tt s = 0.
Proof.
  intros l. destruct (run body (newCountDownLatch 2) l) as [s|] eqn:E; [|vm_compute in E; discriminate].
  exists s. split; [done|]. destruct (latch_correct 2 l s E) as (_ & _ & Hz). apply Hz.
  vm_compute in E. injection E as <-. simpl. lia.
Defined.
End CountDownLatch.
