(* ===== verification/ThreadPool.v ===== *)
(** * ThreadPool: base/ThreadPool.h, base/ThreadPool.cc

    The pool's shared data and methods are an instance of the machine of
    Monitor.v; around it, the worker loop of [runInThread] reads [running_],
    calls [take] and executes what it got.  A task is a value of an abstract
    type that may throw.  Any thread may submit tasks, a worker also while it
    executes one.

    Theorems: tasks are executed at most once, in the order they were taken,
    which is the order they were submitted; when nothing can move any more and the
    pool runs, everything submitted was executed and no producer is left
    blocked, or all workers are blocked in calls of run() by their own tasks; after
    [stop] every worker ends but for those.  Runs show that deadlock, and what stop
    leaves behind. *)

From S2P Require Import Prelude Monitor.

Module ThreadPool.
Section pool.
Context {Task : Type} (throws : Task -> bool).

Record Data := mkData {
  queue_ : list Task;
  maxQueueSize_ : Z;
  running_ : bool;
  puts : list Task;      (* history *)
  takes : list Task;     (* history *)
}.

Inductive Op := RunTask (x : Task) | TakeTask | StopPool | QueueSize.
Inductive Res := RUnit | RTask (o : option Task) | RSize (n : Z).
Inductive Cond := NotEmpty | NotFull.

#[global] Instance Cond_eq_dec : EqDecision Cond.
Proof. solve_decision. Defined.

Definition isFull (tid : Z) (mx : MutexLock) (d : Data) : outcome bool :=
  assertLocked tid mx;;
  Ok ((0 <? maxQueueSize_ d) && (maxQueueSize_ d <=? zlen (queue_ d))).

(** [run], the branch with worker threads. *)
Definition run_locked (tid : Z) (mx : MutexLock) (x : Task) (d : Data)
  : verdict (St := Data) (Res := Res) (Cond := Cond) :=
  match isFull tid mx d with
  | Fault f => Crash f
  | Ok true => Block NotFull
  | Ok false =>
      match (b ← isFull tid mx d; c_assert (negb b)) with
      | Fault f => Crash f
      | Ok _ =>
          Return (mkData (queue_ d ++ [x]) (maxQueueSize_ d) (running_ d) (puts d ++ [x]) (takes d))
            RUnit [Notify NotEmpty]
      end
  end.

Definition take (d : Data) : verdict (St := Data) (Res := Res) (Cond := Cond) :=
  match queue_ d with
  | [] => if running_ d then Block NotEmpty else Return d (RTask None) []
  | x :: rest =>
      Return (mkData rest (maxQueueSize_ d) (running_ d) (puts d) (takes d ++ [x])) (RTask (Some x))
        (if 0 <? maxQueueSize_ d then [Notify NotFull] else [])
  end.

(** [stop], up to the joins. *)
Definition stop_locked (d : Data) : verdict (St := Data) (Res := Res) (Cond := Cond) :=
  Return (mkData (queue_ d) (maxQueueSize_ d) false (puts d) (takes d)) RUnit [NotifyAll NotEmpty].

Definition queueSize (d : Data) : verdict (St := Data) (Res := Res) (Cond := Cond) :=
  Return d (RSize (zlen (queue_ d))) [].

Definition body (tid : Z) (mx : MutexLock) (op : Op) (d : Data)
  : verdict (St := Data) (Res := Res) (Cond := Cond) :=
  match op with
  | RunTask x => run_locked tid mx x d
  | TakeTask => take d
  | StopPool => stop_locked d
  | QueueSize => queueSize d
  end.

(** ** The pool *)
(** Where a worker is in [runInThread]: before the init callback, at the test of
    [running_] (or inside a task), in [take] or about to use its result, after
    the loop. *)
Inductive wstate := WInit | WLoop | WTaking | WEnded.

Record Pool := mkPool {
  mon : State (St := Data) (Op := Op) (Res := Res) (Cond := Cond);
  threads_ : list wstate;
  threadInitCallback_ : bool;     (* is one set *)
  inits : Z;                      (* calls of it *)
  executed : list Task;           (* by the workers *)
  inlined : list Task;            (* by the callers of run, without workers *)
}.

Definition newThreadPool : Pool :=
  mkPool (start (mkData [] 0 false [] [])) [] false 0 [] [].

Definition with_mon (p : Pool) (s : State) : Pool :=
  mkPool s (threads_ p) (threadInitCallback_ p) (inits p) (executed p) (inlined p).

Definition with_data (p : Pool) (d : Data) : Pool :=
  with_mon p (mkState d (mutex_ (mon p)) (threads (mon p))).

(** An [int] stored in a [size_t]. *)
Definition setMaxQueueSize (maxSize : Z) (p : Pool) : Pool :=
  let d := shared (mon p) in
  with_data p (mkData (queue_ d) (u64 maxSize) (running_ d) (puts d) (takes d)).

Definition setThreadInitCallback (p : Pool) : Pool :=
  mkPool (mon p) (threads_ p) true (inits p) (executed p) (inlined p).

Definition start (numThreads : Z) (p : Pool) : outcome Pool :=
  c_assert (bool_decide (threads_ p = []));;
  let d := shared (mon p) in
  let p := with_data p (mkData (queue_ d) (maxQueueSize_ d) true (puts d) (takes d)) in
  if 2 ^ 60 <=? u64 numThreads then Fault LengthError   (* reserve *)
  else
    let n := Z.to_nat numThreads in
    let mon' := mkState (shared (mon p)) (mutex_ (mon p)) (threads (mon p) ++ replicate n (Outside None)) in
    Ok (mkPool mon' (replicate n WInit) (threadInitCallback_ p)
          (if (numThreads =? 0) && threadInitCallback_ p then inits p + 1 else inits p)
          (executed p) (inlined p)).

(** Clients, and workers that execute a task or the init callback. *)
Definition may_call (t : nat) (p : Pool) : bool :=
  match threads (mon p) !! t, threads_ p !! t with
  | Some (Outside _), None | Some (Outside _), Some WLoop => true
  | _, _ => false
  end.

Definition call (t : nat) (op : Op) (p : Pool) : outcome Pool :=
  if may_call t p then with_mon p <$> step body (mon p) (Call t op) else Ok p.

Definition run (t : nat) (x : Task) (p : Pool) : outcome Pool :=
  if bool_decide (threads_ p = []) then
    Ok (if may_call t p
        then mkPool (mon p) (threads_ p) (threadInitCallback_ p) (inits p) (executed p) (inlined p ++ [x])
        else p)
  else call t (RunTask x) p.

Definition stop (t : nat) (p : Pool) : outcome Pool := call t StopPool p.

Definition destroy (t : nat) (p : Pool) : outcome Pool :=
  if running_ (shared (mon p)) then stop t p else Ok p.

Definition set_worker (t : nat) (w : wstate) (p : Pool) : Pool :=
  mkPool (mon p) (<[t := w]> (threads_ p)) (threadInitCallback_ p) (inits p) (executed p) (inlined p).

(** One move of worker [t] in [runInThread]; an exception of a task ends in
    [abort()]. *)
Definition worker_turn (t : nat) (p : Pool) : outcome Pool :=
  match threads_ p !! t, threads (mon p) !! t with
  | Some WInit, Some (Outside _) =>
      Ok (set_worker t WLoop
            (mkPool (mon p) (threads_ p) (threadInitCallback_ p)
               (if threadInitCallback_ p then inits p + 1 else inits p) (executed p) (inlined p)))
  | Some WLoop, Some (Outside _) =>
      if running_ (shared (mon p))
      then (fun s => set_worker t WTaking (with_mon p s)) <$> step body (mon p) (Call t TakeTask)
      else Ok (set_worker t WEnded p)
  | Some WTaking, Some (Outside (Some (RTask (Some x)))) =>
      if throws x then Fault Aborted
      else Ok (set_worker t WLoop
                 (mkPool (mon p) (threads_ p) (threadInitCallback_ p) (inits p) (executed p ++ [x]) (inlined p)))
  | Some WTaking, Some (Outside (Some (RTask None))) => Ok (set_worker t WLoop p)
  | _, _ => Ok p
  end.

Inductive action :=
| Client                       (* a new thread outside the pool *)
| DoRun (t : nat) (x : Task)
| DoStop (t : nat)
| DoDestroy (t : nat)
| DoQueueSize (t : nat)
| Worker (t : nat)
| Lock (t : nat)
| Body (t : nat) (choice : nat)
| Wakeup (t : nat).            (* spurious *)

Definition pstep (p : Pool) (a : action) : outcome Pool :=
  match a with
  | Client => with_mon p <$> step body (mon p) Spawn
  | DoRun t x => run t x p
  | DoStop t => stop t p
  | DoDestroy t => destroy t p
  | DoQueueSize t => call t QueueSize p
  | Worker t => worker_turn t p
  | Lock t => with_mon p <$> step body (mon p) (Acquire t)
  | Body t choice => with_mon p <$> step body (mon p) (Run t choice)
  | Wakeup t => with_mon p <$> step body (mon p) (Spurious t)
  end.

Definition started (maxSize numThreads : Z) : outcome Pool :=
  start numThreads (setMaxQueueSize maxSize newThreadPool).

Definition prun (maxSize numThreads : Z) (l : list action) : outcome Pool :=
  p ← started maxSize numThreads; foldM pstep p l.

(** ** What the monitor guarantees *)
Lemma run_locked_return tid mx x d d' r sg :
  run_locked tid mx x d = Return d' r sg ->
  d' = mkData (queue_ d ++ [x]) (maxQueueSize_ d) (running_ d) (puts d ++ [x]) (takes d) /\
  r = RUnit /\ sg = [Notify NotEmpty] /\
  (0 < maxQueueSize_ d -> zlen (queue_ d) < maxQueueSize_ d).
Proof.
  unfold run_locked, isFull. destruct (assertLocked tid mx); [|done]. cbn [mbind outcome_bind].
  destruct (_ && _) eqn:E; [done|]. simpl. intros [= <- <- <-]. split_and!; try done.
  apply andb_false_iff in E as [?%Z.ltb_ge|?%Z.leb_gt]; lia.
Qed.

Lemma run_locked_block tid mx x d c :
  run_locked tid mx x d = Block c -> c = NotFull /\ 0 < maxQueueSize_ d <= zlen (queue_ d).
Proof.
  unfold run_locked, isFull. destruct (assertLocked tid mx); [|done]. cbn [mbind outcome_bind].
  destruct (_ && _) eqn:E; simpl; [|done]. intros [= <-].
  apply andb_true_iff in E as [?%Z.ltb_lt ?%Z.leb_le]. split; [done|lia].
Qed.

Lemma run_locked_held tid mx x d f : holder_ mx = tid -> run_locked tid mx x d <> Crash f.
Proof.
  intros Hh. unfold run_locked, isFull, assertLocked, isLockedByThisThread. rewrite Hh, Z.eqb_refl. simpl.
  by destruct (_ && _).
Qed.

#[global, refine] Instance notEmpty : Resource body NotEmpty := {|
  consumes op := match op with TakeTask => true | _ => false end;
  avail d := zlen (queue_ d);
  open d := running_ d
|}.
Proof.
  - intros tid mx op d. destruct op as [x| | |]; simpl; try done.
    + by intros [[=] _]%run_locked_block.
    + unfold take. destruct (queue_ d); [|done]. by destruct (running_ d).
  - intros tid mx op d c'. destruct op; simpl; try done. unfold take. destruct (queue_ d); [|done].
    destruct (running_ d); [|done]. by intros [= <-].
  - intros tid mx op d d' r sg. destruct op as [x| | |]; simpl.
    + intros (-> & -> & -> & _)%run_locked_return. simpl. destruct (running_ d); [|by left]. split; [done|].
      right. simpl. rewrite zlen_app. change (zlen [x]) with 1. lia.
    + unfold take. destruct (queue_ d) as [|y q] eqn:E.
      * destruct (running_ d) eqn:Er; [done|]. intros [= <- <- <-]. rewrite Er. by left.
      * intros [= <- <- <-]. simpl. destruct (running_ d); [|by left]. split; [done|]. right.
        rewrite zlen_cons. simpl. destruct (0 <? maxQueueSize_ d); simpl; lia.
    + intros [= <- <- <-]. simpl. right. left.
    + intros [= <- <- <-]. simpl. destruct (running_ d); [|by left]. split; [done|]. right. lia.
Defined.

#[global, refine] Instance notFull : Resource body NotFull := {|
  consumes op := match op with RunTask _ => true | _ => false end;
  avail d := maxQueueSize_ d - zlen (queue_ d);
  open d := 0 <? maxQueueSize_ d
|}.
Proof.
  - intros tid mx op d. destruct op as [x| | |]; simpl; try done.
    + intros [_ Hm]%run_locked_block. rewrite (proj2 (Z.ltb_lt _ _)) by lia. split_and!; [done|done|lia].
    + unfold take. destruct (queue_ d); [|done]. by destruct (running_ d).
  - intros tid mx op d c'. destruct op; simpl; try done. by intros [-> _]%run_locked_block.
  - intros tid mx op d d' r sg. destruct op as [x| | |]; simpl.
    + intros (-> & -> & -> & _)%run_locked_return. simpl. destruct (0 <? maxQueueSize_ d); [|by left].
      split; [done|]. right. rewrite zlen_app. change (zlen [x]) with 1. simpl. lia.
    + unfold take. destruct (queue_ d) as [|y q] eqn:E.
      * destruct (running_ d) eqn:Er; [done|]. intros [= <- <- <-]. rewrite E.
        destruct (0 <? maxQueueSize_ d); [|by left]. split; [done|]. right. simpl. lia.
      * intros [= <- <- <-]. simpl. destruct (0 <? maxQueueSize_ d); [|by left]. split; [done|]. right.
        rewrite zlen_cons. simpl. lia.
    + intros [= <- <- <-]. simpl. destruct (0 <? maxQueueSize_ d); [|by left]. split; [done|]. right. simpl. lia.
    + intros [= <- <- <-]. simpl. destruct (0 <? maxQueueSize_ d); [|by left]. split; [done|]. right. lia.
Defined.

(** The data alone: nothing is lost or duplicated between [run] and [take]. *)
Definition data_ok (d : Data) : Prop :=
  takes d ++ queue_ d = puts d /\ (0 < maxQueueSize_ d -> zlen (queue_ d) <= maxQueueSize_ d).

Lemma pool_data_body tid mx op d d' r sg :
  data_ok d -> body tid mx op d = Return d' r sg -> data_ok d' /\ maxQueueSize_ d' = maxQueueSize_ d.
Proof.
  intros [Hd Hm]. unfold data_ok. destruct op as [x| | |]; simpl.
  - intros (-> & -> & -> & Hlt)%run_locked_return. simpl. rewrite (assoc_L (++)), Hd, zlen_app.
    change (zlen [x]) with 1. split; [split; [done|]|done]. intros Hp. specialize (Hlt Hp). lia.
  - unfold take. destruct (queue_ d) as [|y q] eqn:E.
    + destruct (running_ d); [done|]. intros [= <- <- <-]. rewrite E. by split.
    + intros [= <- <- <-]. simpl. rewrite zlen_cons in Hm. rewrite <- Hd, <- (assoc_L (++)).
      split; [split; [done|]|done]. intros Hp. specialize (Hm Hp). lia.
  - by intros [= <- <- <-].
  - by intros [= <- <- <-].
Qed.

Lemma body_held tid mx op d f : holder_ mx = tid -> body tid mx op d <> Crash f.
Proof.
  intros Hh. destruct op; simpl; try done; [by apply run_locked_held|].
  unfold take. destruct (queue_ d); [|done]. by destruct (running_ d).
Qed.

(** ** The invariant of the pool *)
Definition op_of (ph : phase (Op := Op) (Res := Res) (Cond := Cond)) : option Op :=
  match ph with Ready op | Inside op | Waiting _ op => Some op | Outside _ => None end.

(** Which phases a worker's place in the loop allows. *)
Definition compat (w : option wstate) (ph : phase (Op := Op) (Res := Res) (Cond := Cond)) : Prop :=
  match w with
  | Some WTaking => op_of ph = Some TakeTask \/ exists o, ph = Outside (Some (RTask o))
  | Some WInit | Some WEnded => exists r, ph = Outside r
  | Some WLoop | None => op_of ph <> Some TakeTask
  end.

(** A task taken and not yet executed. *)
Definition hand (w : option wstate) (ph : phase (Op := Op) (Res := Res) (Cond := Cond)) : list Task :=
  match w, ph with
  | Some WTaking, Outside (Some (RTask (Some x))) => [x]
  | _, _ => []
  end.

Definition hands (ws : list wstate) (ps : list (phase (Op := Op) (Res := Res) (Cond := Cond))) : list (list Task) :=
  imap (fun i ph => hand (ws !! i) ph) ps.

Record pinv (d0 : Data) (p : Pool) : Prop := {
  pi_reach : exists l, Monitor.run body d0 l = Ok (mon p);
  pi_len : (length (threads_ p) <= length (threads (mon p)))%nat;
  pi_compat : forall t ph, threads (mon p) !! t = Some ph -> compat (threads_ p !! t) ph;
  pi_ended : forall t, threads_ p !! t = Some WEnded -> running_ (shared (mon p)) = false;
  pi_hand : takes (shared (mon p)) ≡ₚ executed p ++ concat (hands (threads_ p) (threads (mon p)));
}.

Lemma hands_lookup ws ps i : hands ws ps !! i = hand (ws !! i) <$> ps !! i.
Proof. unfold hands. by rewrite list_lookup_imap. Qed.

Lemma concat_insert {A} (ls : list (list A)) i a b :
  ls !! i = Some a -> concat (<[i := b]> ls) ++ a ≡ₚ concat ls ++ b.
Proof.
  revert i; induction ls as [|l ls IH]; intros [|i] Hi; simpl in *; try done.
  - injection Hi as ->. rewrite <- !(assoc_L (++)). solve_Permutation.
  - rewrite <- !(assoc_L (++)). by rewrite (IH i Hi).
Qed.

Lemma compat_woken w ph ph' : compat w ph -> woken ph ph' -> compat w ph'.
Proof.
  intros Hc [->|(c & op & -> & ->)]; [done|]. destruct w as [[]|]; simpl in *; try done.
  - by destruct Hc.
  - destruct Hc as [?|[? ?]]; [by left|done].
  - by destruct Hc.
Qed.

Lemma hand_woken w ph ph' : woken ph ph' -> hand w ph' = hand w ph.
Proof. intros [->|(c & op & -> & ->)]; [done|]. by destruct w as [[]|]. Qed.

Lemma woken_outside (r : option Res) (q : phase (Op := Op) (Res := Res) (Cond := Cond)) :
  woken (Outside r) q -> q = Outside r.
Proof. intros [->|(c & op & [=] & _)]; done. Qed.

Lemma hands_move ws ws' ps t q sg choice :
  (t < length ps)%nat -> (forall i, i <> t -> ws' !! i = ws !! i) ->
  hands ws' (foldl (deliver choice) (<[t := q]> ps) sg) = <[t := hand (ws' !! t) q]> (hands ws ps).
Proof.
  intros Ht Hws. apply list_eq. intros i. rewrite hands_lookup.
  destruct (decide (i = t)) as [->|Hne].
  - rewrite list_lookup_insert_eq by (unfold hands; by rewrite length_imap).
    destruct (delivers_lookup choice sg (<[t := q]> ps) t q) as (q' & -> & Hq'); [by apply list_lookup_insert_eq|].
    simpl. by rewrite (hand_woken _ _ _ Hq').
  - rewrite list_lookup_insert_ne by done. rewrite hands_lookup, (Hws i Hne).
    destruct (ps !! i) as [ph|] eqn:E.
    + destruct (delivers_lookup choice sg (<[t := q]> ps) i ph) as (q' & -> & Hq');
        [by rewrite list_lookup_insert_ne|]. simpl. by rewrite (hand_woken _ _ _ Hq').
    + rewrite (lookup_ge_None_2 (foldl _ _ _) i); [done|]. rewrite delivers_length, length_insert.
      by apply lookup_ge_None.
Qed.

(** Thread [t] moves from [ph] to [q], its place in the loop from the old to the
    new entry, and signals are delivered. *)
Lemma pinv_move d0 p ws' t ph q sg choice d' mx hc ni ex' il :
  pinv d0 p -> threads (mon p) !! t = Some ph ->
  length ws' = length (threads_ p) -> (forall i, i <> t -> ws' !! i = threads_ p !! i) ->
  (exists l, Monitor.run body d0 l = Ok (mkState d' mx (foldl (deliver choice) (<[t := q]> (threads (mon p))) sg))) ->
  compat (ws' !! t) q ->
  (running_ d' = true -> running_ (shared (mon p)) = true) ->
  (ws' !! t = Some WEnded -> running_ d' = false) ->
  takes d' ++ executed p ++ hand (threads_ p !! t) ph ≡ₚ takes (shared (mon p)) ++ ex' ++ hand (ws' !! t) q ->
  pinv d0 (mkPool (mkState d' mx (foldl (deliver choice) (<[t := q]> (threads (mon p))) sg)) ws' hc ni ex' il).
Proof.
  intros [Hr Hl Hc He Hh] Hph Hlen Hws Hreach Hq Hrun Hend Hperm. pose proof (lookup_lt_Some _ _ _ Hph) as Hlt.
  split; simpl.
  - done.
  - by rewrite delivers_length, length_insert, Hlen.
  - intros i ph' Hi. destruct (decide (i = t)) as [->|Hne].
    + destruct (delivers_lookup choice sg (<[t := q]> (threads (mon p))) t q) as (q' & Hq' & Hw);
        [by apply list_lookup_insert_eq|]. simplify_eq. by eapply compat_woken.
    + destruct (threads (mon p) !! i) as [ph1|] eqn:Ei.
      * destruct (delivers_lookup choice sg (<[t := q]> (threads (mon p))) i ph1) as (q' & Hq' & Hw);
          [by rewrite list_lookup_insert_ne|]. simplify_eq. rewrite (Hws i Hne). eapply compat_woken; eauto.
      * apply lookup_lt_Some in Hi. rewrite delivers_length, length_insert in Hi.
        apply lookup_ge_None in Ei. lia.
  - intros i Hi. destruct (decide (i = t)) as [->|Hne]; [by apply Hend|]. rewrite (Hws i Hne) in Hi.
    specialize (He i Hi). destruct (running_ d'); [|done]. rewrite Hrun in He; done.
  - rewrite (hands_move _ _ _ _ _ _ _ Hlt Hws).
    assert (Hold : hands (threads_ p) (threads (mon p)) !! t = Some (hand (threads_ p !! t) ph))
      by (rewrite hands_lookup, Hph; done).
    pose proof (concat_insert _ _ _ (hand (ws' !! t) q) Hold) as Hci.
    apply (Permutation_app_inv_r (executed p ++ hand (threads_ p !! t) ph)).
    rewrite Hperm, Hh. transitivity (executed p ++ ex' ++ (concat (hands (threads_ p) (threads (mon p))) ++ hand (ws' !! t) q));
      [solve_Permutation|]. rewrite <- Hci. solve_Permutation.
Qed.

Lemma reach_step d0 s a s' :
  (exists l, Monitor.run body d0 l = Ok s) -> step body s a = Ok s' -> exists l, Monitor.run body d0 l = Ok s'.
Proof.
  intros (l & Hl) Hs. exists (l ++ [a]). unfold Monitor.run in *. rewrite foldM_app, Hl. simpl. by rewrite Hs.
Qed.

(** A thread that changes phase alone, without a task changing hands. *)
Lemma pinv_phase d0 p t ph q mx s' :
  pinv d0 p -> threads (mon p) !! t = Some ph -> s' = mkState (shared (mon p)) mx (<[t := q]> (threads (mon p))) ->
  (exists l, Monitor.run body d0 l = Ok s') -> compat (threads_ p !! t) q ->
  hand (threads_ p !! t) ph = hand (threads_ p !! t) q -> pinv d0 (with_mon p s').
Proof.
  intros Hp Hph -> Hreach Hc Hh.
  apply (pinv_move d0 p (threads_ p) t ph q [] O); try done.
  - intros He. by apply (pi_ended _ _ Hp t).
  - by rewrite Hh.
Qed.

(** A task is taken only by a worker in [take]. *)
Lemma body_takes tid mx op d d' r sg :
  body tid mx op d = Return d' r sg ->
  (running_ d' = true -> running_ d = true) /\
  match op with
  | TakeTask => exists o, r = RTask o /\ takes d' = takes d ++ match o with Some x => [x] | None => [] end
  | _ => takes d' = takes d
  end.
Proof.
  destruct op as [x| | |]; simpl.
  - by intros (-> & _)%run_locked_return.
  - unfold take. destruct (queue_ d) as [|y q] eqn:E.
    + destruct (running_ d) eqn:Er; [done|]. intros [= <- <- <-]. split; [congruence|]. exists None. split; [done|]. by rewrite app_nil_r.
    + intros [= <- <- <-]. simpl. split; [done|]. by exists (Some y).
  - by intros [= <- <- <-].
  - by intros [= <- <- <-].
Qed.

Lemma pinv_spawn d0 p s' : pinv d0 p -> step body (mon p) Spawn = Ok s' -> pinv d0 (with_mon p s').
Proof.
  intros Hp Hs. pose proof (reach_step _ _ _ _ (pi_reach _ _ Hp) Hs) as Hreach.
  destruct Hp as [_ Hl Hc He Hh]. simpl in Hs. injection Hs as <-. split; simpl.
  - done.
  - rewrite length_app. simpl. lia.
  - intros t ph [Ht|[Hge Ht]]%lookup_app_Some; [by apply Hc|].
    apply list_lookup_singleton_Some in Ht as [_ <-]. rewrite lookup_ge_None_2 by lia. done.
  - done.
  - rewrite Hh. unfold hands. rewrite imap_app, concat_app. simpl.
    assert (E : forall n, (length (threads_ p) <= n)%nat -> hand (threads_ p !! n) (Outside None) = []).
    { intros n Hn. by rewrite lookup_ge_None_2. }
    rewrite E by lia. by rewrite app_nil_r.
Qed.

Lemma pinv_acquire d0 p t s' : pinv d0 p -> step body (mon p) (Acquire t) = Ok s' -> pinv d0 (with_mon p s').
Proof.
  intros Hp Hs. pose proof (reach_step _ _ _ _ (pi_reach _ _ Hp) Hs) as Hreach. simpl in Hs.
  assert (Hsame : pinv d0 (with_mon p (mon p))) by (by destruct p).
  destruct (threads (mon p) !! t) as [[|op| |]|] eqn:Et; simplify_eq; try done.
  destruct (holder_ _ =? 0); simplify_eq; [|done]. pose proof (pi_compat _ _ Hp _ _ Et) as Hc.
  eapply pinv_phase; [exact Hp|exact Et|done|exact Hreach| |].
  - destruct (threads_ p !! t) as [[]|]; simpl in *; try done; try (by destruct Hc).
    destruct Hc as [?|[? ?]]; [by left|done].
  - by destruct (threads_ p !! t) as [[]|].
Qed.

Lemma pinv_spurious d0 p t s' : pinv d0 p -> step body (mon p) (Spurious t) = Ok s' -> pinv d0 (with_mon p s').
Proof.
  intros Hp Hs. pose proof (reach_step _ _ _ _ (pi_reach _ _ Hp) Hs) as Hreach. simpl in Hs.
  assert (Hsame : pinv d0 (with_mon p (mon p))) by (by destruct p).
  destruct (threads (mon p) !! t) as [[| | |c op]|] eqn:Et; simplify_eq; try done.
  pose proof (pi_compat _ _ Hp _ _ Et) as Hc.
  eapply pinv_phase; [exact Hp|exact Et|done|exact Hreach| |].
  - eapply compat_woken; [exact Hc|]. right. eauto.
  - by destruct (threads_ p !! t) as [[]|].
Qed.

Lemma pinv_body d0 p t choice s' : pinv d0 p -> step body (mon p) (Run t choice) = Ok s' -> pinv d0 (with_mon p s').
Proof.
  intros Hp Hs. pose proof (reach_step _ _ _ _ (pi_reach _ _ Hp) Hs) as Hreach. simpl in Hs.
  assert (Hsame : pinv d0 (with_mon p (mon p))) by (by destruct p).
  destruct (threads (mon p) !! t) as [[| |op|]|] eqn:Et; simplify_eq; try done.
  pose proof (pi_compat _ _ Hp _ _ Et) as Hc. destruct (body _ _ _ _) as [c|d' r sg|] eqn:Eb; simplify_eq.
  - eapply pinv_phase; [exact Hp|exact Et|done|exact Hreach| |].
    + destruct (threads_ p !! t) as [[]|]; simpl in *; try done; try (by destruct Hc).
      destruct Hc as [?|[? ?]]; [by left|done].
    + by destruct (threads_ p !! t) as [[]|].
  - destruct (body_takes _ _ _ _ _ _ _ Eb) as [Hrun Ht].
    eapply (pinv_move d0 p (threads_ p) t (Inside op)); [exact Hp|exact Et|done|done|exact Hreach|..].
    + destruct (threads_ p !! t) as [[]|]; simpl in *; try done; try (by destruct Hc).
      * destruct Hc as [[= ->]|[? ?]]; [|done]. destruct Ht as (o & -> & _). right. by eexists.
    + done.
    + intros He. destruct (running_ d'); [|done]. specialize (Hrun eq_refl). by rewrite (pi_ended _ _ Hp t He) in Hrun.
    + destruct (threads_ p !! t) as [[]|]; simpl in *; try (by destruct Hc).
      * destruct op; try (rewrite Ht, ?app_nil_r; done). by destruct Hc.
      * destruct Hc as [[= ->]|[? ?]]; [|done]. destruct Ht as (o & -> & ->). destruct o; rewrite ?app_nil_r; solve_Permutation.
      * destruct op; try (rewrite Ht, ?app_nil_r; done). by destruct Hc.
Qed.

Lemma pinv_call d0 p t op p' : pinv d0 p -> op <> TakeTask -> call t op p = Ok p' -> pinv d0 p'.
Proof.
  intros Hp Hop. unfold call, may_call. destruct (threads (mon p) !! t) as [[r| | |]|] eqn:Et; try (by intros [= <-]).
  assert (Hgo : op_of (Ready op) <> Some TakeTask) by (simpl; congruence).
  destruct (threads_ p !! t) as [[]|] eqn:Ew; try (by intros [= <-]); intros (s' & Hs & ->)%outcome_fmap_ok;
    pose proof (reach_step _ _ _ _ (pi_reach _ _ Hp) Hs) as Hreach; simpl in Hs; rewrite Et in Hs; injection Hs as <-;
    (eapply pinv_phase; [exact Hp|exact Et|done|exact Hreach|by rewrite Ew|by rewrite Ew]).
Qed.

(** A worker moves in its loop without touching the monitor. *)
Lemma pinv_worker d0 p t ph w0 w hc ni ex' il :
  pinv d0 p -> threads (mon p) !! t = Some ph -> threads_ p !! t = Some w0 -> compat (Some w) ph ->
  (w = WEnded -> running_ (shared (mon p)) = false) ->
  executed p ++ hand (Some w0) ph ≡ₚ ex' ++ hand (Some w) ph ->
  pinv d0 (mkPool (mon p) (<[t := w]> (threads_ p)) hc ni ex' il).
Proof.
  intros Hp Hph Hw Hc He Hh. pose proof (lookup_lt_Some _ _ _ Hw) as Hlt.
  assert (Hmon : mkState (shared (mon p)) (mutex_ (mon p)) (foldl (deliver O) (<[t := ph]> (threads (mon p))) []) = mon p).
  { simpl. rewrite list_insert_id by done. by destruct (mon p). }
  rewrite <- Hmon at 1.
  apply (pinv_move d0 p _ t ph); [done|done|by rewrite length_insert|..]; rewrite ?Hmon, ?list_lookup_insert_eq, ?Hw by done.
  - intros i Hi. by apply list_lookup_insert_ne.
  - apply Hp.
  - done.
  - done.
  - intros [= ->]. by apply He.
  - by rewrite Hh.
Qed.

Lemma pinv_worker_turn d0 p t p' : pinv d0 p -> worker_turn t p = Ok p' -> pinv d0 p'.
Proof.
  intros Hp. unfold worker_turn, set_worker.
  destruct (threads_ p !! t) as [[]|] eqn:Ew; try (by intros [= <-]);
    destruct (threads (mon p) !! t) as [[r| | |]|] eqn:Et; try (by intros [= <-]).
  - intros [= <-]. simpl. eapply pinv_worker; eauto; done.
  - destruct (running_ (shared (mon p))) eqn:Er.
    + intros (s' & Hs & ->)%outcome_fmap_ok.
      pose proof (reach_step _ _ _ _ (pi_reach _ _ Hp) Hs) as Hreach. simpl in Hs. rewrite Et in Hs. injection Hs as <-.
      pose proof (lookup_lt_Some _ _ _ Ew).
      apply (pinv_move d0 p _ t (Outside r) _ [] O); try done; rewrite ?length_insert, ?list_lookup_insert_eq, ?Ew by done; try done.
      * intros i Hi. by apply list_lookup_insert_ne.
      * by left.
    + intros [= <-]. eapply pinv_worker; eauto. by exists r.
  - destruct r as [[|[x|]|]|]; try (by intros [= <-]).
    + destruct (throws x); [done|]. intros [= <-]. simpl. eapply pinv_worker; eauto; [done..|].
      simpl. by rewrite app_nil_r.
    + intros [= <-]. eapply pinv_worker; eauto; done.
Qed.

Lemma pinv_pstep d0 p a p' : pinv d0 p -> pstep p a = Ok p' -> pinv d0 p'.
Proof.
  intros Hp. destruct a as [|t x|t|t|t|t|t|t choice|t]; cbn [pstep].
  - intros (s' & Hs & ->)%outcome_fmap_ok. by apply pinv_spawn.
  - unfold run. case_bool_decide; [|by apply pinv_call]. intros [= <-]. destruct (may_call t p); [|done].
    by destruct Hp; split.
  - by apply pinv_call.
  - unfold destroy, stop. destruct (running_ _); [by apply pinv_call|by intros [= <-]].
  - by apply pinv_call.
  - by apply pinv_worker_turn.
  - intros (s' & Hs & ->)%outcome_fmap_ok. by eapply pinv_acquire.
  - intros (s' & Hs & ->)%outcome_fmap_ok. by eapply pinv_body.
  - intros (s' & Hs & ->)%outcome_fmap_ok. by eapply pinv_spurious.
Qed.

Definition data0 (maxSize : Z) : Data := mkData [] (u64 maxSize) true [] [].

Lemma started_ok maxSize n :
  0 <= n < 2 ^ 31 ->
  started maxSize n = Ok (mkPool (mkState (data0 maxSize) newMutexLock (replicate (Z.to_nat n) (Outside None)))
                            (replicate (Z.to_nat n) WInit) false 0 [] []).
Proof.
  intros Hn. unfold started, start. simpl. rewrite (wrapU_id 64 n) by (unfold in_u; lia).
  rewrite (proj2 (Z.leb_gt _ _)) by lia. by rewrite andb_false_r.
Qed.

Lemma spawn_all d n :
  Monitor.run body d (replicate n Spawn) = Ok (mkState d newMutexLock (replicate n (Outside None))).
Proof.
  unfold Monitor.run, Monitor.start. change (@nil (phase (Op:=Op) (Res:=Res) (Cond:=Cond))) with (replicate 0 (@Outside Op Res Cond None)).
  assert (H : forall k, foldM (step body) (mkState d newMutexLock (replicate k (Outside None))) (replicate n Spawn) =
                        Ok (mkState d newMutexLock (replicate (k + n) (Outside None)))).
  { induction n as [|n IH]; intros k; simpl; [by rewrite Nat.add_0_r|].
    rewrite <- replicate_S_end, IH. by rewrite Nat.add_succ_comm. }
  apply (H O).
Qed.

Lemma pinv_started maxSize n p : 0 <= n < 2 ^ 31 -> started maxSize n = Ok p -> pinv (data0 maxSize) p.
Proof.
  intros Hn. rewrite started_ok by done. intros [= <-]. split; simpl.
  - eexists. apply spawn_all.
  - by rewrite !length_replicate.
  - intros t ph [-> Ht]%lookup_replicate. rewrite (lookup_replicate_2 _ _ _ Ht). by eexists.
  - by intros t [[=] _]%lookup_replicate.
  - assert (E : forall ws ps, (forall i, ws !! i <> Some WTaking) -> concat (hands ws ps) = []).
    { intros ws ps Hws. apply concat_nil_Forall. apply Forall_lookup_2. intros i x. rewrite hands_lookup.
      destruct (ps !! i); simpl; [|done]. intros [= <-]. specialize (Hws i). by destruct (ws !! i) as [[]|]. }
    rewrite E; [done|]. by intros i [[=] _]%lookup_replicate.
Qed.

Lemma pinv_prun maxSize n l p : 0 <= n < 2 ^ 31 -> prun maxSize n l = Ok p -> pinv (data0 maxSize) p.
Proof.
  intros Hn. unfold prun. intros (p0 & H0 & Hl)%outcome_bind_ok.
  eapply (foldM_invariant (pinv (data0 maxSize))); [|by eapply pinv_started|exact Hl].
  intros q a q' Hq _ Hs. by eapply pinv_pstep.
Qed.

Lemma pstep_total d0 p a : (forall x, throws x = false) -> pinv d0 p -> exists p', pstep p a = Ok p'.
Proof.
  intros Hq Hp. assert (Hm : minv (mon p)) by (destruct (pi_reach _ _ Hp) as (l & Hl); by eapply minv_run).
  assert (Hs : forall b (f : _ -> Pool), exists p', f <$> step body (mon p) b = Ok p').
  { intros b f. destruct (step_total body (mon p) b body_held Hm) as (s' & ->). by eexists. }
  destruct a as [|t x|t|t|t|t|t|t choice|t]; cbn [pstep]; try apply Hs;
    unfold destroy, stop, run, call, worker_turn; repeat case_match; try apply Hs; eauto. congruence.
Qed.

Lemma prun_total maxSize n l :
  (forall x, throws x = false) -> 0 <= n < 2 ^ 31 -> exists p, prun maxSize n l = Ok p.
Proof.
  intros Hq Hn. unfold prun. destruct (started maxSize n) as [p|] eqn:E; [|by rewrite started_ok in E].
  simpl. pose proof (pinv_started _ _ _ Hn E) as Hp. clear E. revert p Hp.
  induction l as [|a l IH]; intros p Hp; simpl; [eauto|].
  destruct (pstep_total _ _ a Hq Hp) as (p' & Hp'). rewrite Hp'. simpl. apply IH. by eapply pinv_pstep.
Qed.

Lemma prun_data maxSize n l p :
  in_s 32 maxSize -> 0 <= n < 2 ^ 31 -> prun maxSize n l = Ok p ->
  data_ok (shared (mon p)) /\ maxQueueSize_ (shared (mon p)) = u64 maxSize.
Proof.
  intros Hm Hn Hl. destruct (pi_reach _ _ (pinv_prun _ _ _ _ Hn Hl)) as (l' & Hr).
  refine (shared_run body (fun d => data_ok d /\ maxQueueSize_ d = u64 maxSize) (data0 maxSize) l' (mon p) _ _ Hr).
  - split; [|done]. split; [done|]. simpl. change (zlen (@nil Task)) with 0. lia.
  - intros tid mx op d d' r sg [Hd Hmax] Hb. destruct (pool_data_body _ _ _ _ _ _ _ Hd Hb). split; [done|congruence].
Qed.

Lemma pstep_workers p a p' : pstep p a = Ok p' -> length (threads_ p') = length (threads_ p).
Proof.
  destruct a as [|t x|t|t|t|t|t|t choice|t]; cbn [pstep];
    try (intros (s' & _ & ->)%outcome_fmap_ok; done);
    unfold destroy, stop, run, call, worker_turn; repeat case_match;
    try (intros (s' & _ & ->)%outcome_fmap_ok); try (intros [= <-]); try done; simpl; by rewrite ?length_insert.
Qed.

Lemma prun_workers maxSize n l p : 0 <= n < 2 ^ 31 -> prun maxSize n l = Ok p -> length (threads_ p) = Z.to_nat n.
Proof.
  intros Hn. unfold prun. rewrite started_ok by done. simpl. intros Hl.
  refine (foldM_invariant (fun p => length (threads_ p) = Z.to_nat n) pstep l _ _ _ _ Hl); [|by apply length_replicate].
  intros q a q' Hq _ Hs. by rewrite (pstep_workers _ _ _ Hs).
Qed.

(** C18: Tasks that do not throw, under any interleaving of any number of clients and
    workers, stop() included: no assertion of the pool fails and the code around
    them repeats no task: tasks are taken in the order they were submitted, each
    submitted one is taken or still in the queue (where those that stop() finds
    there remain), what was taken is what was executed plus what workers hold, and a
    bounded queue keeps its bound. *)
Theorem thread_pool_safe maxSize n l
  (Hquiet : forall x, throws x = false) (Hmax : in_s 32 maxSize) (Hn : 0 <= n < 2 ^ 31) :
  exists p, prun maxSize n l = Ok p /\
    let d := shared (mon p) in
    takes d ++ queue_ d = puts d /\
    takes d ≡ₚ executed p ++ concat (hands (threads_ p) (threads (mon p))) /\
    (0 < maxSize -> zlen (queue_ d) <= maxSize).
Proof.
  destruct (prun_total maxSize n l Hquiet Hn) as (p & Hp). exists p. split; [done|].
  destruct (prun_data _ _ _ _ Hmax Hn Hp) as [[Hd Hb] Hm]. simpl.
  split; [done|]. split; [apply (pinv_prun _ _ _ _ Hn Hp)|].
  intros Hpos. rewrite Hm in Hb. unfold in_s in Hmax. rewrite wrapU_id in Hb by (unfold in_u; lia). by apply Hb.
Qed.

(** Nothing can move: no worker can go on in its loop, and no thread can take the
    mutex or go on inside it.  Callers outside a method are not asked, and neither
    are spurious wakeups. *)
Definition at_rest (p : Pool) : Prop :=
  forall t choice, pstep p (Worker t) = Ok p /\ pstep p (Lock t) = Ok p /\ pstep p (Body t choice) = Ok p.

Lemma with_mon_same p s : with_mon p <$> s = Ok p -> s = Ok (mon p).
Proof. destruct s as [s|]; [|done]. intros H. injection H as H. by rewrite <- H. Qed.

(** Where the threads are then: every worker has ended or waits, in take() or in a
    run() that a task calls. *)
Lemma at_rest_places d0 p :
  pinv d0 p -> at_rest p ->
  stuck (mon p) /\ forall t w, threads_ p !! t = Some w ->
    w = WEnded \/ exists c op, threads (mon p) !! t = Some (Waiting c op).
Proof.
  intros Hp Hr. assert (Hm : minv (mon p)) by (destruct (pi_reach _ _ Hp) as (l & Hl); by eapply minv_run).
  assert (Hst : stuck (mon p)).
  { apply (idle_stuck body); [done|]. intros t choice. destruct (Hr t choice) as (_ & H1 & H2). by split; apply with_mon_same. }
  split; [done|]. intros t w Ht. destruct (lookup_lt_is_Some_2 (threads (mon p)) t) as (ph & Hph).
  { pose proof (lookup_lt_Some _ _ _ Ht). pose proof (pi_len _ _ Hp). lia. }
  specialize (Hst t ph Hph). pose proof (pi_compat _ _ Hp _ _ Hph) as Hc. rewrite Ht in Hc. destruct (Hr t O) as (Hw & _). cbn [pstep] in Hw.
  unfold worker_turn in Hw. rewrite Ht, Hph in Hw.
  destruct ph as [o| | |c op]; try done; [|right; by eexists _, _].
  pose proof (lookup_lt_Some _ _ _ Ht) as Hlt.
  assert (Hmoves : forall p' w', Ok p' = Ok p -> threads_ p' = <[t := w']> (threads_ p) -> w = w').
  { intros p' w' E Ew. injection E as ->. rewrite Ew, list_lookup_insert_eq in Ht by done. congruence. }
  destruct w; [| | |by left]; exfalso.
  - pose proof (Hmoves _ WLoop Hw eq_refl). done.
  - destruct (running_ (shared (mon p))); [|pose proof (Hmoves _ WEnded Hw eq_refl); done].
    apply outcome_fmap_ok in Hw as (s' & _ & E). pose proof (Hmoves _ WTaking (f_equal Ok (eq_sym E)) eq_refl). done.
  - destruct Hc as [Hc|(o' & Hc)]; [done|]. injection Hc as ->. destruct o' as [x|].
    + destruct (throws x); [done|]. pose proof (Hmoves _ WLoop Hw eq_refl). done.
    + pose proof (Hmoves _ WLoop Hw eq_refl). done.
Qed.

(** A thread that waits: for a task in take(), or for space in run(). *)
Lemma waiting_places d0 p t c op :
  pinv d0 p -> threads (mon p) !! t = Some (Waiting c op) ->
  0 < waiting c (mon p) /\ match c with NotEmpty => op = TakeTask | NotFull => exists x, op = RunTask x end.
Proof.
  intros Hp Ht. destruct (pi_reach _ _ Hp) as (l & Hl). split.
  { apply count_pos. exists t, (Waiting c op). split; [done|]. simpl. by rewrite bool_decide_eq_true_2. }
  destruct c.
  - destruct (rinv_run body NotEmpty _ _ _ Hl) as [He _ _]. specialize (He _ _ Ht). by destruct op.
  - destruct (rinv_run body NotFull _ _ _ Hl) as [Hf _ _]. specialize (Hf _ _ Ht). destruct op as [x| | |]; try done. by exists x.
Qed.

(** No producer waits and everything is executed, when a worker waits for tasks. *)
Lemma rest_done d0 p t :
  pinv d0 p -> data_ok (shared (mon p)) -> at_rest p -> running_ (shared (mon p)) = true ->
  threads (mon p) !! t = Some (Waiting NotEmpty TakeTask) ->
  queue_ (shared (mon p)) = [] /\ executed p ≡ₚ puts (shared (mon p)) /\ waiting NotFull (mon p) = 0.
Proof.
  intros Hp [Hd _] Hr Hrun Ht. destruct (at_rest_places d0 p Hp Hr) as [Hst Hw]. destruct (pi_reach _ _ Hp) as (l & Hl).
  destruct (waiting_places d0 p t _ _ Hp Ht) as [Hpos _].
  destruct (stuck_exhausted body NotEmpty _ _ _ Hl Hst Hpos) as [_ Ha]. simpl in Ha.
  assert (Hq : queue_ (shared (mon p)) = []) by (apply zlen_0_nil; pose proof (zlen_nonneg (queue_ (shared (mon p)))); lia).
  split; [done|]. split.
  - rewrite <- Hd, Hq, app_nil_r, (pi_hand _ _ Hp).
    assert (E : concat (hands (threads_ p) (threads (mon p))) = []); [|by rewrite E, app_nil_r].
    apply concat_nil_Forall. apply Forall_lookup_2. intros i x. rewrite hands_lookup.
    destruct (threads_ p !! i) as [w|] eqn:Ei; [|by destruct (threads (mon p) !! i); intros [= <-]].
    destruct (Hw _ _ Ei) as [->|(c' & op' & ->)]; [by destruct (threads (mon p) !! i); intros [= <-]|].
    by destruct w; intros [= <-].
  - pose proof (count_nonneg (waits_on NotFull) (threads (mon p))) as Hnn.
    destruct (decide (0 < waiting NotFull (mon p))) as [Hf|]; [|unfold waiting in *; lia].
    destruct (stuck_exhausted body NotFull _ _ _ Hl Hst Hf) as [Ho Hb]. simpl in Ho, Hb.
    rewrite Hq in Hb. change (zlen (@nil Task)) with 0 in Hb. apply Z.ltb_lt in Ho. lia.
Qed.

(** Blocked in a run() for space. *)
Definition blocked_in_run (p : Pool) (t : nat) : Prop := exists x, threads (mon p) !! t = Some (Waiting NotFull (RunTask x)).

Definition queue_full (d : Data) : Prop := 0 < maxQueueSize_ d <= zlen (queue_ d).

(** C19: When nothing can move any more, a running pool has executed every task that
    was submitted and no producer waits for space, unless it is deadlocked: the
    queue is full and every worker is blocked in a run() that its own task calls.
    In a stopped pool every worker has ended, so that the joins of stop() return,
    but for workers blocked in such a run() on a full queue, which nothing will
    wake. *)
Theorem thread_pool_at_rest maxSize n l p
  (Hmax : in_s 32 maxSize) (Hn : 0 < n < 2 ^ 31) (Hrun : prun maxSize n l = Ok p) (Hrest : at_rest p) :
  let d := shared (mon p) in
  if running_ d
  then (queue_ d = [] /\ executed p ≡ₚ puts d /\ waiting NotFull (mon p) = 0) \/
       (queue_full d /\ forall t, is_Some (threads_ p !! t) -> blocked_in_run p t)
  else forall t w, threads_ p !! t = Some w -> w = WEnded \/ queue_full d /\ blocked_in_run p t.
Proof.
  intros d. assert (Hn' : 0 <= n < 2 ^ 31) by lia. pose proof (pinv_prun _ _ _ _ Hn' Hrun) as Hp.
  destruct (pi_reach _ _ Hp) as (l' & Hl). destruct (at_rest_places _ _ Hp Hrest) as [Hst Hw].
  destruct (prun_data _ _ _ _ Hmax Hn' Hrun) as [Hd _].
  assert (Hfull : forall t op, threads (mon p) !! t = Some (Waiting NotFull op) -> queue_full d /\ blocked_in_run p t).
  { intros t op Ht. destruct (waiting_places _ p t _ _ Hp Ht) as [Hpos [x ->]]. split; [|by exists x].
    destruct (stuck_exhausted body NotFull _ _ _ Hl Hst Hpos) as [Ho Hb]. simpl in Ho, Hb. apply Z.ltb_lt in Ho. unfold queue_full, d. lia. }
  destruct (running_ d) eqn:Er.
  - pose proof (prun_workers _ _ _ _ Hn' Hrun) as Hlen. destruct (lookup_lt_is_Some_2 (threads_ p) O) as (w0 & H0); [lia|].
    destruct (decide (0 < waiting NotEmpty (mon p))) as [He|He].
    + left. apply count_pos in He as (t & ph & Ht & Hph). destruct ph as [| | |c op]; try done. simpl in Hph. apply bool_decide_eq_true in Hph as ->.
      destruct (waiting_places _ p t _ _ Hp Ht) as [_ ->]. exact (rest_done _ p t Hp Hd Hrest Er Ht).
    + right. assert (Hall : forall t w, threads_ p !! t = Some w -> queue_full d /\ blocked_in_run p t).
      { intros t w Ht. destruct (Hw _ _ Ht) as [->|(c & op & Hph)]; [pose proof (pi_ended _ _ Hp _ Ht); unfold d in *; congruence|].
        destruct c; [|by eapply Hfull]. by destruct (waiting_places _ p t _ _ Hp Hph). }
      split; [by apply (Hall _ _ H0)|]. intros t [w Ht]. by apply (Hall t w).
  - intros t w Ht. destruct (Hw _ _ Ht) as [->|(c & op & Hph)]; [by left|]. right. destruct c; [|by eapply Hfull].
    destruct (waiting_places _ p t _ _ Hp Hph) as [Hpos _]. destruct (rinv_run body NotEmpty _ _ _ Hl) as [_ Hcl _].
    simpl in Hcl. specialize (Hcl Er). lia.
Qed.

End pool.
Arguments Data : clear implicits.
Arguments Op : clear implicits.
Arguments Pool : clear implicits.
Arguments action : clear implicits.

Definition quiet : Z -> bool := fun _ => false.

(** Thread [t] takes the mutex and runs its method. *)
Definition go (t : nat) : list (action Z) := [Lock t; Body t O].

(** One worker, a queue of one slot; thread 1 submits two tasks, the second one
    when the worker has taken the first. *)
Definition two_tasks : list (action Z) :=
  [Client; Worker 0%nat; Worker 0%nat; DoRun 1%nat 7] ++ go 1 ++ go 0 ++ [Worker 0%nat; DoRun 1%nat 8] ++ go 1 ++
  [Worker 0%nat] ++ go 0 ++ [Worker 0%nat; Worker 0%nat] ++ go 0.

Lemma thread_pool_safe_witness :
  exists p, prun quiet 1 1 two_tasks = Ok p /\ takes (shared (mon p)) ++ queue_ (shared (mon p)) = puts (shared (mon p)).
Proof.
  destruct (thread_pool_safe quiet 1 1 two_tasks) as (p & Hp & Hd & _); [done|unfold in_s; lia|lia|].
  exists p. split; [exact Hp|exact Hd].
Defined.

Lemma thread_pool_at_rest_witness :
  exists p, prun quiet 1 1 two_tasks = Ok p /\ executed p ≡ₚ [7; 8] /\ queue_ (shared (mon p)) = [].
Proof.
  destruct (prun quiet 1 1 two_tasks) as [p|] eqn:E; [|vm_compute in E; discriminate].
  exists p. split; [exact eq_refl|]. pose proof (thread_pool_at_rest quiet 1 1 two_tasks p ltac:(unfold in_s; lia) ltac:(lia) E) as H.
  vm_compute in E. injection E as <-. destruct H as [(Hq & He & _)|[[_ Hf] _]]; [|by split|by vm_compute in Hf].
  by intros [|[|t]] choice; split_and!; vm_compute.
Defined.

(** One worker, a queue of one slot: task 7 submits 8 and then 9 to its own pool.
    The second call blocks the only worker: nothing moves, the pool runs, and 8 is
    never executed. *)
Definition task_fills_queue : list (action Z) :=
  [Client; Worker 0%nat; Worker 0%nat; DoRun 1%nat 7] ++ go 1 ++ go 0 ++ [Worker 0%nat; DoRun 0%nat 8] ++ go 0 ++
  [DoRun 0%nat 9] ++ go 0.

Theorem task_deadlocks_its_pool :
  exists p, prun quiet 1 1 task_fills_queue = Ok p /\ at_rest quiet p /\ running_ (shared (mon p)) = true /\
    executed p = [7] /\ queue_ (shared (mon p)) = [8] /\ blocked_in_run p 0.
Proof.
  destruct (prun quiet 1 1 task_fills_queue) as [p|] eqn:E; [|vm_compute in E; discriminate].
  exists p. split; [exact eq_refl|]. vm_compute in E. injection E as <-.
  split; [by intros [|[|t]] choice; split_and!; vm_compute|]. split_and!; try done. by exists 9.
Qed.

(** One worker, a queue of one slot: the worker holds task 7, task 8 fills the
    queue, the submission of task 9 blocks, then thread 2 stops the pool. *)
Definition stopped_while_full : list (action Z) :=
  [Client; Client; Worker 0%nat; Worker 0%nat; DoRun 1%nat 7] ++ go 1 ++ go 0 ++ [DoRun 1%nat 8] ++ go 1 ++
  [DoRun 1%nat 9] ++ go 1 ++ [DoStop 2%nat] ++ go 2 ++ [Worker 0%nat; Worker 0%nat].

(** Stop() ends the workers with tasks still in the queue, which are never
    executed, and does not wake a producer that waits for space: it stays
    blocked in run() with nobody left to make room. *)
Theorem stop_strands_tasks_and_producers :
  exists p, prun quiet 1 1 stopped_while_full = Ok p /\ at_rest quiet p /\ running_ (shared (mon p)) = false /\
    executed p = [7] /\ queue_ (shared (mon p)) = [8] /\ waiting NotFull (mon p) = 1 /\
    (forall t w, threads_ p !! t = Some w -> w = WEnded).
Proof.
  destruct (prun quiet 1 1 stopped_while_full) as [p|] eqn:E; [|vm_compute in E; discriminate].
  exists p. split; [exact eq_refl|]. vm_compute in E. injection E as <-.
  assert (Hw : forall t w, [WEnded] !! t = Some w -> w = WEnded) by (intros [|t] w; simpl; [by intros [= <-]|done]).
  split; [by intros [|[|[|t]]] choice; split_and!; vm_compute|]. by split_and!.
Qed.

(** Stopping the deadlocked pool does not help: stop() wakes the workers in take()
    only, and its join waits for ever. *)
Theorem stop_waits_for_blocked_worker :
  exists p, prun quiet 1 1 (task_fills_queue ++ [DoStop 1%nat] ++ go 1) = Ok p /\ at_rest quiet p /\
    running_ (shared (mon p)) = false /\ threads_ p = [WLoop] /\ blocked_in_run p 0.
Proof.
  destruct (prun quiet 1 1 (task_fills_queue ++ [DoStop 1%nat] ++ go 1)) as [p|] eqn:E; [|vm_compute in E; discriminate].
  exists p. split; [exact eq_refl|]. vm_compute in E. injection E as <-.
  split; [by intros [|[|t]] choice; split_and!; vm_compute|]. split_and!; try done. by exists 9.
Qed.
End ThreadPool.
