(* ===== verification/Connector.v ===== *)
(** * Connector: net/Connector.h, net/Connector.cc

    The active side of a connection on the event loop of EventLoop.v (with any
    poller): a socket in the middle of connect(2) has a channel that waits for
    writability; failures are retried after a delay that doubles up to 30
    seconds.  The state has the fields of the class, the loop, the functors and
    retry timers of the connector that have not run yet, and the history of its
    sockets: opened, closed, handed to [newConnectionCallback_].

    What the kernel answers (the new descriptor, errno of connect, SO_ERROR, the
    self-connection test) and the address of a new channel are arguments.

    Theorems: used as TcpClient does (start once, restart after a connection
    went down, stop last), no assertion fails, no socket leaks, and a connector
    that wants to connect has exactly one attempt pending or in progress, unless
    connect(2) failed with an error that is not retried; the delays are 500 ms
    doubling up to 30 s.  Runs show what start after stop does, and a timer that
    fires in the turn of the failure. *)

From S2P Require Import Prelude Channel Poller EventLoop.

Module Connector.

Inductive States := kDisconnected | kConnecting | kConnected.

#[global] Instance States_eq_dec : EqDecision States.
Proof. solve_decision. Defined.

Definition kMaxRetryDelayMs : Z := 30 * 1000.
Definition kInitRetryDelayMs : Z := 500.

(** Errors of connect(2), by what the connector does about them. *)
Definition EPERM : Z := 1.
Definition EINTR : Z := 4.
Definition EBADF : Z := 9.
Definition EAGAIN : Z := 11.
Definition EACCES : Z := 13.
Definition EFAULT : Z := 14.
Definition ENOTSOCK : Z := 88.
Definition EAFNOSUPPORT : Z := 97.
Definition EADDRINUSE : Z := 98.
Definition EADDRNOTAVAIL : Z := 99.
Definition ENETUNREACH : Z := 101.
Definition EISCONN : Z := 106.
Definition ECONNREFUSED : Z := 111.
Definition EALREADY : Z := 114.
Definition EINPROGRESS : Z := 115.

Inductive connect_class := InProgress | Retry | GiveUp.

(** The switch of [connect]; the last two groups both log and close. *)
Definition classify (savedErrno : Z) : connect_class :=
  if bool_decide (savedErrno ∈ [0; EINPROGRESS; EINTR; EISCONN]) then InProgress
  else if bool_decide (savedErrno ∈ [EAGAIN; EADDRINUSE; EADDRNOTAVAIL; ECONNREFUSED; ENETUNREACH]) then Retry
  else if bool_decide (savedErrno ∈ [EACCES; EPERM; EAFNOSUPPORT; EALREADY; EBADF; EFAULT; ENOTSOCK]) then GiveUp
  else GiveUp.

(** The functors a connector queues in its loop. *)
Inductive functor := FStart | FStop | FReset.

#[global] Instance functor_eq_dec : EqDecision functor.
Proof. solve_decision. Defined.

(** What the system answers to one attempt: the socket, connect's errno, and the
    address where the Channel is allocated; socket(2) may fail. *)
Record attempt := mkAttempt {
  sock : option Z;
  connect_errno : Z;
  address : Z;
}.

Section connector.
Context {P : Type} `{PL : PollerLaws P}.

Record Connector := mkConnector {
  loop_ : Loop.EventLoop P;
  connect_ : bool;
  state_ : States;
  channel_ : option Z;
  retryDelayMs_ : Z;
  functors : list functor;      (* queued in the loop, oldest first *)
  timers : list Z;              (* delays of the pending runAfter(startInLoop) *)
  opened : list Z;              (* history of sockets *)
  closed : list Z;
  handed : list Z;
  delays : list Z;              (* of the retries since the last (re)start *)
  gave_up : bool;               (* the last attempt failed for good *)
}.

Definition newConnector (loop : Loop.EventLoop P) : Connector :=
  mkConnector loop false kDisconnected None kInitRetryDelayMs [] [] [] [] [] [] false.

Definition with_loop l (c : Connector) : Connector :=
  mkConnector l (connect_ c) (state_ c) (channel_ c) (retryDelayMs_ c) (functors c) (timers c) (opened c)
    (closed c) (handed c) (delays c) (gave_up c).
Definition with_connect b (c : Connector) : Connector :=
  mkConnector (loop_ c) b (state_ c) (channel_ c) (retryDelayMs_ c) (functors c) (timers c) (opened c)
    (closed c) (handed c) (delays c) (gave_up c).
Definition setState (s : States) (c : Connector) : Connector :=
  mkConnector (loop_ c) (connect_ c) s (channel_ c) (retryDelayMs_ c) (functors c) (timers c) (opened c)
    (closed c) (handed c) (delays c) (gave_up c).
Definition with_channel ch (c : Connector) : Connector :=
  mkConnector (loop_ c) (connect_ c) (state_ c) ch (retryDelayMs_ c) (functors c) (timers c) (opened c)
    (closed c) (handed c) (delays c) (gave_up c).
Definition with_delay d ds (c : Connector) : Connector :=
  mkConnector (loop_ c) (connect_ c) (state_ c) (channel_ c) d (functors c) (timers c) (opened c)
    (closed c) (handed c) ds (gave_up c).
Definition with_functors l (c : Connector) : Connector :=
  mkConnector (loop_ c) (connect_ c) (state_ c) (channel_ c) (retryDelayMs_ c) l (timers c) (opened c)
    (closed c) (handed c) (delays c) (gave_up c).
Definition with_timers l (c : Connector) : Connector :=
  mkConnector (loop_ c) (connect_ c) (state_ c) (channel_ c) (retryDelayMs_ c) (functors c) l (opened c)
    (closed c) (handed c) (delays c) (gave_up c).
Definition with_sockets o cl h (c : Connector) : Connector :=
  mkConnector (loop_ c) (connect_ c) (state_ c) (channel_ c) (retryDelayMs_ c) (functors c) (timers c) o
    cl h (delays c) (gave_up c).
Definition with_gave_up b (c : Connector) : Connector :=
  mkConnector (loop_ c) (connect_ c) (state_ c) (channel_ c) (retryDelayMs_ c) (functors c) (timers c) (opened c)
    (closed c) (handed c) (delays c) b.

Definition queueInLoop (f : functor) (c : Connector) : Connector := with_functors (functors c ++ [f]) c.
Definition close_socket (fd : Z) (c : Connector) : Connector :=
  with_sockets (opened c) (closed c ++ [fd]) (handed c) c.

(** *** Retrying *)
Definition retry (sockfd : Z) (c : Connector) : Connector :=
  let c := setState kDisconnected (close_socket sockfd c) in
  if connect_ c then
    let c := with_timers (timers c ++ [retryDelayMs_ c]) c in
    with_delay (Z.min (retryDelayMs_ c * 2) kMaxRetryDelayMs) (delays c ++ [retryDelayMs_ c]) c
  else c.

(** *** The channel *)
Definition connecting (address sockfd : Z) (c : Connector) : outcome Connector :=
  let c := setState kConnecting c in
  c_assert (bool_decide (channel_ c = None));;
  l ← Loop.construct address sockfd (loop_ c);
  let c := with_channel (Some address) (with_loop l c) in
  l ← Loop.enableWriting address (loop_ c);
  Ok (with_loop l c).

Definition removeAndResetChannel (c : Connector) : outcome (Z * Connector) :=
  ch ← get_or UndefinedBehaviour (channel_ c);
  l ← Loop.disableAll ch (loop_ c);
  l ← Loop.remove ch l;
  o ← deref (Loop.heap l) ch;
  Ok (fd_ o, queueInLoop FReset (with_loop l c)).

Definition resetChannel (c : Connector) : outcome Connector :=
  match channel_ c with
  | None => Ok c
  | Some ch =>
      l ← Loop.destroy ch (loop_ c);
      Ok (with_channel None (with_loop l c))
  end.

(** *** Connecting *)
Definition connect (a : attempt) (c : Connector) : outcome Connector :=
  sockfd ← get_or FatalLog (sock a);          (* createNonblockingOrDie *)
  let c := with_sockets (opened c ++ [sockfd]) (closed c) (handed c) (with_gave_up false c) in
  match classify (connect_errno a) with
  | InProgress => connecting (address a) sockfd c
  | Retry => Ok (retry sockfd c)
  | GiveUp => Ok (with_gave_up true (close_socket sockfd c))
  end.

Definition startInLoop (a : attempt) (c : Connector) : outcome Connector :=
  c_assert (bool_decide (state_ c = kDisconnected));;
  if connect_ c then connect a c else Ok c.

Definition start (inLoopThread : bool) (a : attempt) (c : Connector) : outcome Connector :=
  let c := with_connect true c in
  if inLoopThread then startInLoop a c else Ok (queueInLoop FStart c).

Definition restart (a : attempt) (c : Connector) : outcome Connector :=
  startInLoop a (with_connect true (with_delay kInitRetryDelayMs [] (setState kDisconnected c))).

Definition stopInLoop (c : Connector) : outcome Connector :=
  if bool_decide (state_ c = kConnecting) then
    '(sockfd, c) ← removeAndResetChannel (setState kDisconnected c);
    Ok (retry sockfd c)
  else Ok c.

Definition stop (c : Connector) : Connector := queueInLoop FStop (with_connect false c).

(** *** Events of the channel *)
Definition handleWrite (err : Z) (isSelfConnect : bool) (c : Connector) : outcome Connector :=
  if bool_decide (state_ c = kConnecting) then
    '(sockfd, c) ← removeAndResetChannel c;
    if negb (err =? 0) then Ok (retry sockfd c)
    else if isSelfConnect then Ok (retry sockfd c)
    else
      let c := setState kConnected c in
      Ok (if connect_ c then with_sockets (opened c) (closed c) (handed c ++ [sockfd]) c
          else close_socket sockfd c)
  else
    c_assert (bool_decide (state_ c = kDisconnected));;
    Ok c.

Definition handleError (c : Connector) : outcome Connector :=
  if bool_decide (state_ c = kConnecting) then
    '(sockfd, c) ← removeAndResetChannel c;
    Ok (retry sockfd c)
  else Ok c.

(** The destructor. *)
Definition destroyConnector (c : Connector) : outcome unit := c_assert (bool_decide (channel_ c = None)).

(** *** One step of the connector's world *)
Inductive event :=
| Start (inLoopThread : bool) (a : attempt)
| Stop
| Restart (a : attempt)
| RunFunctor (a : attempt)                 (* the oldest functor *)
| TimerFires (a : attempt)                 (* the oldest retry timer *)
| WriteReady (err : Z) (isSelfConnect : bool)
| ErrorReady.

Definition step (c : Connector) (e : event) : outcome Connector :=
  match e with
  | Start inLoop a => start inLoop a c
  | Stop => Ok (stop c)
  | Restart a => restart a c
  | RunFunctor a =>
      match functors c with
      | [] => Ok c
      | f :: rest =>
          let c := with_functors rest c in
          match f with
          | FStart => startInLoop a c
          | FStop => stopInLoop c
          | FReset => resetChannel c
          end
      end
  | TimerFires a =>
      match timers c with
      | [] => Ok c
      | _ :: rest => startInLoop a (with_timers rest c)
      end
  | WriteReady err self => handleWrite err self c
  | ErrorReady => handleError c
  end.

(** ** How TcpClient uses it *)
Inductive usage := Unused | Active | Stopped.

Definition queued (f : functor) (l : list functor) : nat := length (filter (fun g => g = f) l).

(** Calls of [startInLoop] still to come. *)
Definition starts (c : Connector) : nat := length (timers c) + queued FStart (functors c).

(** [S0] is what else is registered with the loop. *)
Context (S0 : Spec).

(** socket(2) succeeds with a descriptor no channel uses, new returns a free address. *)
Definition attempt_ok (a : attempt) : Prop :=
  exists fd, sock a = Some fd /\ 0 <= fd < fd_limit /\ fd_free S0 fd /\ S0 !! address a = None.

(** Start once; restart when the connection handed out is gone, which is after
    the turn that established it; stop, and no start afterwards.  The channel has
    events only while it is registered, and a timer fires in a later turn than
    the one whose functors reset the channel: an assumption on time, that no turn
    takes 500 ms from there on (see [early_timer_aborts]). *)
Inductive permitted : usage -> Connector -> event -> usage -> Prop :=
| permit_start c inLoop a : attempt_ok a -> permitted Unused c (Start inLoop a) Active
| permit_stop u c : permitted u c Stop Stopped
| permit_restart c a : state_ c = kConnected -> queued FReset (functors c) = O -> attempt_ok a ->
    permitted Active c (Restart a) Active
| permit_functor u c a : attempt_ok a -> permitted u c (RunFunctor a) u
| permit_timer u c a : queued FReset (functors c) = O -> attempt_ok a -> permitted u c (TimerFires a) u
| permit_write u c err self : state_ c = kConnecting -> permitted u c (WriteReady err self) u
| permit_error u c : state_ c = kConnecting -> permitted u c ErrorReady u.

Inductive uses : usage -> Connector -> list event -> usage -> Prop :=
| uses_nil u c : uses u c [] u
| uses_cons u u1 u2 c e l : permitted u c e u1 -> (forall c', step c e = Ok c' -> uses u1 c' l u2) ->
    uses u c (e :: l) u2.

(** ** The invariant *)
(** The delay before retry number [k] (from 0) after a start. *)
Definition backoff (k : nat) : Z := Z.min (kInitRetryDelayMs * 2 ^ Z.of_nat k) kMaxRetryDelayMs.

(** The sockets in flight, with the channel in the state it must be in. *)
Definition chan_inv (c : Connector) (current : list Z) : Prop :=
  match channel_ c with
  | None => state_ c <> kConnecting /\ current = [] /\ Loop.linv S0 (loop_ c) /\ queued FReset (functors c) = O
  | Some ch => S0 !! ch = None /\ exists fd,
      if decide (state_ c = kConnecting) then
        current = [fd] /\ Loop.linv (<[ch := mkSpec fd kWriteEvent Watched]> S0) (loop_ c) /\
        queued FReset (functors c) = O
      else current = [] /\ Loop.linv (<[ch := mkSpec fd 0 Removed]> S0) (loop_ c) /\
        queued FReset (functors c) = 1%nat
  end.

Definition starts_inv (u : usage) (c : Connector) : Prop :=
  match u with
  | Unused => state_ c = kDisconnected /\ connect_ c = false /\ channel_ c = None /\
      functors c = [] /\ timers c = [] /\ gave_up c = false
  | Active => connect_ c = true /\ (gave_up c = true -> state_ c = kDisconnected) /\
      starts c = if decide (state_ c = kDisconnected) then (if gave_up c then O else 1%nat) else O
  | Stopped => connect_ c = false /\ (starts c <= if decide (state_ c = kDisconnected) then 1 else 0)%nat /\
      (state_ c = kConnecting -> (queued FStop (functors c) > 0)%nat)
  end.

Record cinv (u : usage) (c : Connector) : Prop := {
  ci_sockets : exists current, opened c ≡ₚ closed c ++ handed c ++ current /\ chan_inv c current;
  ci_starts : starts_inv u c;
  ci_first : (queued FStart (functors c) > 0)%nat -> channel_ c = None;
  ci_delay : retryDelayMs_ c = backoff (length (delays c));
  ci_delays : forall k d, delays c !! k = Some d -> d = backoff k;
}.

Lemma queued_app f l1 l2 : queued f (l1 ++ l2) = (queued f l1 + queued f l2)%nat.
Proof. unfold queued. by rewrite filter_app, length_app. Qed.

Lemma queued_cons f g l : queued f (g :: l) = ((if decide (g = f) then 1 else 0) + queued f l)%nat.
Proof. unfold queued. rewrite filter_cons. by destruct (decide (g = f)). Qed.

Lemma backoff_next k : Z.min (backoff k * 2) kMaxRetryDelayMs = backoff (S k).
Proof.
  unfold backoff, kInitRetryDelayMs, kMaxRetryDelayMs. rewrite Nat2Z.inj_succ, Z.pow_succ_r by lia.
  pose proof (Z.pow_pos_nonneg 2 (Z.of_nat k)). lia.
Qed.

(** ** The loop under the connector's channel *)
Lemma connecting_ok c a fd :
  channel_ c = None -> Loop.linv S0 (loop_ c) -> S0 !! a = None -> 0 <= fd < fd_limit -> fd_free S0 fd ->
  exists l, connecting a fd c = Ok (with_loop l (with_channel (Some a) (setState kConnecting c))) /\
    Loop.linv (<[a := mkSpec fd kWriteEvent Watched]> S0) l.
Proof.
  intros Hc Hl Ha Hfd Hfree. unfold connecting. simpl. rewrite Hc. simpl.
  destruct (Loop.linv_construct S0 (loop_ c) a fd Hl Ha Hfd) as (l1 & H1 & Hl1). rewrite H1. simpl.
  destruct (Loop.linv_update _ l1 a (mkSpec fd 0 Fresh) kWriteEvent write_enabled Hl1 (lookup_insert_eq _ _ _) eq_refl)
    as (l2 & H2 & Hl2).
  { split; [vm_compute; tauto|]. split; [done|]. intros ptr s Hs Hr.
    apply lookup_insert_Some in Hs as [[<- <-]|[_ Hs]]; [by destruct Hr|by eapply Hfree]. }
  unfold Loop.enableWriting. rewrite H2. simpl. exists l2. split; [done|]. by rewrite insert_insert_eq in Hl2.
Qed.

Lemma removeAndReset_ok c ch fd :
  channel_ c = Some ch -> Loop.linv (<[ch := mkSpec fd kWriteEvent Watched]> S0) (loop_ c) ->
  exists l, removeAndResetChannel c = Ok (fd, queueInLoop FReset (with_loop l c)) /\
    Loop.linv (<[ch := mkSpec fd 0 Removed]> S0) l.
Proof.
  intros Hc Hl. unfold removeAndResetChannel. rewrite Hc. simpl.
  destruct (Loop.linv_update _ (loop_ c) ch _ kNoneEvent (fun _ => kNoneEvent) Hl (lookup_insert_eq _ _ _) eq_refl)
    as (l1 & H1 & Hl1); [split; [vm_compute; tauto|done]|].
  rewrite insert_insert_eq in Hl1. unfold Loop.disableAll. rewrite H1. simpl.
  destruct (Loop.linv_remove _ l1 ch _ Hl1 (lookup_insert_eq _ _ _)) as (l2 & H2 & Hl2); [done|].
  rewrite insert_insert_eq in Hl2. simpl in Hl2. rewrite H2. simpl.
  destruct (common_chan _ _ _ ch _ (inv_common _ _ _ (Loop.l_inv _ _ Hl2)) (lookup_insert_eq _ _ _)) as (o & Ho & Hfd & _).
  unfold deref. rewrite Ho. simpl in *. rewrite Hfd. eauto.
Qed.

Lemma resetChannel_ok c ch fd :
  channel_ c = Some ch -> S0 !! ch = None -> Loop.linv (<[ch := mkSpec fd 0 Removed]> S0) (loop_ c) ->
  exists l, resetChannel c = Ok (with_channel None (with_loop l c)) /\ Loop.linv S0 l.
Proof.
  intros Hc Hn Hl. unfold resetChannel. rewrite Hc.
  destruct (Loop.linv_destroy _ (loop_ c) ch _ Hl (lookup_insert_eq _ _ _)) as (l & H1 & Hl1); [by intros [|]|].
  rewrite delete_insert_id in Hl1 by done. rewrite H1. simpl. eauto.
Qed.

(** ** Steps *)
Definition delays_ok (c : Connector) : Prop :=
  retryDelayMs_ c = backoff (length (delays c)) /\ forall k d, delays c !! k = Some d -> d = backoff k.

Lemma retry_delays fd c : delays_ok c -> delays_ok (retry fd c).
Proof.
  intros [H1 H2]. unfold retry, delays_ok. simpl. destruct (connect_ c); simpl; [|done].
  rewrite length_app, Nat.add_1_r, H1. split; [apply backoff_next|].
  intros k d [Hk|[Hge Hk]]%lookup_app_Some; [by apply H2|].
  apply list_lookup_singleton_Some in Hk as [Hz <-]. f_equal. lia.
Qed.

(** A socket in flight fails: it is closed, and retried if still wanted. *)
Lemma lost_socket u c : cinv u c -> state_ c = kConnecting ->
  exists fd l, removeAndResetChannel c = Ok (fd, queueInLoop FReset (with_loop l c)) /\
    cinv u (retry fd (queueInLoop FReset (with_loop l c))).
Proof.
  intros [(cur & Hs & Hch) Hst Hf Hd Hds] Hk. unfold chan_inv in Hch.
  destruct (channel_ c) as [ch|] eqn:Ec; [|by destruct Hch]. destruct Hch as (Hn & fd & Hch).
  destruct (decide (state_ c = kConnecting)) as [_|]; [|done]. destruct Hch as (-> & Hl & Hq).
  destruct (removeAndReset_ok c ch fd Ec Hl) as (l & H1 & Hl1). exists fd, l. split; [done|].
  assert (Hdel : delays_ok (retry fd (queueInLoop FReset (with_loop l c)))) by (by apply retry_delays).
  assert (Hq0 : queued FStart (functors c) = O) by (destruct (queued FStart (functors c)); [done|]; discriminate Hf; lia).
  assert (Hfun : functors (retry fd (queueInLoop FReset (with_loop l c))) = functors c ++ [FReset])
    by (unfold retry; simpl; by destruct (connect_ c)).
  assert (Hst' : state_ (retry fd (queueInLoop FReset (with_loop l c))) = kDisconnected)
    by (unfold retry; simpl; by destruct (connect_ c)).
  destruct Hdel as [Hd1 Hd2]. split; [|..|done|done].
  - exists []. split.
    + assert (E : opened (retry fd (queueInLoop FReset (with_loop l c))) = opened c /\
                  closed (retry fd (queueInLoop FReset (with_loop l c))) = closed c ++ [fd] /\
                  handed (retry fd (queueInLoop FReset (with_loop l c))) = handed c)
        by (unfold retry; simpl; by destruct (connect_ c)).
      destruct E as (-> & -> & ->). rewrite Hs. solve_Permutation.
    + unfold chan_inv. rewrite Hst', Hfun, queued_app, Hq.
      assert (E : channel_ (retry fd (queueInLoop FReset (with_loop l c))) = Some ch /\
                  loop_ (retry fd (queueInLoop FReset (with_loop l c))) = l)
        by (unfold retry; simpl; by destruct (connect_ c)).
      destruct E as (-> & ->). split; [done|]. by exists fd.
  - unfold starts_inv, starts in *. rewrite Hfun, Hst', queued_app, Hq0, decide_True by done.
    unfold retry. simpl. rewrite Hk in Hst.
    destruct u; simpl.
    + destruct Hst as (_ & _ & Hx & _). congruence.
    + destruct Hst as (Hc & Hg & Hz). rewrite decide_False in Hz by done. rewrite Hc. simpl. rewrite length_app. simpl. split; [done|]. split; [done|].
      destruct (gave_up c); [by specialize (Hg eq_refl)|]. change (queued FStart [FReset]) with O. lia.
    + destruct Hst as (Hc & Hz & _). rewrite decide_False in Hz by done. rewrite Hc. simpl. split; [done|].
      change (queued FStart [FReset]) with O. split; [lia|done].
  - rewrite Hfun, queued_app, Hq0. simpl. intros E. vm_compute in E. lia.
Qed.

(** An attempt, with nothing else pending. *)
Lemma startInLoop_ok c a :
  state_ c = kDisconnected -> connect_ c = true -> channel_ c = None -> Loop.linv S0 (loop_ c) ->
  queued FReset (functors c) = O -> starts c = O -> opened c ≡ₚ closed c ++ handed c -> delays_ok c -> attempt_ok a ->
  exists c', startInLoop a c = Ok c' /\ cinv Active c'.
Proof.
  intros Hst Hco Hch Hl Hq Hs Ho Hd (fd & Hfd & Hr & Hfree & Ha). unfold startInLoop. rewrite Hst, Hco. simpl.
  unfold connect. rewrite Hfd. simpl.
  set (c1 := with_sockets (opened c ++ [fd]) (closed c) (handed c) (with_gave_up false c)).
  assert (Hs' : length (timers c) = O /\ queued FStart (functors c) = O) by (unfold starts in Hs; lia).
  destruct Hs' as [Ht Hqs]. destruct (classify (connect_errno a)).
  - destruct (connecting_ok c1 (address a) fd Hch Hl Ha Hr Hfree) as (l & H1 & Hl1). rewrite H1.
    eexists. split; [done|]. destruct Hd as [Hd1 Hd2]. split; simpl; [|..|done|done].
    + exists [fd]. split; [by rewrite Ho, <- (assoc_L (++))|]. unfold chan_inv. simpl. split; [done|]. exists fd.
      done.
    + unfold starts_inv, starts. simpl. rewrite Ht, Hqs. done.
    + rewrite Hqs. lia.
  - eexists. split; [done|]. pose proof (retry_delays fd c1 Hd) as [Hd1 Hd2]. split; [|..|done|done].
    + exists []. unfold retry. simpl. rewrite Hco. simpl. split; [rewrite Ho; solve_Permutation|].
      unfold chan_inv. simpl. rewrite Hch. done.
    + unfold starts_inv, starts, retry. simpl. rewrite Hco. simpl. rewrite length_app, Ht, Hqs. done.
    + unfold retry. simpl. rewrite Hco. simpl. rewrite Hqs. lia.
  - eexists. split; [done|]. destruct Hd as [Hd1 Hd2]. split; simpl; [|..|done|done].
    + exists []. split; [rewrite Ho; solve_Permutation|]. unfold chan_inv. simpl. rewrite Hch, Hst. done.
    + unfold starts_inv, starts. simpl. rewrite Hst, Ht, Hqs. done.
    + rewrite Hqs. lia.
Qed.

(** A start that comes when the connector no longer wants to connect. *)
Lemma startInLoop_unwanted c a : state_ c = kDisconnected -> connect_ c = false -> startInLoop a c = Ok c.
Proof. intros Hs Hc. unfold startInLoop. by rewrite Hs, Hc. Qed.

Lemma chan_inv_functors c cur l :
  chan_inv c cur -> queued FReset l = queued FReset (functors c) -> chan_inv (with_functors l c) cur.
Proof.
  intros Hc Hq. unfold chan_inv in *. simpl. rewrite Hq.
  destruct (channel_ c); [|done]. destruct Hc as (Hn & fd & Hc). split; [done|]. exists fd. by destruct (decide _).
Qed.

Lemma cinv_stop_functor u c rest :
  cinv u c -> functors c = FStop :: rest -> state_ c <> kConnecting -> cinv u (with_functors rest c).
Proof.
  intros [(cur & Hs & Hch) Hst Hf Hd Hds] Hfun Hk. rewrite Hfun, queued_cons in Hf. simpl in Hf. split; try done.
  - exists cur. split; [done|]. apply chan_inv_functors; [done|]. rewrite Hfun, queued_cons. done.
  - destruct u; unfold starts_inv, starts in *; simpl; rewrite Hfun, ?queued_cons in Hst; simpl in Hst; try done.
    + destruct Hst as (_ & _ & _ & Hx & _). congruence.
    + by destruct Hst as (? & ? & _).
Qed.

Lemma removeAndReset_frame c c1 fd l :
  channel_ c1 = channel_ c -> loop_ c1 = loop_ c ->
  removeAndResetChannel c = Ok (fd, queueInLoop FReset (with_loop l c)) ->
  removeAndResetChannel c1 = Ok (fd, queueInLoop FReset (with_loop l c1)).
Proof.
  intros Ec El. unfold removeAndResetChannel. rewrite Ec, El.
  destruct (channel_ c); simpl; [|done]. destruct (Loop.disableAll _ _) as [l1|]; simpl; [|done].
  destruct (Loop.remove _ _) as [l2|]; simpl; [|done]. destruct (deref _ _); simpl; [|done].
  intros [= -> ->]. done.
Qed.

Lemma stopInLoop_ok u c rest :
  cinv u c -> functors c = FStop :: rest -> exists c', stopInLoop (with_functors rest c) = Ok c' /\ cinv u c'.
Proof.
  intros Hc Hfun. unfold stopInLoop. simpl. case_bool_decide as Hk.
  - destruct (lost_socket u c Hc Hk) as (fd & l & Hr & Hc').
    rewrite (removeAndReset_frame c _ fd l) by done. simpl. eexists. split; [done|].
    assert (E : retry fd (queueInLoop FReset (with_loop l (setState kDisconnected (with_functors rest c)))) =
                with_functors (rest ++ [FReset]) (retry fd (queueInLoop FReset (with_loop l c)))).
    { unfold retry. simpl. by destruct (connect_ c). }
    rewrite E. apply cinv_stop_functor; [done|..].
    + unfold retry. simpl. by destruct (connect_ c); simpl; rewrite Hfun.
    + unfold retry. simpl. by destruct (connect_ c).
  - eexists. split; [done|]. by apply cinv_stop_functor.
Qed.

(** Not connecting and no reset pending: there is no channel. *)
Lemma no_channel c cur :
  chan_inv c cur -> state_ c <> kConnecting -> queued FReset (functors c) = O ->
  channel_ c = None /\ cur = [] /\ Loop.linv S0 (loop_ c).
Proof.
  unfold chan_inv. intros Hc Hs Hq. destruct (channel_ c); [|naive_solver].
  destruct Hc as (_ & fd & Hc). destruct (decide _); [done|]. destruct Hc as (_ & _ & Hx). congruence.
Qed.

(** A pending start means the connector is disconnected. *)
Lemma pending_start u c : cinv u c -> (starts c > 0)%nat ->
  state_ c = kDisconnected /\ starts c = 1%nat /\
  ((u = Active /\ connect_ c = true) \/ (u = Stopped /\ connect_ c = false)).
Proof.
  intros [_ Hst _ _ _] Hs. destruct u; simpl in Hst.
  - destruct Hst as (_ & _ & _ & Hf & Ht & _). unfold starts in Hs. rewrite Hf, Ht in Hs. vm_compute in Hs. lia.
  - destruct Hst as (Hc & _ & E). destruct (decide (state_ c = kDisconnected)); [|lia]. destruct (gave_up c); [lia|]. auto.
  - destruct Hst as (Hc & E & _). destruct (decide (state_ c = kDisconnected)); [|lia]. split; [done|]. split; [lia|auto].
Qed.

(** One of the pending starts runs: from [c] to [c1] only it is taken off. *)
Lemma run_start u c c1 a :
  cinv u c -> (starts c > 0)%nat -> attempt_ok a ->
  state_ c1 = state_ c -> connect_ c1 = connect_ c -> channel_ c1 = channel_ c -> loop_ c1 = loop_ c ->
  queued FReset (functors c1) = queued FReset (functors c) -> starts c = S (starts c1) ->
  (queued FStart (functors c1) <= queued FStart (functors c))%nat ->
  opened c1 = opened c -> closed c1 = closed c -> handed c1 = handed c -> retryDelayMs_ c1 = retryDelayMs_ c ->
  delays c1 = delays c ->
  (queued FReset (functors c) = O \/ channel_ c = None) ->
  exists c', startInLoop a c1 = Ok c' /\ cinv u c'.
Proof.
  intros Hc Hpos Ha Es Ec Ech El Eq Est Efs E1 E2 E3 E4 E5 Hor.
  destruct (pending_start u c Hc Hpos) as (Hs & H1 & Hu). destruct Hc as [(cur & Hso & Hch) Hst Hf Hd Hds].
  destruct Hu as [[-> Hco]|[-> Hco]].
  - assert (Hq : queued FReset (functors c) = O).
    { destruct Hor as [?|Hn]; [done|]. unfold chan_inv in Hch. rewrite Hn in Hch. by destruct Hch as (_ & _ & _ & ?). }
    destruct (no_channel _ _ Hch ltac:(congruence) Hq) as (Hn & -> & Hl). rewrite app_nil_r in Hso.
    apply startInLoop_ok; try congruence.
    unfold delays_ok. by rewrite E4, E5.
  - rewrite startInLoop_unwanted by congruence. eexists. split; [done|]. split.
    + exists cur. rewrite E1, E2, E3. split; [done|]. unfold chan_inv in *. by rewrite Es, Ech, El, Eq.
    + simpl in *. rewrite Ec, Es. split; [done|]. split; [|congruence]. destruct (decide _); lia.
    + intros Hx. rewrite Ech. apply Hf. lia.
    + by rewrite E4, E5.
    + by rewrite E5.
Qed.

(** The connection is established. *)
Lemma established u c : cinv u c -> state_ c = kConnecting ->
  exists c', handleWrite 0 false c = Ok c' /\ cinv u c'.
Proof.
  intros [(cur & Hs & Hch) Hst Hf Hd Hds] Hk. unfold handleWrite. rewrite Hk. simpl. unfold chan_inv in Hch.
  destruct (channel_ c) as [ch|] eqn:Ec; [|by destruct Hch]. destruct Hch as (Hn & fd & Hch).
  destruct (decide (state_ c = kConnecting)) as [_|]; [|done]. destruct Hch as (-> & Hl & Hq).
  destruct (removeAndReset_ok c ch fd Ec Hl) as (l & H1 & Hl1). rewrite H1. simpl. eexists. split; [done|].
  assert (Hq0 : queued FStart (functors c) = O) by (destruct (queued FStart (functors c)); [done|]; discriminate Hf; lia).
  split.
  - exists []. split; [destruct (connect_ c); simpl; rewrite Hs; solve_Permutation|].
    unfold chan_inv. destruct (connect_ c); simpl; rewrite Ec, queued_app, Hq; (split; [done|]); by exists fd.
  - unfold starts_inv, starts in *. rewrite Hk in Hst. destruct u.
    + by destruct Hst.
    + destruct Hst as (Hc & Hg & Hz). rewrite Hc. simpl. rewrite queued_app, Hq0 in *. split; [done|].
      rewrite decide_False in * by done. split; [|change (queued FStart [FReset]) with O; lia]. intros Hx. by specialize (Hg Hx).
    + destruct Hst as (Hc & Hz & _). rewrite Hc. simpl. rewrite decide_False in * by done. rewrite queued_app, Hq0 in *.
      split; [done|]. change (queued FStart [FReset]) with O. split; [lia|done].
  - destruct (connect_ c); simpl; rewrite queued_app, Hq0; simpl; intros Hx; vm_compute in Hx; lia.
  - by destruct (connect_ c).
  - by destruct (connect_ c).
Qed.

Lemma start_ok c inLoop a : cinv Unused c -> attempt_ok a -> exists c', start inLoop a c = Ok c' /\ cinv Active c'.
Proof.
  intros [(cur & Hs & Hch) (Hst & Hco & Hn & Hf & Ht & Hg) _ Hd Hds] Ha.
  destruct (no_channel _ _ Hch) as (_ & -> & Hl); [congruence|by rewrite Hf|]. rewrite app_nil_r in Hs.
  unfold start. destruct inLoop.
  - apply startInLoop_ok; simpl; try done; unfold starts; simpl; by rewrite ?Hf, ?Ht.
  - eexists. split; [done|]. split; simpl; try done.
    + exists []. rewrite app_nil_r. split; [done|]. unfold chan_inv. simpl. rewrite Hn, Hst, Hf. done.
    + unfold starts. simpl. rewrite Hst, Hf, Ht, Hg. done.
Qed.

Lemma stop_ok u c : cinv u c -> cinv Stopped (stop c).
Proof.
  intros [(cur & Hs & Hch) Hst Hf Hd Hds]. split; try done.
  - exists cur. split; [done|]. apply (chan_inv_functors (with_connect false c)); [exact Hch|].
    by rewrite queued_app, Nat.add_comm.
  - unfold starts_inv, starts in *. simpl. rewrite !queued_app. change (queued FStart [FStop]) with O.
    change (queued FStop [FStop]) with 1%nat. split; [done|]. split; [|lia]. destruct u; [| |destruct (decide _); lia].
    + destruct Hst as (-> & _ & _ & -> & -> & _). simpl. vm_compute. lia.
    + destruct Hst as (_ & _ & Hz). destruct (decide _); [|lia]. destruct (gave_up c); lia.
  - intros Hx. apply Hf. simpl in Hx. rewrite queued_app in Hx. change (queued FStart [FStop]) with O in Hx. lia.
Qed.

Lemma reset_ok u c rest : cinv u c -> functors c = FReset :: rest ->
  exists c', resetChannel (with_functors rest c) = Ok c' /\ cinv u c'.
Proof.
  intros [(cur & Hs & Hch) Hst Hf Hd Hds] Hfun. unfold chan_inv in Hch.
  destruct (channel_ c) as [ch|] eqn:Ec.
  - destruct Hch as (Hn & fd & Hch). destruct (decide (state_ c = kConnecting)) as [|Hk].
    { destruct Hch as (_ & _ & Hx). by rewrite Hfun, queued_cons in Hx. }
    destruct Hch as (-> & Hl & Hq). rewrite Hfun, queued_cons in Hq. simpl in Hq.
    destruct (resetChannel_ok (with_functors rest c) ch fd Ec Hn Hl) as (l & Hr & Hl'). rewrite Hr.
    eexists. split; [done|]. split; simpl; try done.
    + exists []. split; [done|]. unfold chan_inv. simpl. split; [done|]. split; [done|]. split; [done|lia].
    + destruct u; simpl in *.
      * destruct Hst as (_ & _ & Hx & _). congruence.
      * unfold starts in *. simpl. by rewrite Hfun, queued_cons in Hst.
      * unfold starts in *. simpl. by rewrite Hfun, !queued_cons in Hst.
  - destruct Hch as (_ & _ & _ & Hx). by rewrite Hfun, queued_cons in Hx.
Qed.

Lemma step_ok u c e u' : cinv u c -> permitted u c e u' -> exists c', step c e = Ok c' /\ cinv u' c'.
Proof.
  intros Hc Hp.
  inversion Hp as [? inLoop a Ha|? ?|? a Hk Hq Ha|? ? a Ha|? ? a Hq Ha|? ? err self Hk|? ? Hk]; subst; cbn [step].
  - by apply start_ok.
  - eexists. split; [done|]. by eapply stop_ok.
  - destruct Hc as [(cur & Hs & Hch) (Hco & Hg & Hz) Hf Hd Hds]. rewrite Hk in Hz. rewrite decide_False in Hz by done.
    destruct (no_channel _ _ Hch) as (Hn & -> & Hl); [congruence|done|]. rewrite app_nil_r in Hs.
    apply startInLoop_ok; simpl; try done.
  - destruct (functors c) as [|f rest] eqn:Ef; [eauto|]. destruct f.
    + eapply (run_start u' c); try done; try (rewrite Ef, ?queued_cons; simpl); unfold starts; rewrite ?Ef, ?queued_cons; simpl; try lia.
      right. apply Hc. rewrite Ef, queued_cons. simpl. lia.
    + by apply stopInLoop_ok.
    + by apply reset_ok.
  - destruct (timers c) as [|d rest] eqn:Et; [eauto|].
    eapply (run_start u' c); try done; unfold starts; rewrite ?Et; simpl; try lia.
  - destruct (Z.eqb_spec err 0) as [->|Hne]; [destruct self|].
    2: by apply established.
    all: destruct (lost_socket u' c Hc Hk) as (fd & l & Hr & Hc'); unfold handleWrite; rewrite Hk; simpl; rewrite Hr; simpl.
    + eauto.
    + rewrite (proj2 (Z.eqb_neq err 0)) by done. simpl. eauto.
  - destruct (lost_socket u' c Hc Hk) as (fd & l & Hr & Hc'). unfold handleError. rewrite Hk. simpl. rewrite Hr. simpl. eauto.
Qed.

Lemma cinv_new loop : Loop.linv S0 loop -> cinv Unused (newConnector loop).
Proof.
  intros Hl. split; try done.
  exists []. split; [done|]. by unfold chan_inv.
Qed.

Lemma uses_ok u c l u' : cinv u c -> uses u c l u' -> exists c', foldM step c l = Ok c' /\ cinv u' c'.
Proof.
  intros Hc Hu. revert Hc. induction Hu as [u c|u u1 u2 c e l Hp _ IH]; intros Hc; [by exists c|].
  destruct (step_ok _ _ _ _ Hc Hp) as (c1 & Hs & Hc1). destruct (IH c1 Hs Hc1) as (c' & Hr & Hc').
  exists c'. simpl. by rewrite Hs.
Qed.


(** C25: The delays before successive retries are 500, 1000, 2000, ... ms, never
    more than 30 seconds, and start over at 500 ms after a restart. *)
Theorem retry_backoff loop l u c
  (Hloop : Loop.linv S0 loop) (Huses : uses Unused (newConnector loop) l u)
  (Hrun : foldM step (newConnector loop) l = Ok c) :
  (forall k d, delays c !! k = Some d -> d = Z.min (500 * 2 ^ Z.of_nat k) 30000) /\
  500 <= retryDelayMs_ c <= 30000 /\
  (forall a c', state_ c = kConnected -> restart a c = Ok c' -> delays c' = [] \/ delays c' = [500]).
Proof.
  destruct (uses_ok _ _ _ _ (cinv_new loop Hloop) Huses) as (c0 & Hr & [_ _ _ Hd Hds]).
  assert (c0 = c) as -> by congruence. split; [done|]. split.
  - rewrite Hd. unfold backoff, kInitRetryDelayMs, kMaxRetryDelayMs.
    pose proof (Z.pow_pos_nonneg 2 (Z.of_nat (length (delays c)))). lia.
  - intros a c' Hk. unfold restart, startInLoop, connect, connecting. simpl.
    destruct (sock a); simpl; [|done]. destruct (classify (connect_errno a)).
    + destruct (bool_decide _); simpl; [|done]. intros Hx. inv_ok. subst. by left.
    + intros [= <-]. by right.
    + intros [= <-]. by left.
Qed.

End connector.
Arguments Connector : clear implicits.

Definition refused : attempt := mkAttempt (Some 5) ECONNREFUSED 0.
Definition in_progress : attempt := mkAttempt (Some 5) EINPROGRESS 1000.

(** Refused once, connected at the second attempt, stopped. *)
Definition sample_events : list event :=
  [Start true refused; TimerFires in_progress; WriteReady 0 false; RunFunctor refused; Stop; RunFunctor refused].

Lemma sample_attempt_ok (a : attempt) : sock a = Some 5 -> attempt_ok ∅ a.
Proof.
  intros Ha. exists 5. split; [done|]. split; [unfold fd_limit; lia|]. split; [|done].
  intros ptr s Hs. by rewrite lookup_empty in Hs.
Qed.

Lemma sample_uses :
  uses ∅ Unused (newConnector (Loop.newEventLoop (P := EPollPoller.EPollPoller))) sample_events Stopped.
Proof.
  eapply uses_cons; [apply permit_start; by apply sample_attempt_ok|]. intros c Hc. vm_compute in Hc. injection Hc as <-.
  eapply uses_cons; [apply permit_timer; [done|by apply sample_attempt_ok]|]. intros c Hc. vm_compute in Hc. injection Hc as <-.
  eapply uses_cons; [by apply permit_write|]. intros c Hc. vm_compute in Hc. injection Hc as <-.
  eapply uses_cons; [apply permit_functor; by apply sample_attempt_ok|]. intros c Hc. vm_compute in Hc. injection Hc as <-.
  eapply uses_cons; [by apply permit_stop|]. intros c Hc. vm_compute in Hc. injection Hc as <-.
  eapply uses_cons; [apply permit_functor; by apply sample_attempt_ok|]. intros c Hc. apply uses_nil.
Qed.


Lemma retry_backoff_witness :
  exists c, foldM step (newConnector (Loop.newEventLoop (P := EPollPoller.EPollPoller))) sample_events = Ok c /\
    delays c = [500] /\ retryDelayMs_ c <= 30000.
Proof.
  destruct (uses_ok ∅ _ _ _ _ (cinv_new ∅ _ Loop.linv_init) sample_uses) as (c & Hr & _).
  destruct (retry_backoff ∅ _ sample_events Stopped c Loop.linv_init sample_uses Hr) as (_ & Hd & _).
  exists c. assert (Hp : delays <$>
    foldM step (newConnector (Loop.newEventLoop (P := EPollPoller.EPollPoller))) sample_events = Ok [500])
    by (vm_compute; reflexivity).
  rewrite Hr in Hp. injection Hp as Hf. split; [exact Hr|]. split; [done|lia].
Defined.

(** Starting again after stop() aborts: the retry timer that stop() did not
    cancel finds the new attempt in progress, and a start() from another thread
    that follows a stop() of an attempt in progress finds the old channel not
    yet reset. *)
Theorem start_after_stop_aborts :
  foldM step (newConnector (Loop.newEventLoop (P := EPollPoller.EPollPoller)))
    [Start true refused; Stop; RunFunctor refused; Start true in_progress; TimerFires in_progress]
    = Fault AssertFailed /\
  foldM step (newConnector (Loop.newEventLoop (P := EPollPoller.EPollPoller)))
    [Start true in_progress; Stop; Start false in_progress; RunFunctor in_progress; RunFunctor in_progress]
    = Fault AssertFailed.
Proof. split; by vm_compute. Qed.

(** A retry timer that fires before the functor that resets the channel aborts.  The
    delay is 500 ms at least, so it takes callbacks of the same turn that run that
    long between the failure of the connection and the timer queue's handler. *)
Theorem early_timer_aborts :
  foldM step (newConnector (Loop.newEventLoop (P := EPollPoller.EPollPoller)))
    [Start true in_progress; WriteReady ECONNREFUSED false; TimerFires in_progress] = Fault AssertFailed.
Proof. by vm_compute. Qed.
End Connector.
