(* ===== verification/Acceptor.v ===== *)
(** * Acceptor: net/Acceptor.h, net/Acceptor.cc, sockets::accept of net/SocketsOps.cc

    The listening socket: its channel on the event loop of EventLoop.v, the
    process's descriptor table and the kernel's backlog, and the descriptor held
    in reserve for the day the table is full.

    Theorems: an event of the listening socket takes one connection off the
    backlog even when the process has no descriptor left; constructing, listening
    and destroying leaves loop and descriptors as they were, with either poller. *)

From S2P Require Import Prelude Channel Poller EventLoop.

Module Acceptor.

Definition EPERM : Z := 1.
Definition EINTR : Z := 4.
Definition EAGAIN : Z := 11.
Definition EMFILE : Z := 24.
Definition EPROTO : Z := 71.
Definition ECONNABORTED : Z := 103.

(** The descriptors of the process, their limit, and the connections the kernel
    has completed and nobody accepted. *)
Record Kernel := mkKernel {
  fds : gset Z;
  max_fds : nat;
  backlog : list Z;
}.

(** The kernel hands out the lowest descriptor that is free. *)
Definition lowest (s : gset Z) : Z :=
  match filter (fun n => n ∉ s) (seqZ 0 (Z.of_nat (S (size s)))) with
  | x :: _ => x
  | [] => 0
  end.

(** [accept4] when no signal or network error interferes. *)
Definition accept4 (k : Kernel) : (Z * Z + Z) * Kernel :=
  match backlog k with
  | [] => (inr EAGAIN, k)
  | peer :: rest =>
      if bool_decide (max_fds k <= size (fds k))%nat then (inr EMFILE, k)
      else let fd := lowest (fds k) in (inl (fd, peer), mkKernel ({[fd]} ∪ fds k) (max_fds k) rest)
  end.

Definition close (fd : Z) (k : Kernel) : Kernel := mkKernel (fds k ∖ {[fd]}) (max_fds k) (backlog k).

(** [socket] and [open("/dev/null")]: -1 when there is no descriptor left. *)
Definition open_fd (k : Kernel) : Z * Kernel :=
  if bool_decide (max_fds k <= size (fds k))%nat then (-1, k)
  else let fd := lowest (fds k) in (fd, mkKernel ({[fd]} ∪ fds k) (max_fds k) (backlog k)).

(** [sockets::accept]: [interference] is an error accept4 reports instead. *)
Definition sockets_accept (interference : option Z) (k : Kernel) : outcome ((Z * Z + Z) * Kernel) :=
  let r := match interference with Some e => (inr e, k) | None => accept4 k end in
  match fst r with
  | inl _ => Ok r
  | inr e =>
      if bool_decide (e ∈ [EAGAIN; ECONNABORTED; EINTR; EPROTO; EPERM; EMFILE]) then Ok r
      else Fault FatalLog
  end.

Section acceptor.
Context {P : Type} `{PL : PollerLaws P}.

Record Acceptor := mkAcceptor {
  loop_ : Loop.EventLoop P;
  acceptSocket_ : Z;
  acceptChannel_ : Z;             (* the address of the member *)
  hasCallback : bool;             (* newConnectionCallback_ is set *)
  listenning_ : bool;
  idleFd_ : Z;
}.

Definition with_loop l (a : Acceptor) : Acceptor :=
  mkAcceptor l (acceptSocket_ a) (acceptChannel_ a) (hasCallback a) (listenning_ a) (idleFd_ a).
Definition with_idle fd (a : Acceptor) : Acceptor :=
  mkAcceptor (loop_ a) (acceptSocket_ a) (acceptChannel_ a) (hasCallback a) (listenning_ a) fd.

(** The constructor: the socket, the channel, the reserve descriptor, bind; the
    socket options are set and not checked. *)
Definition newAcceptor (bind_ok : bool) (channel : Z) (loop : Loop.EventLoop P) (k : Kernel)
  : outcome (Acceptor * Kernel) :=
  let '(sockfd, k) := open_fd k in
  log_fatal_unless (0 <=? sockfd);;              (* createNonblockingOrDie *)
  loop ← Loop.construct channel sockfd loop;
  let '(idle, k) := open_fd k in
  c_assert (0 <=? idle);;
  log_fatal_unless bind_ok;;                     (* bindOrDie *)
  Ok (mkAcceptor loop sockfd channel false false idle, k).

Definition setNewConnectionCallback (a : Acceptor) : Acceptor :=
  mkAcceptor (loop_ a) (acceptSocket_ a) (acceptChannel_ a) true (listenning_ a) (idleFd_ a).

Definition listen (listen_ok : bool) (a : Acceptor) : outcome Acceptor :=
  let a := mkAcceptor (loop_ a) (acceptSocket_ a) (acceptChannel_ a) (hasCallback a) true (idleFd_ a) in
  log_fatal_unless listen_ok;;                   (* listenOrDie *)
  l ← Loop.enableReading (acceptChannel_ a) (loop_ a);
  Ok (with_loop l a).

(** The destructor and those of the members. *)
Definition destroyAcceptor (a : Acceptor) (k : Kernel) : outcome (Loop.EventLoop P * Kernel) :=
  l ← Loop.disableAll (acceptChannel_ a) (loop_ a);
  l ← Loop.remove (acceptChannel_ a) l;
  let k := close (idleFd_ a) k in
  l ← Loop.destroy (acceptChannel_ a) l;
  Ok (l, close (acceptSocket_ a) k).

(** [handleRead]; the result is what [newConnectionCallback_] was called with. *)
Definition handleRead (interference : option Z) (a : Acceptor) (k : Kernel)
  : outcome (option (Z * Z) * Acceptor * Kernel) :=
  '(r, k) ← sockets_accept interference k;
  match r with
  | inl (connfd, peer) =>
      if hasCallback a then Ok (Some (connfd, peer), a, k) else Ok (None, a, close connfd k)
  | inr e =>
      if e =? EMFILE then
        let k := close (idleFd_ a) k in
        let '(r, k) := accept4 k in
        let idle := match r with inl (fd, _) => fd | inr _ => -1 end in
        let k := close idle k in
        let '(fd, k) := open_fd k in
        Ok (None, with_idle fd a, k)
      else Ok (None, a, k)
  end.

Definition acceptor_ok (a : Acceptor) (k : Kernel) : Prop :=
  idleFd_ a ∈ fds k /\ 0 <= idleFd_ a /\ (forall fd, fd ∈ fds k -> 0 <= fd) /\ (size (fds k) <= max_fds k)%nat.

Lemma lowest_free s : 0 <= lowest s /\ lowest s ∉ s.
Proof.
  unfold lowest. destruct (filter _ _) as [|x l] eqn:E.
  - exfalso. assert (Hsub : (list_to_set (seqZ 0 (Z.of_nat (S (size s)))) : gset Z) ⊆ s).
    { intros n Hn%elem_of_list_to_set. destruct (decide (n ∈ s)) as [|Hns]; [done|].
      assert (Hf : n ∈ filter (fun n => n ∉ s) (seqZ 0 (Z.of_nat (S (size s))))) by (by apply list_elem_of_filter).
      rewrite E in Hf. by apply not_elem_of_nil in Hf. }
    apply subseteq_size in Hsub. rewrite size_list_to_set, length_seqZ in Hsub by apply NoDup_seqZ. lia.
  - assert (Hx : x ∈ filter (fun n => n ∉ s) (seqZ 0 (Z.of_nat (S (size s))))) by (rewrite E; left).
    apply list_elem_of_filter in Hx as [Hx Hs]. apply elem_of_seqZ in Hs. split; [lia|done].
Qed.

Lemma open_fd_ok k :
  (size (fds k) < max_fds k)%nat ->
  exists fd, open_fd k = (fd, mkKernel ({[fd]} ∪ fds k) (max_fds k) (backlog k)) /\ 0 <= fd /\ fd ∉ fds k.
Proof.
  intros Hs. unfold open_fd. rewrite bool_decide_eq_false_2 by lia. destruct (lowest_free (fds k)). eauto.
Qed.

Lemma accept4_room k peer rest :
  backlog k = peer :: rest -> (size (fds k) < max_fds k)%nat ->
  exists fd, accept4 k = (inl (fd, peer), mkKernel ({[fd]} ∪ fds k) (max_fds k) rest) /\ 0 <= fd /\ fd ∉ fds k.
Proof.
  intros Hb Hs. unfold accept4. rewrite Hb, bool_decide_eq_false_2 by lia. destruct (lowest_free (fds k)). eauto.
Qed.

(** C26: A readable listening socket with a waiting connection: handleRead always
    takes that connection off the backlog, so a level-triggered poller does not
    report it again, also when the process is out of descriptors; then the
    connection is dropped, no descriptor is lost and the reserve descriptor is
    open again.  Otherwise the callback gets a new descriptor for the peer. *)
Theorem accept_always_progresses a k peer rest
  (Hok : acceptor_ok a k) (Hback : backlog k = peer :: rest) (Hcb : hasCallback a = true) :
  exists r a' k', handleRead None a k = Ok (r, a', k') /\ backlog k' = rest /\ acceptor_ok a' k' /\
    if decide (size (fds k) < max_fds k)%nat
    then exists fd, r = Some (fd, peer) /\ fd ∉ fds k /\ fds k' = {[fd]} ∪ fds k
    else r = None /\ size (fds k') = size (fds k).
Proof.
  destruct Hok as (Hin & Hpos & Hall & Hlim). unfold handleRead, sockets_accept.
  destruct (decide (size (fds k) < max_fds k)%nat) as [Hroom|Hfull].
  - destruct (accept4_room k peer rest Hback Hroom) as (fd & -> & Hfd & Hnew). simpl. rewrite Hcb.
    eexists _, _, _. split; [done|]. split; [done|]. split; [|eauto].
    split_and!; simpl; [set_solver|done|set_solver|]. rewrite size_union by set_solver. rewrite size_singleton. lia.
  - assert (E : accept4 k = (inr EMFILE, k)) by (unfold accept4; rewrite Hback, bool_decide_eq_true_2 by lia; done).
    rewrite E. simpl. set (k1 := close (idleFd_ a) k).
    assert (Hs1 : S (size (fds k1)) = size (fds k)).
    { unfold k1. simpl. rewrite size_difference by set_solver. rewrite size_singleton.
      assert (size (fds k) <> O) by (intros Hz; apply size_empty_inv in Hz; set_solver). lia. }
    destruct (accept4_room k1 peer rest Hback) as (fd & -> & Hfd & Hnew); [unfold k1 in *; simpl in *; lia|].
    set (k2 := close fd _).
    assert (Hk2 : fds k2 = fds k1) by (unfold k2; simpl; set_solver).
    destruct (open_fd_ok k2) as (fd2 & -> & Hfd2 & Hnew2); [rewrite Hk2; unfold k2, k1 in *; simpl in *; lia|].
    rewrite Hk2 in *. eexists _, _, _. split; [done|]. split; [done|].
    assert (Hsize : size ({[fd2]} ∪ fds k1) = size (fds k)) by (rewrite size_union by set_solver; rewrite size_singleton; lia).
    split; [|split; [done|exact Hsize]].
    split_and!; simpl; [set_solver|done| |].
    + unfold k1. simpl. set_solver.
    + unfold k2, k1 in *. simpl in *. lia.
Qed.

(** The life of a listening socket: constructed, listening, destroyed; the loop
    and the descriptor table are as before. *)
Lemma acceptor_lifecycle S channel loop k :
  Loop.linv S loop -> S !! channel = None -> (size (fds k) + 2 <= max_fds k)%nat ->
  0 <= lowest (fds k) < fd_limit -> fd_free S (lowest (fds k)) ->
  exists a k1 a2 l k2, newAcceptor true channel loop k = Ok (a, k1) /\ listen true a = Ok a2 /\
    destroyAcceptor a2 k1 = Ok (l, k2) /\ Loop.linv S l /\ fds k2 = fds k.
Proof.
  intros Hl Hn Hs Hr Hfree. unfold newAcceptor.
  destruct (lowest_free (fds k)) as [Hp Hnew]. unfold open_fd at 1. rewrite bool_decide_eq_false_2 by lia.
  set (fd := lowest (fds k)) in *. cbn zeta. rewrite (proj2 (Z.leb_le 0 fd)) by lia. simpl.
  destruct (Loop.linv_construct S loop channel fd Hl Hn Hr) as (l1 & -> & Hl1). simpl.
  set (k0 := mkKernel _ _ _).
  destruct (open_fd_ok k0) as (idle & -> & Hi & Hnew2).
  { unfold k0. simpl. rewrite size_union by set_solver. rewrite size_singleton. lia. }
  rewrite (proj2 (Z.leb_le 0 idle)) by lia. simpl.
  destruct (Loop.linv_update _ l1 channel (mkSpec fd 0 Fresh) (read_enabled 0) read_enabled Hl1 (lookup_insert_eq _ _ _) eq_refl)
    as (l2 & H2 & Hl2).
  { split; [vm_compute; tauto|]. split; [done|]. intros ptr s Hps Hreg.
    apply lookup_insert_Some in Hps as [[<- <-]|[_ Hps]]; [by destruct Hreg|by eapply Hfree]. }
  rewrite insert_insert_eq in Hl2.
  destruct (Loop.linv_update _ l2 channel _ kNoneEvent (fun _ => kNoneEvent) Hl2 (lookup_insert_eq _ _ _) eq_refl)
    as (l3 & H3 & Hl3); [split; [vm_compute; tauto|done]|]. rewrite insert_insert_eq in Hl3.
  destruct (Loop.linv_remove _ l3 channel _ Hl3 (lookup_insert_eq _ _ _)) as (l4 & H4 & Hl4); [done|].
  rewrite insert_insert_eq in Hl4.
  destruct (Loop.linv_destroy _ l4 channel _ Hl4 (lookup_insert_eq _ _ _)) as (l5 & H5 & Hl5); [by intros [|]|].
  rewrite delete_insert_id in Hl5 by done.
  eexists _, _, _, l5, _. split; [reflexivity|]. unfold listen, Loop.enableReading. simpl. rewrite H2. simpl.
  split; [reflexivity|].
  unfold destroyAcceptor. simpl. unfold Loop.disableAll. rewrite H3. simpl. rewrite H4. simpl. rewrite H5. simpl.
  split; [reflexivity|]. split; [done|]. unfold k0 in *. simpl in *. set_solver.
Qed.

End acceptor.
Arguments Acceptor : clear implicits.

Definition sample_acceptor : Acceptor EPollPoller.EPollPoller :=
  mkAcceptor Loop.newEventLoop 0 1000 true true 1.

(** Two descriptors allowed, both in use (the listening socket and the reserve). *)
Lemma accept_always_progresses_witness :
  let k := mkKernel {[0; 1]} 2 [77] in
  exists r a' k', handleRead None sample_acceptor k = Ok (r, a', k') /\ backlog k' = [] /\ r = None.
Proof.
  intros k. assert (Hok : acceptor_ok sample_acceptor k).
  { split_and!; simpl; [set_solver|lia|set_solver by lia|by vm_compute]. }
  destruct (accept_always_progresses sample_acceptor k 77 [] Hok eq_refl eq_refl) as (r & a' & k' & Hr & Hb & _ & Hif).
  exists r, a', k'. split; [done|]. split; [done|].
  destruct (decide (size (fds k) < max_fds k)%nat) as [Hlt|]; [vm_compute in Hlt; lia|by destruct Hif].
Defined.
End Acceptor.
