(* ===== verification/LoopPool.v ===== *)
(** * LoopPool: net/EventLoopThread.cc, net/EventLoopThread.h, net/EventLoopThreadPool.cc,
      net/EventLoopThreadPool.h

    A thread that owns an event loop and hands its address to the starter
    through a mutex and a condition (an instance of the machine of Monitor.v),
    and the pool of such threads that hands out loops.  A loop is its address.

    Theorems: the starter of a loop thread gets the address the thread
    published, and is left waiting only if the thread has not published it or
    its loop has already ended; the pool hands out its loops in a fixed cyclic
    order, each as often as any other. *)

From S2P Require Import Prelude Monitor.

(** ** EventLoopThread *)
Module EventLoopThread.

Record Data := mkData {
  loop_ : option Z;
  gets : nat;            (* history: returns of startLoop *)
}.

(** [startLoop] after [thread_.start()]; the two critical sections of
    [threadFunc]. *)
Inductive Op := StartLoop | Publish (loop : Z) | Unpublish.
Inductive Res := RUnit | RLoop (loop : Z).
Abbreviation Cond := unit.

Definition newEventLoopThread : Data := mkData None 0.

Definition startLoop (d : Data) : verdict (St := Data) (Res := Res) (Cond := Cond) :=
  match loop_ d with
  | None => Block tt
  | Some loop => Return (mkData (loop_ d) (S (gets d))) (RLoop loop) []
  end.

Definition publish (loop : Z) (d : Data) : verdict (St := Data) (Res := Res) (Cond := Cond) :=
  Return (mkData (Some loop) (gets d)) RUnit [Notify tt].

Definition unpublish (d : Data) : verdict (St := Data) (Res := Res) (Cond := Cond) :=
  Return (mkData None (gets d)) RUnit [].

Definition body (tid : Z) (mx : MutexLock) (op : Op) (d : Data)
  : verdict (St := Data) (Res := Res) (Cond := Cond) :=
  match op with
  | StartLoop => startLoop d
  | Publish loop => publish loop d
  | Unpublish => unpublish d
  end.

#[global, refine] Instance cond_ : Resource body tt := {|
  consumes op := match op with StartLoop => true | _ => false end;
  avail d := (if loop_ d then 1 else 0) - Z.of_nat (gets d);
  open _ := true
|}.
Proof.
  - intros tid mx op d. destruct op; simpl; try done. unfold startLoop. destruct (loop_ d); [done|].
    intros _. split_and!; [done..|lia].
  - intros tid mx op d [] _ Hne. done.
  - intros tid mx op d d' r sg. destruct op; simpl.
    + unfold startLoop. destruct (loop_ d) eqn:E; [|done]. intros [= <- <- <-]. simpl. split; [done|]. right. lia.
    + intros [= <- <- <-]. simpl. split; [done|]. right. destruct (loop_ d); lia.
    + intros [= <- <- <-]. simpl. split; [done|]. right. destruct (loop_ d); lia.
Defined.

(** When nothing moves, a starter is left waiting only if no loop is published
    (not yet, or no longer) or another call already got it. *)
Lemma startLoop_waits l s :
  run body newEventLoopThread l = Ok s -> stuck s -> 0 < waiting tt s ->
  loop_ (shared s) = None \/ (1 <= gets (shared s))%nat.
Proof.
  intros Hr Hs Hw. destruct (stuck_exhausted body tt _ _ _ Hr Hs Hw) as [_ Ha]. simpl in Ha.
  destruct (loop_ (shared s)); [right; lia|by left].
Qed.
End EventLoopThread.

(** ** EventLoopThreadPool *)
Module EventLoopThreadPool.

Record EventLoopThreadPool := mkPool {
  baseLoop_ : Z;
  started_ : bool;
  numThreads_ : Z;
  next_ : Z;
  loops_ : list Z;
  initialized : list Z;      (* the loops the init callback was called with *)
}.

Definition newEventLoopThreadPool (baseLoop : Z) : EventLoopThreadPool := mkPool baseLoop false 0 0 [] [].

Definition setThreadNum (numThreads : Z) (p : EventLoopThreadPool) : EventLoopThreadPool :=
  mkPool (baseLoop_ p) (started_ p) numThreads (next_ p) (loops_ p) (initialized p).

(** [addr i] is the loop the i-th new thread published; [cb] is whether a
    callback was given. *)
Definition start (cb : bool) (addr : nat -> Z) (p : EventLoopThreadPool) : outcome EventLoopThreadPool :=
  c_assert (negb (started_ p));;
  let new := map addr (seq 0 (Z.to_nat (numThreads_ p))) in
  Ok (mkPool (baseLoop_ p) true (numThreads_ p) (next_ p) (loops_ p ++ new)
        (initialized p ++ if cb then (if numThreads_ p =? 0 then [baseLoop_ p] else new) else [])).

Definition getNextLoop (p : EventLoopThreadPool) : outcome (Z * EventLoopThreadPool) :=
  c_assert (started_ p);;
  match loops_ p with
  | [] => Ok (baseLoop_ p, p)
  | _ =>
      loop ← get_or UndefinedBehaviour (zget (loops_ p) (next_ p));
      let next := next_ p + 1 in
      Ok (loop, mkPool (baseLoop_ p) (started_ p) (numThreads_ p)
                  (if zlen (loops_ p) <=? u64 next then 0 else next) (loops_ p) (initialized p))
  end.

Definition getLoopForHash (hashCode : Z) (p : EventLoopThreadPool) : outcome Z :=
  match loops_ p with
  | [] => Ok (baseLoop_ p)
  | _ => get_or UndefinedBehaviour (zget (loops_ p) (u64 hashCode mod zlen (loops_ p)))
  end.

Definition getAllLoops (p : EventLoopThreadPool) : outcome (list Z) :=
  c_assert (started_ p);;
  Ok (match loops_ p with [] => [baseLoop_ p] | ls => ls end).

(** [k] calls of [getNextLoop]. *)
Fixpoint nexts (k : nat) (p : EventLoopThreadPool) : outcome (list Z * EventLoopThreadPool) :=
  match k with
  | O => Ok ([], p)
  | S k =>
      '(loop, p) ← getNextLoop p;
      '(ls, p) ← nexts k p;
      Ok (loop :: ls, p)
  end.

Record pool_ok (p : EventLoopThreadPool) : Prop := {
  po_next : 0 <= next_ p /\ (loops_ p <> [] -> next_ p < zlen (loops_ p));
  po_size : zlen (loops_ p) < 2 ^ 31;
}.

Lemma start_pool_ok base n cb addr p :
  0 <= n < 2 ^ 31 -> start cb addr (setThreadNum n (newEventLoopThreadPool base)) = Ok p ->
  started_ p = true /\ baseLoop_ p = base /\ next_ p = 0 /\ loops_ p = map addr (seq 0 (Z.to_nat n)) /\
  zlen (loops_ p) = n /\ pool_ok p.
Proof.
  intros Hn [= <-]. simpl.
  assert (Hlen : zlen (map addr (seq 0 (Z.to_nat n))) = n) by (rewrite zlen_map; unfold zlen; rewrite length_seq; lia).
  split_and!; try done. split; simpl; [|lia]. split; [lia|]. intros Hne.
  destruct (decide (n = 0)) as [->|]; [done|lia].
Qed.

Lemma getNextLoop_ok p :
  pool_ok p -> started_ p = true -> loops_ p <> [] ->
  exists loop, zget (loops_ p) (next_ p) = Some loop /\
    getNextLoop p = Ok (loop, mkPool (baseLoop_ p) true (numThreads_ p) ((next_ p + 1) mod zlen (loops_ p)) (loops_ p) (initialized p)).
Proof.
  intros [[H0 H1] H2] Hs Hne. specialize (H1 Hne).
  destruct (zget (loops_ p) (next_ p)) as [loop|] eqn:E.
  2: { unfold zget in E. rewrite (proj2 (Z.ltb_ge _ _)) in E by lia. apply lookup_ge_None in E. unfold zlen in *. lia. }
  exists loop. split; [done|]. unfold getNextLoop. rewrite Hs. simpl.
  destruct (loops_ p) as [|x ls] eqn:El; [done|]. rewrite <- El in *. rewrite E. simpl.
  rewrite wrapU_id by (unfold in_u; lia). do 2 f_equal.
  destruct (Z.leb_spec (zlen (loops_ p)) (next_ p + 1)).
  - replace (next_ p + 1) with (zlen (loops_ p)) by lia. by rewrite Z_mod_same_full.
  - by rewrite Z.mod_small by lia.
Qed.

Lemma getNextLoop_total p :
  pool_ok p -> started_ p = true ->
  exists loop p', getNextLoop p = Ok (loop, p') /\ pool_ok p' /\ started_ p' = true.
Proof.
  intros Hp Hs. destruct (loops_ p) as [|x ls] eqn:El.
  - exists (baseLoop_ p), p. unfold getNextLoop. by rewrite Hs, El.
  - destruct (getNextLoop_ok p Hp Hs) as (loop & _ & ->); [congruence|]. eexists _, _. split; [done|]. split; [|done].
    destruct Hp as [[H0 H1] H2]. split; simpl; [|done].
    assert (Hpos : 0 < zlen (loops_ p)) by (rewrite El, zlen_cons; pose proof (zlen_nonneg ls); lia).
    pose proof (Z.mod_pos_bound (next_ p + 1) (zlen (loops_ p)) Hpos). lia.
Qed.

Lemma nexts_cyclic k p :
  pool_ok p -> started_ p = true -> loops_ p <> [] ->
  exists ls p', nexts k p = Ok (ls, p') /\ length ls = k /\
    forall i, (i < k)%nat -> ls !! i = zget (loops_ p) ((next_ p + Z.of_nat i) mod zlen (loops_ p)).
Proof.
  revert p; induction k as [|k IH]; intros p Hp Hs Hne; simpl; [exists [], p; split_and!; [done..|lia]|].
  destruct (getNextLoop_ok p Hp Hs Hne) as (loop & Hg & ->). simpl.
  set (p1 := mkPool _ _ _ _ _ _). pose proof Hp as [[H0 H1] H2]. specialize (H1 Hne).
  assert (Hpos : 0 < zlen (loops_ p)) by lia.
  destruct (IH p1) as (ls & p' & Hn & Hlen & Hi); [|done|done|].
  { split; simpl; [|done]. pose proof (Z.mod_pos_bound (next_ p + 1) (zlen (loops_ p)) Hpos). lia. }
  rewrite Hn. simpl. exists (loop :: ls), p'. split; [done|]. split; [simpl; by rewrite Hlen|].
  intros [|i] Hlt; simpl.
  - rewrite Z.add_0_r, Z.mod_small by lia. done.
  - rewrite Hi by lia. simpl. rewrite Zplus_mod_idemp_l. do 2 f_equal. lia.
Qed.

(** After start with n threads, the k-th call of getNextLoop returns loop
    number k modulo n, so that any n consecutive calls hand out every loop once;
    with no threads every call returns the base loop. *)
Theorem getNextLoop_round_robin base n cb addr p k
  (Hn : 0 <= n < 2 ^ 31) (Hstart : start cb addr (setThreadNum n (newEventLoopThreadPool base)) = Ok p) :
  exists ls p', nexts k p = Ok (ls, p') /\ length ls = k /\
    forall i, (i < k)%nat ->
      ls !! i = Some (if n =? 0 then base else addr (Z.to_nat (Z.of_nat i mod n))).
Proof.
  destruct (start_pool_ok _ _ _ _ _ Hn Hstart) as (Hs & Hb & Hz & Hls & Hlen & Hp).
  destruct (Z.eqb_spec n 0) as [->|Hne].
  - clear Hstart. assert (Hnil : loops_ p = []) by (by apply zlen_0_nil). clear Hls Hlen Hp Hz.
    induction k as [|k IH]; simpl; [exists [], p; split_and!; [done..|lia]|].
    destruct IH as (ls & p' & Hk & Hl & Hi). unfold getNextLoop. rewrite Hs, Hnil. simpl. rewrite Hk. simpl.
    exists (baseLoop_ p :: ls), p'. split; [done|]. split; [simpl; by rewrite Hl|].
    intros [|i] Hlt; simpl; [by rewrite Hb|]. apply Hi. lia.
  - destruct (nexts_cyclic k p Hp Hs) as (ls & p' & Hk & Hl & Hi).
    { intros E. rewrite E in Hlen. change (zlen (@nil Z)) with 0 in Hlen. lia. }
    exists ls, p'. split; [done|]. split; [done|]. intros i Hlt. rewrite Hi by done. rewrite Hz, Hlen, Z.add_0_l.
    pose proof (Z.mod_pos_bound (Z.of_nat i) n ltac:(lia)) as Hm. unfold zget.
    rewrite (proj2 (Z.ltb_ge _ _)) by lia. rewrite Hls. change (map addr) with (fmap (M := list) addr). rewrite list_lookup_fmap.
    rewrite lookup_seq_lt by lia. simpl. done.
Qed.

Lemma getNextLoop_round_robin_witness :
  exists p ls p', start false (fun i => 100 + Z.of_nat i) (setThreadNum 3 (newEventLoopThreadPool 7)) = Ok p /\
    nexts 5 p = Ok (ls, p') /\ ls = [100; 101; 102; 100; 101].
Proof.
  destruct (start false (fun i => 100 + Z.of_nat i) (setThreadNum 3 (newEventLoopThreadPool 7))) as [p|] eqn:E;
    [|vm_compute in E; discriminate].
  destruct (getNextLoop_round_robin 7 3 false (fun i => 100 + Z.of_nat i) p 5 ltac:(lia) E) as (ls & p' & Hk & Hl & Hi).
  exists p, ls, p'. split; [done|]. split; [exact Hk|].
  apply list_eq. intros i. destruct (decide (i < 5)%nat) as [Hlt|Hge].
  - rewrite Hi by done. by destruct i as [|[|[|[|[|i]]]]]; [..|lia].
  - rewrite !lookup_ge_None_2; [done|simpl; lia|lia].
Defined.
End EventLoopThreadPool.
