(* ===== verification/TcpServer.v ===== *)
(** * TcpServer: net/TcpServer.h, net/TcpServer.cc

    The server, its map of connections and the loops of its pool.  A connection is seen from outside, by where it is in its life (before
    connectEstablished, up, down after handleClose, gone after
    connectDestroyed); what happens inside is TcpConnection.v.  The functors
    queued in all loops are one list of (loop, functor) in the order they were
    queued; a loop runs its own oldest one.

    Theorems: whatever the interleaving of the loops, no assertion of the server fails, names are
    unique, and when the queues are empty the map holds exactly the connections
    that are up, every other one having been destroyed once in its own loop. *)

From S2P Require Import Prelude Format LoopPool.

Module TcpServer.
Import EventLoopThreadPool.

(** The life of a connection as its server sees it. *)
Inductive life := Connecting | Up | Down | Gone.

#[global] Instance life_eq_dec : EqDecision life.
Proof. solve_decision. Defined.

Record Conn := mkConn {
  c_name : bytes;
  c_loop : Z;
  c_life : life;
}.

Definition set_life (s : life) (o : Conn) : Conn := mkConn (c_name o) (c_loop o) s.

(** What the server has run in the loops, by the connection it is bound to. *)
Inductive functor :=
| FEstablished (conn : Z)        (* TcpConnection::connectEstablished *)
| FRemove (conn : Z)             (* TcpServer::removeConnectionInLoop *)
| FDestroyed (conn : Z)          (* TcpConnection::connectDestroyed *)
| FListen.                       (* Acceptor::listen *)

Record Server := mkServer {
  loop_ : Z;
  ipPort_ : bytes;
  name_ : bytes;
  listening : bool;              (* acceptor_->listenning() *)
  threadPool_ : EventLoopThreadPool;
  started_ : Z;
  nextConnId_ : Z;
  connections_ : gmap bytes Z;
}.

(** The server (None once it is destroyed), the connection objects, the functors
    not yet run. *)
Record World := mkWorld {
  server : option Server;
  conns : gmap Z Conn;
  pending : list (Z * functor);
}.

Definition newTcpServer (loop : Z) (ipPort name : bytes) : Server :=
  mkServer loop ipPort name false (newEventLoopThreadPool loop) 0 1 ∅.

Definition with_pool p (s : Server) : Server :=
  mkServer (loop_ s) (ipPort_ s) (name_ s) (listening s) p (started_ s) (nextConnId_ s) (connections_ s).
Definition with_connections m (s : Server) : Server :=
  mkServer (loop_ s) (ipPort_ s) (name_ s) (listening s) (threadPool_ s) (started_ s) (nextConnId_ s) m.
Definition with_server s (w : World) : World := mkWorld s (conns w) (pending w).
Definition with_conn c o (w : World) : World := mkWorld (server w) (<[c := o]> (conns w)) (pending w).
Definition enqueue (loop : Z) (f : functor) (w : World) : World :=
  mkWorld (server w) (conns w) (pending w ++ [(loop, f)]).

(** The server behind [this]; a destroyed one must not be used. *)
Definition this (w : World) : outcome Server := get_or UndefinedBehaviour (server w).
Definition object (w : World) (c : Z) : outcome Conn := get_or UndefinedBehaviour (conns w !! c).

(** *** TcpConnection's ends of the life cycle *)
Definition connectEstablished (c : Z) (w : World) : outcome World :=
  o ← object w c;
  c_assert (bool_decide (c_life o = Connecting));;
  Ok (with_conn c (set_life Up o) w).

Definition connectDestroyed (c : Z) (w : World) : outcome World :=
  o ← object w c;
  c_assert (bool_decide (c_life o = Up) || bool_decide (c_life o = Down));;
  Ok (with_conn c (set_life Gone o) w).

(** *** The server's methods *)
Definition removeConnectionInLoop (c : Z) (w : World) : outcome World :=
  s ← this w;
  o ← object w c;
  c_assert (bool_decide (is_Some (connections_ s !! c_name o)));;
  Ok (enqueue (c_loop o) (FDestroyed c)
        (with_server (Some (with_connections (delete (c_name o) (connections_ s)) s)) w)).

Definition listen (w : World) : outcome World :=
  s ← this w;
  Ok (with_server (Some (mkServer (loop_ s) (ipPort_ s) (name_ s) true (threadPool_ s) (started_ s)
                           (nextConnId_ s) (connections_ s))) w).

Definition exec (f : functor) (w : World) : outcome World :=
  match f with
  | FEstablished c => connectEstablished c w
  | FRemove c => removeConnectionInLoop c w
  | FDestroyed c => connectDestroyed c w
  | FListen => listen w
  end.

(** [runInLoop], called in the thread of loop [here]. *)
Definition runInLoop (here target : Z) (f : functor) (w : World) : outcome World :=
  if here =? target then exec f w else Ok (enqueue target f w).

Definition setThreadNum (numThreads : Z) (s : Server) : outcome Server :=
  c_assert (0 <=? numThreads);;
  Ok (with_pool (EventLoopThreadPool.setThreadNum numThreads (threadPool_ s)) s).

(** [cb]: threadInitCallback_ is set; [addr]: the loops of the new threads. *)
Definition start (here : Z) (cb : bool) (addr : nat -> Z) (w : World) : outcome World :=
  s ← this w;
  let s1 := mkServer (loop_ s) (ipPort_ s) (name_ s) (listening s) (threadPool_ s) 1 (nextConnId_ s) (connections_ s) in
  if started_ s =? 0 then
    p ← EventLoopThreadPool.start cb addr (threadPool_ s1);
    c_assert (negb (listening s1));;
    runInLoop here (loop_ s) FListen (with_server (Some (with_pool p s1)) w)
  else Ok (with_server (Some s1) w).

Definition connName (s : Server) : bytes :=
  name_ s ++ snprintf 64 (lit "-" ++ ipPort_ s ++ lit "#" ++ dec (nextConnId_ s)).

(** [newConnection], in the acceptor's loop; [c] is where the connection object
    is allocated. *)
Definition newConnection (c : Z) (w : World) : outcome World :=
  s ← this w;
  '(ioLoop, p) ← getNextLoop (threadPool_ s);
  if nextConnId_ s =? 2 ^ 31 - 1 then Fault Overflow
  else
    match conns w !! c with
    | Some _ => Fault BadAlloc
    | None =>
        let s1 := mkServer (loop_ s) (ipPort_ s) (name_ s) (listening s) p (started_ s) (nextConnId_ s + 1)
                    (<[connName s := c]> (connections_ s)) in
        let w := with_conn c (mkConn (connName s) ioLoop Connecting) (with_server (Some s1) w) in
        runInLoop (loop_ s) ioLoop (FEstablished c) w
    end.

(** [removeConnection], the close callback, called in the connection's loop. *)
Definition removeConnection (here : Z) (c : Z) (w : World) : outcome World :=
  s ← this w;
  runInLoop here (loop_ s) (FRemove c) w.

(** [TcpConnection::handleClose], in the connection's loop. *)
Definition handleClose (c : Z) (w : World) : outcome World :=
  o ← object w c;
  if bool_decide (c_life o = Up) then removeConnection (c_loop o) c (with_conn c (set_life Down o) w)
  else Ok w.

(** The destructor, in the acceptor's loop. *)
Definition destroyTcpServer (w : World) : outcome World :=
  s ← this w;
  w ← foldM (fun w '(_, c) => o ← object w c; runInLoop (loop_ s) (c_loop o) (FDestroyed c) w) w
        (map_to_list (connections_ s));
  Ok (with_server None w).

(** *** Steps *)
Fixpoint pop (loop : Z) (l : list (Z * functor)) : option (functor * list (Z * functor)) :=
  match l with
  | [] => None
  | (lp, f) :: l => if lp =? loop then Some (f, l) else
      match pop loop l with Some (g, rest) => Some (g, (lp, f) :: rest) | None => None end
  end.

Inductive action :=
| Accept (c : Z)             (* the acceptor has a new descriptor *)
| Close (c : Z)              (* the peer of a connection that is up is gone *)
| RunFunctor (loop : Z)      (* a loop runs its oldest functor *)
| StartAgain (cb : bool) (addr : nat -> Z)
| DestroyServer.

Definition step (w : World) (a : action) : outcome World :=
  match a with
  | Accept c => newConnection c w
  | Close c => match conns w !! c with Some _ => handleClose c w | None => Ok w end
  | RunFunctor loop =>
      match pop loop (pending w) with
      | None => Ok w
      | Some (f, rest) => exec f (mkWorld (server w) (conns w) rest)
      end
  | StartAgain cb addr => s ← this w; start (loop_ s) cb addr w
  | DestroyServer => destroyTcpServer w
  end.

(** A server started in its loop's thread. *)
Definition serving (loop : Z) (ipPort name : bytes) (numThreads : Z) (cb : bool) (addr : nat -> Z) : outcome World :=
  s ← setThreadNum numThreads (newTcpServer loop ipPort name);
  start loop cb addr (mkWorld (Some s) ∅ []).

(** ** The invariant *)
Definition conn_of (f : functor) : option Z :=
  match f with FEstablished c | FRemove c | FDestroyed c => Some c | FListen => None end.

(** The functors queued for a connection. *)
Definition queued (c : Z) (l : list (Z * functor)) : list (Z * functor) :=
  filter (fun x => conn_of (snd x) = Some c) l.

Definition name_at (ipPort name : bytes) (id : Z) : bytes :=
  name ++ snprintf 64 (lit "-" ++ ipPort ++ lit "#" ++ dec id).

Definition conn_ok (s : Server) (l : list (Z * functor)) (c : Z) (o : Conn) : Prop :=
  let entry := connections_ s !! c_name o in
  match c_life o with
  | Connecting => entry = Some c /\ queued c l = [(c_loop o, FEstablished c)]
  | Up => entry = Some c /\ queued c l = []
  | Down => (entry = Some c /\ queued c l = [(loop_ s, FRemove c)]) \/
            (entry = None /\ queued c l = [(c_loop o, FDestroyed c)])
  | Gone => entry = None /\ queued c l = []
  end.

Record winv (s : Server) (w : World) : Prop := {
  wi_server : server w = Some s;
  wi_pool : pool_ok (threadPool_ s) /\ EventLoopThreadPool.started_ (threadPool_ s) = true /\ started_ s = 1;
  wi_next : 1 <= nextConnId_ s <= 2 ^ 31 - 1;
  wi_ids : forall c o, conns w !! c = Some o ->
    exists id, 1 <= id < nextConnId_ s /\ c_name o = name_at (ipPort_ s) (name_ s) id;
  wi_names : forall c1 c2 o1 o2, conns w !! c1 = Some o1 -> conns w !! c2 = Some o2 ->
    c_name o1 = c_name o2 -> c1 = c2;
  wi_map : forall n c, connections_ s !! n = Some c -> exists o, conns w !! c = Some o /\ c_name o = n;
  wi_conns : forall c o, conns w !! c = Some o -> conn_ok s (pending w) c o;
  wi_pending : forall x, x ∈ pending w -> exists c, conn_of (snd x) = Some c /\ is_Some (conns w !! c);
}.

Lemma queue_app c l1 l2 : queued c (l1 ++ l2) = queued c l1 ++ queued c l2.
Proof. apply filter_app. Qed.

Lemma queue_one c x : queued c [x] = if decide (conn_of (snd x) = Some c) then [x] else [].
Proof. unfold queued. rewrite filter_cons. by destruct (decide _). Qed.

Lemma queued_none (cs : gmap Z Conn) l c :
  (forall x, x ∈ l -> exists c, conn_of (snd x) = Some c /\ is_Some (cs !! c)) -> cs !! c = None -> queued c l = [].
Proof.
  intros Hl Hc. unfold queued. apply filter_none. intros x Hx E. destruct (Hl x Hx) as (c' & E' & [? ?]). congruence.
Qed.

Lemma pop_split loop l f rest :
  pop loop l = Some (f, rest) -> exists l1 l2, l = l1 ++ (loop, f) :: l2 /\ rest = l1 ++ l2.
Proof.
  revert f rest; induction l as [|[lp g] l IH]; intros f rest; simpl; [done|].
  destruct (Z.eqb_spec lp loop) as [->|].
  - intros [= -> ->]. by exists [], rest.
  - destruct (pop loop l) as [[g' r']|]; [|done]. intros [= -> <-].
    destruct (IH _ _ eq_refl) as (l1 & l2 & -> & ->). by exists ((lp, g) :: l1), l2.
Qed.

Lemma name_at_inj ipPort name i j :
  zlen ipPort <= 51 -> 0 <= i < 2 ^ 31 -> 0 <= j < 2 ^ 31 -> name_at ipPort name i = name_at ipPort name j -> i = j.
Proof.
  intros Hip Hi Hj. unfold name_at, snprintf.
  assert (Hlen : forall n, 0 <= n < 2 ^ 31 -> zlen (dec n) <= 10).
  { intros n Hn. unfold dec. rewrite (proj2 (Z.ltb_ge _ _)) by lia. apply dec_nonneg_length; lia. }
  pose proof (Hlen i Hi). pose proof (Hlen j Hj). pose proof (zlen_nonneg ipPort).
  rewrite !ztake_all; rewrite ?zlen_app; change (zlen (lit "-")) with 1; change (zlen (lit "#")) with 1; try lia.
  intros E. apply app_inv_head in E. apply app_inv_head in E. apply app_inv_head in E. apply app_inv_head in E. by apply dec_inj.
Qed.

(** One connection changes: its object, its entry in the map and its functors. *)
Lemma winv_change s s' w w' c o' :
  winv s w ->
  server w' = Some s' -> conns w' = <[c := o']> (conns w) ->
  loop_ s' = loop_ s -> ipPort_ s' = ipPort_ s -> name_ s' = name_ s -> started_ s' = 1 ->
  pool_ok (threadPool_ s') -> EventLoopThreadPool.started_ (threadPool_ s') = true ->
  nextConnId_ s <= nextConnId_ s' <= 2 ^ 31 - 1 ->
  (exists id, 1 <= id < nextConnId_ s' /\ c_name o' = name_at (ipPort_ s) (name_ s) id) ->
  (forall c2 o2, c2 <> c -> conns w !! c2 = Some o2 -> c_name o2 <> c_name o') ->
  (forall n, n <> c_name o' -> connections_ s' !! n = connections_ s !! n) ->
  (connections_ s' !! c_name o' = Some c \/ connections_ s' !! c_name o' = None) ->
  (forall n, connections_ s !! n = Some c -> n = c_name o') ->
  (forall c2, c2 <> c -> queued c2 (pending w') = queued c2 (pending w)) ->
  (forall x, x ∈ pending w' -> x ∈ pending w \/ conn_of (snd x) = Some c) ->
  conn_ok s' (pending w') c o' ->
  winv s' w'.
Proof.
  intros [_ Hpool Hnext Hids Hnm Hmap Hcs Hp] E1 E2 El Ei En Est Hpo Hps Hn Hid Hother Hmap' Hentry Hmine Hq Hpin Hok.
  split; try done; rewrite ?E2.
  - lia.
  - intros c2 o2. destruct (decide (c2 = c)) as [->|Hne].
    + rewrite lookup_insert_eq. intros [= <-]. by rewrite Ei, En.
    + rewrite lookup_insert_ne by done. intros H2. destruct (Hids _ _ H2) as (id & ? & ->).
      exists id. rewrite Ei, En. split; [lia|done].
  - intros c1 c2 o1 o2 H1 H2 E. apply lookup_insert_Some in H1 as [[<- <-]|[N1 H1]];
      apply lookup_insert_Some in H2 as [[<- <-]|[N2 H2]]; [done|..].
    + by destruct (Hother c2 o2).
    + by destruct (Hother c1 o1).
    + by eapply Hnm.
  - intros n c2 H2. destruct (decide (n = c_name o')) as [->|Hne].
    + destruct Hentry as [E|E]; rewrite E in H2; [|done]. injection H2 as <-. exists o'. by rewrite lookup_insert_eq.
    + rewrite Hmap' in H2 by done. destruct (Hmap _ _ H2) as (o2 & Ho2 & Hn2).
      assert (c2 <> c) by (intros ->; apply Hne; by apply Hmine). exists o2. by rewrite lookup_insert_ne.
  - intros c2 o2. destruct (decide (c2 = c)) as [->|Hne]; [rewrite lookup_insert_eq; by intros [= <-]|].
    rewrite lookup_insert_ne by done. intros H2. pose proof (Hcs _ _ H2) as Hc2. unfold conn_ok in *.
    rewrite (Hq c2 Hne), El, (Hmap' (c_name o2)) by (by eapply Hother). done.
  - intros x [Hx|Hx]%Hpin.
    + destruct (Hp x Hx) as (c2 & Hc2 & Hs2). exists c2. split; [done|].
      destruct (decide (c2 = c)) as [->|]; [rewrite lookup_insert_eq; eauto|by rewrite lookup_insert_ne].
    + exists c. split; [done|]. rewrite lookup_insert_eq. eauto.
Qed.

(** The same, for a connection that exists and a server that keeps its pool. *)
Lemma winv_conn s w c o lf m l' :
  winv s w -> conns w !! c = Some o ->
  (forall n, n <> c_name o -> m !! n = connections_ s !! n) ->
  (m !! c_name o = Some c \/ m !! c_name o = None) ->
  (forall c2, c2 <> c -> queued c2 l' = queued c2 (pending w)) ->
  (forall x, x ∈ l' -> x ∈ pending w \/ conn_of (snd x) = Some c) ->
  conn_ok (with_connections m s) l' c (set_life lf o) ->
  winv (with_connections m s) (mkWorld (Some (with_connections m s)) (<[c := set_life lf o]> (conns w)) l').
Proof.
  intros Hw Hc Hm He Hq Hp Hok. destruct (wi_pool _ _ Hw) as (? & ? & ?). pose proof (wi_next _ _ Hw).
  eapply (winv_change s _ w); try done; simpl.
  - lia.
  - apply (wi_ids _ _ Hw _ _ Hc).
  - intros c2 o2 Hne Hc2 E. apply Hne. by eapply (wi_names _ _ Hw).
  - intros n Hn. destruct (wi_map _ _ Hw _ _ Hn) as (o2 & Ho2 & <-). congruence.
Qed.

Lemma with_connections_same s : with_connections (connections_ s) s = s.
Proof. by destruct s. Qed.

(** A functor of connection [c] is taken off the queue. *)
Lemma pop_queued loop l f rest c :
  pop loop l = Some (f, rest) -> conn_of f = Some c ->
  (forall c2, c2 <> c -> queued c2 rest = queued c2 l) /\ (forall x, x ∈ rest -> x ∈ l) /\
  forall y, queued c l = [y] -> y = (loop, f) /\ queued c rest = [].
Proof.
  intros Hp Hf. destruct (pop_split _ _ _ _ Hp) as (l1 & l2 & -> & ->). split; [|split].
  - intros c2 Hne. rewrite !queue_app. f_equal. unfold queued at 2. rewrite filter_cons_False; [done|simpl; congruence].
  - intros x. rewrite !elem_of_app, elem_of_cons. tauto.
  - intros y. rewrite !queue_app. unfold queued at 2. rewrite filter_cons_True by done. fold (queued c l2).
    destruct (queued c l1) as [|z r]; simpl.
    + by intros [= <- ->].
    + intros [= <- E]. by destruct r.
Qed.

Lemma functor_ok s w loop f rest :
  winv s w -> pop loop (pending w) = Some (f, rest) ->
  exists w' s', exec f (mkWorld (server w) (conns w) rest) = Ok w' /\ winv s' w' /\ nextConnId_ s' = nextConnId_ s /\
    ipPort_ s' = ipPort_ s /\ dom (conns w') = dom (conns w).
Proof.
  intros Hw Hpop. destruct (pop_split _ _ _ _ Hpop) as (l1 & l2 & El & _).
  assert (Hin : (loop, f) ∈ pending w) by (rewrite El; apply elem_of_app; right; left).
  destruct (wi_pending _ _ Hw _ Hin) as (c & Hf & [o Ho]). simpl in Hf.
  destruct (pop_queued _ _ _ _ _ Hpop Hf) as (Hother & Hsub & Hmine).
  pose proof (wi_conns _ _ Hw _ _ Ho) as Hok.
  assert (Hinq : (loop, f) ∈ queued c (pending w)) by (by apply list_elem_of_filter).
  assert (Hcase : exists y, queued c (pending w) = [y]).
  { unfold conn_ok in Hok. destruct (c_life o); try (destruct Hok as [_ E]; rewrite E in *; by eauto using not_elem_of_nil).
    - destruct Hok as [_ E]. rewrite E in Hinq. by apply not_elem_of_nil in Hinq.
    - destruct Hok as [[_ E]|[_ E]]; rewrite E; eauto.
    - destruct Hok as [_ E]. rewrite E in Hinq. by apply not_elem_of_nil in Hinq. }
  destruct Hcase as (y & Hy). destruct (Hmine y Hy) as [-> Hrest]. unfold conn_ok in Hok. rewrite Hy in Hok.
  assert (Hdom : forall lf, dom (<[c := set_life lf o]> (conns w)) = dom (conns w)).
  { intros lf. rewrite dom_insert_L. apply elem_of_dom_2 in Ho. set_solver. }
  pose proof (wi_server _ _ Hw) as Hsv.
  destruct f as [c'|c'|c'|]; simpl in Hf; simplify_eq.
  - destruct (c_life o) eqn:Elf; try (destruct Hok as [_ E]; by simplify_eq); [|destruct Hok as [[_ E]|[_ E]]; by simplify_eq].
    destruct Hok as [Hentry _]. cbn [exec]. unfold connectEstablished, object. simpl. rewrite Ho. simpl. rewrite Elf. simpl.
    eexists _, s. split; [done|]. split; [|split_and!; try done; apply Hdom].
    unfold with_conn. simpl. rewrite Hsv. pose proof (winv_conn s w c o Up (connections_ s) rest Hw Ho) as Hwc.
    rewrite with_connections_same in Hwc. apply Hwc; auto. unfold conn_ok. simpl. by rewrite Hrest.
  - destruct (c_life o) eqn:Elf; try (destruct Hok as [_ E]; by simplify_eq).
    destruct Hok as [[Hentry _]|[_ E]]; [|by simplify_eq].
    cbn [exec]. unfold removeConnectionInLoop, this, object. simpl. rewrite Hsv, Ho. simpl.
    rewrite Hentry. simpl. eexists _, (with_connections (delete (c_name o) (connections_ s)) s). split; [done|].
    split; [|split_and!; done]. unfold enqueue, with_server. simpl.
    replace (conns w) with (<[c := set_life Down o]> (conns w)).
    + apply winv_conn; try done.
      * intros n Hn. by rewrite lookup_delete_ne.
      * right. apply lookup_delete_eq.
      * intros c2 Hne. rewrite queue_app, queue_one. simpl. rewrite decide_False by congruence. rewrite app_nil_r. by apply Hother.
      * intros x [Hx|Hx]%elem_of_app; [left; by apply Hsub|]. apply list_elem_of_singleton in Hx as ->. by right.
      * unfold conn_ok. simpl. right. rewrite lookup_delete_eq. split; [done|].
        rewrite queue_app, queue_one, Hrest. simpl. by rewrite decide_True.
    + apply insert_id. rewrite Ho. f_equal. destruct o. simpl in *. by subst.
  - destruct (c_life o) eqn:Elf; try (destruct Hok as [_ E]; by simplify_eq).
    destruct Hok as [[_ E]|[Hentry _]]; [by simplify_eq|].
    cbn [exec]. unfold connectDestroyed, object. simpl. rewrite Ho. simpl. rewrite Elf. simpl.
    eexists _, s. split; [done|]. split; [|split_and!; try done; apply Hdom].
    unfold with_conn. simpl. rewrite Hsv. pose proof (winv_conn s w c o Gone (connections_ s) rest Hw Ho) as Hwc.
    rewrite with_connections_same in Hwc. apply Hwc; auto. unfold conn_ok. simpl. by rewrite Hrest.
Qed.

Lemma accept_ok s w c :
  winv s w -> zlen (ipPort_ s) <= 51 -> conns w !! c = None -> nextConnId_ s < 2 ^ 31 - 1 ->
  exists w' s', newConnection c w = Ok w' /\ winv s' w' /\ nextConnId_ s' = nextConnId_ s + 1 /\
    ipPort_ s' = ipPort_ s /\ dom (conns w') = {[c]} ∪ dom (conns w).
Proof.
  intros Hw Hip Hc Hid. destruct (wi_pool _ _ Hw) as (Hp1 & Hp2 & Hst). pose proof (wi_next _ _ Hw) as Hnext.
  unfold newConnection, this. rewrite (wi_server _ _ Hw). simpl.
  destruct (getNextLoop_total _ Hp1 Hp2) as (ioLoop & p & -> & Hp3 & Hp4). simpl.
  rewrite (proj2 (Z.eqb_neq _ _)) by lia. rewrite Hc.
  set (s1 := mkServer _ _ _ _ _ _ _ _).
  assert (Hname : connName s = name_at (ipPort_ s) (name_ s) (nextConnId_ s)) by done.
  assert (Hfresh : forall c2 o2, c2 <> c -> conns w !! c2 = Some o2 -> c_name o2 <> connName s).
  { intros c2 o2 _ H2 E. destruct (wi_ids _ _ Hw _ _ H2) as (id & Hr & E2). rewrite E2, Hname in E.
    apply name_at_inj in E; [lia|done|lia|lia]. }
  assert (Hno : queued c (pending w) = []) by (eapply queued_none; [apply (wi_pending _ _ Hw)|done]).
  assert (Hgo : forall lf l', (forall c2, c2 <> c -> queued c2 l' = queued c2 (pending w)) ->
    (forall x, x ∈ l' -> x ∈ pending w \/ conn_of (snd x) = Some c) ->
    conn_ok s1 l' c (mkConn (connName s) ioLoop lf) ->
    winv s1 (mkWorld (Some s1) (<[c := mkConn (connName s) ioLoop lf]> (conns w)) l')).
  { intros lf l' Hq Hpin Hok.
    eapply (winv_change s s1 w _ c (mkConn (connName s) ioLoop lf)); try done; simpl.
    - lia.
    - exists (nextConnId_ s). split; [lia|done].
    - intros n Hn. by rewrite lookup_insert_ne.
    - left. apply lookup_insert_eq.
    - intros n Hn. destruct (wi_map _ _ Hw _ _ Hn) as (o2 & Ho2 & _). congruence. }
  unfold runInLoop. destruct (Z.eqb_spec (loop_ s) ioLoop) as [He|He].
  - cbn [exec]. unfold connectEstablished, object. simpl. rewrite lookup_insert_eq. simpl.
    eexists _, s1. split; [done|]. split; [|split_and!; try done; simpl; rewrite !dom_insert_L; set_solver].
    unfold with_conn. simpl. rewrite insert_insert_eq. apply Hgo; auto.
    unfold conn_ok. simpl. by rewrite lookup_insert_eq.
  - eexists _, s1. split; [done|]. split; [|split_and!; try done; simpl; by rewrite dom_insert_L].
    apply Hgo.
    + intros c2 Hne. simpl. rewrite queue_app, queue_one. simpl. rewrite decide_False by congruence. by rewrite app_nil_r.
    + intros x [Hx|Hx]%elem_of_app; [by left|]. apply list_elem_of_singleton in Hx as ->. by right.
    + unfold conn_ok. simpl. rewrite lookup_insert_eq. split; [done|].
      rewrite queue_app, queue_one, Hno. simpl. by rewrite decide_True.
Qed.

Lemma close_ok s w c o :
  winv s w -> conns w !! c = Some o ->
  exists w' s', handleClose c w = Ok w' /\ winv s' w' /\ nextConnId_ s' = nextConnId_ s /\
    ipPort_ s' = ipPort_ s /\ dom (conns w') = dom (conns w).
Proof.
  intros Hw Ho. unfold handleClose, object. rewrite Ho. simpl. case_bool_decide as Hup; [|eauto 10].
  pose proof (wi_conns _ _ Hw _ _ Ho) as Hok. unfold conn_ok in Hok. rewrite Hup in Hok. destruct Hok as [Hentry Hq].
  assert (Hdom : forall lf, dom (<[c := set_life lf o]> (conns w)) = dom (conns w)).
  { intros lf. rewrite dom_insert_L. apply elem_of_dom_2 in Ho. set_solver. }
  unfold removeConnection, this. simpl. rewrite (wi_server _ _ Hw). simpl. unfold runInLoop.
  destruct (Z.eqb_spec (c_loop o) (loop_ s)) as [He|He].
  - cbn [exec]. unfold removeConnectionInLoop, this, object. simpl. rewrite (wi_server _ _ Hw), lookup_insert_eq. simpl.
    rewrite Hentry. simpl. eexists _, (with_connections (delete (c_name o) (connections_ s)) s). split; [done|].
    split; [|split_and!; try done; apply Hdom]. unfold enqueue, with_server. simpl.
    apply winv_conn; try done.
    + intros n Hn. by rewrite lookup_delete_ne.
    + right. apply lookup_delete_eq.
    + intros c2 Hne. rewrite queue_app, queue_one. simpl. rewrite decide_False by congruence. by rewrite app_nil_r.
    + intros x [Hx|Hx]%elem_of_app; [by left|]. apply list_elem_of_singleton in Hx as ->. by right.
    + unfold conn_ok. simpl. right. rewrite lookup_delete_eq. split; [done|].
      rewrite queue_app, queue_one, Hq. simpl. by rewrite decide_True.
  - eexists _, s. split; [done|]. split; [|split_and!; try done; apply Hdom].
    unfold enqueue, with_conn. simpl. rewrite (wi_server _ _ Hw).
    pose proof (winv_conn s w c o Down (connections_ s) (pending w ++ [(loop_ s, FRemove c)]) Hw Ho) as Hwc.
    rewrite with_connections_same in Hwc. apply Hwc; auto.
    + intros c2 Hne. rewrite queue_app, queue_one. simpl. rewrite decide_False by congruence. by rewrite app_nil_r.
    + intros x [Hx|Hx]%elem_of_app; [by left|]. apply list_elem_of_singleton in Hx as ->. by right.
    + unfold conn_ok. simpl. left. split; [done|]. rewrite queue_app, queue_one, Hq. simpl. by rewrite decide_True.
Qed.

Definition accepts (l : list action) : list Z := omap (fun a => match a with Accept c => Some c | _ => None end) l.

Lemma run_ok l : forall s w,
  winv s w -> zlen (ipPort_ s) <= 51 -> NoDup (accepts l) -> (forall c, c ∈ accepts l -> conns w !! c = None) ->
  nextConnId_ s + zlen (accepts l) <= 2 ^ 31 - 1 -> DestroyServer ∉ l ->
  exists w' s', foldM step w l = Ok w' /\ winv s' w' /\ dom (conns w') = list_to_set (accepts l) ∪ dom (conns w).
Proof.
  induction l as [|a l IH]; intros s w Hw Hip Hnd Hnew Hlen Hd.
  { exists w, s. split; [done|]. split; [done|]. simpl. set_solver. }
  apply not_elem_of_cons in Hd as [Hna Hd]. simpl.
  assert (Hsame : forall w1 s1, winv s1 w1 -> nextConnId_ s1 = nextConnId_ s -> ipPort_ s1 = ipPort_ s ->
    dom (conns w1) = dom (conns w) -> accepts (a :: l) = accepts l ->
    exists w' s', foldM step w1 l = Ok w' /\ winv s' w' /\ dom (conns w') = list_to_set (accepts (a :: l)) ∪ dom (conns w)).
  { intros w1 s1 H1 E1 E2 E3 E4. rewrite E4 in *. rewrite <- E3. apply (IH s1); try congruence.
    intros c Hc. apply not_elem_of_dom. rewrite E3. apply not_elem_of_dom. by apply Hnew. }
  destruct a as [c|c|loop|cb addr|]; [..|done]; cbn [step].
  - simpl in Hnd, Hnew, Hlen. rewrite zlen_cons in Hlen. pose proof (zlen_nonneg (accepts l)).
    apply NoDup_cons in Hnd as [Hc Hnd].
    destruct (accept_ok s w c Hw Hip) as (w1 & s1 & -> & H1 & E1 & E2 & E3); [apply Hnew; left|lia|]. simpl.
    destruct (IH s1 w1 H1) as (w' & s' & Hr & Hw' & Hdom); try done.
    + by rewrite E2.
    + intros c2 Hc2. apply not_elem_of_dom. rewrite E3, not_elem_of_union, not_elem_of_singleton.
      split; [by intros ->|]. apply not_elem_of_dom, Hnew. by right.
    + lia.
    + exists w', s'. split; [done|]. split; [done|]. rewrite Hdom, E3. simpl. set_solver.
  - destruct (conns w !! c) as [o|] eqn:Ho; [|simpl; by apply (Hsame w s)].
    destruct (close_ok s w c o Hw Ho) as (w1 & s1 & -> & H1 & E1 & E2 & E3). simpl. by apply (Hsame w1 s1).
  - destruct (pop loop (pending w)) as [[f rest]|] eqn:Hpop; [|simpl; by apply (Hsame w s)].
    destruct (functor_ok s w loop f rest Hw Hpop) as (w1 & s1 & -> & H1 & E1 & E2 & E3). simpl. by apply (Hsame w1 s1).
  - unfold this. rewrite (wi_server _ _ Hw). simpl. unfold start, this. rewrite (wi_server _ _ Hw). simpl.
    destruct (wi_pool _ _ Hw) as (Hp1 & Hp2 & Hst). rewrite Hst. simpl.
    apply (Hsame _ s); try done. unfold with_server.
    assert (Es : mkServer (loop_ s) (ipPort_ s) (name_ s) (listening s) (threadPool_ s) 1 (nextConnId_ s) (connections_ s) = s)
      by (rewrite <- Hst; by destruct s).
    rewrite Es. destruct Hw. by split.
Qed.

Lemma serving_ok loop ipPort name n cb addr :
  0 <= n < 2 ^ 31 -> exists s w, serving loop ipPort name n cb addr = Ok w /\ winv s w /\
    ipPort_ s = ipPort /\ nextConnId_ s = 1 /\ conns w = ∅.
Proof.
  intros Hn. unfold serving, setThreadNum. rewrite (proj2 (Z.leb_le _ _)) by lia. simpl. unfold start, runInLoop. simpl.
  rewrite Z.eqb_refl. simpl. unfold listen, with_server, with_pool. simpl. set (sv := mkServer _ _ _ _ _ _ _ _).
  exists sv, (mkWorld (Some sv) ∅ []). split; [done|]. split; [|done].
  split; simpl; try done. 2: set_solver.
  pose proof (start_pool_ok loop n cb addr) as Hs. simpl in Hs. destruct (Hs _ Hn eq_refl) as (? & _ & _ & _ & _ & ?).
  done.
Qed.

(** C6: Whatever the interleaving of accepted connections, closed connections and
    the loops' functors, a running server fails no assertion and touches no dead
    object; connection names are unique; and once every queued functor has run,
    the server's map holds exactly the connections that are up, under their
    names, while every other connection has left it and been destroyed. *)
Theorem server_safe loop ipPort name n cb addr l w0
  (Hip : zlen ipPort <= 51) (Hn : 0 <= n < 2 ^ 31) (Hserving : serving loop ipPort name n cb addr = Ok w0)
  (Hfresh : NoDup (accepts l)) (Hcount : zlen (accepts l) <= 2 ^ 31 - 2) (Hlive : DestroyServer ∉ l) :
  exists w s, foldM step w0 l = Ok w /\ server w = Some s /\
    dom (conns w) = list_to_set (accepts l) /\
    (forall c1 c2 o1 o2, conns w !! c1 = Some o1 -> conns w !! c2 = Some o2 -> c_name o1 = c_name o2 -> c1 = c2) /\
    (pending w = [] ->
      (forall c o, conns w !! c = Some o ->
         (c_life o = Up /\ connections_ s !! c_name o = Some c) \/ (c_life o = Gone /\ connections_ s !! c_name o = None)) /\
      (forall nm c, connections_ s !! nm = Some c -> exists o, conns w !! c = Some o /\ c_name o = nm /\ c_life o = Up)).
Proof.
  destruct (serving_ok loop ipPort name n cb addr Hn) as (s0 & w1 & E & Hw0 & Eip & Eid & Ec).
  rewrite E in Hserving. injection Hserving as <-.
  destruct (run_ok l s0 w1 Hw0) as (w & s & Hr & Hw & Hdom); [by rewrite Eip|done| |lia|done|].
  { intros c _. by rewrite Ec. }
  exists w, s. split; [done|]. split; [apply Hw|]. split; [rewrite Hdom, Ec; set_solver|]. split; [apply Hw|].
  intros Hq. assert (Hcs : forall c o, conns w !! c = Some o ->
    (c_life o = Up /\ connections_ s !! c_name o = Some c) \/ (c_life o = Gone /\ connections_ s !! c_name o = None)).
  { intros c o Ho. pose proof (wi_conns _ _ Hw _ _ Ho) as Hok. unfold conn_ok in Hok. rewrite Hq in Hok.
    destruct (c_life o); [destruct Hok as [_ ?]; done|naive_solver|destruct Hok as [[_ ?]|[_ ?]]; done|naive_solver]. }
  split; [done|]. intros nm c Hm. destruct (wi_map _ _ Hw _ _ Hm) as (o & Ho & <-).
  exists o. destruct (Hcs c o Ho) as [[? _]|[_ ?]]; [done|congruence].
Qed.

(** Two io loops; two connections, the first one closes. *)
Lemma server_safe_witness :
  exists w0 w s, serving 1 (lit "0.0.0.0:80") (lit "srv") 2 false (fun i => 10 + Z.of_nat i) = Ok w0 /\
    foldM step w0 [Accept 100; Accept 200; RunFunctor 10; RunFunctor 11; Close 100; RunFunctor 1; RunFunctor 10] = Ok w /\
    server w = Some s /\ connections_ s !! lit "srv-0.0.0.0:80#2" = Some 200 /\ connections_ s !! lit "srv-0.0.0.0:80#1" = None.
Proof.
  set (l := [Accept 100; Accept 200; RunFunctor 10; RunFunctor 11; Close 100; RunFunctor 1; RunFunctor 10]).
  destruct (serving 1 (lit "0.0.0.0:80") (lit "srv") 2 false (fun i => 10 + Z.of_nat i)) as [w0|] eqn:E; [|vm_compute in E; discriminate].
  destruct (server_safe 1 (lit "0.0.0.0:80") (lit "srv") 2 false (fun i => 10 + Z.of_nat i) l w0) as (w & s & Hr & Hs & _);
    [vm_compute; done|lia|exact E|by apply (bool_decide_unpack _); vm_compute|done| |].
  - intros Hin. repeat (apply elem_of_cons in Hin as [Hin|Hin]; [discriminate|]). by apply not_elem_of_nil in Hin.
  - exists w0, w, s. split; [exact eq_refl|]. split; [exact Hr|]. split; [exact Hs|].
    assert (Hp : (w0 ← serving 1 (lit "0.0.0.0:80") (lit "srv") 2 false (fun i => 10 + Z.of_nat i); w ← foldM step w0 l;
        Ok ((fun s => (connections_ s !! lit "srv-0.0.0.0:80#2", connections_ s !! lit "srv-0.0.0.0:80#1")) <$> server w)) =
      Ok (Some (Some 200, None))) by (vm_compute; reflexivity).
    rewrite E in Hp. cbn [mbind outcome_bind] in Hp. rewrite Hr in Hp. cbn [mbind outcome_bind] in Hp.
    injection Hp as Hp. rewrite Hs in Hp. injection Hp as Hp1 Hp2. split; [exact Hp1|exact Hp2].
Defined.

(** The server must outlive its connections' loops: a connection in an io
    loop that goes down just before the server is destroyed leaves a functor
    bound to the dead server, and one that goes down afterwards calls it. *)
Theorem server_destroyed_too_early :
  let world := serving 1 (lit "0.0.0.0:80") (lit "srv") 1 false (fun _ => 10) in
  (w ← world; foldM step w [Accept 100; RunFunctor 10; Close 100; DestroyServer; RunFunctor 1]) = Fault UndefinedBehaviour /\
  (w ← world; foldM step w [Accept 100; RunFunctor 10; DestroyServer; Close 100]) = Fault UndefinedBehaviour.
Proof. split; by vm_compute. Qed.

End TcpServer.
