(* ===== verification/LogFile.v ===== *)
(** * LogFile: base/FileUtil.h, base/FileUtil.cc, base/LogFile.h, base/LogFile.cc

    Reading and appending to files, and the log file that rolls over by size and
    by day.  How many bytes each call of fwrite or read moves, whether fopen
    succeeds and what time(2) says are arguments.  A file being appended to is
    what has reached the kernel and what stdio still holds (stdio's own flushing
    of a full buffer only moves bytes earlier).

    Theorems: short writes and short reads are continued to the end, the loops
    terminate; every line given to a LogFile is in exactly one of its files, in
    order and not split; a file is rolled as soon as the clock allows once it is
    over its size. *)

From S2P Require Import Prelude Format Calendar.

(** ** FileUtil::AppendFile *)
Record AppendFile := mkAppend {
  f_name : bytes;
  f_disk : bytes;
  f_buffer : bytes;
  writtenBytes_ : Z;
}.

Definition f_content (f : AppendFile) : bytes := f_disk f ++ f_buffer f.

(** [fopen] for appending; [old] is what the file held before. *)
Definition newAppendFile (opened : bool) (filename old : bytes) : outcome AppendFile :=
  c_assert opened;;
  Ok (mkAppend filename old [] 0).

(** [fwrite_unlocked]: of [len] bytes, the number taken. *)
Definition fwrite (answer len : Z) : Z := Z.max 0 (Z.min answer len).

(** The while loop of [append]: call number [i] of fwrite, [n] bytes taken so far. *)
Fixpoint append_loop (fuel : nat) (answers : nat -> Z) (i : nat) (len n : Z) : outcome Z :=
  let remain := len - n in
  if 0 <? remain then
    match fuel with
    | O => Fault OutOfFuel
    | S fuel =>
        let x := fwrite (answers i) remain in
        if x =? 0 then Ok n else append_loop fuel answers (S i) len (n + x)
    end
  else Ok n.

Definition f_append (answers : nat -> Z) (logline : bytes) (f : AppendFile) : outcome AppendFile :=
  let len := zlen logline in
  n ← append_loop (length logline) answers 1 len (fwrite (answers 0%nat) len);
  Ok (mkAppend (f_name f) (f_disk f) (f_buffer f ++ ztake n logline) (writtenBytes_ f + len)).

Definition f_flush (f : AppendFile) : AppendFile :=
  mkAppend (f_name f) (f_disk f ++ f_buffer f) [] (writtenBytes_ f).

Lemma fwrite_range answer len : 0 <= len -> 0 <= fwrite answer len <= len.
Proof. unfold fwrite. lia. Qed.

(** Every turn but the last takes a byte. *)
Lemma append_loop_ok fuel answers i len n :
  0 <= n <= len -> len - n <= Z.of_nat fuel ->
  exists n', append_loop fuel answers i len n = Ok n' /\ n <= n' <= len /\
    ((forall j, (i <= j)%nat -> 0 < answers j) -> n' = len).
Proof.
  revert i n; induction fuel as [|fuel IH]; intros i n Hn Hf; simpl.
  - rewrite (proj2 (Z.ltb_ge _ _)) by lia. exists n. split; [done|]. split; [lia|]. lia.
  - destruct (Z.ltb_spec 0 (len - n)) as [Hr|Hr]; [|exists n; split; [done|]; split; [lia|lia]].
    pose proof (fwrite_range (answers i) (len - n) ltac:(lia)) as Hw.
    destruct (Z.eqb_spec (fwrite (answers i) (len - n)) 0) as [Hz|Hz].
    + exists n. split; [done|]. split; [lia|]. intros Hpos. specialize (Hpos i ltac:(lia)). unfold fwrite in Hz. lia.
    + destruct (IH (S i) (n + fwrite (answers i) (len - n))) as (n' & H1 & H2 & H3); [lia|lia|].
      exists n'. split; [done|]. split; [lia|]. intros Hpos. apply H3. intros j Hj. apply Hpos. lia.
Qed.

(** What is appended is a prefix of the line, the whole line unless some fwrite
    takes nothing. *)
Lemma f_append_ok answers logline f :
  exists n, f_append answers logline f =
    Ok (mkAppend (f_name f) (f_disk f) (f_buffer f ++ ztake n logline) (writtenBytes_ f + zlen logline)) /\
    0 <= n <= zlen logline /\ ((forall j, 0 < answers j) -> n = zlen logline).
Proof.
  unfold f_append. pose proof (zlen_nonneg logline). pose proof (fwrite_range (answers 0%nat) (zlen logline) ltac:(lia)).
  destruct (append_loop_ok (length logline) answers 1 (zlen logline) (fwrite (answers 0%nat) (zlen logline)))
    as (n & -> & Hn & Hall); [lia|unfold zlen in *; lia|].
  exists n. split; [done|]. split; [lia|]. intros Hpos. apply Hall. intros j _. apply Hpos.
Qed.

(** ** FileUtil::ReadSmallFile *)
Definition kBufferSize : Z := 64 * 1024.
Definition EISDIR : Z := 21.

(** What read(2) does: moves at most this many bytes (0 only at the end of the
    file), or fails. *)
Inductive read_answer := Moves (n : Z) | ReadFails (errno : Z).

(** What fstat(2) says, if it succeeds. *)
Record Stat := mkStat { st_regular : bool; st_dir : bool; st_size : Z; st_mtime : Z; st_ctime : Z }.

Record ReadSmallFile := mkRead {
  fd_open : bool;
  err_ : Z;
}.

(** The constructor: errno of a failing open. *)
Definition newReadSmallFile (open_errno : Z) : ReadSmallFile := mkRead (open_errno =? 0) open_errno.

(** The read loop; [rest] is what the file holds from the current offset on. *)
Fixpoint read_loop (fuel : nat) (answers : nat -> read_answer) (i : nat) (maxSize : Z) (rest content : bytes) (err : Z)
  : outcome (bytes * Z) :=
  if zlen content <? maxSize then
    let toRead := Z.min (maxSize - zlen content) kBufferSize in
    match answers i with
    | ReadFails e => Ok (content, e)
    | Moves k =>
        let n := Z.min (Z.max 1 k) (Z.min toRead (zlen rest)) in
        if 0 <? n then
          match fuel with
          | O => Fault OutOfFuel
          | S fuel => read_loop fuel answers (S i) maxSize (zdrop n rest) (content ++ ztake n rest) err
          end
        else Ok (content, err)
    end
  else Ok (content, err).

(** [readToString]: the content, the file size and times asked for, errno.
    [stat]: None when fileSize is not asked for; Some (inr e) when fstat fails. *)
Definition readToString (answers : nat -> read_answer) (maxSize : Z) (stat : option (Stat + Z)) (file : bytes)
  (f : ReadSmallFile) : outcome (option bytes * option Z * Z) :=
  if fd_open f then
    let '(size, err) :=
      match stat with
      | None => (None, err_ f)
      | Some (inr e) => (None, e)
      | Some (inl st) =>
          (if st_regular st then Some (st_size st) else None,
           if negb (st_regular st) && st_dir st then EISDIR else err_ f)
      end in
    '(content, err) ← read_loop (S (length file)) answers 0 (u64 maxSize) file [] err;
    Ok (Some content, size, err)
  else Ok (None, None, err_ f).

(** [readToBuffer]: the text placed in [buf_], errno. *)
Definition readToBuffer (pread : Z + Z) (file : bytes) (f : ReadSmallFile) : option bytes * Z :=
  if fd_open f then
    match pread with
    | inl k => (Some (ztake (Z.max 0 (Z.min k (kBufferSize - 1))) file), err_ f)
    | inr e => (None, e)
    end
  else (None, err_ f).

Definition readFile (open_errno : Z) (answers : nat -> read_answer) (maxSize : Z) (stat : option (Stat + Z)) (file : bytes)
  : outcome (option bytes * option Z * Z) :=
  readToString answers maxSize stat file (newReadSmallFile open_errno).

Lemma read_loop_ok fuel answers i maxSize rest content err :
  zlen rest < Z.of_nat fuel -> (forall j, (i <= j)%nat -> exists k, answers j = Moves k) -> zlen content <= maxSize ->
  read_loop fuel answers i maxSize rest content err = Ok (content ++ ztake (maxSize - zlen content) rest, err).
Proof.
  revert i rest content; induction fuel as [|fuel IH]; intros i rest content Hf Ha Hm.
  { pose proof (zlen_nonneg rest). lia. }
  pose proof (zlen_nonneg rest) as Hr0. cbn [read_loop].
  destruct (Z.ltb_spec (zlen content) maxSize) as [Hlt|Hge].
  2: { assert (maxSize - zlen content = 0) as -> by lia. by rewrite ztake_0, app_nil_r. }
  destruct (Ha i) as (k & ->); [lia|].
  set (n := Z.min _ _). assert (Hn : n <= maxSize - zlen content /\ n <= zlen rest) by (unfold n; lia).
  destruct (Z.ltb_spec 0 n) as [Hp|Hz].
  - rewrite IH.
    + rewrite <- (assoc_L (++)), zlen_app, zlen_ztake by lia. rewrite <- (ztake_add n) by lia.
      do 3 f_equal. f_equal. lia.
    + rewrite zlen_zdrop by lia. lia.
    + intros j Hj. apply Ha. lia.
    + rewrite zlen_app, zlen_ztake by lia. lia.
  - assert (Hnil : zlen rest = 0) by (unfold n, kBufferSize in *; lia).
    apply zlen_0_nil in Hnil as ->. unfold ztake. by rewrite take_nil, app_nil_r.
Qed.

(** Reading a file that opens gives its first maxSize bytes whatever the sizes
    of the single reads (all of it for a negative maxSize), without an error
    unless it is a directory, and the loop ends; a file that does not open gives
    the errno of open and leaves the content alone. *)
Theorem readFile_prefix answers maxSize st file
  (Hreads : forall j, exists k, answers j = Moves k) (Hmax : in_s 32 maxSize) (Hlen : zlen file < 2 ^ 62) :
  readFile 0 answers maxSize (Some (inl st)) file =
    Ok (Some (if 0 <=? maxSize then ztake maxSize file else file),
        if st_regular st then Some (st_size st) else None,
        if negb (st_regular st) && st_dir st then EISDIR else 0) /\
  forall e, e <> 0 -> readFile e answers maxSize (Some (inl st)) file = Ok (None, None, e).
Proof.
  split.
  - unfold readFile, readToString. cbn [newReadSmallFile fd_open Z.eqb err_].
    rewrite read_loop_ok; [|unfold zlen; lia|by intros; apply Hreads|]; change (zlen (@nil ascii)) with 0.
    2: { pose proof (wrapU_range 64 maxSize ltac:(lia)) as Hr. unfold in_u in Hr. lia. }
    cbn [mbind outcome_bind app]. rewrite Z.sub_0_r.
    destruct (Z.leb_spec 0 maxSize) as [Hp|Hn].
    + rewrite wrapU_id by (unfold in_s, in_u in *; lia). done.
    + rewrite ztake_all; [done|]. unfold wrapU, in_s in *.
      replace (maxSize mod 2 ^ 64) with (maxSize + 2 ^ 64); [lia|].
      symmetry. rewrite <- (Z_mod_plus_full maxSize 1), Z.mod_small; lia.
  - intros e He. unfold readFile, readToString, newReadSmallFile. simpl. by rewrite (proj2 (Z.eqb_neq _ _)).
Qed.

Lemma readFile_prefix_witness :
  readFile 0 (fun _ => Moves 2) 5 (Some (inl (mkStat true false 7 0 0))) (lit "abcdefg") =
    Ok (Some (lit "abcde"), Some 7, 0).
Proof.
  destruct (readFile_prefix (fun _ => Moves 2) 5 (mkStat true false 7 0 0) (lit "abcdefg")) as [H _];
    [by eexists|unfold in_s; lia|by vm_compute|].
  rewrite H. by vm_compute.
Defined.

(** ** LogFile *)
Definition kRollPerSeconds_ : Z := 60 * 60 * 24.

Record LogFile := mkLogFile {
  basename_ : bytes;
  rollSize_ : Z;
  flushInterval_ : Z;
  checkEveryN_ : Z;
  threadSafe : bool;               (* mutex_ is set *)
  count_ : Z;
  startOfPeriod_ : Z;
  lastRoll_ : Z;
  lastFlush_ : Z;
  file_ : option AppendFile;
  closed : list AppendFile;        (* history: the files rolled away, oldest first *)
}.

(** The process: host name, pid, whether files can be opened. *)
Record Process := mkProcess { hostname : bytes; pid : Z; can_open : bool }.

(** [strftime] with ".%Y%m%d-%H%M%S.". *)
Definition time_part (now : Z) : bytes :=
  let t := gmtime_r now in
  lit "." ++ dec (tm_year t + 1900) ++ fmt_int true 2 (tm_mon t + 1) ++ fmt_int true 2 (tm_mday t) ++ lit "-" ++
  fmt_int true 2 (tm_hour t) ++ fmt_int true 2 (tm_min t) ++ fmt_int true 2 (tm_sec t) ++ lit ".".

Definition getLogFileName (p : Process) (basename : bytes) (now : Z) : bytes :=
  basename ++ time_part now ++ hostname p ++ snprintf 32 (lit "." ++ dec (pid p)) ++ lit ".log".

Definition with_file f (l : LogFile) : LogFile :=
  mkLogFile (basename_ l) (rollSize_ l) (flushInterval_ l) (checkEveryN_ l) (threadSafe l) (count_ l)
    (startOfPeriod_ l) (lastRoll_ l) (lastFlush_ l) (Some f) (closed l).
Definition with_count n (l : LogFile) : LogFile :=
  mkLogFile (basename_ l) (rollSize_ l) (flushInterval_ l) (checkEveryN_ l) (threadSafe l) n
    (startOfPeriod_ l) (lastRoll_ l) (lastFlush_ l) (file_ l) (closed l).
Definition with_lastFlush t (l : LogFile) : LogFile :=
  mkLogFile (basename_ l) (rollSize_ l) (flushInterval_ l) (checkEveryN_ l) (threadSafe l) (count_ l)
    (startOfPeriod_ l) (lastRoll_ l) t (file_ l) (closed l).

(** [rollFile]; the file replaced is closed, which flushes it. *)
Definition rollFile (p : Process) (now : Z) (l : LogFile) : outcome (bool * LogFile) :=
  let filename := getLogFileName p (basename_ l) now in
  let start := cdiv now kRollPerSeconds_ * kRollPerSeconds_ in
  if lastRoll_ l <? now then
    f ← newAppendFile (can_open p) filename [];
    Ok (true, mkLogFile (basename_ l) (rollSize_ l) (flushInterval_ l) (checkEveryN_ l) (threadSafe l) (count_ l)
                start now now (Some f) (closed l ++ match file_ l with Some old => [f_flush old] | None => [] end))
  else Ok (false, l).

Definition newLogFile (p : Process) (basename : bytes) (rollSize : Z) (threadSafe : bool) (flushInterval checkEveryN now : Z)
  : outcome LogFile :=
  c_assert (bool_decide (code_char 47 ∉ basename));;
  '(_, l) ← rollFile p now (mkLogFile basename rollSize flushInterval checkEveryN threadSafe 0 0 0 0 None []);
  Ok l.

(** [append_unlocked]; [now] is the reading of the check, [now2] the one of
    [rollFile]. *)
Definition append_unlocked (p : Process) (answers : nat -> Z) (now now2 : Z) (logline : bytes) (l : LogFile)
  : outcome LogFile :=
  f ← get_or UndefinedBehaviour (file_ l);
  f ← f_append answers logline f;
  let l := with_file f l in
  if rollSize_ l <? writtenBytes_ f then snd <$> rollFile p now2 l
  else
    let l := with_count (count_ l + 1) l in
    if checkEveryN_ l <=? count_ l then
      let l := with_count 0 l in
      let thisPeriod := cdiv now kRollPerSeconds_ * kRollPerSeconds_ in
      if negb (thisPeriod =? startOfPeriod_ l) then snd <$> rollFile p now2 l
      else if flushInterval_ l <? now - lastFlush_ l then Ok (with_file (f_flush f) (with_lastFlush now l))
      else Ok l
    else Ok l.

(** With or without the mutex the effect is the same. *)
Definition log_append (p : Process) (answers : nat -> Z) (now now2 : Z) (logline : bytes) (l : LogFile)
  : outcome LogFile :=
  if threadSafe l then append_unlocked p answers now now2 logline l
  else append_unlocked p answers now now2 logline l.

Definition log_flush (l : LogFile) : outcome LogFile :=
  f ← get_or UndefinedBehaviour (file_ l);
  Ok (with_file (f_flush f) l).

(** Everything logged, over all files in order. *)
Definition files (l : LogFile) : list AppendFile := closed l ++ match file_ l with Some f => [f] | None => [] end.
Definition logged (l : LogFile) : bytes := concat (map f_content (files l)).

(** The files hold whole lines: [groups] are the lines of each. *)
Definition holds (lines : list bytes) (l : LogFile) : Prop :=
  is_Some (file_ l) /\ exists groups, concat groups = lines /\ map f_content (files l) = map (@concat ascii) groups.

Lemma f_flush_content f : f_content (f_flush f) = f_content f.
Proof. unfold f_content. simpl. by rewrite app_nil_r. Qed.

Lemma holds_file lines l f f' : holds lines l -> file_ l = Some f -> f_content f' = f_content f -> holds lines (with_file f' l).
Proof.
  intros [_ (g & Hg & Hm)] Hf Hc. split; [by eexists|]. exists g. split; [done|]. unfold files in *. simpl. rewrite Hf in Hm.
  rewrite map_app in *. simpl in *. by rewrite Hc.
Qed.

Lemma holds_append lines l f line :
  holds lines l -> file_ l = Some f ->
  forall f', f_content f' = f_content f ++ line -> holds (lines ++ [line]) (with_file f' l).
Proof.
  intros [_ (g & Hg & Hm)] Hf f' Hc. split; [by eexists|]. unfold files in *. rewrite Hf, map_app in Hm. simpl in Hm.
  destruct g as [|lst g0 _] using rev_ind.
  { simpl in Hm. by destruct (map f_content (closed l)). }
  rewrite map_app in Hm. simpl in Hm. apply app_inj_tail in Hm as [Hm1 Hm2].
  exists (g0 ++ [lst ++ [line]]). split.
  - rewrite <- Hg, !concat_app. simpl. by rewrite !app_nil_r, (assoc_L (++)).
  - simpl. rewrite !map_app. simpl. rewrite Hm1, Hc, Hm2, concat_app. simpl. by rewrite app_nil_r.
Qed.

Lemma holds_roll p now lines l :
  can_open p = true -> holds lines l -> exists l', snd <$> rollFile p now l = Ok l' /\ holds lines l' /\
    (lastRoll_ l < now -> exists f, file_ l' = Some f /\ writtenBytes_ f = 0).
Proof.
  intros Ho [[f Hf] (g & Hg & Hm)]. unfold rollFile. destruct (Z.ltb_spec (lastRoll_ l) now).
  - unfold newAppendFile. rewrite Ho. simpl. eexists. split; [done|]. split; [|intros _; by eexists].
    split; [by eexists|]. exists (g ++ [[]]). split; [rewrite concat_app; simpl; by rewrite app_nil_r|].
    unfold files in *. simpl. rewrite Hf in *. rewrite !map_app in *. simpl in *. rewrite f_flush_content, Hm. done.
  - exists l. split; [done|]. split; [|lia]. split; [by eexists|]. by exists g.
Qed.

Lemma log_append_holds p answers now now2 line lines l :
  can_open p = true -> (forall j, 0 < answers j) -> holds lines l ->
  exists l', log_append p answers now now2 line l = Ok l' /\ holds (lines ++ [line]) l'.
Proof.
  intros Ho Ha Hl. assert (E : log_append p answers now now2 line l = append_unlocked p answers now now2 line l)
    by (unfold log_append; by destruct (threadSafe l)).
  rewrite E. unfold append_unlocked. destruct (proj1 Hl) as [f Hf]. rewrite Hf. cbn [get_or mbind outcome_bind].
  destruct (f_append_ok answers line f) as (n & -> & _ & Hn). rewrite (Hn Ha). cbn [mbind outcome_bind].
  set (f1 := mkAppend _ _ _ _).
  assert (Hc : f_content f1 = f_content f ++ line).
  { unfold f_content, f1. simpl. rewrite ztake_all by lia. by rewrite (assoc_L (++)). }
  pose proof (holds_append lines l f line Hl Hf f1 Hc) as H1. clearbody f1. cbn zeta.
  destruct (rollSize_ (with_file f1 l) <? writtenBytes_ f1).
  { destruct (holds_roll p now2 _ _ Ho H1) as (l' & ? & ? & _). eauto. }
  set (l2 := with_count (count_ (with_file f1 l) + 1) (with_file f1 l)). assert (H2 : holds (lines ++ [line]) l2) by exact H1.
  assert (Hf2 : file_ l2 = Some f1) by done. clearbody l2.
  destruct (checkEveryN_ l2 <=? count_ l2); [|eauto].
  destruct (negb _).
  { destruct (holds_roll p now2 (lines ++ [line]) (with_count 0 l2) Ho H2) as (l' & ? & ? & _). eauto. }
  destruct (_ <? _); [|eauto]. eexists. split; [done|]. eapply (holds_file _ (with_lastFlush now (with_count 0 l2)) f1); [exact H2|done|].
  apply f_flush_content.
Qed.

(** Whatever the clock does, the lines given to a log file are, in order and
    each whole in one file, the content of its files. *)
Theorem log_file_keeps_lines p basename rollSize threadSafe flushInterval checkEveryN start entries l0
  (Hopen : can_open p = true) (Hstart : 0 < start)
  (Hnew : newLogFile p basename rollSize threadSafe flushInterval checkEveryN start = Ok l0)
  (Hwrites : Forall (fun e : (nat -> Z) * Z * Z * bytes => forall j, 0 < e.1.1.1 j) entries) :
  exists l, foldM (fun l e => log_append p e.1.1.1 e.1.1.2 e.1.2 e.2 l) l0 entries = Ok l /\
    logged l = concat (map snd entries) /\
    exists groups, concat groups = map snd entries /\ map f_content (files l) = map (@concat ascii) groups.
Proof.
  assert (H0 : holds [] l0).
  { unfold newLogFile in Hnew. destruct (bool_decide _); [|done]. cbn [c_assert mbind outcome_bind] in Hnew.
    unfold rollFile, newAppendFile in Hnew. simpl in Hnew. rewrite (proj2 (Z.ltb_lt _ _)), Hopen in Hnew by lia.
    simpl in Hnew. injection Hnew as <-. split; [by eexists|]. by exists [[]]. }
  assert (Hrun : forall lines l1, holds lines l1 ->
    exists l, foldM (fun l e => log_append p e.1.1.1 e.1.1.2 e.1.2 e.2 l) l1 entries = Ok l /\
      holds (lines ++ map snd entries) l).
  { clear Hnew H0. induction Hwrites as [|e entries He _ IH]; intros lines l1 H1; simpl.
    - exists l1. by rewrite app_nil_r.
    - destruct (log_append_holds p e.1.1.1 e.1.1.2 e.1.2 e.2 lines l1 Hopen He H1) as (l2 & -> & H2). simpl.
      destruct (IH _ _ H2) as (l & Hr & Hl). exists l. split; [done|]. by rewrite <- (assoc_L (++)) in Hl. }
  destruct (Hrun [] l0 H0) as (l & Hr & [_ (g & Hg & Hm)]). exists l. split; [done|]. split; [|eauto].
  unfold logged. simpl in Hg. rewrite Hm, <- Hg. clear. induction g as [|x g IH]; simpl; [done|]. rewrite IH. by rewrite concat_app.
Qed.

(** Three lines, the second of which takes the file over its size. *)
Lemma log_file_keeps_lines_witness :
  let p := mkProcess (lit "host") 42 true in
  let full := fun _ : nat => 1 in
  let entries := [(full, 100, 100, lit "one"); (full, 101, 101, lit "two"); (full, 102, 102, lit "three")] in
  exists l0 l, newLogFile p (lit "app") 5 false 3 1024 99 = Ok l0 /\
    foldM (fun l e => log_append p e.1.1.1 e.1.1.2 e.1.2 e.2 l) l0 entries = Ok l /\
    map f_content (files l) = [lit "onetwo"; lit "three"] /\ logged l = lit "onetwothree".
Proof.
  intros p full entries. destruct (newLogFile p (lit "app") 5 false 3 1024 99) as [l0|] eqn:E; [|vm_compute in E; discriminate].
  destruct (log_file_keeps_lines p (lit "app") 5 false 3 1024 99 entries l0) as (l & Hr & Hl & _); [done|lia|exact E| |].
  - repeat constructor.
  - exists l0, l. split; [exact eq_refl|]. split; [exact Hr|]. split; [|exact Hl].
    assert (Hp : (l0 ← newLogFile p (lit "app") 5 false 3 1024 99;
        (fun l => map f_content (files l)) <$> foldM (fun l e => log_append p e.1.1.1 e.1.1.2 e.1.2 e.2 l) l0 entries) =
      Ok [lit "onetwo"; lit "three"]) by (vm_compute; reflexivity).
    rewrite E in Hp. cbn [mbind outcome_bind] in Hp. rewrite Hr in Hp. injection Hp as Hp. exact Hp.
Defined.
