(* ===== verification/AsyncLogging.v ===== *)
(** * AsyncLogging: base/AsyncLogging.h, base/AsyncLogging.cc

    The double-buffered logger: any thread appends lines to the current buffer
    under the mutex, a back-end thread takes the full buffers and the current
    one, and writes them to a LogFile.  The loop test of the back end, the locked
    part of its turn, the unlocked part, each append and stop() are atomic actions
    that interleave freely;
    the timed wait of the back end ends by itself, so its turn is always
    possible.  Buffers are those of LogStream.v, of any size (kLargeBuffer in the
    program).

    Theorems: no assertion of the back end fails whatever the interleaving; and
    as long as no more than 25 buffers pile up, what is in the log files followed
    by what is still in the buffers is every line appended, in order.  A run
    shows what stop() loses. *)

From S2P Require Import Prelude Timestamp Format LogStream LogFile.

(** Where the back end is: at the test of [running_], in the locked part (waiting
    for the mutex or for the condition), between the locked and the unlocked
    part, after the loop. *)
Inductive place := AtTop | Waiting | Swapped | Ended.

#[export] Instance place_eq_dec : EqDecision place.
Proof. solve_decision. Defined.

Section logging.
(** The size of a buffer. *)
Context (SIZE : Z).

Abbreviation BufferPtr := (option FixedBuffer).

Record AsyncLogging := mkAsync {
  running_ : bool;
  currentBuffer_ : BufferPtr;
  nextBuffer_ : BufferPtr;
  buffers_ : list FixedBuffer;
  (* the back end's variables *)
  at_ : place;
  newBuffer1 : BufferPtr;
  newBuffer2 : BufferPtr;
  buffersToWrite : list FixedBuffer;
  output : LogFile;
  (* history *)
  appended : list bytes;
  dropped : bool;               (* some turn found too many buffers *)
}.

Definition freshBuffer : FixedBuffer := newFixedBuffer SIZE.

(** Constructed and started: [threadFunc] has made its buffers and its file. *)
Definition started (output : LogFile) : AsyncLogging :=
  mkAsync true (Some (fb_bzero freshBuffer)) (Some (fb_bzero freshBuffer)) [] AtTop
    (Some (fb_bzero freshBuffer)) (Some (fb_bzero freshBuffer)) [] output [] false.

(** Dereferencing a moved-from pointer. *)
Definition buf (b : BufferPtr) : outcome FixedBuffer := get_or UndefinedBehaviour b.

Definition with_front cur next bufs (a : AsyncLogging) : AsyncLogging :=
  mkAsync (running_ a) cur next bufs (at_ a) (newBuffer1 a) (newBuffer2 a) (buffersToWrite a) (output a)
    (appended a) (dropped a).

(** [append]; the lines go to the history. *)
Definition async_append (logline : bytes) (a : AsyncLogging) : outcome AsyncLogging :=
  cur ← buf (currentBuffer_ a);
  a ← (if zlen logline <? avail cur then
         cur ← fb_append logline cur;
         Ok (with_front (Some cur) (nextBuffer_ a) (buffers_ a) a)
       else
         let bufs := buffers_ a ++ [cur] in
         let cur := match nextBuffer_ a with Some b => b | None => freshBuffer end in
         cur ← fb_append logline cur;
         Ok (with_front (Some cur) None bufs a));
  Ok (mkAsync (running_ a) (currentBuffer_ a) (nextBuffer_ a) (buffers_ a) (at_ a) (newBuffer1 a) (newBuffer2 a)
        (buffersToWrite a) (output a) (appended a ++ [logline]) (dropped a)).

Definition empty_ptr (b : BufferPtr) : bool := match b with Some b => fb_length b =? 0 | None => false end.

(** The loop test and the assertions of a turn of [threadFunc]. *)
Definition loop_test (a : AsyncLogging) : outcome AsyncLogging :=
  if negb (running_ a) then
    out ← log_flush (output a);
    Ok (mkAsync (running_ a) (currentBuffer_ a) (nextBuffer_ a) (buffers_ a) Ended (newBuffer1 a) (newBuffer2 a)
          (buffersToWrite a) out (appended a) (dropped a))
  else
    c_assert (empty_ptr (newBuffer1 a));;
    c_assert (empty_ptr (newBuffer2 a));;
    c_assert (bool_decide (buffersToWrite a = []));;
    Ok (mkAsync (running_ a) (currentBuffer_ a) (nextBuffer_ a) (buffers_ a) Waiting (newBuffer1 a) (newBuffer2 a)
          (buffersToWrite a) (output a) (appended a) (dropped a)).

(** The locked part, once the wait is over: the buffers change hands. *)
Definition swap_turn (a : AsyncLogging) : outcome AsyncLogging :=
  cur ← buf (currentBuffer_ a);
  let bufs := buffers_ a ++ [cur] in
  let '(next, new2) := match nextBuffer_ a with Some b => (Some b, newBuffer2 a) | None => (newBuffer2 a, None) end in
  Ok (mkAsync (running_ a) (newBuffer1 a) next (buffersToWrite a) Swapped None new2 bufs (output a) (appended a) (dropped a)).

(** Writing one buffer to the file. *)
Definition write_buffer (p : Process) (answers : nat -> Z) (now : Z) (out : LogFile) (b : FixedBuffer) : outcome LogFile :=
  log_append p answers now now (fb_text b) out.

(** [if (!newBuffer1) ...]: a spare buffer is taken from the back. *)
Definition refill (b : BufferPtr) (l : list FixedBuffer) : outcome (BufferPtr * list FixedBuffer) :=
  match b with
  | Some b => Ok (Some b, l)
  | None =>
      match last l with
      | None => Fault AssertFailed
      | Some x => Ok (Some (fb_reset x), removelast l)
      end
  end.

Definition drop_notice (when : Z) (n : Z) : bytes :=
  snprintf 256 (lit "Dropped log messages at " ++ toFormattedString true when ++ lit ", " ++ dec n ++ lit " larger buffers" ++ [lf]).

(** The unlocked part of a turn. *)
Definition write_turn (p : Process) (answers : nat -> Z) (now : Z) (a : AsyncLogging) : outcome AsyncLogging :=
  c_assert (bool_decide (buffersToWrite a <> []));;
  let many := 25 <? zlen (buffersToWrite a) in
  out ← (if many then log_append p answers now now (drop_notice (now * 1000000) (zlen (buffersToWrite a) - 2)) (output a)
         else Ok (output a));
  let bufs := if many then take 2 (buffersToWrite a) else buffersToWrite a in
  out ← foldM (write_buffer p answers now) out bufs;
  let bufs := take 2 bufs in
  '(new1, bufs) ← refill (newBuffer1 a) bufs;
  '(new2, bufs) ← refill (newBuffer2 a) bufs;
  out ← log_flush out;
  Ok (mkAsync (running_ a) (currentBuffer_ a) (nextBuffer_ a) (buffers_ a) AtTop new1 new2 [] out (appended a)
        (dropped a || many)).

Definition async_stop (a : AsyncLogging) : AsyncLogging :=
  mkAsync false (currentBuffer_ a) (nextBuffer_ a) (buffers_ a) (at_ a) (newBuffer1 a) (newBuffer2 a)
    (buffersToWrite a) (output a) (appended a) (dropped a).

Inductive action :=
| Append (logline : bytes)
| BackEnd (p : Process) (answers : nat -> Z) (now : Z)
| Stop.

(** The back end does what comes next in its loop. *)
Definition async_step (a : AsyncLogging) (e : action) : outcome AsyncLogging :=
  match e with
  | Append logline => async_append logline a
  | BackEnd p answers now =>
      match at_ a with
      | AtTop => loop_test a
      | Waiting => swap_turn a
      | Swapped => write_turn p answers now a
      | Ended => Ok a
      end
  | Stop => Ok (async_stop a)
  end.

(** What has been appended and not yet written, in order. *)
Definition unwritten (a : AsyncLogging) : bytes :=
  concat (map fb_text (buffersToWrite a)) ++ concat (map fb_text (buffers_ a)) ++
  match currentBuffer_ a with Some b => fb_text b | None => [] end.

(** ** The invariant *)
Context (HSIZE : 0 < SIZE).

Definition fb_ok (b : FixedBuffer) : Prop := fb_wf b /\ zlen (data_ b) = SIZE.
Definition fb_empty (b : FixedBuffer) : Prop := fb_ok b /\ cur_ b = 0.
Definition ptr_empty (b : BufferPtr) : Prop := exists x, b = Some x /\ fb_empty x.

(** A line that fits a buffer; a longer one is dropped by FixedBuffer::append. *)
Definition fits (line : bytes) : bool := zlen line <? SIZE.

Record ainv (a : AsyncLogging) : Prop := {
  ai_current : exists cur, currentBuffer_ a = Some cur /\ fb_ok cur;
  ai_next : ptr_empty (nextBuffer_ a) \/ (nextBuffer_ a = None /\ buffers_ a <> []);
  ai_buffers : Forall fb_ok (buffers_ a);
  ai_place : if decide (at_ a = Swapped)
    then newBuffer1 a = None /\ buffersToWrite a <> [] /\ Forall fb_ok (buffersToWrite a) /\
         (ptr_empty (newBuffer2 a) \/ (newBuffer2 a = None /\ 2 <= zlen (buffersToWrite a)))
    else ptr_empty (newBuffer1 a) /\ ptr_empty (newBuffer2 a) /\ buffersToWrite a = [];
  ai_lines : exists lines, holds lines (output a) /\
    (dropped a = false -> concat lines ++ unwritten a = concat (filter (fun x => fits x = true) (appended a)));
}.

Lemma fb_empty_text b : fb_empty b -> fb_text b = [].
Proof. intros [_ H]. unfold fb_text. by rewrite H, ztake_0. Qed.

Lemma new_empty : fb_empty freshBuffer /\ fb_empty (fb_bzero freshBuffer).
Proof.
  assert (E : zlen (data_ freshBuffer) = SIZE) by (apply zlen_replicate; lia).
  assert (E2 : zlen (data_ (fb_bzero freshBuffer)) = SIZE).
  { simpl. unfold zlen. rewrite length_replicate. exact E. }
  split; (split; [|done]); split; try done; unfold fb_wf; rewrite ?E, ?E2; simpl; lia.
Qed.

Lemma reset_empty b : fb_ok b -> fb_empty (fb_reset b).
Proof. intros [Hw Hs]. split; [|done]. split; [|done]. unfold fb_wf in *. simpl. lia. Qed.

Lemma fb_append_ok line b :
  fb_ok b -> exists b', fb_append line b = Ok b' /\ fb_ok b' /\
    fb_text b' = if zlen line <? avail b then fb_text b ++ line else fb_text b.
Proof.
  intros [Hw Hs]. destruct (fb_append_spec line b Hw) as (b' & H1 & H2 & H3 & H4).
  exists b'. split; [done|]. split; [|done]. split; [done|congruence].
Qed.

Lemma avail_empty b : fb_empty b -> avail b = SIZE.
Proof. intros [[_ H] Hc]. unfold avail. lia. Qed.

Lemma holds_logged lines l : holds lines l -> logged l = concat lines.
Proof.
  intros [_ (g & <- & Hm)]. unfold logged. rewrite Hm. clear. induction g as [|x g IH]; simpl; [done|].
  rewrite IH. by rewrite concat_app.
Qed.

Lemma flush_holds lines l : holds lines l -> exists l', log_flush l = Ok l' /\ holds lines l'.
Proof.
  intros Hl. destruct (proj1 Hl) as [f Hf]. unfold log_flush. rewrite Hf. simpl. eexists. split; [done|].
  eapply holds_file; [exact Hl|exact Hf|apply f_flush_content].
Qed.

Lemma ainv_append line a : ainv a -> exists a', async_append line a = Ok a' /\ ainv a'.
Proof.
  intros [(cur & Hc & Hok) Hn Hb Hp (lines & Hl & Hd)]. unfold async_append, buf. rewrite Hc. cbn [get_or mbind outcome_bind].
  assert (Hfilter : concat (filter (fun x => fits x = true) (appended a ++ [line])) =
    concat (filter (fun x => fits x = true) (appended a)) ++ (if fits line then line else [])).
  { rewrite filter_app, concat_app. f_equal. rewrite filter_cons. destruct (fits line); simpl; by rewrite ?app_nil_r. }
  unfold unwritten in Hd. rewrite Hc in Hd.
  destruct (Z.ltb_spec (zlen line) (avail cur)) as [Hlt|Hge].
  - destruct (fb_append_ok line cur Hok) as (cur' & -> & Hok' & Ht). rewrite (proj2 (Z.ltb_lt _ _)) in Ht by done. simpl.
    assert (Hfits : fits line = true).
    { unfold fits. apply Z.ltb_lt. destruct Hok as [Hw Hs]. unfold fb_wf, avail in *. lia. }
    eexists. split; [done|]. split; simpl; [by eexists|done|done|done|].
    exists lines. split; [done|]. intros E. specialize (Hd E). unfold unwritten. simpl. rewrite Hfilter, Hfits, <- Hd, Ht.
    by rewrite <- !(assoc_L (++)).
  - set (nb := match nextBuffer_ a with Some b => b | None => freshBuffer end).
    assert (Hnb : fb_empty nb).
    { unfold nb. destruct Hn as [(x & -> & Hx)|[-> _]]; [done|]. apply new_empty. }
    destruct (fb_append_ok line nb) as (cur' & -> & Hok' & Ht); [apply Hnb|]. simpl.
    rewrite (avail_empty _ Hnb), (fb_empty_text _ Hnb) in Ht.
    eexists. split; [done|]. split; simpl; [by eexists| | |done|].
    + right. split; [done|]. by destruct (buffers_ a).
    + apply Forall_app. split; [done|]. by constructor.
    + exists lines. split; [done|]. intros E. specialize (Hd E). unfold unwritten. simpl.
      rewrite Hfilter, <- Hd, Ht, map_app, concat_app. unfold fits. simpl. rewrite app_nil_r, <- !(assoc_L (++)).
      by destruct (zlen line <? SIZE).
Qed.

Lemma ainv_test a : ainv a -> at_ a = AtTop -> exists a', loop_test a = Ok a' /\ ainv a'.
Proof.
  intros [(cur & Hc & Hok) Hn Hb Hp (lines & Hl & Hd)] Hat. rewrite Hat in Hp. simpl in Hp.
  destruct Hp as ((n1 & E1 & H1) & (n2 & E2 & H2) & Hw). unfold loop_test. destruct (running_ a) eqn:Er; simpl.
  - rewrite E1, E2, Hw. simpl. unfold fb_length. rewrite (proj2 H1), (proj2 H2). simpl. eexists. split; [done|].
    split; simpl; [by exists cur|done|done|by split; [exists n1|split; [exists n2|]]|].
    exists lines. split; [done|]. intros E. rewrite <- (Hd E). unfold unwritten. simpl. by rewrite Hw.
  - destruct (flush_holds _ _ Hl) as (out & -> & Hl'). simpl. eexists. split; [done|].
    split; simpl; [by exists cur|done|done|by split; [exists n1|split; [exists n2|]]|].
    exists lines. split; [done|]. exact Hd.
Qed.

Lemma ainv_swap a : ainv a -> at_ a = Waiting -> exists a', swap_turn a = Ok a' /\ ainv a'.
Proof.
  intros [(cur & Hc & Hok) Hn Hb Hp (lines & Hl & Hd)] Hat. rewrite Hat in Hp. simpl in Hp.
  destruct Hp as ((n1 & E1 & H1) & (n2 & E2 & H2) & Hw). unfold swap_turn. rewrite E1, E2, Hw, Hc. simpl.
  unfold unwritten in Hd. rewrite Hw, Hc in Hd. simpl in Hd.
  assert (Hfinal : forall next new2,
    (next = Some n2 /\ new2 = None /\ buffers_ a <> [] \/ ptr_empty next /\ new2 = Some n2) ->
    ainv (mkAsync (running_ a) (Some n1) next [] Swapped None new2 (buffers_ a ++ [cur]) (output a) (appended a) (dropped a))).
  { intros next new2 Hor. split; simpl.
    - exists n1. split; [done|apply H1].
    - left. destruct Hor as [(-> & _)|[? _]]; [by exists n2|done].
    - constructor.
    - split; [done|]. split; [by destruct (buffers_ a)|]. split; [apply Forall_app; split; [done|by constructor]|].
      destruct Hor as [(_ & -> & Hne)|[_ ->]]; [right|left; by exists n2]. split; [done|].
      rewrite zlen_app. change (zlen [cur]) with 1. destruct (buffers_ a) as [|y l]; [done|].
      rewrite zlen_cons. pose proof (zlen_nonneg l). lia.
    - exists lines. split; [done|]. intros E. specialize (Hd E). unfold unwritten. simpl.
      rewrite (fb_empty_text n1 H1), map_app, concat_app. simpl. by rewrite !app_nil_r, <- Hd. }
  destruct Hn as [(x & Ex & Hx)|[Ex Hne]]; rewrite Ex; simpl; (eexists; split; [done|]); apply Hfinal; [right|left].
  - split; [by exists x|done].
  - done.
Qed.

Lemma refill_ok b l :
  Forall fb_ok l -> (ptr_empty b \/ (b = None /\ l <> [])) ->
  exists x l', refill b l = Ok (Some x, l') /\ fb_empty x /\ Forall fb_ok l' /\
    zlen l' = zlen l - (if b then 0 else 1).
Proof.
  intros Hl [(x & -> & Hx)|[-> Hne]]; simpl.
  - exists x, l. split_and!; try done. lia.
  - destruct l as [|y l _] using rev_ind; [done|]. rewrite last_snoc, removelast_last.
    apply Forall_app in Hl as [Hl Hy]. inversion Hy; subst. eexists _, _. split; [done|].
    split; [by apply reset_empty|]. split; [done|]. rewrite zlen_app. change (zlen [y]) with 1. lia.
Qed.

Lemma writes_hold p answers now bufs : can_open p = true -> (forall j, 0 < answers j) -> forall lines out,
  holds lines out -> exists out', foldM (write_buffer p answers now) out bufs = Ok out' /\ holds (lines ++ map fb_text bufs) out'.
Proof.
  intros Ho Ha. induction bufs as [|b bufs IH]; intros lines out Hl; cbn [foldM map]; [exists out; by rewrite app_nil_r|].
  destruct (log_append_holds p answers now now (fb_text b) lines out Ho Ha Hl) as (o1 & E & H1).
  change (write_buffer p answers now out b) with (log_append p answers now now (fb_text b) out). rewrite E. cbn [mbind outcome_bind]. destruct (IH _ _ H1) as (o2 & E2 & H2). exists o2. split; [done|].
  by rewrite <- (assoc_L (++)) in H2.
Qed.

Lemma ainv_write p answers now a :
  can_open p = true -> (forall j, 0 < answers j) -> ainv a -> at_ a = Swapped ->
  exists a', write_turn p answers now a = Ok a' /\ ainv a'.
Proof.
  intros Ho Ha [(cur & Hc & Hok) Hn Hb Hp (lines & Hl & Hd)] Hat. rewrite Hat in Hp. simpl in Hp.
  destruct Hp as (E1 & Hne & Hw & H2). unfold write_turn. rewrite bool_decide_eq_true_2 by done. simpl.
  set (many := 25 <? zlen (buffersToWrite a)). set (notice := drop_notice _ _).
  set (bufs := if many then take 2 (buffersToWrite a) else buffersToWrite a).
  assert (Hout : exists out extra, (if many then log_append p answers now now notice (output a) else Ok (output a)) = Ok out /\
    holds (lines ++ extra) out /\ (many = false -> extra = [])).
  { destruct many.
    - destruct (log_append_holds p answers now now notice lines (output a) Ho Ha Hl) as (out & -> & Hh). by exists out, [notice].
    - exists (output a), []. rewrite app_nil_r. done. }
  destruct Hout as (out & extra & -> & Hh & Hextra). simpl.
  destruct (writes_hold p answers now bufs Ho Ha _ _ Hh) as (out2 & -> & Hh2). simpl.
  assert (Hlen2 : zlen (take 2 bufs) = Z.min 2 (zlen (buffersToWrite a))).
  { unfold bufs, zlen. destruct many; rewrite ?take_take, length_take; lia. }
  assert (Hfa : Forall fb_ok (take 2 bufs)).
  { apply Forall_take. unfold bufs. destruct many; [by apply Forall_take|done]. }
  assert (Hpos : 1 <= zlen (buffersToWrite a)).
  { destruct (buffersToWrite a) as [|y l]; [done|]. rewrite zlen_cons. pose proof (zlen_nonneg l). lia. }
  destruct (refill_ok (newBuffer1 a) (take 2 bufs) Hfa) as (n1 & l1 & -> & Hn1 & Hl1 & Hz1).
  { right. split; [done|]. intros E. rewrite E in Hlen2. change (zlen (@nil FixedBuffer)) with 0 in Hlen2. lia. }
  rewrite E1 in Hz1. simpl.
  destruct (refill_ok (newBuffer2 a) l1 Hl1) as (n2 & l2 & -> & Hn2 & _).
  { destruct H2 as [?|[-> Hge]]; [by left|right]. split; [done|]. intros ->. change (zlen (@nil FixedBuffer)) with 0 in Hz1. lia. }
  simpl. destruct (flush_holds _ _ Hh2) as (out3 & -> & Hh3). simpl. eexists. split; [done|].
  split; simpl; try done.
  - by exists cur.
  - split; [by exists n1|]. split; [by exists n2|done].
  - exists ((lines ++ extra) ++ map fb_text bufs). split; [done|]. intros [Hdr Hm]%orb_false_iff.
    specialize (Hd Hdr). rewrite (Hextra Hm), app_nil_r. unfold bufs. rewrite Hm. unfold unwritten in *. simpl.
    by rewrite <- Hd, concat_app, <- !(assoc_L (++)).
Qed.

(** The back end can open files and its writes take something. *)
Definition action_ok (e : action) : Prop :=
  match e with BackEnd p answers _ => can_open p = true /\ forall j, 0 < answers j | _ => True end.

Lemma ainv_step a e : ainv a -> action_ok e -> exists a', async_step a e = Ok a' /\ ainv a'.
Proof.
  intros Ha He. destruct e as [line|p answers now|]; cbn [async_step].
  - by apply ainv_append.
  - destruct He as [Ho Hw]. destruct (at_ a) eqn:Hat; [by apply ainv_test|by apply ainv_swap|by apply ainv_write|eauto].
  - eexists. split; [done|]. by destruct Ha; split.
Qed.

Lemma ainv_run l : forall a, ainv a -> Forall action_ok l -> exists a', foldM async_step a l = Ok a' /\ ainv a'.
Proof.
  induction l as [|e l IH]; intros a Ha Hl; [by exists a|]. inversion Hl as [|? ? He Hl']; subst.
  destruct (ainv_step a e Ha He) as (a1 & Hs & H1). destruct (IH a1 H1 Hl') as (a' & Hr & H'). exists a'. simpl. by rewrite Hs.
Qed.

Lemma ainv_started out : holds [] out -> ainv (started out).
Proof.
  intros Ho. destruct new_empty as [_ He]. split; simpl.
  - eexists. split; [done|apply He].
  - left. by eexists.
  - constructor.
  - split; [by eexists|]. split; [by eexists|done].
  - exists []. split; [done|]. intros _. unfold unwritten. simpl. by rewrite (fb_empty_text _ He).
Qed.

(** The lines an action list appends. *)
Definition lines_of (l : list action) : list bytes := omap (fun e => match e with Append x => Some x | _ => None end) l.

Lemma step_appended a e a' : async_step a e = Ok a' -> appended a' = appended a ++ lines_of [e].
Proof.
  destruct e as [line|p answers now|]; simpl.
  - unfold async_append. intros Hs. inv_ok. subst. simpl. repeat case_match; inv_ok; subst; done.
  - rewrite app_nil_r. destruct (at_ a).
    + unfold loop_test. intros Hs. repeat case_match; inv_ok; subst; repeat case_match; simplify_eq; done.
    + unfold swap_turn. intros Hs. inv_ok. repeat case_match; inv_ok; subst; repeat case_match; simplify_eq; done.
    + unfold write_turn. intros Hs. inv_ok. subst. repeat (case_match; inv_ok; subst); done.
    + by intros [= <-].
  - rewrite app_nil_r. by intros [= <-].
Qed.

(** C20: Whatever the interleaving of the appending threads and the back end, with
    files that can be opened and written, no assertion of the back end fails and no
    moved-from buffer is used; and unless a turn found more than 25 buffers, the log
    files followed by the buffers hold exactly the lines appended that are shorter
    than a buffer (4 MB), in order. *)
Theorem async_logging_keeps_order out l
  (Hout : holds [] out) (Hl : Forall action_ok l) :
  exists a, foldM async_step (started out) l = Ok a /\
    (dropped a = false -> logged (output a) ++ unwritten a = concat (filter (fun x => fits x = true) (lines_of l))).
Proof.
  destruct (ainv_run l (started out) (ainv_started out Hout) Hl) as (a & Hr & [_ _ _ _ (lines & Hh & Hd)]).
  exists a. split; [done|]. intros E. rewrite (holds_logged _ _ Hh), (Hd E). do 2 f_equal.
  assert (Happ : forall l a0, foldM async_step a0 l = Ok a -> appended a = appended a0 ++ lines_of l).
  { clear. induction l as [|e l IH]; intros a0 Hr; simpl in Hr; [injection Hr as ->; by rewrite app_nil_r|].
    apply outcome_bind_ok in Hr as (a1 & Hs & Hr). rewrite (IH _ Hr), (step_appended _ _ _ Hs), <- (assoc_L (++)).
    f_equal. unfold lines_of. simpl. by destruct e. }
  by apply (Happ l (started out)).
Qed.

End logging.

Definition sample_process : Process := mkProcess (lit "host") 42 true.
Definition back_end (now : Z) : action := BackEnd sample_process (fun _ => 1) now.

(** Buffers of eight bytes; the third line overflows the second buffer. *)
Lemma async_logging_keeps_order_witness :
  exists out a, newLogFile sample_process (lit "app") 1000 false 3 1024 99 = Ok out /\
    foldM (async_step 8) (started 8 out)
      [Append (lit "first"); Append (lit "second"); back_end 99; back_end 100; Append (lit "third"); back_end 101] = Ok a /\
    logged (output a) = lit "firstsecond" /\ unwritten a = lit "third".
Proof.
  set (l := [Append (lit "first"); Append (lit "second"); back_end 99; back_end 100; Append (lit "third"); back_end 101]).
  destruct (newLogFile sample_process (lit "app") 1000 false 3 1024 99) as [out|] eqn:E; [|vm_compute in E; discriminate].
  destruct (async_logging_keeps_order 8 ltac:(lia) out l) as (a & Hr & Hd).
  - vm_compute in E. injection E as <-. split; [by eexists|]. by exists [[]].
  - repeat constructor.
  - exists out, a. split; [exact eq_refl|]. split; [exact Hr|].
    assert (Hp : (out ← newLogFile sample_process (lit "app") 1000 false 3 1024 99;
      (fun a => (logged (output a), unwritten a)) <$> foldM (async_step 8) (started 8 out) l) =
      Ok (lit "firstsecond", lit "third")) by (vm_compute; reflexivity).
    rewrite E in Hp. cbn [mbind outcome_bind] in Hp. rewrite Hr in Hp. injection Hp as H1 H2. by split.
Defined.

(** A line appended before stop() but after the back end's last swap is never
    written: the loop ends without looking at the buffers again. *)
Theorem stop_loses_lines :
  (out ← newLogFile sample_process (lit "app") 1000 false 3 1024 99;
   a ← foldM (async_step 8) (started 8 out)
     [Append (lit "first"); back_end 99; back_end 100; Append (lit "last"); Stop; back_end 101; back_end 102; back_end 103];
   Ok (at_ a, logged (output a), unwritten a)) = Ok (Ended, lit "first", lit "last").
Proof. by vm_compute. Qed.
