(* ===== verification/Codec.v ===== *)
(** * Codec: net/protobuf/ProtobufCodecLite.h, net/protobuf/ProtobufCodecLite.cc,
      net/protorpc/google-inl.h

    The wire format of length-prefixed, tagged and checksummed messages on the
    buffers of Buffer.v.  Protocol Buffers and zlib are parameters: the size, the
    initialized check, the serializer and the parser of messages, and adler32.
    What [onMessage] hands to its callbacks is a list of events.

    Theorems: any sequence of messages, encoded, cut into chunks in any way and
    received chunk by chunk, comes out as the same sequence, with nothing left in
    the buffer; the receive loop ends; and a frame with a bad length, checksum,
    tag or payload gives exactly one error and is left in the buffer. *)

From S2P Require Import Prelude Endian Buffer.

Section codec.
Context {M : Type}.
(** google::protobuf::Message and zlib. *)
Context (IsInitialized : M -> bool) (ByteSize : M -> Z) (SerializeToArray : M -> bytes)
  (ParseFromArray : bytes -> option M) (adler32 : bytes -> Z).
(** The codec object: its tag, and the raw callback if one is set. *)
Context (tag_ : bytes) (rawCb_ : option (bytes -> bool)).

Definition kHeaderLen : Z := 4.
Definition kChecksumLen : Z := 4.
Definition kMaxMessageLen : Z := 64 * 1024 * 1024.
Definition kMinMessageLen : Z := i32 (zlen tag_ + kChecksumLen).

Inductive ErrorCode := kNoError | kInvalidLength | kCheckSumError | kInvalidNameLen | kUnknownMessageType | kParseError.

Definition errorCodeToString (e : ErrorCode) : bytes :=
  match e with
  | kNoError => lit "NoError"
  | kInvalidLength => lit "InvalidLength"
  | kCheckSumError => lit "CheckSumError"
  | kInvalidNameLen => lit "InvalidNameLen"
  | kUnknownMessageType => lit "UnknownMessageType"
  | kParseError => lit "ParseError"
  end.

Inductive event := EMessage (m : M) | EError (e : ErrorCode).

Definition checksum (buf : bytes) : Z := i32 (adler32 buf).

(** Four bytes at an address. *)
Definition asInt32 (buf : bytes) : Z := i32 (networkToHost32 (le_value (ztake 4 buf))).

Definition validateChecksum (buf : bytes) : bool :=
  let len := zlen buf in
  let expectedCheckSum := asInt32 (zdrop (len - kChecksumLen) buf) in
  checksum (ztake (len - kChecksumLen) buf) =? expectedCheckSum.

(** [parse]: the error code and the message filled in. *)
Definition parse (buf : bytes) : ErrorCode * option M :=
  if validateChecksum buf then
    if bytes_eqb (ztake (zlen tag_) buf) tag_ then
      let data := zslice (zlen tag_) (zlen buf - kChecksumLen) buf in
      match ParseFromArray data with
      | Some m => (kNoError, Some m)
      | None => (kParseError, None)
      end
    else (kUnknownMessageType, None)
  else (kCheckSumError, None).

(** GOOGLE_CHECK_EQ and GOOGLE_LOG(FATAL) abort: no arguments let it return. *)
Definition ByteSizeConsistencyError (before_serialization after_serialization produced : Z) : outcome unit :=
  log_fatal_unless (before_serialization =? after_serialization);;
  log_fatal_unless (produced =? before_serialization);;
  log_fatal_unless false.

(** [serializeToBuffer]; GOOGLE_DCHECK aborts too. *)
Definition serializeToBuffer (m : M) (b : Buffer) : outcome (Z * Buffer) :=
  log_fatal_unless (IsInitialized m);;
  let byte_size := ByteSize m in
  b ← ensureWritableBytes (u64 (byte_size + kChecksumLen)) b;
  let data := SerializeToArray m in
  if writableBytes b <? zlen data then Fault UndefinedBehaviour
  else
    let b := storeAtWrite data b in
    (if zlen data =? byte_size then Ok tt else ByteSizeConsistencyError byte_size (ByteSize m) (i32 (zlen data)));;
    b ← hasWritten (u64 byte_size) b;
    Ok (byte_size, b).

Definition fillEmptyBuffer (m : M) (b : Buffer) : outcome Buffer :=
  c_assert (readableBytes b =? 0);;
  b ← append tag_ b;
  '(byte_size, b) ← serializeToBuffer m b;
  let checkSum := checksum (content b) in
  b ← appendInt32 checkSum b;
  c_assert (readableBytes b =? u64 (zlen tag_ + byte_size + kChecksumLen));;
  let len := hostToNetwork32 (u32 (i32 (readableBytes b))) in
  prepend (le_bytes 4 len) b.

(** [send], up to the connection. *)
Definition encode (m : M) : outcome bytes :=
  b ← newBuffer kInitialSize;
  b ← fillEmptyBuffer m b;
  Ok (content b).

(** One turn of the loop of [onMessage]: the events, the buffer, and whether the
    loop goes on. *)
Definition codec_turn (b : Buffer) : outcome (list event * Buffer * bool) :=
  len ← peekInt32 b;
  if (kMaxMessageLen <? len) || (len <? kMinMessageLen) then Ok ([EError kInvalidLength], b, false)
  else if kHeaderLen + len <=? readableBytes b then
    let piece := ztake (kHeaderLen + len) (content b) in
    if negb (match rawCb_ with Some f => f piece | None => true end) then
      b ← retrieve (kHeaderLen + len) b;
      Ok ([], b, true)
    else
      match parse (zdrop kHeaderLen piece) with
      | (kNoError, Some m) =>
          b ← retrieve (kHeaderLen + len) b;
          Ok ([EMessage m], b, true)
      | (e, _) => Ok ([EError e], b, false)
      end
  else Ok ([], b, false).

Fixpoint codec_loop (fuel : nat) (b : Buffer) : outcome (list event * Buffer) :=
  if u32 (kMinMessageLen + kHeaderLen) <=? readableBytes b then
    match fuel with
    | O => Fault OutOfFuel
    | S fuel =>
        '(ev, b, again) ← codec_turn b;
        if (again : bool) then
          '(evs, b) ← codec_loop fuel b;
          Ok (ev ++ evs, b)
        else Ok (ev, b)
    end
  else Ok ([], b).

Definition onMessage (b : Buffer) : outcome (list event * Buffer) := codec_loop (length (content b)) b.

(** The connection's side: each chunk is appended to the input buffer, then the
    message callback runs. *)
Fixpoint receive (chunks : list bytes) (b : Buffer) : outcome (list event * Buffer) :=
  match chunks with
  | [] => Ok ([], b)
  | c :: chunks =>
      b ← append c b;
      '(ev, b) ← onMessage b;
      '(evs, b) ← receive chunks b;
      Ok (ev ++ evs, b)
  end.

(** ** The wire format *)
Definition body_of (m : M) : bytes := tag_ ++ SerializeToArray m.
Definition frame (m : M) : bytes :=
  be_bytes 4 (zlen (body_of m) + 4) ++ body_of m ++ be_bytes 4 (checksum (body_of m)).

(** Messages that can be sent, and the contract of the libraries. *)
Definition sendable (m : M) : Prop :=
  IsInitialized m = true /\ ByteSize m = zlen (SerializeToArray m) /\
  zlen tag_ + zlen (SerializeToArray m) + 4 <= kMaxMessageLen /\
  ParseFromArray (SerializeToArray m) = Some m.

Definition tag_ok : Prop := zlen tag_ + 4 <= kMaxMessageLen.

(** ** Encoding *)
Lemma tag_bounds m : sendable m -> 0 <= zlen tag_ /\ 0 <= zlen (SerializeToArray m) /\
  zlen (body_of m) = zlen tag_ + zlen (SerializeToArray m) /\ zlen (body_of m) + 4 <= kMaxMessageLen /\
  kMinMessageLen = zlen tag_ + 4 /\ kMaxMessageLen = 67108864.
Proof.
  intros (_ & _ & Hmax & _). pose proof (zlen_nonneg tag_). pose proof (zlen_nonneg (SerializeToArray m)).
  assert (E : kMaxMessageLen = 67108864) by reflexivity. unfold body_of, kMinMessageLen, kChecksumLen. rewrite zlen_app.
  rewrite (wrapS_id 32) by (try unfold in_s; lia). lia.
Qed.

Lemma encode_frame m : sendable m -> encode m = Ok (frame m).
Proof.
  intros Hm. pose proof (tag_bounds m Hm) as (Ht & Hs & Hb & Hmax & _ & Ek). destruct Hm as (Hi & Hsz & _ & _).
  unfold encode. destruct (newBuffer_spec kInitialSize) as (b0 & -> & H0 & Hc0 & Hp0 & Hw0); [by unfold kInitialSize|by vm_compute|].
  cbn [mbind outcome_bind]. unfold fillEmptyBuffer. rewrite <- (content_length b0 H0), Hc0.
  change (zlen (@nil ascii) =? 0) with true. cbn [c_assert mbind outcome_bind].
  assert (Hv : 2 ^ 62 <= vector_max_size) by (by vm_compute). change kCheapPrepend with 8 in *.
  destruct (append_spec tag_ b0 H0) as (b1 & -> & H1 & Hc1 & Hp1 & Hw1); [lia|]. rewrite Hc0 in Hc1. cbn [mbind outcome_bind].
  unfold serializeToBuffer. rewrite Hi, Hsz. cbn [log_fatal_unless mbind outcome_bind].
  change kCheapPrepend with 8 in *. unfold kChecksumLen. rewrite !(wrapU_id 64 (_ + 4)), !(wrapU_id 64 (zlen (SerializeToArray m))) by (unfold in_u; lia).
  destruct (ensureWritableBytes_spec (zlen (SerializeToArray m) + 4) b1 H1) as (b2 & -> & H2 & Hc2 & Hr2 & Hp2 & Hw2); [lia|lia|].
  cbn [mbind outcome_bind]. rewrite (proj2 (Z.ltb_ge _ _)) by lia. rewrite Z.eqb_refl. cbn [log_fatal_unless mbind outcome_bind].
  destruct (storeAtWrite_hasWritten (SerializeToArray m) b2 H2) as (b3 & -> & H3 & Hc3 & Hp3 & Hw3); [lia|].
  cbn [mbind outcome_bind]. rewrite Hc2, Hc1 in Hc3. simpl in Hc3. rewrite Hc3. fold (body_of m).
  unfold appendInt32, hostToNetwork32. rewrite (encode_image 4 32) by done.
  destruct (append_spec (be_bytes 4 (checksum (body_of m))) b3 H3) as (b4 & -> & H4 & Hc4 & Hp4 & Hw4);
    [rewrite zlen_be_bytes; lia|]. cbn [mbind outcome_bind]. rewrite Hc3 in Hc4. fold (body_of m) in Hc4.
  change kCheapPrepend with 8 in *.
  assert (Hlen : readableBytes b4 = zlen (body_of m) + 4) by (rewrite <- content_length, Hc4, zlen_app, zlen_be_bytes by done; lia).
  rewrite Hlen, (wrapU_id 64) by (unfold in_u; lia). rewrite (proj2 (Z.eqb_eq _ _)) by lia. cbn [c_assert mbind outcome_bind].
  rewrite (wrapS_id 32) by (try unfold in_s; lia). rewrite (encode_image 4 32) by done.
  destruct (prepend_spec (be_bytes 4 (zlen (body_of m) + 4)) b4 H4) as (b5 & -> & H5 & Hc5 & _); [rewrite zlen_be_bytes; lia|].
  cbn [mbind outcome_bind]. by rewrite Hc5, Hc4.
Qed.

(** ** Decoding *)
Lemma asInt32_be x rest : in_s 32 x -> asInt32 (be_bytes 4 x ++ rest) = x.
Proof.
  intros Hx. unfold asInt32. rewrite ztake_app_exact by (by rewrite zlen_be_bytes). unfold networkToHost32.
  change (i32 (bswap 4 (le_value (be_bytes 4 x)))) with (wrapS (8 * Z.of_nat 4) (bswap 4 (le_value (be_bytes 4 x)))).
  assert (Hl : length (be_bytes 4 x) = 4%nat) by (pose proof (zlen_be_bytes 4 x); unfold zlen in *; lia).
  rewrite (bswap_decode (be_bytes 4 x) 4 Hl). by apply decode_encode; [lia|].
Qed.

Lemma parse_valid data m :
  ParseFromArray data = Some m -> parse (tag_ ++ data ++ be_bytes 4 (checksum (tag_ ++ data))) = (kNoError, Some m).
Proof.
  intros Hparse. rewrite (assoc_L (++)). set (cs := be_bytes 4 _). unfold parse, validateChecksum, kChecksumLen.
  assert (Hcs : zlen cs = 4) by apply zlen_be_bytes. rewrite (zlen_app (tag_ ++ data)), Hcs.
  replace (zlen (tag_ ++ data) + 4 - 4) with (zlen (tag_ ++ data)) by lia.
  rewrite zdrop_app_exact, ztake_app_exact by done.
  rewrite <- (app_nil_r cs) at 1. unfold cs at 1. rewrite asInt32_be by (apply wrapS_range; lia). rewrite Z.eqb_refl.
  rewrite <- (assoc_L (++)), ztake_app_exact by done. unfold bytes_eqb. rewrite bool_decide_eq_true_2 by done.
  unfold zslice. rewrite zdrop_app_exact by done. rewrite ztake_app_exact by (rewrite zlen_app; lia). by rewrite Hparse.
Qed.

Lemma parse_body m : sendable m -> parse (body_of m ++ be_bytes 4 (checksum (body_of m))) = (kNoError, Some m).
Proof. intros (_ & _ & _ & Hparse). unfold body_of. rewrite <- (assoc_L (++)). by apply parse_valid. Qed.

(** Does the raw callback let the message through? *)
Definition passes (m : M) : bool := match rawCb_ with Some f => f (frame m) | None => true end.

Lemma zlen_frame m : zlen (frame m) = zlen (body_of m) + 8.
Proof. unfold frame. rewrite !zlen_app, !zlen_be_bytes. lia. Qed.

Lemma turn_frame m rest b :
  sendable m -> wf b -> content b = frame m ++ rest ->
  exists b', codec_turn b = Ok (if passes m then [EMessage m] else [], b', true) /\ wf b' /\ content b' = rest /\
    writerIndex_ b' <= Z.max kCheapPrepend (writerIndex_ b).
Proof.
  intros Hm Hb Hc. pose proof (tag_bounds m Hm) as (Ht & Hs & Hbl & Hmax & Hmin & Ek).
  pose proof (zlen_nonneg rest). pose proof (content_length b Hb) as Hlen. rewrite Hc, zlen_app, zlen_frame in Hlen.
  unfold codec_turn. unfold frame in Hc at 1. rewrite <- (assoc_L (++)) in Hc.
  rewrite (peekInt32_prefix b _ _ Hb Hc) by (by rewrite zlen_be_bytes). cbn [mbind outcome_bind].
  rewrite decode_encode by (try unfold in_s; lia). rewrite Hmin.
  rewrite (proj2 (Z.ltb_ge _ _)) by lia. rewrite (proj2 (Z.ltb_ge _ _)) by lia. cbn [orb]. unfold kHeaderLen.
  rewrite (proj2 (Z.leb_le _ _)) by lia.
  assert (Hpiece : ztake (4 + (zlen (body_of m) + 4)) (content b) = frame m).
  { rewrite Hc, (assoc_L (++)). apply ztake_app_exact. fold (frame m). rewrite zlen_frame. lia. }
  rewrite Hpiece. fold (passes m).
  destruct (retrieve_spec (4 + (zlen (body_of m) + 4)) b Hb) as (b' & Hr & Hb' & Hc' & _ & Hw'); [lia|].
  assert (Hrest : content b' = rest).
  { rewrite Hc', Hc, (assoc_L (++)). apply zdrop_app_exact. fold (frame m). rewrite zlen_frame. lia. }
  destruct (passes m); cbn [negb].
  - assert (Hz : zdrop 4 (frame m) = body_of m ++ be_bytes 4 (checksum (body_of m)))
      by (unfold frame; apply zdrop_app_exact; by rewrite zlen_be_bytes).
    rewrite Hz, (parse_body m Hm), Hr. cbn [mbind outcome_bind]. eauto.
  - rewrite Hr. cbn [mbind outcome_bind]. eauto.
Qed.

(** Less than a frame: the loop waits for more. *)
Lemma loop_waits fuel m b c q :
  sendable m -> wf b -> content b = c -> c ++ q = frame m -> q <> [] -> codec_loop (S fuel) b = Ok ([], b) /\
  (c = [] -> codec_loop fuel b = Ok ([], b)).
Proof.
  intros Hm Hb Hc Hq Hne. pose proof (tag_bounds m Hm) as (Ht & Hs & Hbl & Hmax & Hmin & Ek).
  assert (Hql : 0 < zlen q) by (destruct q; [done|]; rewrite zlen_cons; pose proof (zlen_nonneg q); lia).
  pose proof (content_length b Hb) as Hlen. rewrite Hc in Hlen.
  assert (Hz : zlen c + zlen q = zlen (body_of m) + 8) by (rewrite <- zlen_app, Hq; apply zlen_frame).
  pose proof (zlen_nonneg c).
  assert (Hmin2 : u32 (kMinMessageLen + kHeaderLen) = zlen tag_ + 8)
    by (rewrite Hmin; unfold kHeaderLen; rewrite wrapU_id by (unfold in_u; lia); lia).
  split.
  - cbn [codec_loop]. rewrite Hmin2. destruct (Z.leb_spec (zlen tag_ + 8) (readableBytes b)) as [Hle|]; [|done].
    assert (Hsplit : c = be_bytes 4 (zlen (body_of m) + 4) ++ zdrop 4 c).
    { rewrite <- (ztake_zdrop 4 c) at 1. f_equal. assert (E : ztake 4 (c ++ q) = ztake 4 (frame m)) by (by rewrite Hq).
      rewrite ztake_app_le in E by lia. rewrite E. unfold frame. apply ztake_app_exact. by rewrite zlen_be_bytes. }
    unfold codec_turn. rewrite (peekInt32_prefix b (be_bytes 4 (zlen (body_of m) + 4)) (zdrop 4 c)) by (done || congruence || by rewrite zlen_be_bytes).
    cbn [mbind outcome_bind]. rewrite decode_encode by (try unfold in_s; lia). rewrite Hmin.
    rewrite (proj2 (Z.ltb_ge _ _)) by lia. rewrite (proj2 (Z.ltb_ge _ _)) by lia. cbn [orb]. unfold kHeaderLen.
    rewrite (proj2 (Z.leb_gt _ _)) by lia. done.
  - intros ->. change (zlen (@nil ascii)) with 0 in Hlen. destruct fuel; cbn [codec_loop]; rewrite Hmin2, <- Hlen;
      rewrite (proj2 (Z.leb_gt _ _)) by lia; done.
Qed.

Lemma min_length : tag_ok -> u32 (kMinMessageLen + kHeaderLen) = zlen tag_ + 8.
Proof.
  unfold tag_ok, kMinMessageLen, kHeaderLen, kChecksumLen. assert (E : kMaxMessageLen = 67108864) by reflexivity. intros Ht.
  pose proof (zlen_nonneg tag_). rewrite (wrapS_id 32) by (try unfold in_s; lia). rewrite (wrapU_id 32) by (unfold in_u; lia). lia.
Qed.

Lemma loop_empty fuel b : tag_ok -> wf b -> content b = [] -> codec_loop fuel b = Ok ([], b).
Proof.
  intros Ht Hb Hc. pose proof (content_length b Hb) as Hlen. rewrite Hc in Hlen. change (zlen (@nil ascii)) with 0 in Hlen.
  pose proof (zlen_nonneg tag_). destruct fuel; cbn [codec_loop]; rewrite min_length, <- Hlen by done;
    rewrite (proj2 (Z.leb_gt _ _)) by lia; done.
Qed.

Lemma app_cut (c q f r : bytes) : c ++ q = f ++ r ->
  (exists l, c = f ++ l /\ l ++ q = r) \/ (exists l, l <> [] /\ c ++ l = f /\ q = l ++ r).
Proof.
  intros H. apply app_eq_app in H as [l [[-> ->] | [-> ->]]]; [by left; exists l|].
  destruct l as [|x l]; [left; exists []; by rewrite !app_nil_r | right; by exists (x :: l)].
Qed.

(** Cutting a stream of frames anywhere: the whole frames before the cut are
    delivered, the rest stays. *)
Lemma loop_stream ms : forall fuel b q,
  tag_ok -> Forall sendable ms -> wf b -> content b ++ q = concat (frame <$> ms) -> (length (content b) <= fuel)%nat ->
  exists ms1 ms2 b', ms = ms1 ++ ms2 /\ codec_loop fuel b = Ok (EMessage <$> filter passes ms1, b') /\ wf b' /\
    content b' ++ q = concat (frame <$> ms2) /\ (q = [] -> ms2 = []) /\
    writerIndex_ b' <= Z.max kCheapPrepend (writerIndex_ b) /\
    (forall m ms', ms2 = m :: ms' -> zlen (content b') < zlen (frame m)).
Proof.
  induction ms as [|m ms IH]; intros fuel b q Ht Hall Hb Hq Hfuel.
  - simpl in Hq. apply app_eq_nil in Hq as [Hc ->]. exists [], [], b. rewrite Hc, loop_empty by done.
    split_and!; auto; try lia; done.
  - apply Forall_cons_1 in Hall as [Hm Hall]. change (concat (frame <$> m :: ms)) with (frame m ++ concat (frame <$> ms)) in Hq.
    pose proof (tag_bounds m Hm) as (Hzt & _ & Hbl & _). pose proof (zlen_frame m) as Hzf.
    pose proof (zlen_nonneg (SerializeToArray m)).
    apply app_cut in Hq as [(l & Hc & Hq) | (l & Hl & Hf & Hq)].
    + pose proof (zlen_nonneg l). destruct fuel as [|fuel].
      { exfalso. assert (E : zlen (content b) = 0) by (unfold zlen; lia). rewrite Hc, zlen_app in E. lia. }
      destruct (turn_frame m l b Hm Hb Hc) as (b1 & Hturn & Hb1 & Hc1 & Hw1).
      destruct (IH fuel b1 q Ht Hall Hb1) as (ms1 & ms2 & b2 & -> & Hloop & Hb2 & Hq2 & Hend & Hw2 & Hpart).
      { by rewrite Hc1. }
      { rewrite Hc1. rewrite Hc, length_app in Hfuel. unfold zlen in *. lia. }
      exists (m :: ms1), ms2, b2. split; [done|]. split; [|split_and!; auto; lia].
      cbn [codec_loop]. rewrite min_length, <- content_length, Hc, zlen_app by done.
      rewrite (proj2 (Z.leb_le _ _)) by lia. rewrite Hturn. cbn [mbind outcome_bind]. rewrite Hloop. cbn [mbind outcome_bind].
      rewrite filter_cons. by destruct (passes m).
    + exists [], (m :: ms), b. split; [done|]. split; [|split_and!; auto; try lia].
      * destruct (loop_waits (pred fuel) m b (content b) l Hm Hb eq_refl Hf Hl) as [Hw He].
        destruct fuel as [|fuel]; [|exact Hw]. apply He. destruct (content b); [done|simpl in Hfuel; lia].
      * rewrite Hq, (assoc_L (++)), Hf. done.
      * intros ->. symmetry in Hq. apply app_eq_nil in Hq as [-> _]. done.
      * intros m' ms' [= <- <-]. rewrite <- Hf, zlen_app. destruct l; [done|]. rewrite zlen_cons. pose proof (zlen_nonneg l). lia.
Qed.

Lemma receive_stream chunks : forall ms b q,
  tag_ok -> Forall sendable ms -> wf b -> content b ++ concat chunks ++ q = concat (frame <$> ms) ->
  Z.max kCheapPrepend (writerIndex_ b) + zlen (concat chunks) <= vector_max_size ->
  exists ms1 ms2 b', ms = ms1 ++ ms2 /\ receive chunks b = Ok (EMessage <$> filter passes ms1, b') /\ wf b' /\
    content b' ++ q = concat (frame <$> ms2) /\ (chunks <> [] -> q = [] -> ms2 = []).
Proof.
  induction chunks as [|c chunks IH]; intros ms b q Ht Hall Hb Hq Hv.
  - by exists [], ms, b.
  - change (concat (c :: chunks)) with (c ++ concat chunks) in *. rewrite zlen_app in Hv. pose proof (zlen_nonneg (concat chunks)).
    destruct (append_spec c b Hb) as (b1 & Happ & Hb1 & Hc1 & _ & Hw1); [lia|].
    destruct (loop_stream ms (length (content b1)) b1 (concat chunks ++ q) Ht Hall Hb1) as
      (ms1 & ms2 & b2 & -> & Hloop & Hb2 & Hq2 & Hend & Hw2 & _); [by rewrite Hc1, <- (assoc_L (++)); rewrite <- (assoc_L (++)) in Hq|done|].
    apply Forall_app in Hall as [_ Hall]. pose proof (zlen_nonneg c).
    destruct (IH ms2 b2 q Ht Hall Hb2 Hq2) as (ms3 & ms4 & b3 & -> & Hrec & Hb3 & Hq3 & Hend3); [lia|].
    exists (ms1 ++ ms3), ms4, b3. split; [by rewrite (assoc_L (++))|]. split; [|split; [done|split; [done|]]].
    + cbn [receive]. rewrite Happ. cbn [mbind outcome_bind]. unfold onMessage. rewrite Hloop. cbn [mbind outcome_bind].
      rewrite Hrec. cbn [mbind outcome_bind]. by rewrite filter_app, fmap_app.
    + intros _ Hq0. destruct chunks as [|c' chunks]; [|by apply Hend3].
      rewrite Hq0 in Hend. specialize (Hend eq_refl). by apply app_eq_nil in Hend as [_ ->].
Qed.

Lemma encode_all_frames ms : Forall sendable ms -> mapM encode ms = Ok (frame <$> ms).
Proof. induction 1 as [|m ms Hm Hall IH]; [done|]. simpl. rewrite encode_frame by done. simpl. by rewrite IH. Qed.

(** C8: Messages encoded one after the other, cut into chunks in any way (one at
    least) and received chunk by chunk on an empty buffer, come out as the same
    messages in the same order, less the ones the raw callback keeps; no error is
    reported, nothing is left in the buffer.  The library's contract is
    [sendable]: the size is the length of the serialization, which parses back. *)
Theorem codec_stream_roundtrip ms :
  tag_ok -> Forall sendable ms ->
  exists frames, mapM encode ms = Ok frames /\
    forall chunks, chunks <> [] -> zlen (concat chunks) <= 2 ^ 62 -> concat chunks = concat frames ->
    exists b b', newBuffer kInitialSize = Ok b /\
      receive chunks b = Ok (EMessage <$> filter passes ms, b') /\ content b' = [].
Proof.
  intros Ht Hall. exists (frame <$> ms). split; [by apply encode_all_frames|]. intros chunks Hne Hmax Hcut.
  destruct (newBuffer_spec kInitialSize) as (b0 & Hnew & H0 & Hc0 & Hp0 & Hw0); [by unfold kInitialSize|by vm_compute|].
  assert (Hv : 8 + 2 ^ 62 <= vector_max_size) by (by vm_compute). change kCheapPrepend with 8 in *.
  destruct (receive_stream chunks ms b0 [] Ht Hall H0) as (ms1 & ms2 & b1 & -> & Hrec & Hb1 & Hq & Hend).
  { by rewrite Hc0, app_nil_r. } { change kCheapPrepend with 8. lia. }
  rewrite (Hend Hne eq_refl), app_nil_r in Hq. rewrite (Hend Hne eq_refl), app_nil_r. by exists b0, b1.
Qed.

(** ** Arbitrary input *)

(** A body with the codec's tag, the data of a message and a correct checksum. *)
Definition valid_body (body : bytes) (m : M) : Prop :=
  exists data, body = tag_ ++ data ++ be_bytes 4 (checksum (tag_ ++ data)) /\ ParseFromArray data = Some m.

Definition raw (f : bytes) : bool := match rawCb_ with Some g => g f | None => true end.

Definition in_range (len : Z) : Prop := zlen tag_ + 4 <= len <= kMaxMessageLen.

(** A frame taken off the buffer, with the message handed over, if any. *)
Definition taken (p : bytes * option M) : Prop :=
  exists body, p.1 = be_bytes 4 (zlen body) ++ body /\ in_range (zlen body) /\
    match p.2 with None => raw p.1 = false | Some m => raw p.1 = true /\ valid_body body m end.

(** Why the loop stops with [c] in the buffer, and what it reports then. *)
Definition stops (c : bytes) (err : list event) : Prop :=
  match err with
  | [] => zlen c < zlen tag_ + 8 \/
      exists len rest, c = be_bytes 4 len ++ rest /\ in_range len /\ zlen rest < len
  | [EError kInvalidLength] => exists len rest, c = be_bytes 4 len ++ rest /\ in_s 32 len /\ ~ in_range len
  | [EError _] => exists body rest, c = be_bytes 4 (zlen body) ++ body ++ rest /\ in_range (zlen body) /\
      raw (be_bytes 4 (zlen body) ++ body) = true /\ forall m, ~ valid_body body m
  | _ => False
  end.

Lemma be_bytes_decode l : zlen l = 4 -> be_bytes 4 (decode_int 4 l) = l.
Proof.
  intros Hl. assert (Hn : length l = 4%nat) by (unfold zlen in Hl; lia).
  rewrite <- (be_bytes_be_value l) at 2. rewrite Hn. unfold be_bytes, decode_int. f_equal.
  rewrite <- (le_bytes_mod 4 (wrapS _ _)), <- (le_bytes_mod 4 (be_value l)). f_equal. apply (wrapU_wrapS 32); lia.
Qed.

Lemma asInt32_decode l : zlen l = 4 -> asInt32 l = decode_int 4 l.
Proof.
  intros Hl. unfold asInt32. rewrite ztake_all by lia. unfold networkToHost32.
  change (i32 (bswap 4 (le_value l))) with (wrapS (8 * Z.of_nat 4) (bswap 4 (le_value l))).
  apply bswap_decode. unfold zlen in Hl; lia.
Qed.

Lemma parse_no_error body m : zlen tag_ + 4 <= zlen body -> parse body = (kNoError, Some m) -> valid_body body m.
Proof.
  intros Hl. pose proof (zlen_nonneg tag_). unfold parse, validateChecksum, kChecksumLen.
  set (n := zlen body - 4). set (cs := zdrop n body).
  assert (Hcs : zlen cs = 4) by (unfold cs; rewrite zlen_zdrop; unfold n; lia).
  destruct (Z.eqb_spec (checksum (ztake n body)) (asInt32 cs)) as [Hsum|]; [|congruence].
  destruct (bytes_eqb _ _) eqn:Htag; [|congruence]. apply bool_decide_eq_true in Htag.
  set (data := zslice (zlen tag_) n body) in *. destruct (ParseFromArray data) as [m'|] eqn:Hp; intros [= ->].
  assert (Hb : ztake n body = tag_ ++ data).
  { assert (E : ztake n body = zslice 0 n body) by (unfold zslice; by rewrite Z.sub_0_r).
    rewrite E, (zslice_split 0 (zlen tag_) n) by (unfold n; lia). f_equal. unfold zslice. by rewrite Z.sub_0_r. }
  exists data. split; [|done]. rewrite <- Hb, Hsum, asInt32_decode, be_bytes_decode by done.
  rewrite (assoc_L (++)), <- Hb. symmetry. apply ztake_zdrop.
Qed.

Lemma parse_sound body e o :
  zlen tag_ + 4 <= zlen body -> parse body = (e, o) ->
  match e with
  | kNoError => exists m, o = Some m /\ valid_body body m
  | kInvalidLength => False
  | _ => forall m, ~ valid_body body m
  end.
Proof.
  intros Hl Hp. assert (Hneg : e <> kNoError -> forall m, ~ valid_body body m).
  { intros He m (data & -> & Hd). rewrite (parse_valid data m Hd) in Hp. congruence. }
  destruct e; try (by apply Hneg).
  - destruct o as [m|]; [exists m; eauto using parse_no_error|]. unfold parse in Hp. by repeat case_match.
  - unfold parse in Hp. by repeat case_match.
Qed.

(** One turn on a buffer that holds a shortest frame at least. *)
Lemma turn_any b :
  tag_ok -> wf b -> zlen tag_ + 8 <= readableBytes b ->
  (exists p b', codec_turn b = Ok (if p.2 is Some m then [EMessage m] else [], b', true) /\ wf b' /\
     content b = p.1 ++ content b' /\ taken p) \/
  (exists err, codec_turn b = Ok (err, b, false) /\ stops (content b) err).
Proof.
  intros Ht Hb Hlen. assert (Hmin : kMinMessageLen = zlen tag_ + 4).
  { unfold tag_ok, kMinMessageLen, kChecksumLen in *. assert (E : kMaxMessageLen = 67108864) by reflexivity.
    pose proof (zlen_nonneg tag_). apply (wrapS_id 32); [lia|unfold in_s; lia]. }
  pose proof (content_length b Hb) as Hcl. pose proof (zlen_nonneg tag_).
  assert (Hz4 : zlen (ztake 4 (content b)) = 4) by (apply zlen_ztake; lia).
  unfold codec_turn. rewrite (peekInt32_prefix b (ztake 4 (content b)) (zdrop 4 (content b)) Hb) by (done || by rewrite ztake_zdrop).
  cbn [mbind outcome_bind]. set (len := decode_int 4 _).
  assert (Hbe : be_bytes 4 len = ztake 4 (content b)) by (by apply be_bytes_decode).
  assert (Hc : content b = be_bytes 4 len ++ zdrop 4 (content b)) by (by rewrite Hbe, ztake_zdrop).
  assert (Hl4 : zlen (zdrop 4 (content b)) = readableBytes b - 4) by (rewrite zlen_zdrop by lia; lia).
  rewrite Hmin. destruct ((kMaxMessageLen <? len) || (len <? zlen tag_ + 4)) eqn:Hrange.
  { right. eexists. split; [done|]. exists len, (zdrop 4 (content b)). split; [done|]. split.
    - apply (wrapS_range 32). lia.
    - unfold in_range. lia. }
  assert (Hin : in_range len) by (unfold in_range; lia). unfold kHeaderLen.
  destruct (Z.leb_spec (4 + len) (readableBytes b)) as [Hle|Hgt]; last first.
  { right. exists []. split; [done|]. right. exists len, (zdrop 4 (content b)). split; [done|]. split; [done|]. lia. }
  set (body := ztake len (zdrop 4 (content b))). unfold in_range in Hin.
  assert (Hbl : zlen body = len) by (apply zlen_ztake; lia).
  assert (Hpiece : ztake (4 + len) (content b) = be_bytes 4 (zlen body) ++ body).
  { rewrite Hbl. rewrite Hc at 1. unfold ztake at 1. rewrite take_app. f_equal; [apply take_ge|unfold body, ztake; f_equal];
      pose proof (zlen_be_bytes 4 len); unfold zlen in *; lia. }
  rewrite Hpiece. fold (raw (be_bytes 4 (zlen body) ++ body)).
  destruct (retrieve_spec (4 + len) b Hb) as (b' & Hr & Hb' & Hc' & _); [lia|].
  assert (Hrest : content b = (be_bytes 4 (zlen body) ++ body) ++ content b').
  { by rewrite Hc', <- Hpiece, ztake_zdrop. }
  assert (Hz : zdrop 4 (be_bytes 4 (zlen body) ++ body) = body) by (apply zdrop_app_exact; by rewrite zlen_be_bytes).
  destruct (raw (be_bytes 4 (zlen body) ++ body)) eqn:Hraw; cbn [negb]; last first.
  { left. exists (be_bytes 4 (zlen body) ++ body, None), b'. rewrite Hr. split; [done|]. split; [done|]. split; [done|].
    exists body. split; [done|]. split; [unfold in_range; lia|done]. }
  rewrite Hz. destruct (parse body) as [e o] eqn:Hp. apply parse_sound in Hp; [|lia].
  destruct e; try (by destruct Hp);
    try (right; eexists; split; [done|]; exists body, (content b'); rewrite Hrest at 1; rewrite <- (assoc_L (++));
         split_and!; [done|unfold in_range; lia|done|done]).
  destruct Hp as (m & -> & Hv). left. exists (be_bytes 4 (zlen body) ++ body, Some m), b'. rewrite Hr.
  split; [done|]. split; [done|]. split; [done|]. exists body. split; [done|]. split; [unfold in_range; lia|done].
Qed.

Lemma loop_any fuel : forall b,
  tag_ok -> wf b -> (length (content b) <= fuel)%nat ->
  exists fs err b', codec_loop fuel b = Ok ((EMessage <$> omap snd fs) ++ err, b') /\ wf b' /\
    content b = concat (fst <$> fs) ++ content b' /\ Forall taken fs /\ stops (content b') err.
Proof.
  induction fuel as [|fuel IH]; intros b Ht Hb Hfuel;
    pose proof (content_length b Hb) as Hcl; pose proof (zlen_nonneg tag_); cbn [codec_loop]; rewrite (min_length Ht);
    destruct (Z.leb_spec (zlen tag_ + 8) (readableBytes b)) as [Hle|Hlt];
    try (exists [], [], b; split_and!; [done|done|done|constructor|left; lia]).
  { unfold zlen in *. lia. }
  destruct (turn_any b Ht Hb Hle) as [(p & b1 & Hturn & Hb1 & Hc1 & Hp) | (err & Hturn & Hstop)];
    rewrite Hturn; cbn [mbind outcome_bind].
  - destruct (IH b1 Ht Hb1) as (fs & err & b2 & Hloop & Hb2 & Hc2 & Hfs & Hstop).
    { destruct Hp as (body & Hp1 & _). rewrite Hc1, Hp1, length_app, length_app in Hfuel.
      pose proof (zlen_be_bytes 4 (zlen body)). unfold zlen in *. lia. }
    rewrite Hloop. cbn [mbind outcome_bind]. exists (p :: fs), err, b2. split; [|split; [done|split; [|split; [by constructor|done]]]].
    + destruct p as [f [m|]]; done.
    + rewrite Hc1, Hc2, (assoc_L (++)). done.
  - exists [], err, b. split_and!; [done|done|done|constructor|done].
Qed.

(** C23: On any input whatever, the receive loop ends; it takes whole frames off
    the front of the buffer and hands over exactly the messages of the ones the
    raw callback lets through, each of which carries the codec's tag, a correct
    checksum and data that parse to the message handed over; then it stops, either
    silently because the next frame is not complete, or with one error because its
    length is out of range or it is not a valid frame, and leaves the rest in the
    buffer. *)
Theorem codec_any_input b :
  tag_ok -> wf b ->
  exists fs err b', onMessage b = Ok ((EMessage <$> omap snd fs) ++ err, b') /\ wf b' /\
    content b = concat (fst <$> fs) ++ content b' /\ Forall taken fs /\ stops (content b') err.
Proof. intros Ht Hb. by apply loop_any. Qed.

End codec.
Arguments event : clear implicits.

(** ** Sample: messages are byte strings, the checksum is the sum of the bytes *)
Module CodecSample.

Definition sum (l : bytes) : Z := foldr (fun c s => Z.of_N (N_of_ascii c) + s) 1 l.
Definition tag : bytes := lit "RPC0".
(** Messages that start with a question mark are kept by the raw callback. *)
Definition raw_filter (f : bytes) : bool := negb (bytes_eqb (zslice 8 9 f) (lit "?")).
Definition sample : list bytes := [lit "ab"; lit "?"; lit ""; lit "xyz"].
Definition sample_encode := encode (M := bytes) (fun _ => true) zlen id sum tag.
Definition sample_receive := receive (M := bytes) Some sum tag (Some raw_filter).
Definition wire : bytes := match mapM sample_encode sample with Ok fs => concat fs | Fault _ => [] end.
Definition cut : list bytes := [ztake 7 wire; zslice 7 40 wire; []; zdrop 40 wire].

Lemma sample_sendable : Forall (sendable (fun _ => true) zlen id Some tag) sample.
Proof. repeat constructor; vm_compute; congruence. Qed.

Lemma codec_stream_roundtrip_witness :
  exists b b', newBuffer kInitialSize = Ok b /\
    sample_receive cut b = Ok ([EMessage (lit "ab"); EMessage (lit ""); EMessage (lit "xyz")], b') /\ content b' = [].
Proof.
  destruct (codec_stream_roundtrip (fun _ => true) zlen id Some sum tag (Some raw_filter) sample) as (frames & Henc & Hrec).
  - vm_compute. congruence.
  - exact sample_sendable.
  - assert (E : mapM (encode (M := bytes) (fun _ => true) zlen id sum tag) sample = Ok frames -> concat cut = concat frames).
    { intros E. assert (F : concat cut = wire) by (vm_compute; reflexivity). rewrite F. unfold wire, sample_encode. by rewrite E. }
    apply (Hrec cut); [done| vm_compute; congruence | exact (E Henc)].
Defined.

(** Two frames, then garbage. *)
Definition bad : Buffer :=
  match newBuffer kInitialSize ≫= append (ztake 27 wire ++ lit "zzzzzzzzzzzz") with Ok b => b | Fault _ => mkBuffer [] 0 0 end.

Lemma bad_wf : wf bad.
Proof. vm_compute. split_and!; congruence. Qed.

Lemma codec_any_input_witness :
  exists fs err b', onMessage (M := bytes) Some sum tag (Some raw_filter) bad = Ok ((EMessage <$> omap snd fs) ++ err, b') /\
    content bad = concat (fst <$> fs) ++ content b' /\ stops (M := bytes) Some sum tag (Some raw_filter) (content b') err.
Proof.
  destruct (codec_any_input Some sum tag (Some raw_filter) bad) as (fs & err & b' & Hrun & _ & Hc & _ & Hs).
  - vm_compute. congruence.
  - exact bad_wf.
  - exact (ex_intro _ fs (ex_intro _ err (ex_intro _ b' (conj Hrun (conj Hc Hs))))).
Defined.

End CodecSample.
