(* ===== verification/Rpc.v ===== *)
(** * Rpc: net/protorpc/RpcChannel.h, RpcChannel.cc, RpcServer.h, RpcServer.cc,
      RpcCodec.cc, rpc.proto, base/Atomic.h

    Remote calls: a client channel numbers its calls and keeps them in a table
    until the response with the same number arrives; a server channel looks the
    service and the method up, starts the service, and sends the response when
    the service runs its closure, at any later time and in any order.  The
    messages travel between the two in order (Codec.v shows that the codec's
    byte streams carry message sequences); Protocol Buffers' messages, services
    and descriptors are parameters.  Message objects live in a memory, and using
    a deleted one is a fault.

    A client thread inside CallMethod has three atomic parts: taking a number,
    entering the table under the mutex, and sending; any number of threads
    interleave.

    Theorems: no assertion fails, no object is used after its deletion; every
    closure runs at most once, with the answer to its own request, and once
    everything has come to rest every call has been answered and every object
    deleted.  A run shows what happens when a connection goes down while a
    service is at work. *)

From S2P Require Import Prelude.

(** ** AtomicIntegerT of width w *)
Definition getAndAdd (w x value : Z) : Z * Z := (value, wrapS w (value + x)).

Definition addAndGet (w x value : Z) : outcome (Z * Z) :=
  let '(old, value) := getAndAdd w x value in
  let r := old + x in
  if bool_decide (in_s w r) then Ok (r, value) else Fault Overflow.

Definition incrementAndGet (w value : Z) : outcome (Z * Z) := addAndGet w 1 value.

(** ** rpc.proto *)
Inductive MessageType := REQUEST | RESPONSE | ERROR.
Inductive RpcErrorCode := NO_ERROR | WRONG_PROTO | NO_SERVICE | NO_METHOD | INVALID_REQUEST | INVALID_RESPONSE | TIMEOUT.

#[export] Instance RpcErrorCode_eq_dec : EqDecision RpcErrorCode.
Proof. solve_decision. Defined.

Record RpcMessage := mkRpc {
  m_type : MessageType;
  m_id : Z;                     (* fixed64: unsigned *)
  m_service : bytes;
  m_method : bytes;
  m_request : bytes;
  m_response : option bytes;
  m_error : option RpcErrorCode;
}.

Section rpc.
(** Protocol Buffers: message objects, services and their descriptors; [serve] is
    what a service leaves in the response object before it runs its closure. *)
Context {Msg Service Method : Type}.
Context (SerializeAsString : Msg -> bytes) (ParseFromString : Msg -> bytes -> bool * Msg)
  (FindMethodByName : Service -> bytes -> option Method)
  (GetRequestPrototype GetResponsePrototype : Service -> Method -> Msg)
  (serve : Service -> Method -> Msg -> Msg).

(** Message objects by address. *)
Abbreviation Mem := (gmap Z Msg).

Definition deref (mem : Mem) (a : Z) : outcome Msg := get_or UndefinedBehaviour (mem !! a).
Definition delete_object (a : Z) (mem : Mem) : outcome Mem :=
  deref mem a;; Ok (delete a mem).
Definition new_object (m : Msg) (mem : Mem) : Z * Mem :=
  let a := fresh (dom mem) in (a, <[a := m]> mem).

Record OutstandingCall := mkOut { o_response : option Z; o_done : option Z }.

Record RpcChannel := mkChannel {
  conn_ : option Z;
  id_ : Z;
  outstandings_ : gmap Z OutstandingCall;
  services_ : option (gmap bytes Service);
}.

Definition newRpcChannel (conn : option Z) : RpcChannel := mkChannel conn 0 ∅ None.
Definition setConnection (conn : option Z) (ch : RpcChannel) : RpcChannel :=
  mkChannel conn (id_ ch) (outstandings_ ch) (services_ ch).
Definition setServices (services : gmap bytes Service) (ch : RpcChannel) : RpcChannel :=
  mkChannel (conn_ ch) (id_ ch) (outstandings_ ch) (Some services).
Definition with_outstandings t (ch : RpcChannel) : RpcChannel := mkChannel (conn_ ch) (id_ ch) t (services_ ch).

(** [codec_.send(conn_, message)]: what goes to the connection. *)
Definition channel_send (message : RpcMessage) (ch : RpcChannel) : outcome (list RpcMessage) :=
  _ ← get_or UndefinedBehaviour (conn_ ch);
  Ok [message].

(** The destructor: what is still outstanding is deleted; closures are not
    objects of the memory. *)
Definition destroyRpcChannel (ch : RpcChannel) (mem : Mem) : outcome Mem :=
  foldM (fun mem p => match o_response (snd p) with Some a => delete_object a mem | None => Ok mem end)
    mem (map_to_list (outstandings_ ch)).

(** *** CallMethod and its three atomic parts *)
Record Call := mkCall {
  c_service : bytes;            (* method->service()->full_name() *)
  c_method : bytes;
  c_request : Msg;
  c_response : option Msg;      (* the response object as the caller made it *)
  c_done : option Z;
}.

Definition request_message (id : Z) (c : Call) : RpcMessage :=
  mkRpc REQUEST (u64 id) (c_service c) (c_method c) (SerializeAsString (c_request c)) None None.

Definition call_number (ch : RpcChannel) : outcome (Z * RpcChannel) :=
  '(id, v) ← incrementAndGet 64 (id_ ch);
  Ok (id, mkChannel (conn_ ch) v (outstandings_ ch) (services_ ch)).

Definition call_register (id : Z) (out : OutstandingCall) (ch : RpcChannel) : RpcChannel :=
  with_outstandings (<[id := out]> (outstandings_ ch)) ch.

Definition CallMethod (c : Call) (response : option Z) (ch : RpcChannel) : outcome (list RpcMessage * RpcChannel) :=
  '(id, ch) ← call_number ch;
  let message := request_message id c in
  let out := mkOut response (c_done c) in
  let ch := call_register id out ch in
  msgs ← channel_send message ch;
  Ok (msgs, ch).

(** *** Receiving *)

(** A service at work: the closure NewCallback bound to the channel, the response
    object and the id. *)
Record ServiceCall := mkServiceCall {
  sc_service : Service;
  sc_method : Method;
  sc_request : Msg;
  sc_response : Z;
  sc_id : Z;
}.

(** What a received message led to: messages to send, a service call started, the
    closure run with the content of its response object. *)
Record Effects := mkEffects {
  e_sent : list RpcMessage;
  e_started : option ServiceCall;
  e_ran : option (Z * Msg);
}.

Definition error_response (id : Z) (e : RpcErrorCode) : RpcMessage :=
  mkRpc RESPONSE id [] [] [] None (Some e).

Definition on_response (message : RpcMessage) (ch : RpcChannel) (mem : Mem) : outcome (Effects * RpcChannel * Mem) :=
  let id := i64 (m_id message) in
  c_assert (bool_decide (is_Some (m_response message)) || bool_decide (is_Some (m_error message)));;
  let '(out, ch) :=
    match outstandings_ ch !! id with
    | Some out => (out, with_outstandings (delete id (outstandings_ ch)) ch)
    | None => (mkOut None None, ch)
    end in
  match o_response out with
  | None => Ok (mkEffects [] None None, ch, mem)
  | Some d =>
      mem ← match m_response message with
            | Some data => r ← deref mem d; Ok (<[d := snd (ParseFromString r data)]> mem)
            | None => Ok mem
            end;
      ran ← match o_done out with
            | Some done => r ← deref mem d; Ok (Some (done, r))
            | None => Ok None
            end;
      mem ← delete_object d mem;
      Ok (mkEffects [] None ran, ch, mem)
  end.

Definition on_request (message : RpcMessage) (ch : RpcChannel) (mem : Mem) : outcome (Effects * RpcChannel * Mem) :=
  let '(error, started, mem) :=
    match services_ ch with
    | None => (NO_SERVICE, None, mem)
    | Some services =>
        match services !! m_service message with
        | None => (NO_SERVICE, None, mem)
        | Some service =>
            match FindMethodByName service (m_method message) with
            | None => (NO_METHOD, None, mem)
            | Some method =>
                match ParseFromString (GetRequestPrototype service method) (m_request message) with
                | (true, request) =>
                    let '(response, mem) := new_object (GetResponsePrototype service method) mem in
                    (NO_ERROR, Some (mkServiceCall service method request response (i64 (m_id message))), mem)
                | (false, _) => (INVALID_REQUEST, None, mem)
                end
            end
        end
    end in
  if bool_decide (error <> NO_ERROR) then
    msgs ← channel_send (error_response (m_id message) error) ch;
    Ok (mkEffects msgs started None, ch, mem)
  else Ok (mkEffects [] started None, ch, mem).

Definition onRpcMessage (conn : Z) (message : RpcMessage) (ch : RpcChannel) (mem : Mem)
  : outcome (Effects * RpcChannel * Mem) :=
  c_assert (bool_decide (conn_ ch = Some conn));;
  match m_type message with
  | RESPONSE => on_response message ch mem
  | REQUEST => on_request message ch mem
  | ERROR => Ok (mkEffects [] None None, ch, mem)
  end.

Definition doneCallback (response id : Z) (ch : RpcChannel) (mem : Mem) : outcome (list RpcMessage * Mem) :=
  r ← deref mem response;
  msgs ← channel_send (mkRpc RESPONSE (u64 id) [] [] [] (Some (SerializeAsString r)) None) ch;
  mem ← delete_object response mem;
  Ok (msgs, mem).

(** *** RpcServer *)
Definition registerService (name : bytes) (service : Service) (services : gmap bytes Service) : gmap bytes Service :=
  <[name := service]> services.

(** [onConnection]: a channel per connection, owned by the connection's context. *)
Definition onConnection (services : gmap bytes Service) (conn : Z) (connected : bool) (mem : Mem)
    (context : option RpcChannel) : outcome (option RpcChannel * Mem) :=
  mem ← match context with Some ch => destroyRpcChannel ch mem | None => Ok mem end;
  Ok (if connected then Some (setServices services (newRpcChannel (Some conn))) else None, mem).

(** ** A client process and a server process *)

(** A thread inside CallMethod: its number, message and table entry. *)
Record Pending := mkPending { p_id : Z; p_message : RpcMessage; p_out : OutstandingCall }.

Record World := mkWorld {
  client : RpcChannel;
  cmem : Mem;
  numbered : list Pending;      (* threads that have their number *)
  registered : list Pending;    (* threads that have entered the table *)
  server : option RpcChannel;
  smem : Mem;
  running : list ServiceCall;   (* services at work *)
  c2s : list RpcMessage;        (* on the way to the server *)
  s2c : list RpcMessage;
  (* history *)
  calls : list Call;
  finished : list (Z * option (Z * Msg));  (* responses taken, with the closure run *)
}.

(** The connection's name at both ends. *)
Definition the_conn : Z := 1.

Definition newWorld (services : gmap bytes Service) : outcome World :=
  '(server, smem) ← onConnection services the_conn true ∅ None;
  Ok (mkWorld (setConnection (Some the_conn) (newRpcChannel None)) ∅ [] [] server smem [] [] [] [] []).

Inductive action :=
| Number (c : Call)             (* a thread enters CallMethod *)
| Register (k : nat)            (* the k-th numbered thread enters the table *)
| Transmit (k : nat)            (* the k-th registered thread sends *)
| ServerReceives
| ClientReceives
| ServiceDone (k : nat)         (* the k-th service at work runs its closure *)
| ServerDown.                   (* the server's connection goes down *)

Definition start_call (c : Call) (w : World) : outcome World :=
  let '(response, mem) :=
    match c_response c with
    | Some r => let '(a, mem) := new_object r (cmem w) in (Some a, mem)
    | None => (None, cmem w)
    end in
  '(id, ch) ← call_number (client w);
  let p := mkPending id (request_message id c) (mkOut response (c_done c)) in
  Ok (mkWorld ch mem (numbered w ++ [p]) (registered w) (server w) (smem w) (running w) (c2s w) (s2c w)
        (calls w ++ [c]) (finished w)).

Definition server_receives (message : RpcMessage) (rest : list RpcMessage) (w : World) : outcome World :=
  ch ← get_or UndefinedBehaviour (server w);
  '(e, ch, mem) ← onRpcMessage the_conn message ch (smem w);
  Ok (mkWorld (client w) (cmem w) (numbered w) (registered w) (Some ch) mem
        (running w ++ option_list (e_started e)) rest (s2c w ++ e_sent e) (calls w) (finished w)).

Definition client_receives (message : RpcMessage) (rest : list RpcMessage) (w : World) : outcome World :=
  '(e, ch, mem) ← onRpcMessage the_conn message (client w) (cmem w);
  Ok (mkWorld ch mem (numbered w) (registered w) (server w) (smem w) (running w) (c2s w ++ e_sent e) rest
        (calls w) (finished w ++ [(i64 (m_id message), e_ran e)])).

(** The service fills the response object and runs the closure, which is bound to
    the channel by a plain pointer. *)
Definition service_done (k : nat) (sc : ServiceCall) (w : World) : outcome World :=
  ch ← get_or UndefinedBehaviour (server w);
  deref (smem w) (sc_response sc);;
  let mem := <[sc_response sc := serve (sc_service sc) (sc_method sc) (sc_request sc)]> (smem w) in
  '(msgs, mem) ← doneCallback (sc_response sc) (sc_id sc) ch mem;
  Ok (mkWorld (client w) (cmem w) (numbered w) (registered w) (server w) mem (delete k (running w))
        (c2s w) (s2c w ++ msgs) (calls w) (finished w)).

Definition step (services : gmap bytes Service) (w : World) (a : action) : outcome World :=
  match a with
  | Number c => start_call c w
  | Register k =>
      match numbered w !! k with
      | Some p =>
          Ok (mkWorld (call_register (p_id p) (p_out p) (client w)) (cmem w) (delete k (numbered w)) (registered w ++ [p])
                (server w) (smem w) (running w) (c2s w) (s2c w) (calls w) (finished w))
      | None => Ok w
      end
  | Transmit k =>
      match registered w !! k with
      | Some p =>
          msgs ← channel_send (p_message p) (client w);
          Ok (mkWorld (client w) (cmem w) (numbered w) (delete k (registered w)) (server w) (smem w) (running w)
                (c2s w ++ msgs) (s2c w) (calls w) (finished w))
      | None => Ok w
      end
  | ServerReceives => match c2s w with message :: rest => server_receives message rest w | [] => Ok w end
  | ClientReceives => match s2c w with message :: rest => client_receives message rest w | [] => Ok w end
  | ServiceDone k => match running w !! k with Some sc => service_done k sc w | None => Ok w end
  | ServerDown =>
      '(server, smem) ← onConnection services the_conn false (smem w) (server w);
      Ok (mkWorld (client w) (cmem w) (numbered w) (registered w) server smem (running w) (c2s w) (s2c w)
            (calls w) (finished w))
  end.

(** ** What each call must get *)
Section correct.
Context (services : gmap bytes Service).

(** The server's answer to a call: an error or the serialized response. *)
Definition answer (c : Call) : RpcErrorCode + bytes :=
  match services !! c_service c with
  | None => inl NO_SERVICE
  | Some service =>
      match FindMethodByName service (c_method c) with
      | None => inl NO_METHOD
      | Some method =>
          match ParseFromString (GetRequestPrototype service method) (SerializeAsString (c_request c)) with
          | (true, request) => inr (SerializeAsString (serve service method request))
          | (false, _) => inl INVALID_REQUEST
          end
      end
  end.

(** The closure that must run, with the content of the response object. *)
Definition outcome_of (c : Call) : option (Z * Msg) :=
  match c_response c, c_done c with
  | Some r, Some done =>
      Some (done, match answer c with inr data => snd (ParseFromString r data) | inl _ => r end)
  | _, _ => None
  end.

(** Call number [id]. *)
Definition call_of (cs : list Call) (id : Z) : option Call := if 1 <=? id then cs !! Z.to_nat (id - 1) else None.

Definition at_rest (w : World) : Prop :=
  numbered w = [] /\ registered w = [] /\ c2s w = [] /\ running w = [] /\ s2c w = [].

(** The calls of a list of actions. *)
Definition calls_in (l : list action) : list Call := omap (fun a => match a with Number c => Some c | _ => None end) l.

Definition reply_message (id : Z) (c : Call) : RpcMessage :=
  match answer c with
  | inl e => error_response (u64 id) e
  | inr data => mkRpc RESPONSE (u64 id) [] [] [] (Some data) None
  end.

(** ** The invariant *)
Definition cnt (l : list Z) (id : Z) : nat := count_occ Z.eq_dec l id.
#[local] Arguments cnt : simpl never.
Definition msg_id (m : RpcMessage) : Z := i64 (m_id m).

(** Where the calls are: every number given out is in one place. *)
Definition places (w : World) : list Z :=
  (p_id <$> numbered w) ++ (p_id <$> registered w) ++ (msg_id <$> c2s w) ++ (sc_id <$> running w) ++
  (msg_id <$> s2c w) ++ (fst <$> finished w).

(** A table entry fits its call: same closure, and a response object that still
    has the content the caller gave it. *)
Definition out_ok (mem : Mem) (c : Call) (o : OutstandingCall) : Prop :=
  o_done o = c_done c /\
  match o_response o with
  | Some a => exists r, c_response c = Some r /\ mem !! a = Some r
  | None => c_response c = None
  end.

(** The calls not yet finished, with the memory of the client. *)
Record open_ok (open : gmap Z OutstandingCall) (w : World) : Prop := {
  op_table : forall id o, outstandings_ (client w) !! id = Some o <-> open !! id = Some o /\ cnt (p_id <$> numbered w) id = 0%nat;
  op_dom : forall id, is_Some (open !! id) <-> 1 <= id <= zlen (calls w) /\ cnt (fst <$> finished w) id = 0%nat;
  op_out : forall id o, open !! id = Some o -> exists c, call_of (calls w) id = Some c /\ out_ok (cmem w) c o;
  op_inj : forall id1 id2 o1 o2 a, open !! id1 = Some o1 -> open !! id2 = Some o2 ->
    o_response o1 = Some a -> o_response o2 = Some a -> id1 = id2;
  op_mem : forall a r, cmem w !! a = Some r -> exists id o, open !! id = Some o /\ o_response o = Some a;
  op_numbered : Forall (fun p => open !! p_id p = Some (p_out p)) (numbered w);
}.

Definition asks (cs : list Call) (id : Z) (m : RpcMessage) : Prop :=
  exists c, call_of cs id = Some c /\ m = request_message id c.
Definition replies (cs : list Call) (m : RpcMessage) : Prop :=
  exists id c, call_of cs id = Some c /\ m = reply_message id c.
Definition serves (cs : list Call) (sc : ServiceCall) : Prop :=
  exists c, call_of cs (sc_id sc) = Some c /\
    answer c = inr (SerializeAsString (serve (sc_service sc) (sc_method sc) (sc_request sc))).
Definition ends (cs : list Call) (f : Z * option (Z * Msg)) : Prop :=
  exists c, call_of cs (fst f) = Some c /\ snd f = outcome_of c.

Record winv (w : World) : Prop := {
  wi_bound : zlen (calls w) < 2 ^ 63;
  wi_count : id_ (client w) = zlen (calls w);
  wi_conn : conn_ (client w) = Some the_conn;
  wi_server : server w = Some (setServices services (newRpcChannel (Some the_conn)));
  wi_places : forall id, cnt (places w) id = if decide (1 <= id <= zlen (calls w)) then 1%nat else 0%nat;
  wi_open : exists open, open_ok open w;
  wi_numbered : Forall (fun p => asks (calls w) (p_id p) (p_message p)) (numbered w);
  wi_registered : Forall (fun p => asks (calls w) (p_id p) (p_message p)) (registered w);
  wi_c2s : Forall (fun m => exists id, asks (calls w) id m) (c2s w);
  wi_running : Forall (serves (calls w)) (running w);
  wi_s2c : Forall (replies (calls w)) (s2c w);
  wi_finished : Forall (ends (calls w)) (finished w);
  wi_smem : NoDup (sc_response <$> running w) /\
    forall a, is_Some (smem w !! a) <-> a ∈ sc_response <$> running w;
}.

Lemma cnt_app l1 l2 id : cnt (l1 ++ l2) id = (cnt l1 id + cnt l2 id)%nat.
Proof. apply count_occ_app. Qed.

Lemma cnt_nil id : cnt [] id = 0%nat.
Proof. done. Qed.

Lemma cnt_one x id : cnt [x] id = if decide (x = id) then 1%nat else 0%nat.
Proof. unfold cnt. simpl. by destruct (Z.eq_dec x id), (decide (x = id)). Qed.

Lemma cnt_cons x l id : cnt (x :: l) id = ((if decide (x = id) then 1 else 0) + cnt l id)%nat.
Proof. rewrite <- cnt_one. apply (cnt_app [x] l). Qed.

Lemma cnt_delete {A} (f : A -> Z) l k x id :
  l !! k = Some x -> cnt (f <$> l) id = ((if decide (f x = id) then 1 else 0) + cnt (f <$> delete k l) id)%nat.
Proof.
  intros Hx. rewrite <- (take_drop_middle l k x Hx) at 1. rewrite delete_take_drop, !fmap_app, fmap_cons, !cnt_app, cnt_cons. lia.
Qed.

Lemma call_of_range cs id c : call_of cs id = Some c -> 1 <= id <= zlen cs.
Proof. unfold call_of, zlen. case_match; [|done]. intros ?%lookup_lt_Some. lia. Qed.

Lemma call_of_app cs l id c : call_of cs id = Some c -> call_of (cs ++ l) id = Some c.
Proof. unfold call_of. case_match; [|done]. apply lookup_app_l_Some. Qed.

Lemma call_of_new cs c : call_of (cs ++ [c]) (zlen cs + 1) = Some c.
Proof.
  unfold call_of. pose proof (zlen_nonneg cs). rewrite (proj2 (Z.leb_le _ _)) by lia.
  replace (Z.to_nat (zlen cs + 1 - 1)) with (length cs) by (unfold zlen; lia). by apply list_lookup_middle.
Qed.

Lemma round_id cs id c : zlen cs < 2 ^ 63 -> call_of cs id = Some c -> i64 (u64 id) = id.
Proof.
  intros Hb ?%call_of_range. rewrite wrapS_wrapU by lia. apply wrapS_id; [lia|]. unfold in_s. lia.
Qed.

Ltac count_places H :=
  let id := fresh "id" in intros id; specialize (H id); unfold places in *; cbn in H |- *;
  rewrite ?fmap_app, ?fmap_cons, ?cnt_app, ?cnt_cons, ?cnt_nil in *; cbn in H |- *.

(** *** A thread takes its number *)
Lemma mono_calls cs c :
  (forall p : Pending, asks cs (p_id p) (p_message p) -> asks (cs ++ [c]) (p_id p) (p_message p)) /\
  (forall m, (exists id, asks cs id m) -> exists id, asks (cs ++ [c]) id m) /\
  (forall sc, serves cs sc -> serves (cs ++ [c]) sc) /\
  (forall m, replies cs m -> replies (cs ++ [c]) m) /\ (forall f, ends cs f -> ends (cs ++ [c]) f).
Proof.
  unfold asks, replies, serves, ends. split_and!; intros; naive_solver eauto using call_of_app.
Qed.

Lemma open_number open w c a mem :
  open_ok open w -> winv w ->
  (if c_response c is Some r then exists x, a = Some x /\ cmem w !! x = None /\ mem = <[x := r]> (cmem w)
   else a = None /\ mem = cmem w) ->
  open_ok (<[zlen (calls w) + 1 := mkOut a (c_done c)]> open)
    (mkWorld (mkChannel (conn_ (client w)) (zlen (calls w) + 1) (outstandings_ (client w)) (services_ (client w))) mem
       (numbered w ++ [mkPending (zlen (calls w) + 1) (request_message (zlen (calls w) + 1) c) (mkOut a (c_done c))])
       (registered w) (server w) (smem w) (running w) (c2s w) (s2c w) (calls w ++ [c]) (finished w)).
Proof.
  intros [Ht Hd Ho Hi Hm Hn] Hw Hmem. set (n := zlen (calls w)). set (o := mkOut a (c_done c)).
  assert (Hnew : open !! (n + 1) = None).
  { apply eq_None_not_Some. rewrite Hd. unfold n. lia. }
  assert (Hkeep : forall x r, cmem w !! x = Some r -> mem !! x = Some r).
  { intros x r Hx. destruct (c_response c) as [r'|]; [destruct Hmem as (y & _ & Hy & ->)|by destruct Hmem as [_ ->]].
    rewrite lookup_insert_ne; [done|congruence]. }
  assert (Hfresh : forall id o' x, open !! id = Some o' -> o_response o' = Some x -> a <> Some x).
  { intros id o' x Hid Hx ->. destruct (Ho _ _ Hid) as (c' & _ & _ & Hr). rewrite Hx in Hr. destruct Hr as (r & _ & Hr).
    destruct (c_response c); [destruct Hmem as (y & [= <-] & Hy & _); congruence|by destruct Hmem]. }
  split; cbn.
  - intros id o'. rewrite fmap_app, cnt_app. cbn [fmap list_fmap p_id]. rewrite cnt_one, Ht. destruct (decide (n + 1 = id)) as [<-|Hne].
    + rewrite Hnew, lookup_insert_eq. split; [intros [? _]; done|lia].
    + rewrite lookup_insert_ne by done. by rewrite Nat.add_0_r.
  - intros id. rewrite zlen_app. change (zlen [c]) with 1. fold n. destruct (decide (n + 1 = id)) as [<-|Hne].
    + rewrite lookup_insert_eq. pose proof (wi_places w Hw (n + 1)) as Hp. unfold places in Hp. rewrite !cnt_app in Hp.
      rewrite decide_False in Hp by (fold n; lia). split; [|eauto]. intros _.
      pose proof (zlen_nonneg (calls w)) as Hnn. fold n in Hnn. split; [lia|].
      lia.
    + rewrite lookup_insert_ne, Hd by done. fold n. split; intros [? ?]; split; (lia || done).
  - intros id o' Hid. destruct (decide (n + 1 = id)) as [<-|Hne].
    + rewrite lookup_insert_eq in Hid. injection Hid as <-. exists c. split; [apply call_of_new|]. split; [done|]. cbn.
      destruct (c_response c) as [r|]; [destruct Hmem as (y & -> & _ & ->)|by destruct Hmem as [-> ->]].
      exists r. by rewrite lookup_insert_eq.
    + rewrite lookup_insert_ne in Hid by done. destruct (Ho _ _ Hid) as (c' & Hc & Hdn & Hr). exists c'.
      split; [by apply call_of_app|]. split; [done|]. destruct (o_response o') as [x|]; [|done]. destruct Hr as (r & ? & ?). eauto.
  - intros id1 id2 o1 o2 x H1 H2 E1 E2. rewrite lookup_insert_Some in H1, H2.
    destruct H1 as [[<- <-]|[? H1]], H2 as [[<- <-]|[? H2]]; try done; try (by eapply Hi); cbn in *; exfalso; by eapply Hfresh.
  - intros x r Hx. destruct (decide (a = Some x)) as [->|Hne].
    + exists (n + 1), o. by rewrite lookup_insert_eq.
    + assert (Hx' : cmem w !! x = Some r).
      { destruct (c_response c) as [r'|]; [destruct Hmem as (y & -> & _ & ->)|by destruct Hmem as [_ ->]].
        by rewrite lookup_insert_ne in Hx by congruence. }
      destruct (Hm _ _ Hx') as (id & o' & Hid & Ho'). exists id, o'. rewrite lookup_insert_ne; [done|]. congruence.
  - apply Forall_app. split; [|constructor; [by rewrite lookup_insert_eq|constructor]].
    eapply Forall_impl; [exact Hn|]. intros p Hp. cbn in *. rewrite lookup_insert_ne; [done|]. congruence.
Qed.

Lemma inv_number w c : winv w -> zlen (calls w) + 1 < 2 ^ 63 -> exists w', start_call c w = Ok w' /\ winv w' /\ calls w' = calls w ++ [c].
Proof.
  intros Hw Hb. pose proof (zlen_nonneg (calls w)). unfold start_call.
  destruct (match c_response c with Some r => _ | None => _ end) as [a mem] eqn:Ha.
  assert (Hmem : if c_response c is Some r then exists x, a = Some x /\ cmem w !! x = None /\ mem = <[x := r]> (cmem w)
   else a = None /\ mem = cmem w).
  { destruct (c_response c) as [r|]; [|by injection Ha as <- <-]. unfold new_object in Ha. injection Ha as <- <-.
    eexists. split; [done|]. split; [|done]. apply not_elem_of_dom. apply is_fresh. }
  unfold call_number, incrementAndGet, addAndGet, getAndAdd. rewrite (wi_count w Hw).
  rewrite (bool_decide_eq_true_2 (in_s 64 _)) by (unfold in_s; lia). cbn [mbind outcome_bind].
  rewrite wrapS_id by (try unfold in_s; lia). eexists. split; [done|]. split; [|done].
  destruct (wi_open w Hw) as [open Hopen]. pose proof (open_number open w c a mem Hopen Hw Hmem) as Hopen'.
  destruct (mono_calls (calls w) c) as (M1 & M2 & M3 & M4 & M5). pose proof Hw as Hw0.
  destruct Hw as [Hbd Hc Hcn Hs Hp _ H1 H2 H3 H4 H5 H6 H7].
  split; cbn; try done; try (by eapply Forall_impl); try (rewrite zlen_app; change (zlen [c]) with 1; lia).
  - count_places Hp. rewrite zlen_app. change (zlen [c]) with 1.
    repeat case_decide; lia.
  - eauto.
  - apply Forall_app. split; [by eapply Forall_impl|]. constructor; [|constructor]. exists c. split; [apply call_of_new|done].
Qed.

(** *** It enters the table *)
Lemma inv_register w k p :
  winv w -> numbered w !! k = Some p -> exists w', step services w (Register k) = Ok w' /\ winv w' /\ calls w' = calls w.
Proof.
  intros Hw Hk. cbn [step]. rewrite Hk. eexists. split; [done|]. split; [|done].
  destruct Hw as [Hbd Hc Hcn Hs Hp [open [Ht Hd Ho Hi Hm Hn]] H1 H2 H3 H4 H5 H6 H7].
  assert (Hone : cnt (p_id <$> numbered w) (p_id p) = S (cnt (p_id <$> delete k (numbered w)) (p_id p)))
    by (rewrite (cnt_delete p_id _ k p) by done; rewrite decide_True by done; done).
  assert (Hzero : cnt (p_id <$> delete k (numbered w)) (p_id p) = 0%nat).
  { specialize (Hp (p_id p)). unfold places in Hp. rewrite !cnt_app in Hp. case_decide; lia. }
  split; cbn; try done.
  - count_places Hp. rewrite (cnt_delete p_id (numbered w) k p _ Hk) in Hp. lia.
  - exists open. split; cbn; try done.
    + intros id o. destruct (decide (p_id p = id)) as [<-|Hne].
      * rewrite lookup_insert_eq, Hzero. pose proof (proj1 (Forall_lookup _ _) Hn k p Hk) as Hpk. cbn in Hpk. rewrite Hpk. naive_solver.
      * rewrite lookup_insert_ne, Ht by done. rewrite (cnt_delete p_id (numbered w) k p _ Hk), decide_False by done. done.
    + by apply Forall_delete.
  - by apply Forall_delete.
  - apply Forall_app. split; [done|]. constructor; [|constructor]. exact (proj1 (Forall_lookup _ _) H1 k p Hk).
Qed.

(** *** It sends *)
Lemma inv_transmit w k p :
  winv w -> registered w !! k = Some p -> exists w', step services w (Transmit k) = Ok w' /\ winv w' /\ calls w' = calls w.
Proof.
  intros Hw Hk. cbn [step]. rewrite Hk. unfold channel_send. rewrite (wi_conn w Hw). cbn [get_or mbind outcome_bind].
  eexists. split; [done|]. split; [|done].
  destruct Hw as [Hbd Hc Hcn Hs Hp [open [Ht Hd Ho Hi Hm Hn]] H1 H2 H3 H4 H5 H6 H7].
  pose proof (proj1 (Forall_lookup _ _) H2 k p Hk) as (c & Hcall & Hmsg).
  split; cbn; try done.
  - count_places Hp. rewrite (cnt_delete p_id (registered w) k p _ Hk) in Hp.
    assert (E : msg_id (p_message p) = p_id p) by (rewrite Hmsg; by eapply round_id). rewrite E. lia.
  - exists open. by split.
  - by apply Forall_delete.
  - apply Forall_app. split; [done|]. constructor; [|constructor]. exists (p_id p), c. done.
Qed.

(** *** The server takes a request *)
Lemma on_request_spec id c mem :
  exists e mem', on_request (request_message id c) (setServices services (newRpcChannel (Some the_conn))) mem =
      Ok (e, setServices services (newRpcChannel (Some the_conn)), mem') /\ e_ran e = None /\
    match answer c with
    | inl _ => e_sent e = [reply_message id c] /\ e_started e = None /\ mem' = mem
    | inr data => e_sent e = [] /\ exists sc, e_started e = Some sc /\ sc_id sc = i64 (u64 id) /\
        data = SerializeAsString (serve (sc_service sc) (sc_method sc) (sc_request sc)) /\
        mem !! sc_response sc = None /\ is_Some (mem' !! sc_response sc) /\
        forall a, a <> sc_response sc -> mem' !! a = mem !! a
    end.
Proof.
  unfold on_request, answer, reply_message, answer. cbn [services_ setServices m_service m_method m_request request_message].
  destruct (services !! c_service c) as [sv|]; [|by eexists _, _]. destruct (FindMethodByName sv (c_method c)) as [me|]; [|by eexists _, _].
  destruct (ParseFromString _ _) as [[|] q]; [|by eexists _, _]. unfold new_object.
  eexists _, _. split; [done|]. split; [done|]. split; [done|]. eexists. split; [done|]. cbn.
  split; [done|]. split; [done|]. split; [apply not_elem_of_dom, is_fresh|]. rewrite lookup_insert_eq. split; [done|].
  intros a Ha. by rewrite lookup_insert_ne.
Qed.

Lemma inv_server_receives w m rest :
  winv w -> c2s w = m :: rest -> exists w', step services w ServerReceives = Ok w' /\ winv w' /\ calls w' = calls w.
Proof.
  intros Hw Hq. cbn [step]. rewrite Hq. unfold server_receives. rewrite (wi_server w Hw). cbn [get_or mbind outcome_bind].
  pose proof (wi_c2s w Hw) as Hc2s. rewrite Hq in Hc2s. apply Forall_cons in Hc2s as [(id & c & Hcall & ->) Hrest].
  unfold onRpcMessage. rewrite bool_decide_eq_true_2 by done. cbn [c_assert mbind outcome_bind m_type request_message].
  destruct (on_request_spec id c (smem w)) as (e & mem' & He & _ & Hans). rewrite He. cbn [mbind outcome_bind].
  eexists. split; [done|]. split; [|done].
  destruct Hw as [Hbd Hc Hcn Hs Hp [open [Ht Hd Ho Hi Hm Hn]] H1 H2 H3 H4 H5 H6 [H7 H8]].
  assert (Hround : i64 (u64 id) = id) by (by eapply round_id).
  assert (Hmid : msg_id (request_message id c) = id) by done.
  assert (Hrid : msg_id (reply_message id c) = id) by (unfold reply_message; destruct (answer c); done).
  destruct (answer c) as [err|data] eqn:Ha.
  - destruct Hans as (-> & -> & ->). cbn. rewrite app_nil_r. split; cbn; try done.
    + count_places Hp. rewrite Hq, fmap_cons, cnt_cons, Hmid in Hp. rewrite Hrid. lia.
    + exists open. by split.
    + apply Forall_app. split; [done|]. constructor; [|constructor]. by exists id, c.
  - destruct Hans as (-> & sc & -> & Hid & Hdata & Hnew & Hsome & Hkeep). cbn. rewrite app_nil_r. rewrite Hround in Hid. split; cbn; try done.
    + count_places Hp. rewrite Hq, fmap_cons, cnt_cons, Hmid in Hp. rewrite Hid. lia.
    + exists open. by split.
    + apply Forall_app. split; [done|]. constructor; [|constructor]. exists c. rewrite Hid. split; [done|]. by rewrite Ha, Hdata.
    + rewrite fmap_app. cbn. split.
      * apply NoDup_app. split; [done|]. split; [|apply NoDup_singleton]. intros x Hx ->%list_elem_of_singleton.
        apply H8 in Hx. rewrite Hnew in Hx. by destruct Hx.
      * intros a. rewrite elem_of_app, list_elem_of_singleton. destruct (decide (a = sc_response sc)) as [->|Hne]; [naive_solver|].
        rewrite Hkeep, H8 by done. naive_solver.
Qed.

(** *** A service runs its closure *)
Lemma inv_service_done w k sc :
  winv w -> running w !! k = Some sc -> exists w', step services w (ServiceDone k) = Ok w' /\ winv w' /\ calls w' = calls w.
Proof.
  intros Hw Hk. cbn [step]. rewrite Hk. unfold service_done. rewrite (wi_server w Hw). cbn [get_or mbind outcome_bind].
  destruct Hw as [Hbd Hc Hcn Hs Hp [open [Ht Hd Ho Hi Hm Hn]] H1 H2 H3 H4 H5 H6 [H7 H8]].
  assert (Hin : sc_response sc ∈ sc_response <$> running w) by (apply list_elem_of_fmap_2; by eapply list_elem_of_lookup_2).
  destruct (proj2 (H8 _) Hin) as [r0 Hr0]. unfold deref at 1. rewrite Hr0. cbn [get_or mbind outcome_bind].
  unfold doneCallback, delete_object, deref, channel_send. rewrite lookup_insert_eq. cbn [get_or mbind outcome_bind conn_ setServices newRpcChannel].
  eexists. split; [done|]. split; [|done]. pose proof (proj1 (Forall_lookup _ _) H4 k sc Hk) as (c & Hcall & Hans).
  split; cbn; try done.
  - count_places Hp. rewrite (cnt_delete sc_id (running w) k sc _ Hk) in Hp.
    assert (E : forall d, msg_id (mkRpc RESPONSE (u64 (sc_id sc)) [] [] [] d None) = sc_id sc)
      by (intros d; by eapply round_id).
    rewrite E. lia.
  - exists open. by split.
  - by apply Forall_delete.
  - apply Forall_app. split; [done|]. constructor; [|constructor]. exists (sc_id sc), c. split; [done|]. unfold reply_message. by rewrite Hans.
  - rewrite <- (take_drop_middle _ k sc Hk), fmap_app, fmap_cons in H7, H8. rewrite delete_take_drop, fmap_app.
    apply NoDup_app in H7 as (Hn1 & Hn2 & Hn3). apply NoDup_cons in Hn3 as [Hn3 Hn4]. split.
    + apply NoDup_app. split; [done|]. split; [|done]. intros x Hx Hx'. apply (Hn2 x Hx). by right.
    + intros a. rewrite delete_insert_eq. specialize (H8 a). rewrite elem_of_app, elem_of_cons in H8. rewrite elem_of_app.
      destruct (decide (a = sc_response sc)) as [->|Hne].
      * rewrite lookup_delete_eq. split; [by intros []|]. intros [Hx|Hx]; [|done]. exfalso. apply (Hn2 _ Hx). by left.
      * rewrite lookup_delete_ne by done. rewrite H8. naive_solver.
Qed.

(** *** The client takes a response *)
Lemma on_response_spec id c ch mem o :
  i64 (u64 id) = id -> outstandings_ ch !! id = Some o -> out_ok mem c o ->
  exists e mem', on_response (reply_message id c) ch mem =
      Ok (e, with_outstandings (delete id (outstandings_ ch)) ch, mem') /\
    e_sent e = [] /\ e_ran e = outcome_of c /\
    mem' = match o_response o with Some a => delete a mem | None => mem end.
Proof.
  intros Hid Hlook [Hdone Hresp]. unfold on_response, reply_message, outcome_of.
  destruct (answer c) as [err|data]; cbn [m_id m_response m_error error_response]; rewrite Hid, Hlook;
    rewrite ?bool_decide_eq_true_2 by eauto; rewrite ?orb_true_r; cbn [orb c_assert mbind outcome_bind];
    destruct (o_response o) as [a|]; try (rewrite Hresp; by eexists _, _);
    destruct Hresp as (r & -> & Hr); rewrite <- Hdone; unfold delete_object, deref.
  - rewrite Hr. destruct (o_done o); cbn [get_or mbind outcome_bind]; by eexists _, _.
  - rewrite Hr. cbn [get_or mbind outcome_bind]. rewrite lookup_insert_eq. cbn [get_or mbind outcome_bind].
    rewrite delete_insert_eq. destruct (o_done o); cbn [get_or mbind outcome_bind]; by eexists _, _.
Qed.

Lemma open_finish open w id o c ran rest ch :
  open_ok open w -> open !! id = Some o -> call_of (calls w) id = Some c -> cnt (p_id <$> numbered w) id = 0%nat ->
  outstandings_ ch = delete id (outstandings_ (client w)) ->
  open_ok (delete id open)
    (mkWorld ch (match o_response o with Some a => delete a (cmem w) | None => cmem w end)
       (numbered w) (registered w) (server w) (smem w) (running w) (c2s w) rest (calls w) (finished w ++ [(id, ran)])).
Proof.
  intros [Ht Hd Ho Hi Hm Hn] Hid Hcall Hnum Hch. split; cbn.
  - intros i o'. rewrite Hch, !lookup_delete_Some, Ht. naive_solver.
  - intros i. rewrite fmap_app, cnt_app. change (fst <$> [(id, ran)]) with [id].
    rewrite cnt_one, lookup_delete_is_Some, Hd. case_decide; naive_solver lia.
  - intros i o' [Hne Hi']%lookup_delete_Some. destruct (Ho _ _ Hi') as (c' & Hc' & Hdn & Hr). exists c'. split; [done|]. split; [done|].
    destruct (o_response o') as [x|] eqn:Ex; [|done]. destruct Hr as (r & ? & Hr). exists r. split; [done|].
    destruct (o_response o) as [y|] eqn:Ey; [|done]. rewrite lookup_delete_ne; [done|]. intros ->. apply Hne. by eapply Hi.
  - intros i1 i2 o1 o2 a [_ A]%lookup_delete_Some [_ B]%lookup_delete_Some. by eapply Hi.
  - intros x r Hx. assert (Hx' : cmem w !! x = Some r /\ o_response o <> Some x).
    { destruct (o_response o) as [y|]; [|done]. apply lookup_delete_Some in Hx as [? ?]. split; [done|congruence]. }
    destruct Hx' as [Hx' Hne]. destruct (Hm _ _ Hx') as (i & o' & Hi' & Hr'). exists i, o'. rewrite lookup_delete_ne; [done|].
    intros <-. congruence.
  - apply Forall_forall. intros p Hp. pose proof (proj1 (Forall_forall _ _) Hn p Hp) as Hpp. cbn in Hpp. rewrite lookup_delete_ne; [done|].
    intros ->. unfold cnt in Hnum. apply (count_occ_not_In Z.eq_dec) in Hnum. apply Hnum, list_elem_of_In. by apply list_elem_of_fmap_2.
Qed.

Lemma inv_client_receives w m rest :
  winv w -> s2c w = m :: rest -> exists w', step services w ClientReceives = Ok w' /\ winv w' /\ calls w' = calls w.
Proof.
  intros Hw Hq. cbn [step]. rewrite Hq. unfold client_receives.
  destruct Hw as [Hbd Hc Hcn Hs Hp [open Hopen] H1 H2 H3 H4 H5 H6 H7]. pose proof Hopen as [Ht Hd Ho _ _ _].
  rewrite Hq in H5. apply Forall_cons in H5 as [(id & c & Hcall & ->) H5].
  assert (Hround : i64 (u64 id) = id) by (by eapply round_id).
  assert (Hmid : msg_id (reply_message id c) = id) by (unfold reply_message; by destruct (answer c)).
  assert (Hz : cnt (p_id <$> numbered w) id = 0%nat /\ cnt (fst <$> finished w) id = 0%nat).
  { specialize (Hp id). unfold places in Hp. rewrite Hq, fmap_cons, !cnt_app, cnt_cons, Hmid, decide_True in Hp by done.
    case_decide; lia. }
  destruct Hz as [Hz1 Hz2]. destruct (proj2 (Hd id)) as [o Hid]; [by apply call_of_range in Hcall|].
  destruct (Ho _ _ Hid) as (c' & Hc' & Hout). rewrite Hcall in Hc'. injection Hc' as <-.
  unfold onRpcMessage. rewrite Hcn, bool_decide_eq_true_2 by done. cbn [c_assert mbind outcome_bind].
  assert (E : m_type (reply_message id c) = RESPONSE) by (unfold reply_message; by destruct (answer c)). rewrite E.
  destruct (on_response_spec id c (client w) (cmem w) o Hround) as (e & mem' & -> & Hsent & Hran & ->); [by apply Ht|done|].
  cbn [mbind outcome_bind]. rewrite Hsent, app_nil_r. fold (msg_id (reply_message id c)). rewrite Hmid.
  eexists. split; [done|]. split; [|done]. split; cbn; try done.
  - count_places Hp. rewrite Hq, fmap_cons, cnt_cons, Hmid in Hp. lia.
  - exists (delete id open). by eapply open_finish.
  - apply Forall_app. split; [done|]. constructor; [|constructor]. by exists c.
Qed.

(** *** Whole runs *)
Lemma inv_step w a :
  winv w -> a <> ServerDown -> zlen (calls w ++ calls_in [a]) < 2 ^ 63 ->
  exists w', step services w a = Ok w' /\ winv w' /\ calls w' = calls w ++ calls_in [a].
Proof.
  intros Hw Ha Hb.
  assert (Hstay : calls_in [a] = [] -> (exists w', step services w a = Ok w' /\ winv w' /\ calls w' = calls w) ->
    exists w', step services w a = Ok w' /\ winv w' /\ calls w' = calls w ++ calls_in [a]).
  { intros -> ?. by rewrite app_nil_r. }
  destruct a as [c|k|k| | |k|]; [|apply Hstay; [done|]..].
  - apply inv_number; [done|]. cbn in Hb. rewrite zlen_app in Hb. exact Hb.
  - destruct (numbered w !! k) eqn:E; [by eapply inv_register|]. cbn [step]. rewrite E. eauto.
  - destruct (registered w !! k) eqn:E; [by eapply inv_transmit|]. cbn [step]. rewrite E. eauto.
  - destruct (c2s w) eqn:E; [|by eapply inv_server_receives]. cbn [step]. rewrite E. eauto.
  - destruct (s2c w) eqn:E; [|by eapply inv_client_receives]. cbn [step]. rewrite E. eauto.
  - destruct (running w !! k) eqn:E; [by eapply inv_service_done|]. cbn [step]. rewrite E. eauto.
  - done.
Qed.

Lemma inv_run l : forall w,
  winv w -> ServerDown ∉ l -> zlen (calls w ++ calls_in l) < 2 ^ 63 ->
  exists w', foldM (step services) w l = Ok w' /\ winv w' /\ calls w' = calls w ++ calls_in l.
Proof.
  induction l as [|a l IH]; intros w Hw Hl Hb; [exists w; cbn; by rewrite app_nil_r|].
  apply not_elem_of_cons in Hl as [Ha Hl].
  assert (E : calls_in (a :: l) = calls_in [a] ++ calls_in l) by (by destruct a). rewrite E, (assoc_L (++)) in *.
  destruct (inv_step w a Hw) as (w1 & Hs & Hw1 & Hc1); [congruence| |].
  { rewrite zlen_app in Hb. pose proof (zlen_nonneg (calls_in l)). lia. }
  destruct (IH w1 Hw1 Hl) as (w2 & Hr & Hw2 & Hc2); [by rewrite Hc1|]. exists w2. cbn [foldM]. rewrite Hs. cbn [mbind outcome_bind].
  rewrite Hc2, Hc1. done.
Qed.

Lemma rpc_inv_new : exists w, newWorld services = Ok w /\ winv w /\ calls w = [].
Proof.
  eexists. split; [done|]. split; [|done]. split; cbn; try done.
  - intros id. case_decide; [|done]. change (zlen (@nil Call)) with 0 in *. lia.
  - exists ∅. split; cbn; try done.
    + intros id o. by rewrite lookup_empty; split; [|intros [? _]].
    + intros id. rewrite lookup_empty. change (zlen (@nil Call)) with 0. split; [by intros []|lia].
  - split; [constructor|]. intros a. rewrite lookup_empty. split; [by intros []|by intros ?%elem_of_nil].
Qed.

(** *** Destruction *)
Definition address (p : Z * OutstandingCall) : option Z := o_response (snd p).

Lemma destroy_each (l : list (Z * OutstandingCall)) : forall mem : Mem,
  NoDup (omap address l) -> (forall a, a ∈ omap address l -> is_Some (mem !! a)) ->
  exists mem', foldM (fun mem p => match o_response (snd p) with Some a => delete_object a mem | None => Ok mem end) mem l = Ok mem' /\
    forall a, a ∈ omap address l \/ mem !! a = None -> mem' !! a = None.
Proof.
  induction l as [|[id o] l IH]; intros mem Hnd Hlive; [exists mem; split; [done|]; intros a [?%elem_of_nil|?]; done|].
  cbn [foldM snd]. cbn [omap list_omap] in Hnd, Hlive. unfold address in Hnd, Hlive at 1. cbn [snd] in Hnd, Hlive.
  assert (Eo : forall x, x ∈ omap address ((id, o) :: l) <-> o_response o = Some x \/ x ∈ omap address l).
  { intros x. cbn [omap list_omap]. unfold address at 1. cbn [snd]. destruct (o_response o); rewrite ?elem_of_cons; naive_solver. }
  destruct (o_response o) as [a|].
  - apply NoDup_cons in Hnd as [Hna Hnd]. unfold delete_object, deref. destruct (Hlive a) as [r Hr]; [by left|]. rewrite Hr.
    cbn [get_or mbind outcome_bind]. destruct (IH (delete a mem) Hnd) as (mem' & Hm & Hall).
    { intros x Hx. rewrite lookup_delete_ne by (intros ->; done). apply Hlive. by right. }
    exists mem'. split; [done|]. intros x Hx. apply Hall. rewrite Eo in Hx. destruct (decide (x = a)) as [->|Hne].
    + right. apply lookup_delete_eq.
    + rewrite lookup_delete_ne by done. naive_solver.
  - destruct (IH mem Hnd Hlive) as (mem' & Hm & Hall). exists mem'. split; [done|]. intros x Hx. apply Hall. rewrite Eo in Hx. naive_solver.
Qed.

Lemma destroy_client w : winv w -> numbered w = [] -> destroyRpcChannel (client w) (cmem w) = Ok ∅.
Proof.
  intros Hw Hnum. destruct (wi_open w Hw) as [open [Ht Hd Ho Hi Hm _]]. rewrite Hnum in Ht.
  assert (Hopen : forall id o, (id, o) ∈ map_to_list (outstandings_ (client w)) <-> open !! id = Some o).
  { intros id o. rewrite elem_of_map_to_list, Ht. naive_solver. }
  destruct (destroy_each (map_to_list (outstandings_ (client w))) (cmem w)) as (mem' & Hrun & Hall).
  - assert (Hnd := NoDup_map_to_list (outstandings_ (client w))).
    assert (Hin : forall p q a, p ∈ map_to_list (outstandings_ (client w)) -> q ∈ map_to_list (outstandings_ (client w)) ->
      address p = Some a -> address q = Some a -> p = q).
    { intros [i1 o1] [i2 o2] a P Q A B. apply Hopen in P, Q. assert (i1 = i2) as <- by (by eapply Hi). congruence. }
    clear -Hnd Hin. induction Hnd as [|p l Hp Hnd IH]; cbn [omap list_omap]; [constructor|]. destruct (address p) as [a|] eqn:Ea.
    + constructor; [|apply IH; intros; eapply Hin; eauto; by right]. intros (q & Hq & Hqa)%list_elem_of_omap.
      assert (p = q) as <- by (eapply Hin; eauto; [by left|by right]). done.
    + apply IH; intros; eapply Hin; eauto; by right.
  - intros a ([id o] & Hp & Ha)%list_elem_of_omap. apply Hopen in Hp. destruct (Ho _ _ Hp) as (c & _ & _ & Hr).
    unfold address in Ha. cbn in Ha. rewrite Ha in Hr. destruct Hr as (r & _ & ->). by eexists.
  - unfold destroyRpcChannel. rewrite Hrun. f_equal. apply map_eq. intros a. rewrite lookup_empty. apply Hall.
    destruct (cmem w !! a) as [r|] eqn:Ea; [left|by right]. destruct (Hm _ _ Ea) as (id & o & Hid & Hr).
    apply list_elem_of_omap. exists (id, o). by rewrite Hopen.
Qed.

(** *** At rest *)
Lemma elem_of_cnt l id : id ∈ l <-> (0 < cnt l id)%nat.
Proof. rewrite list_elem_of_In. apply count_occ_In. Qed.

Lemma rest_finished w :
  winv w -> at_rest w ->
  (forall id c, call_of (calls w) id = Some c -> (id, outcome_of c) ∈ finished w) /\
  outstandings_ (client w) = ∅ /\ cmem w = ∅ /\ smem w = ∅.
Proof.
  intros Hw (E1 & E2 & E3 & E4 & E5). destruct Hw as [Hbd Hc Hcn Hs Hp [open [Ht Hd Ho Hi Hm Hn]] H1 H2 H3 H4 H5 H6 [H7 H8]].
  assert (Hall : forall id, 1 <= id <= zlen (calls w) -> id ∈ fst <$> finished w).
  { intros id Hid. apply elem_of_cnt. specialize (Hp id). unfold places in Hp. rewrite E1, E2, E3, E4, E5, decide_True in Hp by done.
    cbn [fmap list_fmap app] in Hp. lia. }
  assert (Hclosed : forall id, open !! id = None).
  { intros id. apply eq_None_not_Some. rewrite Hd. intros [Hid Hz]. apply Hall, elem_of_cnt in Hid. lia. }
  split_and!.
  - intros id c Hcall. pose proof (call_of_range _ _ _ Hcall) as Hid. apply Hall, list_elem_of_fmap in Hid as ([i r] & -> & Hin).
    pose proof (proj1 (Forall_forall _ _) H6 _ Hin) as (c' & Hc' & Hr). cbn in *. rewrite Hcall in Hc'. injection Hc' as <-. by rewrite <- Hr.
  - apply map_eq. intros id. rewrite lookup_empty. apply eq_None_not_Some. intros [o Ho']. apply Ht in Ho' as [Ho' _]. by rewrite Hclosed in Ho'.
  - apply map_eq. intros a. rewrite lookup_empty. apply eq_None_not_Some. intros [r Hr]. apply Hm in Hr as (id & o & Hid & _). by rewrite Hclosed in Hid.
  - apply map_eq. intros a. rewrite lookup_empty. apply eq_None_not_Some. rewrite H8, E4. apply not_elem_of_nil.
Qed.

(** C16: Any number of client threads make fewer than 2^63 calls to a server through
    one channel whose connection does not go down, and services answer when they like
    and in any order: no assertion fails and no deleted object is used; a closure runs
    at most once, with the answer to its own request (the default response where the
    server reports an error), and never if its call gave no response object; once no
    call is under way and the streams are empty, every call has been answered, the
    table is empty and every message object has been deleted; and destroying the
    channel at any time no thread is about to enter the table deletes exactly the
    objects still alive. *)
Theorem rpc_calls_answered l
  (Hlive : ServerDown ∉ l) (Hcount : zlen (calls_in l) < 2 ^ 63) :
  exists w0 w, newWorld services = Ok w0 /\ foldM (step services) w0 l = Ok w /\
    NoDup (fst <$> finished w) /\
    (forall id r, (id, r) ∈ finished w -> exists c, call_of (calls_in l) id = Some c /\ r = outcome_of c) /\
    (at_rest w -> (forall id c, call_of (calls_in l) id = Some c -> (id, outcome_of c) ∈ finished w) /\
       outstandings_ (client w) = ∅ /\ cmem w = ∅ /\ smem w = ∅) /\
    (numbered w = [] -> destroyRpcChannel (client w) (cmem w) = Ok ∅).
Proof.
  destruct rpc_inv_new as (w0 & Hnew & Hw0 & Hc0). destruct (inv_run l w0 Hw0 Hlive) as (w & Hrun & Hw & Hc); [by rewrite Hc0|].
  rewrite Hc0 in Hc. cbn in Hc. exists w0, w. split; [done|]. split; [done|]. rewrite <- Hc. split_and!.
  - apply NoDup_ListNoDup, (NoDup_count_occ Z.eq_dec). intros id. pose proof (wi_places w Hw id) as Hp. unfold places in Hp.
    rewrite !cnt_app in Hp. unfold cnt in Hp. case_decide; lia.
  - intros id r Hin. exact (proj1 (Forall_forall _ _) (wi_finished w Hw) _ Hin).
  - by apply rest_finished.
  - by apply destroy_client.
Qed.

End correct.

End rpc.

(** ** Sample: messages are byte strings, one service with one method that echoes *)
Module RpcSample.

Definition parse (old data : bytes) : bool * bytes :=
  if bytes_eqb data (lit "bad") then (false, []) else (true, data).
Definition find_method (s : unit) (name : bytes) : option unit := if bytes_eqb name (lit "Echo") then Some tt else None.
Definition echo (s m : unit) (request : bytes) : bytes := lit "re:" ++ request.
Definition services : gmap bytes unit := registerService (lit "EchoService") tt ∅.
Definition sample_step := step (Msg := bytes) id parse find_method (fun _ _ => []) (fun _ _ => []) echo services.

Definition call (service method request : bytes) (done : Z) : Call := mkCall service method request (Some (lit "-")) (Some done).
(** Two calls answered in the opposite order, one to an unknown method, one bad
    request; the third thread overtakes the second. *)
Definition sample_calls : list Call :=
  [call (lit "EchoService") (lit "Echo") (lit "a") 101; call (lit "EchoService") (lit "Echo") (lit "b") 102;
   call (lit "EchoService") (lit "Nope") (lit "c") 103; call (lit "EchoService") (lit "Echo") (lit "bad") 104].
Definition sample : list (action (Msg := bytes)) :=
  (Number <$> sample_calls) ++
  [Register 0; Transmit 0; Register 1; Transmit 0; Register 0; Register 0; Transmit 1; Transmit 0;
   ServerReceives; ServerReceives; ServerReceives; ServerReceives; ServiceDone 1; ServiceDone 0;
   ClientReceives; ClientReceives; ClientReceives; ClientReceives].

Lemma sample_live : ServerDown ∉ sample.
Proof. rewrite list_elem_of_In. cbn. intuition discriminate. Qed.

Lemma rpc_calls_answered_witness :
  exists w0 w, newWorld (Msg := bytes) services = Ok w0 /\ foldM sample_step w0 sample = Ok w /\
    finished w = [(3, Some (103, lit "-")); (4, Some (104, lit "-")); (2, Some (102, lit "re:b")); (1, Some (101, lit "re:a"))] /\
    destroyRpcChannel (client w) (cmem w) = Ok ∅.
Proof.
  destruct (rpc_calls_answered id parse find_method (fun _ _ => []) (fun _ _ => []) echo services sample sample_live)
    as (w0 & w & Hnew & Hrun & _ & _ & _ & Hdestroy).
  - vm_compute. reflexivity.
  - exists w0, w. split; [exact Hnew|]. split; [exact Hrun|].
    assert (Hp : (w0 ← newWorld (Msg := bytes) services; (fun w => (finished w, numbered w)) <$> foldM sample_step w0 sample) =
      Ok ([(3, Some (103, lit "-")); (4, Some (104, lit "-")); (2, Some (102, lit "re:b")); (1, Some (101, lit "re:a"))], []))
      by (vm_compute; reflexivity).
    rewrite Hnew in Hp. cbn [mbind outcome_bind] in Hp. unfold sample_step in Hp. rewrite Hrun in Hp. injection Hp as H1 H2.
    split; [exact H1|]. exact (Hdestroy H2).
Defined.

(** A service that answers after the connection went down runs a closure bound to
    the channel the server has destroyed. *)
Theorem done_after_down_uses_dead_channel :
  (w0 ← newWorld (Msg := bytes) services;
   foldM sample_step w0
     [Number (call (lit "EchoService") (lit "Echo") (lit "a") 101); Register 0; Transmit 0; ServerReceives; ServerDown; ServiceDone 0])
  = Fault UndefinedBehaviour.
Proof. by vm_compute. Qed.

End RpcSample.
