(* ===== verification/TcpClient.v ===== *)
(** * TcpClient: net/TcpClient.h, net/TcpClient.cc

    The client: a Connector (the machine of Connector.v, whole) whose new sockets
    become connections, one at a time.  A connection is seen from outside, by
    where it is in its life; its channel is not among those of the connector's
    loop state.  The connectDestroyed functors of connections are a queue of
    their own.

    Theorems: used with one connect(), then any mix of disconnect, stop,
    enableRetry and connections going down, and destroyed in the loop thread, the
    client respects the connector's protocol, so that no assertion of either
    fails; it has at most one connection up, the one it points to; every socket
    the connector hands out becomes one connection; and with retry on a
    connection that goes down is followed by a new attempt.  Runs show connect()
    a second time, and a client destroyed in another thread or inside its
    connection callback. *)

From S2P Require Import Prelude Format Channel Poller EventLoop Connector.

Module TcpClient.

(** The life of a connection; [Detached]: its close callback is
    detail::removeConnection, [Bound]: TcpClient::removeConnection of this client. *)
Inductive life := Up | Down | Gone.
Inductive close_callback := Bound | Detached.

#[global] Instance life_eq_dec : EqDecision life.
Proof. solve_decision. Defined.

Record Conn := mkConn { c_name : bytes; c_sock : Z; c_life : life; c_close : close_callback }.
Definition set_life s (o : Conn) : Conn := mkConn (c_name o) (c_sock o) s (c_close o).
Definition setCloseCallback cb (o : Conn) : Conn := mkConn (c_name o) (c_sock o) (c_life o) cb.

Section client.
Context {P : Type} `{PL : PollerLaws P}.
Abbreviation Connector := (Connector.Connector P).

Record Client := mkClient {
  name_ : bytes;
  retry_ : bool;
  connect_ : bool;
  nextConnId_ : Z;
  connection_ : option nat;
}.

(** The client (None once it is destroyed), its connector (None once its last
    reference is gone), the connection objects, and the functors not yet run. *)
Record World := mkWorld {
  client : option Client;
  connector_ : option Connector;
  conns : list Conn;            (* an address is a position *)
  destroys : list nat;            (* connectDestroyed *)
  rebinds : list nat;             (* setCloseCallback, from another thread *)
}.

Definition newTcpClient (loop : Loop.EventLoop P) (name : bytes) : World :=
  mkWorld (Some (mkClient name false true 1 None)) (Some (Connector.newConnector loop)) [] [] [].

Definition this (w : World) : outcome Client := get_or UndefinedBehaviour (client w).
Definition the_connector (w : World) : outcome Connector := get_or UndefinedBehaviour (connector_ w).
Definition object (w : World) (c : nat) : outcome Conn := get_or UndefinedBehaviour (conns w !! c).

Definition with_client t (w : World) : World := mkWorld (Some t) (connector_ w) (conns w) (destroys w) (rebinds w).
Definition with_connector c (w : World) : World := mkWorld (client w) (Some c) (conns w) (destroys w) (rebinds w).
Definition with_conn c o (w : World) : World :=
  mkWorld (client w) (connector_ w) (<[c := o]> (conns w)) (destroys w) (rebinds w).
Definition with_connect b (t : Client) : Client := mkClient (name_ t) (retry_ t) b (nextConnId_ t) (connection_ t).

(** *** The user's calls *)
Definition enableRetry (w : World) : outcome World :=
  t ← this w;
  Ok (with_client (mkClient (name_ t) true (connect_ t) (nextConnId_ t) (connection_ t)) w).

Definition connect (inLoopThread : bool) (a : Connector.attempt) (w : World) : outcome World :=
  t ← this w;
  let w := with_client (with_connect true t) w in
  c ← the_connector w;
  c ← Connector.start inLoopThread a c;
  Ok (with_connector c w).

(** [disconnect]; shutdown() acts inside the connection. *)
Definition disconnect (w : World) : outcome World :=
  t ← this w;
  match connection_ t with
  | Some conn => _ ← object w conn; Ok (with_client (with_connect false t) w)
  | None => Ok (with_client (with_connect false t) w)
  end.

Definition stop (w : World) : outcome World :=
  t ← this w;
  let w := with_client (with_connect false t) w in
  c ← the_connector w;
  Ok (with_connector (Connector.stop c) w).

(** *** Callbacks *)

(** The name of a connection; [peer] is the text of the peer's address. *)
Definition connName (peer : bytes) (t : Client) : bytes :=
  name_ t ++ snprintf 32 (lit ":" ++ peer ++ lit "#" ++ dec (nextConnId_ t)).

Definition newConnection (peer : bytes) (sockfd : Z) (w : World) : outcome World :=
  t ← this w;
  if nextConnId_ t =? 2 ^ 31 - 1 then Fault Overflow
  else
    let conn := length (conns w) in
    let o := mkConn (connName peer t) sockfd Up Bound in
    let t := mkClient (name_ t) (retry_ t) (connect_ t) (nextConnId_ t + 1) (Some conn) in
    Ok (mkWorld (Some t) (connector_ w) (conns w ++ [o]) (destroys w) (rebinds w)).

Definition removeConnection (conn : nat) (a : Connector.attempt) (w : World) : outcome World :=
  t ← this w;
  c_assert (bool_decide (connection_ t = Some conn));;
  let t := mkClient (name_ t) (retry_ t) (connect_ t) (nextConnId_ t) None in
  let w := mkWorld (Some t) (connector_ w) (conns w) (destroys w ++ [conn]) (rebinds w) in
  if retry_ t && connect_ t then
    c ← the_connector w;
    c ← Connector.restart a c;
    Ok (with_connector c w)
  else Ok w.

(** detail::removeConnection. *)
Definition detail_removeConnection (conn : nat) (w : World) : World :=
  mkWorld (client w) (connector_ w) (conns w) (destroys w ++ [conn]) (rebinds w).

(** A connection that is up goes down (handleClose), and tells its owner. *)
Definition close (conn : nat) (a : Connector.attempt) (w : World) : outcome World :=
  o ← object w conn;
  c_assert (bool_decide (c_life o = Up));;
  let w := with_conn conn (set_life Down o) w in
  match c_close o with
  | Bound => removeConnection conn a w
  | Detached => Ok (detail_removeConnection conn w)
  end.

Definition connectDestroyed (conn : nat) (w : World) : outcome World :=
  o ← object w conn;
  Ok (with_conn conn (set_life Gone o) w).

(** The connector's socket is writable; a new socket goes to [newConnection]. *)
Definition write_ready (err : Z) (isSelfConnect : bool) (peer : bytes) (w : World) : outcome World :=
  c ← the_connector w;
  c' ← Connector.handleWrite err isSelfConnect c;
  let w := with_connector c' w in
  match drop (length (Connector.handed c)) (Connector.handed c') with
  | sockfd :: _ => newConnection peer sockfd w
  | [] => Ok w
  end.

(** The destructor.  With a connection the connector loses its last reference;
    forceClose of a connection nobody else holds acts inside it.  Without one the
    connector is stopped and kept for a second. *)
Definition destroyTcpClient (inLoopThread : bool) (w : World) : outcome World :=
  t ← this w;
  match connection_ t with
  | Some conn =>
      o ← object w conn;
      c ← the_connector w;
      Connector.destroyConnector c;;
      Ok (if inLoopThread
          then mkWorld None None (<[conn := setCloseCallback Detached o]> (conns w)) (destroys w) (rebinds w)
          else mkWorld None None (conns w) (destroys w) (rebinds w ++ [conn]))
  | None =>
      c ← the_connector w;
      Ok (mkWorld None (Some (Connector.stop c)) (conns w) (destroys w) (rebinds w))
  end.

(** The reference that runAfter(1, removeConnector) held is dropped; a retry timer
    still holds one. *)
Definition keep_alive_expires (w : World) : outcome World :=
  match client w, connector_ w with
  | None, Some c =>
      if bool_decide (Connector.timers c = []) then
        Connector.destroyConnector c;;
        Ok (mkWorld None None (conns w) (destroys w) (rebinds w))
      else Ok w
  | _, _ => Ok w
  end.

(** *** One step *)
Inductive event :=
| EConnect (inLoopThread : bool) (a : Connector.attempt)
| EDisconnect
| EStop
| EEnableRetry
| EFunctor (a : Connector.attempt)           (* a functor of the connector *)
| ETimer (a : Connector.attempt)             (* a retry timer *)
| EWrite (err : Z) (isSelfConnect : bool) (peer : bytes)
| EError
| EClose (conn : nat) (a : Connector.attempt)  (* a connection goes down *)
| EDestroyed                                 (* a connectDestroyed runs *)
| ERebind                                    (* a setCloseCallback runs *)
| EDestroyClient (inLoopThread : bool)
| EExpire.

Definition on_connector (f : Connector -> outcome Connector) (w : World) : outcome World :=
  c ← the_connector w;
  c ← f c;
  Ok (with_connector c w).

Definition step (w : World) (e : event) : outcome World :=
  match e with
  | EConnect inLoop a => connect inLoop a w
  | EDisconnect => disconnect w
  | EStop => stop w
  | EEnableRetry => enableRetry w
  | EFunctor a => on_connector (fun c => Connector.step c (Connector.RunFunctor a)) w
  | ETimer a => on_connector (fun c => Connector.step c (Connector.TimerFires a)) w
  | EWrite err self peer => write_ready err self peer w
  | EError => on_connector Connector.handleError w
  | EClose conn a => close conn a w
  | EDestroyed =>
      match destroys w with
      | [] => Ok w
      | conn :: rest => connectDestroyed conn (mkWorld (client w) (connector_ w) (conns w) rest (rebinds w))
      end
  | ERebind =>
      match rebinds w with
      | [] => Ok w
      | conn :: rest =>
          o ← object w conn;
          Ok (with_conn conn (setCloseCallback Detached o) (mkWorld (client w) (connector_ w) (conns w) (destroys w) rest))
      end
  | EDestroyClient inLoop => destroyTcpClient inLoop w
  | EExpire => keep_alive_expires w
  end.

(** ** The protocol *)

(** [S0] is what else is registered with the loop. *)
Context (S0 : Spec).

(** One connect(); stop() and disconnect() at will; the client destroyed in the
    loop thread, outside the turn in which its connector has functors to run when
    it has a connection.  Connections go down after the turn that established
    them; the other events are the connector's. *)
Inductive permitted : Connector.usage -> World -> event -> Connector.usage -> Prop :=
| permit_connect w inLoop a t :
    client w = Some t -> Connector.attempt_ok S0 a -> permitted Connector.Unused w (EConnect inLoop a) Connector.Active
| permit_disconnect u w t : client w = Some t -> permitted u w EDisconnect u
| permit_stop u w t : client w = Some t -> permitted u w EStop Connector.Stopped
| permit_retry u w t : client w = Some t -> permitted u w EEnableRetry u
| permit_functor u w a c :
    connector_ w = Some c -> Connector.attempt_ok S0 a -> permitted u w (EFunctor a) u
| permit_timer u w a c :
    connector_ w = Some c -> Connector.queued Connector.FReset (Connector.functors c) = O ->
    Connector.attempt_ok S0 a -> permitted u w (ETimer a) u
| permit_write u w err self peer c :
    connector_ w = Some c -> Connector.state_ c = Connector.kConnecting -> permitted u w (EWrite err self peer) u
| permit_error u w c :
    connector_ w = Some c -> Connector.state_ c = Connector.kConnecting -> permitted u w EError u
| permit_close u w k o a :
    conns w !! k = Some o -> c_life o = Up ->
    (forall c, connector_ w = Some c -> Connector.queued Connector.FReset (Connector.functors c) = O) ->
    Connector.attempt_ok S0 a -> permitted u w (EClose k a) u
| permit_destroyed u w : permitted u w EDestroyed u
| permit_rebind u w : permitted u w ERebind u
| permit_destroy_up u w t k c :
    client w = Some t -> connection_ t = Some k -> connector_ w = Some c -> Connector.functors c = [] ->
    permitted u w (EDestroyClient true) u
| permit_destroy u w t :
    client w = Some t -> connection_ t = None -> permitted u w (EDestroyClient true) Connector.Stopped
| permit_expire u w :
    (forall c, connector_ w = Some c -> Connector.functors c = []) -> permitted u w EExpire u.

Inductive uses : Connector.usage -> World -> list event -> Connector.usage -> Prop :=
| uses_nil u w : uses u w [] u
| uses_cons u u1 u2 w e l : permitted u w e u1 -> (forall w', step w e = Ok w' -> uses u1 w' l u2) ->
    uses u w (e :: l) u2.

(** ** The invariant *)
Definition up (w : World) (k : nat) : Prop := exists o, conns w !! k = Some o /\ c_life o = Up.

Record winv (u : Connector.usage) (w : World) : Prop := {
  wi_connector : match connector_ w with
    | Some c => Connector.cinv S0 u c /\ c_sock <$> conns w = Connector.handed c /\
        (forall k, up w k -> Connector.state_ c = Connector.kConnected)
    | None => client w = None
    end;
  wi_client : match client w with
    | Some t => is_Some (connector_ w) /\ (u = Connector.Stopped -> connect_ t = false) /\
        nextConnId_ t = Z.of_nat (length (conns w)) + 1 /\ (forall k, connection_ t = Some k <-> up w k) /\
        (forall k o, conns w !! k = Some o -> c_life o = Up -> c_close o = Bound)
    | None => (forall k o, conns w !! k = Some o -> c_life o = Up -> c_close o = Detached) /\
        (is_Some (connector_ w) -> u = Connector.Stopped)
    end;
  wi_one : forall k1 k2, up w k1 -> up w k2 -> k1 = k2;
  wi_destroys : forall k o, conns w !! k = Some o -> c_life o = Down -> k ∈ destroys w;
  wi_live : forall k, k ∈ destroys w -> exists o, conns w !! k = Some o /\ c_life o <> Up;
  wi_rebinds : rebinds w = [];
}.

(** ** What the connector does to its history *)
Lemma retry_handed fd (c : Connector) : Connector.handed (Connector.retry fd c) = Connector.handed c.
Proof. unfold Connector.retry. cbn. by destruct (Connector.connect_ c). Qed.

Lemma remove_keeps (c : Connector) fd c' :
  Connector.removeAndResetChannel c = Ok (fd, c') ->
  Connector.handed c' = Connector.handed c /\ Connector.connect_ c' = Connector.connect_ c.
Proof. unfold Connector.removeAndResetChannel. intros Hr. inv_ok. by subst. Qed.

Lemma startInLoop_handed a (c c' : Connector) : Connector.startInLoop a c = Ok c' -> Connector.handed c' = Connector.handed c.
Proof.
  unfold Connector.startInLoop, Connector.connect, Connector.connecting. intros Hr. inv_ok.
  destruct (Connector.connect_ c); [|by simplify_eq]. inv_ok. case_match; inv_ok; subst; rewrite ?retry_handed; done.
Qed.

Lemma start_handed inLoop a (c c' : Connector) : Connector.start inLoop a c = Ok c' -> Connector.handed c' = Connector.handed c.
Proof. unfold Connector.start. destruct inLoop; [by intros ?%startInLoop_handed|by intros [= <-]]. Qed.

Lemma restart_handed a (c c' : Connector) :
  Connector.attempt_ok S0 a -> Connector.restart a c = Ok c' ->
  Connector.handed c' = Connector.handed c /\ exists fd, Connector.opened c' = Connector.opened c ++ [fd].
Proof.
  intros (fd & Hs & _) Hr. split; [by apply startInLoop_handed in Hr|]. exists fd. revert Hr.
  unfold Connector.restart, Connector.startInLoop, Connector.connect, Connector.connecting. cbn. rewrite Hs. cbn.
  intros Hr. case_match; inv_ok; subst; unfold Connector.retry; done.
Qed.

Lemma lost_handed (c c' : Connector) fd c1 :
  Connector.removeAndResetChannel c = Ok (fd, c1) -> Connector.handed (Connector.retry fd c1) = Connector.handed c.
Proof. intros [Hh _]%remove_keeps. by rewrite retry_handed. Qed.

(** Functors and timers of the connector. *)
Definition quiet_event (e : Connector.event) : Prop :=
  match e with Connector.RunFunctor _ | Connector.TimerFires _ => True | _ => False end.

Lemma quiet_handed e (c c' : Connector) : quiet_event e -> Connector.step c e = Ok c' -> Connector.handed c' = Connector.handed c.
Proof.
  destruct e as [| | |a|a| |]; cbn [quiet_event Connector.step]; try done; intros _.
  - destruct (Connector.functors c) as [|f rest]; [by intros [= <-]|]. destruct f.
    + by intros ?%startInLoop_handed.
    + unfold Connector.stopInLoop. case_match; [|by intros [= <-]]. intros Hr. inv_ok.
      match goal with H : Connector.removeAndResetChannel _ = Ok ?p |- _ => destruct p as [fd c1]; apply remove_keeps in H as [Hh _] end.
      simplify_eq. by rewrite retry_handed.
    + unfold Connector.resetChannel. case_match; [|by intros [= <-]]. intros Hr. inv_ok. by subst.
  - destruct (Connector.timers c); [by intros [= <-]|]. by intros ?%startInLoop_handed.
Qed.

Lemma error_handed (c c' : Connector) : Connector.handleError c = Ok c' -> Connector.handed c' = Connector.handed c.
Proof.
  unfold Connector.handleError. case_match; [|by intros [= <-]]. intros Hr. inv_ok.
  match goal with H : Connector.removeAndResetChannel _ = Ok ?p |- _ => destruct p as [fd c1]; apply remove_keeps in H as [Hh _] end.
  simplify_eq. by rewrite retry_handed.
Qed.

Lemma write_handed err self (c c' : Connector) :
  Connector.handleWrite err self c = Ok c' ->
  Connector.handed c' = Connector.handed c \/
  exists fd, Connector.handed c' = Connector.handed c ++ [fd] /\ Connector.state_ c' = Connector.kConnected /\
    Connector.connect_ c = true.
Proof.
  unfold Connector.handleWrite. case_match; [|intros Hr; inv_ok; subst; by left]. intros Hr. inv_ok.
  match goal with H : Connector.removeAndResetChannel _ = Ok ?p |- _ => destruct p as [fd c1]; apply remove_keeps in H as [Hh Hc] end.
  repeat case_match; simplify_eq; rewrite ?retry_handed; cbn; rewrite ?Hh; auto. right. exists fd. by rewrite <- Hc.
Qed.

(** A connected connector has no start pending, so its functors leave it so. *)
Lemma connected_stays u e (c c' : Connector) :
  Connector.cinv S0 u c -> Connector.state_ c = Connector.kConnected -> quiet_event e -> Connector.step c e = Ok c' ->
  Connector.state_ c' = Connector.kConnected.
Proof.
  intros Hc Hk He. assert (Hs : Connector.starts c = O).
  { destruct (decide (Connector.starts c = O)) as [|Hne]; [done|]. destruct (Connector.pending_start S0 u c Hc) as (Hx & _); [lia|]. congruence. }
  unfold Connector.starts in Hs. destruct e as [| | |a|a| |]; cbn [quiet_event Connector.step] in *; try done.
  - destruct (Connector.functors c) as [|f rest] eqn:Ef; [by intros [= <-]|]. rewrite Connector.queued_cons in Hs. destruct f.
    + rewrite decide_True in Hs by done. lia.
    + unfold Connector.stopInLoop. cbn. rewrite Hk. cbn. by intros [= <-].
    + unfold Connector.resetChannel. cbn [Connector.channel_ Connector.with_functors].
      destruct (Connector.channel_ c); [|by intros [= <-]]. intros Hr. inv_ok. by subst.
  - destruct (Connector.timers c); [by intros [= <-]|]. cbn in Hs. lia.
Qed.

(** ** Steps *)

(** The connector moves, the connections stay. *)
Lemma inv_connector u u' w c c' :
  winv u w -> connector_ w = Some c -> Connector.cinv S0 u' c' -> Connector.handed c' = Connector.handed c ->
  (forall k, up w k -> Connector.state_ c' = Connector.kConnected) ->
  (u' = u \/ (u = Connector.Unused /\ u' = Connector.Active /\ is_Some (client w))) ->
  winv u' (with_connector c' w).
Proof.
  intros [Hc Ht Ho Hd Hl Hr] Ec Hc' Hh Hup Hu. rewrite Ec in Hc, Ht. split; cbn; try done.
  - destruct Hc as (_ & Hs & _). by rewrite Hh.
  - destruct (client w) as [t|].
    + destruct Ht as (_ & Hst & Hn & Hk & Hb). split_and!; try done. destruct Hu as [->|(_ & -> & _)]; done.
    + destruct Ht as [Hb Hst]. split; [done|]. intros _. destruct Hu as [->|(_ & _ & [x Hx])]; [by apply Hst|done].
Qed.

Lemma inv_client u u' w t t' :
  winv u w -> client w = Some t -> connection_ t' = connection_ t -> nextConnId_ t' = nextConnId_ t ->
  (u' = u /\ (connect_ t' = connect_ t \/ connect_ t' = false)) ->
  winv u' (with_client t' w).
Proof.
  intros [Hc Ht Ho Hd Hl Hr] Et Ek En [-> Hcn]. rewrite Et in Ht. destruct Ht as (Hs & Hst & Hn & Hk & Hb). split; cbn; try done.
  - destruct (connector_ w); [done|]. by destruct Hs.
  - rewrite Ek, En. split_and!; try done. intros Hu. destruct Hcn as [-> | ->]; [by apply Hst|done].
Qed.

Lemma inv_connect u w e u' inLoop a :
  winv u w -> permitted u w e u' -> e = EConnect inLoop a -> exists w', step w e = Ok w' /\ winv u' w'.
Proof.
  intros Hw Hp ->. inversion Hp as [? ? ? t Et Ha| | | | | | | | | | | | |]; subst. cbn [step]. unfold connect, this. rewrite Et. cbn [get_or mbind outcome_bind].
  pose proof (wi_connector _ _ Hw) as Hc. pose proof (wi_client _ _ Hw) as Ht. rewrite Et in Ht. destruct Ht as ([c Ec] & Hst & Hn & Hk & Hb).
  rewrite Ec in Hc. destruct Hc as (Hc & Hs & Hup). unfold the_connector. cbn [connector_ with_client]. rewrite Ec. cbn [get_or mbind outcome_bind].
  destruct (Connector.start_ok S0 c inLoop a Hc Ha) as (c' & Hr & Hc'). rewrite Hr. cbn [mbind outcome_bind].
  eexists. split; [done|]. assert (Hno : forall k, ~ up w k).
  { intros k Hk'. specialize (Hup k Hk'). destruct Hc as [_ (Hx & _) _ _ _]. congruence. }
  destruct Hw as [_ _ Ho Hd Hl Hrb]. split; cbn; try done.
  - split; [done|]. split; [by rewrite (start_handed _ _ _ _ Hr)|]. intros k Hk'. by destruct (Hno k).
Qed.

Lemma inv_stop u w t : winv u w -> client w = Some t -> exists w', step w EStop = Ok w' /\ winv Connector.Stopped w'.
Proof.
  intros Hw Et. cbn [step]. unfold stop, this. rewrite Et. cbn [get_or mbind outcome_bind].
  destruct Hw as [Hc Ht Ho Hd Hl Hrb]. rewrite Et in Ht. destruct Ht as ([c Ec] & Hst & Hn & Hk & Hb).
  rewrite Ec in Hc. destruct Hc as (Hc & Hs & Hup). unfold the_connector. cbn [connector_ with_client]. rewrite Ec. cbn [get_or mbind outcome_bind].
  eexists. split; [done|]. split; cbn; try done. split; [by eapply Connector.stop_ok|]. done.
Qed.

Lemma inv_quiet u w c f e :
  winv u w -> connector_ w = Some c -> quiet_event e -> f = (fun c => Connector.step c e) -> Connector.permitted S0 u c e u ->
  exists w', on_connector f w = Ok w' /\ winv u w'.
Proof.
  intros Hw Ec He -> Hp. pose proof (wi_connector _ _ Hw) as Hc. rewrite Ec in Hc. destruct Hc as (Hc & Hs & Hup).
  unfold on_connector, the_connector. rewrite Ec. cbn [get_or mbind outcome_bind].
  destruct (Connector.step_ok S0 u c e u Hc Hp) as (c' & Hr & Hc'). rewrite Hr. cbn [mbind outcome_bind].
  eexists. split; [done|]. apply (inv_connector u u w c c'); auto.
  - by eapply quiet_handed.
  - intros k Hk. by eapply (connected_stays u e c c' Hc (Hup k Hk)).
Qed.

Lemma connecting_none_up u w c : winv u w -> connector_ w = Some c -> Connector.state_ c = Connector.kConnecting -> forall k, ~ up w k.
Proof.
  intros Hw Ec Hk k Hup. pose proof (wi_connector _ _ Hw) as Hc. rewrite Ec in Hc. destruct Hc as (_ & _ & Hx).
  rewrite (Hx k Hup) in Hk. done.
Qed.

Lemma inv_error u w c :
  winv u w -> connector_ w = Some c -> Connector.state_ c = Connector.kConnecting ->
  exists w', step w EError = Ok w' /\ winv u w'.
Proof.
  intros Hw Ec Hk. pose proof (wi_connector _ _ Hw) as Hc. rewrite Ec in Hc. destruct Hc as (Hc & Hs & Hup).
  cbn [step]. unfold on_connector, the_connector. rewrite Ec. cbn [get_or mbind outcome_bind].
  destruct (Connector.step_ok S0 u c Connector.ErrorReady u Hc) as (c' & Hr & Hc'); [by constructor|]. cbn [Connector.step] in Hr.
  rewrite Hr. cbn [mbind outcome_bind]. eexists. split; [done|]. apply (inv_connector u u w c c'); auto using error_handed.
  intros k Hu. by destruct (connecting_none_up u w c Hw Ec Hk k).
Qed.

Lemma up_app w o k cl ct ds rb :
  up (mkWorld cl ct (conns w ++ [o]) ds rb) k <-> up w k \/ (k = length (conns w) /\ c_life o = Up).
Proof.
  unfold up. cbn. split.
  - intros (x & [Hx|[Hge Hx]]%lookup_app_Some & Hu); [left; eauto|right].
    apply list_lookup_singleton_Some in Hx as [Hz <-]. split; [lia|done].
  - intros [(x & Hx & Hu)|[-> Hu]].
    + exists x. split; [by apply lookup_app_l_Some|done].
    + exists o. split; [by apply list_lookup_middle|done].
Qed.

Lemma inv_write u w c err self peer :
  winv u w -> connector_ w = Some c -> Connector.state_ c = Connector.kConnecting ->
  Z.of_nat (length (conns w)) < 2 ^ 31 - 2 ->
  exists w', step w (EWrite err self peer) = Ok w' /\ winv u w' /\ (length (conns w') <= S (length (conns w)))%nat.
Proof.
  intros Hw Ec Hk Hb. pose proof (wi_connector _ _ Hw) as Hc. rewrite Ec in Hc. destruct Hc as (Hc & Hs & Hup).
  pose proof (connecting_none_up u w c Hw Ec Hk) as Hno.
  cbn [step]. unfold write_ready, the_connector. rewrite Ec. cbn [get_or mbind outcome_bind].
  destruct (Connector.step_ok S0 u c (Connector.WriteReady err self) u Hc) as (c' & Hr & Hc'); [by constructor|]. cbn [Connector.step] in Hr.
  rewrite Hr. cbn [mbind outcome_bind]. destruct (write_handed err self c c' Hr) as [Hh|(fd & Hh & Hst & Hcn)]; rewrite Hh.
  - rewrite drop_all. eexists. split; [done|]. split; [|cbn; lia]. apply (inv_connector u u w c c'); auto.
    intros k Hu. by destruct (Hno k).
  - rewrite drop_app_length. destruct Hw as [_ Ht Ho Hd Hl Hrb]. unfold newConnection, this. cbn [client with_connector].
    assert (Hu : u <> Connector.Stopped).
    { intros ->. destruct Hc as [_ (Hx & _) _ _ _]. congruence. }
    rewrite Ec in Ht. destruct (client w) as [t|] eqn:Et; [|destruct Ht as [_ Hx]; destruct Hu; apply Hx; by eexists].
    destruct Ht as (_ & _ & Hn & Hcon & Hbnd). cbn [get_or mbind outcome_bind]. rewrite (proj2 (Z.eqb_neq _ _)) by lia.
    eexists. split; [done|]. split; [|cbn; rewrite length_app; cbn; lia].
    set (o := mkConn _ fd Up Bound).
    assert (Hone : forall k cl ct ds rb, up (mkWorld cl ct (conns w ++ [o]) ds rb) k <-> k = length (conns w)).
    { intros k cl ct ds rb. rewrite up_app. split; [intros [Hk'|[? _]]; [by destruct (Hno k)|done]|auto]. }
    split; cbn.
    + split; [done|]. split; [|done]. by rewrite fmap_app, Hs, Hh.
    + split; [by eexists|]. split; [done|]. split; [rewrite length_app; cbn; lia|]. split.
      * intros k. rewrite Hone. naive_solver.
      * intros k x [Hx|[_ Hx]]%lookup_app_Some Hlife; [by eapply Hbnd|]. by apply list_lookup_singleton_Some in Hx as [_ <-].
    + intros k1 k2. rewrite !Hone. by intros -> ->.
    + intros k x [Hx|[_ Hx]]%lookup_app_Some Hlife; [by eapply Hd|]. by apply list_lookup_singleton_Some in Hx as [_ <-].
    + intros k (x & Hx & Hlife)%Hl. exists x. split; [by apply lookup_app_l_Some|done].
    + done.
Qed.

(** One connection changes: it goes down, or is gone. *)
Lemma up_set w k o s cl ct ds rb j :
  conns w !! k = Some o -> s <> Up ->
  (up (mkWorld cl ct (<[k := set_life s o]> (conns w)) ds rb) j <-> up w j /\ j <> k).
Proof.
  intros Hk Hs. unfold up. cbn. destruct (decide (j = k)) as [->|Hne].
  - rewrite list_lookup_insert_eq by (by eapply lookup_lt_Some). split; [intros (x & [= <-] & Hx); cbn in Hx; congruence|by intros [_ []]].
  - rewrite list_lookup_insert_ne by done. naive_solver.
Qed.

Lemma sock_set (l : list Conn) k o s : l !! k = Some o -> c_sock <$> <[k := set_life s o]> l = c_sock <$> l.
Proof. intros Hk. rewrite list_fmap_insert. apply list_insert_id. by rewrite list_lookup_fmap, Hk. Qed.

Lemma lookup_set (l : list Conn) k o s j x :
  l !! k = Some o -> <[k := set_life s o]> l !! j = Some x -> (j = k /\ x = set_life s o) \/ (j <> k /\ l !! j = Some x).
Proof.
  intros Hk. destruct (decide (j = k)) as [->|Hne].
  - rewrite list_lookup_insert_eq by (by eapply lookup_lt_Some). intros [= <-]. by left.
  - rewrite list_lookup_insert_ne by done. by right.
Qed.

(** What a connection going down does to the connections. *)
Lemma inv_down u w k o t' ct' :
  winv u w -> conns w !! k = Some o -> c_life o = Up ->
  match ct' with
  | Some c' => Connector.cinv S0 u c' /\ c_sock <$> conns w = Connector.handed c'
  | None => t' = None
  end ->
  match t' with
  | Some t' => exists t, client w = Some t /\ is_Some ct' /\ connect_ t' = connect_ t /\ nextConnId_ t' = nextConnId_ t /\ connection_ t' = None
  | None => client w = None /\ (is_Some ct' -> is_Some (connector_ w))
  end ->
  winv u (mkWorld t' ct' (<[k := set_life Down o]> (conns w)) (destroys w ++ [k]) (rebinds w)).
Proof.
  intros [Hc Ht Ho Hd Hl Hr] Hk Hup Hct Htt. assert (Hupk : up w k) by (by exists o).
  assert (Hnone : forall j cl ct ds rb, ~ up (mkWorld cl ct (<[k := set_life Down o]> (conns w)) ds rb) j).
  { intros j cl ct ds rb Hj. rewrite up_set in Hj by done. destruct Hj as [Hj Hne]. by rewrite (Ho j k Hj Hupk) in Hne. }
  split; cbn.
  - destruct ct' as [c'|]; [|done]. destruct Hct as [? Hs]. split; [done|]. split; [by rewrite sock_set|].
    intros j Hj. by destruct (Hnone _ _ _ _ _ Hj).
  - destruct t' as [t'|].
    + destruct Htt as (t & Et & Hs & E1 & E2 & E3). rewrite Et in Ht. destruct Ht as (_ & Hst & Hn & _ & _).
      split; [done|]. rewrite E1, E2, length_insert. split; [done|]. split; [done|]. rewrite E3. split.
      * intros j. split; [done|]. intros Hj. by destruct (Hnone _ _ _ _ _ Hj).
      * intros j x Hx Hlife. destruct (Hnone j None None [] []). by exists x.
    + destruct Htt as [Et Hs]. rewrite Et in Ht. destruct Ht as [_ Hst]. split; [|by auto].
      intros j x Hx Hlife. destruct (Hnone j None None [] []). by exists x.
  - intros k1 k2 H1. by destruct (Hnone _ _ _ _ _ H1).
  - intros j x Hx Hlife. rewrite elem_of_app, list_elem_of_singleton. apply (lookup_set _ _ _ _ _ _ Hk) in Hx as [[-> ->]|[Hne Hx]]; [by right|]. left. by eapply Hd.
  - intros j. rewrite elem_of_app, list_elem_of_singleton. intros Hj. destruct (decide (j = k)) as [->|Hne].
    + eexists. rewrite list_lookup_insert_eq by (by eapply lookup_lt_Some). done.
    + rewrite list_lookup_insert_ne by done. destruct Hj as [Hj|Hj]; [by apply Hl|done].
  - done.
Qed.

Lemma inv_close u w k o a :
  winv u w -> conns w !! k = Some o -> c_life o = Up ->
  (forall c, connector_ w = Some c -> Connector.queued Connector.FReset (Connector.functors c) = O) ->
  Connector.attempt_ok S0 a ->
  exists w', step w (EClose k a) = Ok w' /\ winv u w' /\ length (conns w') = length (conns w) /\
    (forall t, client w = Some t -> retry_ t = true -> connect_ t = true ->
      exists c c' fd, connector_ w = Some c /\ connector_ w' = Some c' /\ Connector.opened c' = Connector.opened c ++ [fd]).
Proof.
  intros Hw Hk Hup Hq Ha. pose proof Hw as Hw0. destruct Hw as [Hc Ht Ho Hd Hl Hr]. assert (Hupk : up w k) by (by exists o).
  cbn [step]. unfold close, object. rewrite Hk. cbn [get_or mbind outcome_bind]. rewrite Hup. cbn [c_assert mbind outcome_bind].
  rewrite bool_decide_eq_true_2 by done. cbn [c_assert mbind outcome_bind].
  destruct (client w) as [t|] eqn:Et.
  - destruct Ht as ([c Ec] & Hst & Hn & Hcon & Hbnd). rewrite (Hbnd k o Hk Hup). rewrite Ec in Hc. destruct Hc as (Hc & Hs & Hconn).
    unfold removeConnection, this, with_conn. cbn [client connector_ conns destroys rebinds]. rewrite Et. cbn [get_or mbind outcome_bind].
    rewrite bool_decide_eq_true_2 by (by apply Hcon). cbn [c_assert mbind outcome_bind retry_ connect_ connector_ conns destroys rebinds].
    destruct (retry_ t && connect_ t) eqn:Erc.
    + unfold the_connector. cbn [connector_]. rewrite Ec. cbn [get_or mbind outcome_bind].
      assert (Hu : u = Connector.Active).
      { destruct u; [|done|]; exfalso.
        - destruct Hc as [_ (Hx & _) _ _ _]. rewrite (Hconn k Hupk) in Hx. done.
        - rewrite (Hst eq_refl), andb_false_r in Erc. done. }
      subst u. destruct (Connector.step_ok S0 Connector.Active c (Connector.Restart a) Connector.Active Hc) as (c' & Hrs & Hc').
      { constructor; [by eapply Hconn|by apply Hq|done]. }
      cbn [Connector.step] in Hrs. rewrite Hrs. cbn [mbind outcome_bind]. destruct (restart_handed a c c' Ha Hrs) as [Hh [fd Hop]].
      eexists. split; [done|]. split; [|split; [cbn; apply length_insert|intros t' _ _ _; by exists c, c', fd]].
      unfold with_connector. cbn. apply inv_down; try done.
      * split; [done|]. congruence.
      * exists t. done.
    + eexists. split; [done|]. split; [|split; [cbn; apply length_insert|intros t' [= <-] E1 E2; by rewrite E1, E2 in Erc]].
      apply inv_down; try done.
      * by rewrite Ec.
      * exists t. rewrite Ec. done.
  - destruct Ht as [Hdet Hst]. rewrite (Hdet k o Hk Hup). eexists. split; [done|]. split; [|split; [cbn; apply length_insert|done]].
    unfold detail_removeConnection. cbn. rewrite Et. apply inv_down; try done. destruct (connector_ w); [|done]. by destruct Hc as (? & ? & _).
Qed.

Lemma inv_destroyed u w :
  winv u w -> exists w', step w EDestroyed = Ok w' /\ winv u w' /\ length (conns w') = length (conns w).
Proof.
  intros Hw. cbn [step]. destruct (destroys w) as [|k rest] eqn:Ed; [by exists w|].
  destruct Hw as [Hc Ht Ho Hd Hl Hr]. rewrite Ed in Hd, Hl. destruct (Hl k) as (o & Hk & Hlife); [by left|].
  unfold connectDestroyed, object. cbn [conns]. rewrite Hk. cbn [get_or mbind outcome_bind].
  eexists. split; [done|]. split; [|cbn; apply length_insert]. unfold with_conn. cbn.
  assert (Hups : forall j cl ct ds rb, up (mkWorld cl ct (<[k := set_life Gone o]> (conns w)) ds rb) j <-> up w j).
  { intros j cl ct ds rb. rewrite up_set by done. split; [by intros [? _]|]. intros Hj. split; [done|]. intros ->.
    destruct Hj as (x & Hx & Hx'). congruence. }
  assert (Hlook : forall j x, <[k := set_life Gone o]> (conns w) !! j = Some x -> c_life x = Up -> conns w !! j = Some x).
  { intros j x Hx Hx'. apply (lookup_set _ _ _ _ _ _ Hk) in Hx as [[-> ->]|[_ ?]]; done. }
  split; cbn.
  - destruct (connector_ w) as [c|]; [|done]. destruct Hc as (? & ? & Hup). split; [done|]. split; [by rewrite sock_set|].
    intros j Hj%Hups. by apply (Hup j).
  - destruct (client w) as [t|].
    + destruct Ht as (? & ? & ? & Hcon & Hbnd). rewrite length_insert. split_and!; try done.
      * intros j. by rewrite Hups.
      * intros j x Hx Hx'. by eapply (Hbnd j); [apply Hlook|].
    + destruct Ht as [Hdet ?]. split; [|done]. intros j x Hx Hx'. by eapply (Hdet j); [apply Hlook|].
  - intros k1 k2. rewrite !Hups. apply Ho.
  - intros j x Hx Hx'. apply (lookup_set _ _ _ _ _ _ Hk) in Hx as [[-> ->]|[Hne Hx]]; [done|].
    specialize (Hd j x Hx Hx'). by apply elem_of_cons in Hd as [?|?].
  - intros j Hj. destruct (Hl j) as (x & Hx & Hx'); [by right|]. destruct (decide (j = k)) as [->|Hne].
    + eexists. rewrite list_lookup_insert_eq by (by eapply lookup_lt_Some). done.
    + exists x. by rewrite list_lookup_insert_ne.
  - done.
Qed.

Lemma idle_no_channel u (c : Connector) :
  Connector.cinv S0 u c -> Connector.functors c = [] -> Connector.state_ c = Connector.kConnected \/ u = Connector.Stopped ->
  Connector.destroyConnector c = Ok tt.
Proof.
  intros [(cur & _ & Hch) Hst _ _ _] Hf Hor. assert (Hk : Connector.state_ c <> Connector.kConnecting).
  { destruct Hor as [Hx|Hx]; [congruence|]. subst u. destruct Hst as (_ & _ & Hx). intros E. specialize (Hx E). rewrite Hf in Hx. vm_compute in Hx. lia. }
  destruct (Connector.no_channel S0 c cur Hch Hk) as (Hn & _); [by rewrite Hf|].
  unfold Connector.destroyConnector. by rewrite Hn.
Qed.

Lemma inv_destroy_client u w e u' :
  winv u w -> permitted u w e u' -> e = EDestroyClient true ->
  exists w', step w e = Ok w' /\ winv u' w' /\ length (conns w') = length (conns w).
Proof.
  intros Hw Hp ->. destruct Hw as [Hc Ht Ho Hd Hl Hr]. cbn [step].
  inversion Hp as [| | | | | | | | | | |? ? t k c Et Ek Ec Hf|? ? t Et Ek|]; subst; unfold destroyTcpClient, this; rewrite Et in *;
    cbn [get_or mbind outcome_bind]; rewrite Ek; destruct Ht as ([c' Ec'] & Hst & Hn & Hcon & Hbnd).
  - destruct (proj1 (Hcon k) Ek) as (o & Hk & Hup). unfold object, the_connector. rewrite Hk, Ec. cbn [get_or mbind outcome_bind].
    rewrite Ec in Hc. destruct Hc as (Hc & Hs & Hconn). assert (Hupk : up w k) by (by exists o).
    rewrite (idle_no_channel u' c Hc Hf) by (left; by eapply Hconn). cbn [mbind outcome_bind].
    eexists. split; [done|]. split; [|cbn; apply length_insert].
    assert (Hlook : forall j x, <[k := setCloseCallback Detached o]> (conns w) !! j = Some x ->
      exists y, conns w !! j = Some y /\ c_life x = c_life y /\ (j = k -> c_close x = Detached)).
    { intros j x. destruct (decide (j = k)) as [->|Hne].
      - rewrite list_lookup_insert_eq by (by eapply lookup_lt_Some). intros [= <-]. by exists o.
      - rewrite list_lookup_insert_ne by done. intros Hx. by exists x. }
    assert (Hback : forall j y, conns w !! j = Some y -> exists x, <[k := setCloseCallback Detached o]> (conns w) !! j = Some x /\ c_life x = c_life y).
    { intros j y Hy. destruct (decide (j = k)) as [->|Hne].
      - rewrite list_lookup_insert_eq by (by eapply lookup_lt_Some). eexists. split; [done|]. cbn. congruence.
      - rewrite list_lookup_insert_ne by done. eauto. }
    assert (Hups : forall j, up (mkWorld None None (<[k := setCloseCallback Detached o]> (conns w)) (destroys w) (rebinds w)) j -> up w j).
    { intros j (x & Hx & Hx'). destruct (Hlook _ _ Hx) as (y & Hy & E & _). exists y. split; [done|congruence]. }
    split; cbn; try done.
    + split; [|by intros []]. intros j x Hx Hx'. destruct (Hlook _ _ Hx) as (y & Hy & E & Hdet). apply Hdet.
      apply (Ho j k); [|done]. exists y. split; [done|congruence].
    + intros k1 k2 H1 H2. apply Ho; by apply Hups.
    + intros j x Hx Hx'. destruct (Hlook _ _ Hx) as (y & Hy & E & _). eapply (Hd j y); [done|congruence].
    + intros j (y & Hy & Hy')%Hl. destruct (Hback _ _ Hy) as (x & Hx & E). exists x. split; [done|congruence].
  - unfold the_connector. rewrite Ec'. cbn [get_or mbind outcome_bind]. eexists. split; [done|]. split; [|done].
    rewrite Ec' in Hc. destruct Hc as (Hc & Hs & Hconn). split; cbn; try done.
    + split; [by eapply Connector.stop_ok|]. done.
    + split; [|done]. intros j x Hx Hx'. assert (Hu : up w j) by (by exists x). apply Hcon in Hu. congruence.
Qed.

Lemma inv_expire u w :
  winv u w -> (forall c, connector_ w = Some c -> Connector.functors c = []) ->
  exists w', step w EExpire = Ok w' /\ winv u w' /\ length (conns w') = length (conns w).
Proof.
  intros Hw Hf. cbn [step]. unfold keep_alive_expires. destruct Hw as [Hc Ht Ho Hd Hl Hr].
  assert (Hsame : exists w', Ok w = Ok w' /\ winv u w' /\ length (conns w') = length (conns w)) by (by exists w).
  destruct (client w) eqn:Et; [done|]. destruct (connector_ w) as [c|] eqn:Ec; [|done]. destruct (bool_decide _); [|done].
  destruct Ht as [Hdet Hst]. destruct Hc as (Hc & _). rewrite (idle_no_channel u c Hc) by first [by apply Hf | right; apply Hst; by eexists].
  cbn [mbind outcome_bind]. eexists. split; [done|]. split; [|done]. split; cbn; try done.
Qed.

(** ** Runs *)
Lemma client_step_inv u w e u' :
  winv u w -> permitted u w e u' -> Z.of_nat (length (conns w)) < 2 ^ 31 - 2 ->
  exists w', step w e = Ok w' /\ winv u' w' /\ (length (conns w') <= S (length (conns w)))%nat.
Proof.
  intros Hw Hp Hb.
  assert (Hkeep : forall w', length (conns w') = length (conns w) -> (length (conns w') <= S (length (conns w)))%nat) by (intros; lia).
  assert (Hconn : forall f u', (exists w', on_connector f w = Ok w' /\ winv u' w') ->
    exists w', on_connector f w = Ok w' /\ winv u' w' /\ (length (conns w') <= S (length (conns w)))%nat).
  { intros f u2 (w' & Hr & Hw'). exists w'. split; [done|]. split; [done|]. apply Hkeep. unfold on_connector in Hr. inv_ok. by subst. }
  pose proof Hp as Hp0.
  inversion Hp as [? inLoop a t Et Ha|? ? t Et|? ? t Et|? ? t Et|? ? a c Ec Ha|? ? a c Ec Hq Ha|? ? err self peer c Ec Hk|? ? c Ec Hk
    |? ? k o a Hk Hup Hq Ha|? ?|? ?|? ? t k c Et Ek Ec Hf|? ? t Et Ek|? ? Hf]; subst.
  - destruct (inv_connect _ _ _ _ _ _ Hw Hp0 eq_refl) as (w' & Hr & Hw'). exists w'. split; [done|]. split; [done|]. apply Hkeep.
    cbn [step] in Hr. unfold connect in Hr. inv_ok. by subst.
  - cbn [step]. unfold disconnect, this. rewrite Et. cbn [get_or mbind outcome_bind].
    assert (Hw' : winv u' (with_client (with_connect false t) w)) by (eapply inv_client; eauto).
    pose proof (wi_client _ _ Hw) as Ht. rewrite Et in Ht. destruct Ht as (_ & _ & _ & Hcon & _). destruct (connection_ t) as [k|] eqn:Ek.
    + destruct (proj1 (Hcon k) eq_refl) as (o & Ho & _). unfold object. rewrite Ho. cbn [get_or mbind outcome_bind]. eauto.
    + eauto.
  - destruct (inv_stop _ _ _ Hw Et) as (w' & Hr & Hw'). exists w'. split; [done|]. split; [done|]. apply Hkeep.
    cbn [step] in Hr. unfold stop in Hr. inv_ok. by subst.
  - cbn [step]. unfold enableRetry, this. rewrite Et. cbn [get_or mbind outcome_bind]. eexists. split; [done|]. split; [|cbn; lia].
    eapply inv_client; eauto.
  - cbn [step]. apply Hconn. by eapply (inv_quiet u' w c _ (Connector.RunFunctor a)); [..|constructor].
  - cbn [step]. apply Hconn. by eapply (inv_quiet u' w c _ (Connector.TimerFires a)); [..|constructor].
  - by eapply inv_write.
  - cbn [step]. apply Hconn. by eapply inv_error.
  - destruct (inv_close u' w k o a Hw Hk Hup Hq Ha) as (w' & Hr & Hw' & Hlen & _). eauto.
  - destruct (inv_destroyed u' w Hw) as (w' & Hr & Hw' & Hlen). eauto.
  - cbn [step]. rewrite (wi_rebinds _ _ Hw). eauto.
  - destruct (inv_destroy_client _ _ _ _ Hw Hp0 eq_refl) as (w' & Hr & Hw' & Hlen). eauto.
  - destruct (inv_destroy_client _ _ _ _ Hw Hp0 eq_refl) as (w' & Hr & Hw' & Hlen). eauto.
  - destruct (inv_expire _ _ Hw Hf) as (w' & Hr & Hw' & Hlen). eauto.
Qed.

Lemma client_run_inv u w l u' :
  uses u w l u' -> winv u w -> Z.of_nat (length (conns w)) + zlen l < 2 ^ 31 - 2 ->
  exists w', foldM step w l = Ok w' /\ winv u' w'.
Proof.
  induction 1 as [u w|u u1 u2 w e l Hp _ IH]; intros Hw Hb; [by exists w|]. rewrite zlen_cons in Hb. pose proof (zlen_nonneg l).
  destruct (client_step_inv u w e u1 Hw Hp) as (w1 & Hs & Hw1 & Hl1); [lia|]. destruct (IH w1 Hs Hw1) as (w' & Hr & Hw'); [lia|].
  exists w'. cbn [foldM]. by rewrite Hs.
Qed.

Lemma client_inv_new loop name : Loop.linv S0 loop -> winv Connector.Unused (newTcpClient loop name).
Proof.
  intros Hl. assert (Hno : forall k, ~ up (newTcpClient loop name) k).
  { intros k (o & Ho & _). cbn in Ho. by rewrite lookup_nil in Ho. }
  split; cbn.
  - split; [by apply Connector.cinv_new|]. split; [done|]. intros k Hk. by destruct (Hno k).
  - split; [by eexists|]. split; [done|]. split; [done|]. split.
    + intros k. split; [done|]. intros Hk. by destruct (Hno k).
    + intros k o Ho. by rewrite lookup_nil in Ho.
  - intros k1 k2 Hk. by destruct (Hno k1).
  - intros k o Ho. by rewrite lookup_nil in Ho.
  - intros k Hk. by apply elem_of_nil in Hk.
  - done.
Qed.


End client.
Arguments World : clear implicits.

(** ** Samples, with EPollPoller *)
Definition sample_peer : bytes := lit "10.0.0.1:80".
Definition start : World EPollPoller.EPollPoller := newTcpClient Loop.newEventLoop (lit "cli").

(** Connected, down, connected again by the retry, destroyed, down. *)
Definition sample_events : list event :=
  [EEnableRetry; EConnect true Connector.in_progress; EWrite 0 false sample_peer; EFunctor Connector.refused;
   EClose 0 Connector.in_progress; EDestroyed; EWrite 0 false sample_peer; EFunctor Connector.refused;
   EDestroyClient true; EClose 1 Connector.refused; EDestroyed].

Ltac next_use := eapply uses_cons; [|intros w Hw; vm_compute in Hw; injection Hw as <-].

Lemma client_sample_uses : uses ∅ Connector.Unused start sample_events Connector.Active.
Proof.
  unfold sample_events.
  next_use; [by eapply permit_retry|].
  next_use; [eapply permit_connect; [done|by apply Connector.sample_attempt_ok]|].
  next_use; [by eapply permit_write|].
  next_use; [eapply permit_functor; [done|by apply Connector.sample_attempt_ok]|].
  next_use; [eapply permit_close; [done|done|by intros c [= <-]|by apply Connector.sample_attempt_ok]|].
  next_use; [apply permit_destroyed|].
  next_use; [by eapply permit_write|].
  next_use; [eapply permit_functor; [done|by apply Connector.sample_attempt_ok]|].
  next_use; [by eapply permit_destroy_up|].
  next_use; [eapply permit_close; [done|done|done|by apply Connector.sample_attempt_ok]|].
  next_use; [apply permit_destroyed|]. apply uses_nil.
Qed.


Definition connected_once : list event :=
  [EConnect true Connector.in_progress; EWrite 0 false sample_peer; EFunctor Connector.refused].

(** What the protocol excludes: connect() again after the connection went down
    finds the connector in state kConnected; a client destroyed in another thread
    is used by the connection that goes down before its callback is replaced; a
    client destroyed inside its connection callback destroys the connector before
    its channel is reset. *)
Theorem client_misuse :
  foldM step start (connected_once ++ [EClose 0 Connector.refused; EDestroyed; EConnect true Connector.in_progress])
    = Fault AssertFailed /\
  foldM step start (connected_once ++ [EDestroyClient false; EClose 0 Connector.refused]) = Fault UndefinedBehaviour /\
  foldM step start [EConnect true Connector.in_progress; EWrite 0 false sample_peer; EDestroyClient true] = Fault AssertFailed.
Proof. split_and!; by vm_compute. Qed.

(** The buffer for the name is too short for the address of an IPv6 peer: every
    connection to it gets the same name. *)
Theorem client_ipv6_names_collide :
  let t n := mkClient (lit "cli") false true n None in
  let peer := lit "2001:db8:1111:2222:3333:4444:5555:65535" in
  connName peer (t 1) = connName peer (t 2).
Proof. by vm_compute. Qed.

End TcpClient.
