(* ===== verification/Inspector.v ===== *)
(** * Inspector: net/inspect/Inspector.h, net/inspect/Inspector.cc

    The table of commands of a running process, served over HTTP: /module/command
    with arguments runs a registered callback, / lists the help texts.  Requests,
    responses and the server are those of Http.v, the std::maps those of
    StdContainers.v.  A callback is a function of the method and the arguments, or
    an empty std::function.

    Theorems: split() gives exactly the non-empty fields of the path; after any
    sequence of add and remove, a request over the wire is answered with the result
    of the callback registered last under its module and command, and with 404 when
    there is none. *)

From S2P Require Import Prelude Buffer StdContainers Format Http.
Import HttpRequest HttpContext HttpResponse HttpServer HttpParser HttpService.

Definition slash : ascii := code_char 47.

(** [str.find('/', start)]; None is npos. *)
Definition find_slash (str : bytes) (start : Z) : option Z :=
  let rest := zdrop start str in
  let i := find_char slash rest in
  if i <? zlen rest then Some (start + i) else None.

(** The loop of [split]. *)
Fixpoint split_loop (fuel : nat) (str : bytes) (start : Z) (pos : option Z) (result : list bytes) : outcome (Z * list bytes) :=
  match pos with
  | None => Ok (start, result)
  | Some pos =>
      match fuel with
      | O => Fault OutOfFuel
      | S fuel =>
          let result := if start <? pos then result ++ [zslice start pos str] else result in
          split_loop fuel str (pos + 1) (find_slash str (pos + 1)) result
      end
  end.

Definition split (str : bytes) : outcome (list bytes) :=
  '(start, result) ← split_loop (length str) str 0 (find_slash str 0) [];
  Ok (if start <? zlen str then result ++ [zdrop start str] else result).

Definition Callback : Type := option (Method -> list bytes -> bytes).

Record Inspector := mkInspector {
  modules_ : list (bytes * list (bytes * Callback));
  helps_ : list (bytes * list (bytes * bytes));
}.

Definition newInspector : Inspector := mkInspector [] [].

(** [map[key]] of a map of maps: an absent entry is an empty map. *)
Definition entry {V} (key : bytes) (m : list (bytes * list (bytes * V))) : list (bytes * V) :=
  match map_find key m with Some e => e | None => [] end.

Definition add (module command : bytes) (cb : Callback) (help : bytes) (i : Inspector) : Inspector :=
  mkInspector (map_assign module (map_assign command cb (entry module (modules_ i))) (modules_ i))
    (map_assign module (map_assign command help (entry module (helps_ i))) (helps_ i)).

Definition remove (module command : bytes) (i : Inspector) : Inspector :=
  match map_find module (modules_ i) with
  | Some commands =>
      mkInspector (map_assign module (fst (map_erase command commands)) (modules_ i))
        (map_assign module (fst (map_erase command (entry module (helps_ i)))) (helps_ i))
  | None => i
  end.

(** One line of the index. *)
Definition help_line (module : bytes) (h : bytes * bytes) : bytes :=
  let len := zlen module + zlen (fst h) in
  lit "/" ++ module ++ lit "/" ++ fst h ++ replicate (Z.to_nat (if 25 <=? len then 1 else 25 - len)) sp ++ snd h ++ [lf].

Definition index_text (i : Inspector) : bytes :=
  mjoin (map (fun m => mjoin (map (help_line (fst m)) (snd m))) (helps_ i)).

(** The icon, a PNG image. *)
Definition favicon : bytes := map code_char
  [137; 80; 78; 71; 13; 10; 26; 10; 0; 0; 0; 13; 73; 72; 68; 82; 0; 0; 0; 16; 0; 0; 0; 16;
   8; 6; 0; 0; 0; 31; 243; 255; 97; 0; 0; 0; 4; 115; 66; 73; 84; 8; 8; 8; 8; 124; 8; 100;
   136; 0; 0; 0; 9; 112; 72; 89; 115; 0; 0; 11; 18; 0; 0; 11; 18; 1; 210; 221; 126; 252; 0; 0;
   0; 28; 116; 69; 88; 116; 83; 111; 102; 116; 119; 97; 114; 101; 0; 65; 100; 111; 98; 101; 32; 70; 105; 114;
   101; 119; 111; 114; 107; 115; 32; 67; 83; 51; 152; 214; 70; 3; 0; 0; 0; 21; 116; 69; 88; 116; 67; 114;
   101; 97; 116; 105; 111; 110; 32; 84; 105; 109; 101; 0; 50; 47; 49; 55; 47; 48; 56; 32; 156; 170; 88; 0;
   0; 4; 17; 116; 69; 88; 116; 88; 77; 76; 58; 99; 111; 109; 46; 97; 100; 111; 98; 101; 46; 120; 109; 112;
   0; 60; 63; 120; 112; 97; 99; 107; 101; 116; 32; 98; 101; 103; 105; 110; 61; 34; 32; 32; 32; 34; 32; 105;
   100; 61; 34; 87; 53; 77; 48; 77; 112; 67; 101; 104; 105; 72; 122; 114; 101; 83; 122; 78; 84; 99; 122; 107;
   99; 57; 100; 34; 63; 62; 10; 60; 120; 58; 120; 109; 112; 109; 101; 116; 97; 32; 120; 109; 108; 110; 115; 58;
   120; 61; 34; 97; 100; 111; 98; 101; 58; 110; 115; 58; 109; 101; 116; 97; 47; 34; 32; 120; 58; 120; 109; 112;
   116; 107; 61; 34; 65; 100; 111; 98; 101; 32; 88; 77; 80; 32; 67; 111; 114; 101; 32; 52; 46; 49; 45; 99;
   48; 51; 52; 32; 52; 54; 46; 50; 55; 50; 57; 55; 54; 44; 32; 83; 97; 116; 32; 74; 97; 110; 32; 50;
   55; 32; 50; 48; 48; 55; 32; 50; 50; 58; 49; 49; 58; 52; 49; 32; 32; 32; 32; 32; 32; 32; 32; 34;
   62; 10; 32; 32; 32; 60; 114; 100; 102; 58; 82; 68; 70; 32; 120; 109; 108; 110; 115; 58; 114; 100; 102; 61;
   34; 104; 116; 116; 112; 58; 47; 47; 119; 119; 119; 46; 119; 51; 46; 111; 114; 103; 47; 49; 57; 57; 57; 47;
   48; 50; 47; 50; 50; 45; 114; 100; 102; 45; 115; 121; 110; 116; 97; 120; 45; 110; 115; 35; 34; 62; 10; 32;
   32; 32; 32; 32; 32; 60; 114; 100; 102; 58; 68; 101; 115; 99; 114; 105; 112; 116; 105; 111; 110; 32; 114; 100;
   102; 58; 97; 98; 111; 117; 116; 61; 34; 34; 10; 32; 32; 32; 32; 32; 32; 32; 32; 32; 32; 32; 32; 120;
   109; 108; 110; 115; 58; 120; 97; 112; 61; 34; 104; 116; 116; 112; 58; 47; 47; 110; 115; 46; 97; 100; 111; 98;
   101; 46; 99; 111; 109; 47; 120; 97; 112; 47; 49; 46; 48; 47; 34; 62; 10; 32; 32; 32; 32; 32; 32; 32;
   32; 32; 60; 120; 97; 112; 58; 67; 114; 101; 97; 116; 111; 114; 84; 111; 111; 108; 62; 65; 100; 111; 98; 101;
   32; 70; 105; 114; 101; 119; 111; 114; 107; 115; 32; 67; 83; 51; 60; 47; 120; 97; 112; 58; 67; 114; 101; 97;
   116; 111; 114; 84; 111; 111; 108; 62; 10; 32; 32; 32; 32; 32; 32; 32; 32; 32; 60; 120; 97; 112; 58; 67;
   114; 101; 97; 116; 101; 68; 97; 116; 101; 62; 50; 48; 48; 56; 45; 48; 50; 45; 49; 55; 84; 48; 50; 58;
   51; 54; 58; 52; 53; 90; 60; 47; 120; 97; 112; 58; 67; 114; 101; 97; 116; 101; 68; 97; 116; 101; 62; 10;
   32; 32; 32; 32; 32; 32; 32; 32; 32; 60; 120; 97; 112; 58; 77; 111; 100; 105; 102; 121; 68; 97; 116; 101;
   62; 50; 48; 48; 56; 45; 48; 51; 45; 50; 52; 84; 49; 57; 58; 48; 48; 58; 52; 50; 90; 60; 47; 120;
   97; 112; 58; 77; 111; 100; 105; 102; 121; 68; 97; 116; 101; 62; 10; 32; 32; 32; 32; 32; 32; 60; 47; 114;
   100; 102; 58; 68; 101; 115; 99; 114; 105; 112; 116; 105; 111; 110; 62; 10; 32; 32; 32; 32; 32; 32; 60; 114;
   100; 102; 58; 68; 101; 115; 99; 114; 105; 112; 116; 105; 111; 110; 32; 114; 100; 102; 58; 97; 98; 111; 117; 116;
   61; 34; 34; 10; 32; 32; 32; 32; 32; 32; 32; 32; 32; 32; 32; 32; 120; 109; 108; 110; 115; 58; 100; 99;
   61; 34; 104; 116; 116; 112; 58; 47; 47; 112; 117; 114; 108; 46; 111; 114; 103; 47; 100; 99; 47; 101; 108; 101;
   109; 101; 110; 116; 115; 47; 49; 46; 49; 47; 34; 62; 10; 32; 32; 32; 32; 32; 32; 32; 32; 32; 60; 100;
   99; 58; 102; 111; 114; 109; 97; 116; 62; 105; 109; 97; 103; 101; 47; 112; 110; 103; 60; 47; 100; 99; 58; 102;
   111; 114; 109; 97; 116; 62; 10; 32; 32; 32; 32; 32; 32; 60; 47; 114; 100; 102; 58; 68; 101; 115; 99; 114;
   105; 112; 116; 105; 111; 110; 62; 10; 32; 32; 32; 60; 47; 114; 100; 102; 58; 82; 68; 70; 62; 10; 60; 47;
   120; 58; 120; 109; 112; 109; 101; 116; 97; 62; 10; 32; 32; 32; 32; 32; 32; 32; 32; 32; 32; 32; 32; 32;
   32; 32; 32; 32; 32; 32; 32; 32; 32; 32; 32; 32; 32; 32; 32; 32; 32; 32; 32; 32; 32; 32; 32; 32;
   32; 32; 32; 32; 32; 32; 32; 32; 32; 32; 32; 32; 32; 32; 32; 32; 32; 32; 32; 32; 32; 32; 32; 32;
   32; 32; 32; 32; 32; 32; 32; 32; 32; 32; 32; 32; 32; 32; 32; 32; 32; 32; 32; 32; 32; 32; 32; 32;
   32; 32; 32; 32; 32; 32; 32; 32; 32; 32; 32; 32; 32; 32; 32; 10; 32; 32; 32; 32; 32; 32; 32; 32;
   32; 32; 32; 32; 32; 32; 32; 32; 32; 32; 32; 32; 32; 32; 32; 32; 32; 32; 32; 32; 32; 32; 32; 32;
   32; 32; 32; 32; 32; 32; 32; 32; 32; 32; 32; 32; 32; 32; 32; 32; 32; 32; 32; 32; 32; 32; 32; 32;
   32; 32; 32; 32; 32; 32; 32; 32; 32; 32; 32; 32; 32; 32; 32; 32; 32; 32; 32; 32; 32; 32; 32; 32;
   32; 32; 32; 32; 32; 32; 32; 32; 32; 32; 32; 32; 32; 32; 32; 32; 32; 32; 32; 32; 10; 32; 32; 32;
   32; 32; 32; 32; 32; 32; 32; 32; 32; 32; 32; 32; 32; 32; 32; 32; 32; 32; 32; 32; 32; 32; 32; 32;
   32; 32; 32; 32; 32; 32; 32; 32; 32; 32; 32; 32; 32; 32; 32; 32; 32; 32; 32; 32; 32; 32; 32; 32;
   32; 32; 32; 32; 32; 32; 32; 32; 32; 32; 32; 32; 32; 32; 32; 32; 32; 32; 32; 32; 32; 32; 32; 32;
   32; 32; 32; 32; 32; 32; 32; 32; 32; 32; 32; 32; 32; 32; 32; 32; 53; 29; 82; 100; 0; 0; 2; 11;
   73; 68; 65; 84; 56; 141; 165; 147; 65; 107; 26; 65; 24; 134; 159; 137; 6; 35; 46; 116; 245; 32; 74; 14;
   107; 32; 228; 226; 165; 120; 200; 161; 120; 137; 130; 23; 133; 130; 130; 61; 38; 98; 88; 114; 205; 79; 241; 24;
   75; 27; 47; 165; 50; 224; 181; 158; 53; 26; 88; 47; 233; 15; 232; 101; 109; 132; 162; 132; 44; 10; 107; 88;
   98; 167; 135; 104; 104; 19; 161; 165; 121; 225; 59; 12; 195; 251; 204; 55; 239; 124; 35; 148; 82; 188; 68; 126;
   0; 33; 4; 0; 173; 86; 203; 24; 143; 199; 13; 219; 182; 211; 142; 227; 248; 131; 193; 160; 138; 199; 227; 63;
   18; 137; 68; 185; 92; 46; 247; 86; 166; 223; 15; 21; 74; 41; 132; 16; 52; 155; 205; 119; 150; 101; 125; 54;
   12; 67; 228; 114; 57; 226; 241; 56; 183; 183; 183; 244; 251; 125; 6; 131; 1; 169; 84; 234; 67; 165; 82; 57;
   126; 10; 64; 41; 69; 171; 213; 50; 78; 79; 79; 127; 74; 41; 213; 221; 221; 221; 179; 234; 245; 122; 234; 228;
   228; 68; 73; 41; 211; 43; 207; 170; 54; 0; 198; 227; 113; 99; 103; 103; 71; 228; 243; 121; 0; 60; 207; 163;
   80; 40; 224; 186; 46; 158; 231; 145; 74; 165; 216; 219; 219; 99; 52; 26; 125; 124; 154; 193; 6; 128; 109; 219;
   233; 108; 54; 139; 207; 231; 195; 243; 60; 92; 215; 5; 96; 54; 155; 225; 186; 46; 139; 197; 130; 76; 38; 131;
   109; 219; 187; 107; 67; 116; 28; 199; 31; 139; 197; 0; 40; 22; 139; 143; 155; 213; 106; 21; 0; 41; 37; 154;
   166; 49; 159; 207; 197; 90; 192; 214; 214; 150; 154; 76; 38; 34; 20; 10; 33; 165; 100; 54; 155; 81; 173; 86;
   169; 213; 106; 104; 154; 6; 192; 245; 245; 53; 186; 174; 223; 175; 189; 130; 97; 24; 223; 44; 203; 122; 32; 250;
   253; 4; 2; 1; 0; 52; 77; 35; 16; 8; 176; 88; 44; 232; 118; 187; 36; 18; 137; 139; 181; 29; 108; 111;
   111; 31; 117; 58; 157; 126; 56; 28; 38; 151; 203; 33; 132; 64; 74; 9; 192; 230; 230; 38; 237; 118; 155; 201;
   100; 162; 166; 211; 233; 39; 120; 152; 155; 213; 83; 62; 206; 193; 249; 249; 249; 251; 193; 96; 112; 156; 76; 38;
   217; 223; 223; 39; 18; 137; 48; 28; 14; 185; 188; 188; 228; 230; 230; 70; 249; 124; 190; 47; 211; 233; 52; 15;
   52; 234; 245; 122; 229; 25; 96; 25; 214; 155; 209; 104; 212; 24; 14; 135; 187; 243; 249; 92; 232; 186; 126; 111;
   24; 198; 69; 52; 26; 61; 44; 149; 74; 223; 77; 211; 188; 2; 94; 3; 95; 129; 131; 179; 179; 51; 231; 15;
   192; 223; 100; 154; 166; 177; 52; 235; 128; 3; 28; 108; 252; 147; 115; 169; 122; 189; 110; 3; 71; 203; 165; 14;
   188; 226; 127; 126; 163; 105; 154; 135; 166; 105; 190; 85; 74; 61; 100; 240; 18; 253; 2; 13; 83; 6; 36; 136;
   63; 225; 105; 0; 0; 0; 0; 73; 69; 78; 68; 174; 66; 96; 130].

Definition ok_response (contentType body : bytes) (resp : HttpResponse) : HttpResponse :=
  setBody body (setContentType contentType (setStatusMessage (lit "OK") (setStatusCode k200Ok resp))).

Definition not_found (resp : HttpResponse) : HttpResponse :=
  setStatusMessage (lit "Not Found") (setStatusCode k404NotFound resp).

Definition onRequest (i : Inspector) (req : HttpRequest) (resp : HttpResponse) : outcome HttpResponse :=
  if bytes_eqb (path_ req) (lit "/") then Ok (ok_response (lit "text/plain") (index_text i) resp)
  else
    result ← split (path_ req);
    Ok (match result with
        | [] => not_found resp
        | [module] =>
            if bytes_eqb module (lit "favicon.ico") then ok_response (lit "image/png") favicon resp
            else not_found resp
        | module :: command :: args =>
            match map_find module (modules_ i) with
            | Some commands =>
                match map_find command commands with
                | Some (Some cb) => ok_response (lit "text/plain") (cb (method_ req) args) resp
                | _ => not_found resp
                end
            | None => not_found resp
            end
        end).

(** ** split *)

(** The fields between slashes. *)
Abbreviation fields := (fields_of slash).

Definition nonempty (f : bytes) : Prop := f <> [].
#[export] Instance nonempty_dec f : Decision (nonempty f).
Proof. unfold nonempty. apply _. Defined.

Lemma split_loop_spec fuel str : forall start result,
  0 <= start <= zlen str -> zlen str - start <= Z.of_nat fuel ->
  exists start' result', split_loop fuel str start (find_slash str start) result = Ok (start', result') /\
    (if start' <? zlen str then result' ++ [zdrop start' str] else result') = result ++ filter nonempty (fields (zdrop start str)).
Proof.
  induction fuel as [|fuel IH]; intros start result Hs Hf; unfold find_slash;
    pose proof (zlen_zdrop start str Hs) as Hz; pose proof (find_char_bounds slash (zdrop start str)) as Hb;
    rewrite (fields_find slash (zdrop start str)); cbn zeta;
    destruct (Z.ltb_spec (find_char slash (zdrop start str)) (zlen (zdrop start str))) as [Hlt|Hge]; cbn [split_loop].
  2, 4: exists start, result; split; [done|]; rewrite filter_cons; unfold nonempty; destruct (Z.ltb_spec start (zlen str));
    [rewrite decide_True by (intros E; rewrite E in Hz; change (zlen (@nil ascii)) with 0 in Hz; lia); done
    |rewrite zdrop_all by lia; rewrite decide_False by (intros E; by apply E); by rewrite app_nil_r].
  { lia. }
  set (i := find_char slash (zdrop start str)) in *.
  destruct (IH (start + i + 1) (if start <? start + i then result ++ [zslice start (start + i) str] else result)) as (s' & r' & Hr & Hres); [lia..|].
  exists s', r'. split; [done|]. rewrite Hres, zdrop_zdrop by lia. rewrite filter_cons.
  replace (start + (i + 1)) with (start + i + 1) by lia. unfold nonempty at 2.
  destruct (Z.ltb_spec start (start + i)).
  - assert (Hsl : zslice start (start + i) str = ztake i (zdrop start str)) by (unfold zslice; f_equal; lia).
    rewrite Hsl, decide_True; [by rewrite <- (assoc_L (++))|]. intros E.
    pose proof (zlen_ztake i (zdrop start str)) as Ht. rewrite E in Ht. change (zlen (@nil ascii)) with 0 in Ht. lia.
  - replace i with 0 by lia. rewrite ztake_0. by rewrite decide_False by (intros E; by apply E).
Qed.

Lemma split_ok str : split str = Ok (filter nonempty (fields str)).
Proof.
  unfold split. destruct (split_loop_spec (length str) str 0 []) as (s & r & -> & Hr); [pose proof (zlen_nonneg str); lia|unfold zlen; lia|].
  cbn [mbind outcome_bind]. by rewrite Hr.
Qed.

(** A path made of parts. *)
Definition path_of (parts : list bytes) : bytes := concat (map (cons slash) parts).

Definition part_ok (p : bytes) : Prop := p <> [] /\ slash ∉ p.

Lemma split_path parts : Forall part_ok parts -> split (path_of parts) = Ok parts.
Proof.
  intros Hp. rewrite split_ok. f_equal.
  assert (Hgen : forall parts, Forall part_ok parts -> forall p, slash ∉ p ->
    filter nonempty (fields (p ++ path_of parts)) = (if decide (nonempty p) then [p] else []) ++ parts).
  { clear. induction 1 as [|q parts [Hq1 Hq2] _ IH]; intros p Hp.
    - unfold path_of. cbn. rewrite !app_nil_r, (fields_plain slash p Hp), filter_cons. by destruct (decide (nonempty p)).
    - change (path_of (q :: parts)) with (slash :: q ++ path_of parts). rewrite (fields_app slash p _ Hp), filter_cons.
      rewrite (IH q Hq2), (decide_True _ _ (P := nonempty q)) by done. by destruct (decide (nonempty p)). }
  specialize (Hgen parts Hp [] (not_elem_of_nil _)). cbn [app] in Hgen. rewrite Hgen. by destruct (decide (nonempty [])).
Qed.

(** ** The table *)
Section table.
Context {V : Type}.
Abbreviation Table := (list (bytes * list (bytes * V))).

Definition find2 (module command : bytes) (t : Table) : option V := map_find command (entry module t).
Definition wf2 (t : Table) : Prop := map_wf t /\ forall module, map_wf (entry module t).

Lemma find_assign_decide {W} (k k' : bytes) (v : W) m :
  map_wf m -> map_find k' (map_assign k v m) = if decide (k' = k) then Some v else map_find k' m.
Proof.
  intros Hm. destruct (decide (k' = k)) as [->|Hne]; [by apply map_find_assign_eq|by apply map_find_assign_ne].
Qed.

Lemma find_erase_decide {W} (k k' : bytes) (m : list (bytes * W)) :
  map_wf m -> map_find k' (fst (map_erase k m)) = if decide (k' = k) then None else map_find k' m.
Proof.
  intros Hm. rewrite map_find_erase by done. destruct (decide (k' = k)) as [->|Hne]; [by rewrite kltb_irrefl|].
  destruct (kltb k k') eqn:E1; [done|]. destruct (kltb k' k) eqn:E2; [done|]. by destruct (Hne (kltb_total _ _ E2 E1)).
Qed.

Lemma entry_assign module e (t : Table) module' :
  map_wf t -> entry module' (map_assign module e t) = if decide (module' = module) then e else entry module' t.
Proof. intros Hm. unfold entry. rewrite find_assign_decide by done. by destruct (decide (module' = module)). Qed.

Lemma wf2_assign module e (t : Table) : wf2 t -> map_wf e -> wf2 (map_assign module e t).
Proof.
  intros [H1 H2] He. split; [by apply map_assign_wf|]. intros m. rewrite entry_assign by done. by destruct (decide _).
Qed.

Lemma find2_add module command v (t : Table) module' command' :
  wf2 t -> find2 module' command' (map_assign module (map_assign command v (entry module t)) t) =
    if decide ((module', command') = (module, command)) then Some v else find2 module' command' t.
Proof.
  intros [H1 H2]. unfold find2. rewrite entry_assign by done. destruct (decide (module' = module)) as [->|Hne].
  - rewrite find_assign_decide by done. destruct (decide (command' = command)) as [->|Hne].
    + by rewrite decide_True.
    + rewrite decide_False; [done|]. congruence.
  - rewrite decide_False; [done|]. congruence.
Qed.

Lemma find2_remove module command (t : Table) module' command' :
  wf2 t -> find2 module' command' (map_assign module (fst (map_erase command (entry module t))) t) =
    if decide ((module', command') = (module, command)) then None else find2 module' command' t.
Proof.
  intros [H1 H2]. unfold find2. rewrite entry_assign by done. destruct (decide (module' = module)) as [->|Hne].
  - rewrite find_erase_decide by done. destruct (decide (command' = command)) as [->|Hne].
    + by rewrite decide_True.
    + rewrite decide_False; [done|]. congruence.
  - rewrite decide_False; [done|]. congruence.
Qed.
End table.

Inductive op :=
| Add (module command : bytes) (cb : Callback) (help : bytes)
| Remove (module command : bytes).

Definition perform (i : Inspector) (o : op) : Inspector :=
  match o with
  | Add module command cb help => add module command cb help i
  | Remove module command => remove module command i
  end.

(** The callbacks and help texts registered, by module and command. *)
Definition register (r : gmap (bytes * bytes) (Callback * bytes)) (o : op) : gmap (bytes * bytes) (Callback * bytes) :=
  match o with
  | Add module command cb help => <[(module, command) := (cb, help)]> r
  | Remove module command => delete (module, command) r
  end.

Definition registry (l : list op) : gmap (bytes * bytes) (Callback * bytes) := fold_left register l ∅.

Record iinv (r : gmap (bytes * bytes) (Callback * bytes)) (i : Inspector) : Prop := {
  ii_modules : wf2 (modules_ i);
  ii_helps : wf2 (helps_ i);
  ii_commands : forall m c, find2 m c (modules_ i) = fst <$> r !! (m, c);
  ii_texts : forall m c, find2 m c (helps_ i) = snd <$> r !! (m, c);
}.

Lemma iinv_perform r i o : iinv r i -> iinv (register r o) (perform i o).
Proof.
  intros [H1 H2 H3 H4]. destruct o as [m c cb help|m c]; cbn [register perform].
  - unfold add. split; cbn [modules_ helps_].
    + apply wf2_assign; [done|]. apply map_assign_wf, H1.
    + apply wf2_assign; [done|]. apply map_assign_wf, H2.
    + intros m' c'. rewrite find2_add by done. case_decide as E; [rewrite E, lookup_insert_eq; done|].
      rewrite lookup_insert_ne by congruence. apply H3.
    + intros m' c'. rewrite find2_add by done. case_decide as E; [rewrite E, lookup_insert_eq; done|].
      rewrite lookup_insert_ne by congruence. apply H4.
  - unfold remove. destruct (map_find m (modules_ i)) as [e|] eqn:Em.
    + assert (Ee : e = entry m (modules_ i)) by (unfold entry; by rewrite Em). subst e. split; cbn [modules_ helps_].
      * apply wf2_assign; [done|]. apply map_erase_wf, H1.
      * apply wf2_assign; [done|]. apply map_erase_wf, H2.
      * intros m' c'. rewrite find2_remove by done. case_decide as E; [rewrite E, lookup_delete_eq; done|].
        rewrite lookup_delete_ne by congruence. apply H3.
      * intros m' c'. rewrite find2_remove by done. case_decide as E; [rewrite E, lookup_delete_eq; done|].
        rewrite lookup_delete_ne by congruence. apply H4.
    + assert (Hn : r !! (m, c) = None).
      { specialize (H3 m c). unfold find2, entry in H3. rewrite Em in H3. by destruct (r !! (m, c)). }
      rewrite delete_id by done. done.
Qed.

Lemma iinv_run l : forall r i, iinv r i -> iinv (fold_left register l r) (fold_left perform l i).
Proof. induction l as [|o l IH]; intros r i Hi; [done|]. cbn [fold_left]. by apply IH, iinv_perform. Qed.

Lemma iinv_new : iinv ∅ newInspector.
Proof. split; [split; [constructor|intros; constructor]..| |]; intros m c; by rewrite lookup_empty. Qed.

(** ** Requests *)

(** The response that a path of two or more parts must get. *)
Definition answer (r : gmap (bytes * bytes) (Callback * bytes)) (method : Method) (module command : bytes) (args : list bytes)
    (resp : HttpResponse) : HttpResponse :=
  match r !! (module, command) with
  | Some (Some cb, _) => ok_response (lit "text/plain") (cb method args) resp
  | _ => not_found resp
  end.

Lemma onRequest_answer r i req resp module command args :
  iinv r i -> Forall part_ok (module :: command :: args) -> path_ req = path_of (module :: command :: args) ->
  onRequest i req resp = Ok (answer r (method_ req) module command args resp).
Proof.
  intros Hi Hp Hpath. unfold onRequest. rewrite Hpath.
  assert (Hne : bytes_eqb (path_of (module :: command :: args)) (lit "/") = false).
  { apply bool_decide_eq_false. apply Forall_cons in Hp as [[Hm _] _]. intros E. unfold path_of in E. cbn in E.
    injection E as E. destruct module; done. }
  rewrite Hne, split_path by done. cbn [mbind outcome_bind]. f_equal. unfold answer.
  pose proof (ii_commands _ _ Hi module command) as Hf. unfold find2, entry in Hf.
  destruct (map_find module (modules_ i)) as [e|].
  - rewrite Hf. by destruct (r !! (module, command)) as [[[cb|] h]|].
  - cbn in Hf. by destruct (r !! (module, command)).
Qed.

(** The handler as the HTTP server calls it: it always returns. *)
Definition http_callback (i : Inspector) (req : HttpRequest) (resp : HttpResponse) : HttpResponse :=
  match onRequest i req resp with Ok r => r | Fault _ => resp end.

Lemma onRequest_total i req resp : exists r, onRequest i req resp = Ok r.
Proof. unfold onRequest. rewrite split_ok. destruct (bytes_eqb _ _); eauto. Qed.

(** C14: After any sequence of add and remove, a request for /module/command/args
    that arrives over a connection, whatever follows it, is answered with the text
    of exactly one response: 200 with the result of the callback added last under
    that module and command, called with the request's method and the arguments,
    or 404 when it was never added, has been removed or is empty.  The handler
    returns for every request. *)
Theorem inspector_serves ops rt t module command args buf rest
  (Hbuf : wf buf) (Ht : text_ok t) (Hc : content buf = print_request t ++ rest)
  (Hpath : t_path t = path_of (module :: command :: args)) (Hparts : Forall part_ok (module :: command :: args)) :
  let i := fold_left perform ops newInspector in
  let req := with_headers (mkRequest (t_method t) (t_version t) (t_path t) (t_query t) rt []) (t_headers t) in
  let resp := answer (registry ops) (t_method t) module command args (newResponse (wantsClose req)) in
  (forall req resp, exists r, onRequest i req resp = Ok r) /\
  (response_ok resp ->
   exists buf', onMessage (http_callback i) rt newContext buf =
       Ok (Send (response_text resp) :: (if closeConnection_ resp then [Shutdown] else []), newContext, buf') /\
     wf buf' /\ content buf' = rest).
Proof.
  intros i req resp. split; [intros; apply onRequest_total|]. intros Hok.
  destruct (onMessage_request (http_callback i) rt t buf rest Hbuf Ht Hc) as (buf' & E & Hw & Hrest). fold req in E.
  assert (Hresp : http_callback i req (newResponse (wantsClose req)) = resp).
  { unfold http_callback. rewrite (onRequest_answer (registry ops) i req _ module command args); [done| |done|done].
    apply iinv_run, iinv_new. }
  rewrite (onRequest_sends (http_callback i) req) in E by (by rewrite Hresp). rewrite Hresp in E. by exists buf'.
Qed.

(** ** Sample *)
Module InspectorSample.
Definition echo : Callback := Some (fun _ args => mjoin args).
Definition sample_ops : list op :=
  [Add (lit "proc") (lit "pid") None (lit "print pid"); Add (lit "proc") (lit "echo") echo (lit "echo");
   Add (lit "sys") (lit "version") echo (lit "version"); Remove (lit "sys") (lit "version")].
Definition sample_request : request_text := mkText kGet (lit "/proc/echo/a/b") [] kHttp11 [(lit "Connection", lit "close")].

Lemma sample_request_ok : text_ok sample_request.
Proof.
  split; try discriminate; cbn.
  - split_and!; apply (bool_decide_unpack _); vm_compute; exact I.
  - split_and!; [apply (bool_decide_unpack _); vm_compute; exact I..|by left].
  - constructor; [|constructor]. split_and!; try (apply (bool_decide_unpack _); vm_compute; exact I).
Qed.

Lemma inspector_serves_witness :
  exists buf', onMessage (http_callback (fold_left perform sample_ops newInspector)) 7 newContext
      (buffer_of (print_request sample_request)) =
      Ok ([Send (lit "HTTP/1.1 200 OK" ++ kCRLF ++ lit "Connection: close" ++ kCRLF ++
                 lit "Content-Type: text/plain" ++ kCRLF ++ kCRLF ++ lit "ab"); Shutdown], newContext, buf') /\
    wf buf' /\ content buf' = [].
Proof.
  destruct (buffer_of_spec (print_request sample_request)) as [Hw Hc]; [vm_compute; discriminate|].
  destruct (inspector_serves sample_ops 7 sample_request (lit "proc") (lit "echo") [lit "a"; lit "b"]
    (buffer_of (print_request sample_request)) [] Hw sample_request_ok) as [_ Hserve].
  - by rewrite app_nil_r.
  - by vm_compute.
  - repeat constructor; try discriminate; apply (bool_decide_unpack _); vm_compute; exact I.
  - apply Hserve. split; vm_compute; try discriminate; intuition discriminate.
Defined.
End InspectorSample.
