(* ===== verification/InetAddress.v ===== *)
(** * InetAddress: net/InetAddress.h, net/InetAddress.cc, and the address functions
      of net/SocketsOps.cc

    An address is the 28 bytes of the union of sockaddr_in and sockaddr_in6, read
    and written at the offsets of their members, so that what a constructor does
    not initialize keeps its old content.  The text form of IPv4 addresses
    (inet_ntop, inet_pton) is written out; that of IPv6 addresses is a parameter
    with the contract that it fits INET6_ADDRSTRLEN and reads back.

    Theorems: the text of an address and its port give the address back, and
    isSelfConnect tells exactly whether the two ends of a connection have the same
    address and port. *)

From S2P Require Import Prelude Endian Format.

Definition AF_INET : Z := 2.
Definition AF_INET6 : Z := 10.
Definition INET_ADDRSTRLEN : Z := 16.
Definition INET6_ADDRSTRLEN : Z := 46.
Definition sizeof_sockaddr_in : Z := 16.
Definition sizeof_sockaddr_in6 : Z := 28.

Definition colon : ascii := code_char 58.
Definition dot : ascii := code_char 46.

(** ** inet_ntop and inet_pton for AF_INET *)
Definition inet_ntop4 (addr : bytes) : bytes :=
  match map char_code addr with
  | [a; b; c; d] => dec a ++ dot :: dec b ++ dot :: dec c ++ dot :: dec d
  | _ => []
  end.

(** One decimal part: digits without a superfluous zero, at most 255. *)
Definition octet (p : bytes) : option ascii :=
  if forallb is_digit p && negb (bool_decide (p = [])) &&
     ((zlen p =? 1) || negb (bool_decide (head p = Some (digit 0)))) && (undec_nonneg p <=? 255)
  then Some (code_char (undec_nonneg p)) else None.

Definition inet_pton4 (text : bytes) : option bytes :=
  match fields_of dot text with
  | [a; b; c; d] => a ← octet a; b ← octet b; c ← octet c; d ← octet d; Some [a; b; c; d]
  | _ => None
  end.

(** Every octet prints to a part that reads back. *)
Lemma octets_checked :
  forallb (fun n => bool_decide (octet (dec n) = Some (code_char n)) && forallb (fun c => negb (ceqb c dot)) (dec n) && (zlen (dec n) <=? 3))
    (seqZ 0 256) = true.
Proof. by vm_compute. Qed.

Lemma octet_dec c : octet (dec (char_code c)) = Some c /\ dot ∉ dec (char_code c) /\ zlen (dec (char_code c)) <= 3.
Proof.
  pose proof (char_code_range c) as Hc. pose proof octets_checked as H. rewrite forallb_forall in H.
  specialize (H (char_code c)). assert (Hin : In (char_code c) (seqZ 0 256)) by (apply list_elem_of_In, elem_of_seqZ; lia).
  specialize (H Hin). apply andb_true_iff in H as [H H3]. apply andb_true_iff in H as [H1 H2].
  apply bool_decide_eq_true in H1. rewrite code_char_char_code in H1. split; [done|]. split; [|lia].
  rewrite forallb_forall in H2. intros Hd%list_elem_of_In. specialize (H2 _ Hd). by rewrite (proj2 (ceqb_eq dot dot) eq_refl) in H2.
Qed.

Lemma four_bytes (l : bytes) : zlen l = 4 -> exists a b c d, l = [a; b; c; d].
Proof. intros H. unfold zlen in H. destruct l as [|a [|b [|c [|d [|]]]]]; simpl in H; try lia. eauto. Qed.

Lemma pton_ntop4 addr : zlen addr = 4 -> inet_pton4 (inet_ntop4 addr) = Some addr /\ zlen (inet_ntop4 addr) <= 15.
Proof.
  intros (a & b & c & d & ->)%four_bytes. unfold inet_pton4, inet_ntop4. cbn [map].
  destruct (octet_dec a) as (Ea & Da & La), (octet_dec b) as (Eb & Db & Lb), (octet_dec c) as (Ec & Dc & Lc), (octet_dec d) as (Ed & Dd & Ld).
  rewrite (fields_app dot _ _ Da), (fields_app dot _ _ Db), (fields_app dot _ _ Dc), (fields_plain dot _ Dd).
  rewrite Ea, Eb, Ec, Ed. split; [done|]. rewrite !zlen_app, !zlen_cons, !zlen_app, !zlen_cons, !zlen_app, !zlen_cons. lia.
Qed.

Section inet.
Context (inet_ntop6 : bytes -> bytes) (inet_pton6 : bytes -> option bytes).

(** ** The union *)
Definition InetAddress := bytes.

Definition field (off len : Z) (a : InetAddress) : bytes := zslice off (off + len) a.
Definition memZero (len : Z) (a : InetAddress) : InetAddress := zwrite 0 (replicate (Z.to_nat len) nul) a.

(** sin_family, sin_port and sin6_port have the same place; the family is in host
    order, the port is kept in network order. *)
Definition family (a : InetAddress) : Z := le_value (field 0 2 a).
Definition set_family (f : Z) (a : InetAddress) : InetAddress := zwrite 0 (le_bytes 2 f) a.
Definition portNetEndian (a : InetAddress) : Z := le_value (field 2 2 a).
Definition set_port (p : Z) (a : InetAddress) : InetAddress := zwrite 2 (le_bytes 2 p) a.
Definition sin_addr (a : InetAddress) : bytes := field 4 4 a.
Definition set_sin_addr (ip : bytes) (a : InetAddress) : InetAddress := zwrite 4 ip a.
Definition sin6_addr (a : InetAddress) : bytes := field 8 16 a.
Definition set_sin6_addr (ip : bytes) (a : InetAddress) : InetAddress := zwrite 8 ip a.

Definition in6addr_any : bytes := replicate 16 nul.
Definition in6addr_loopback : bytes := replicate 15 nul ++ [code_char 1].
Definition kInaddrAny : Z := 0.
Definition kInaddrLoopback : Z := 2130706433.

(** [garbage] is what the memory of the object held. *)
Definition newInetAddress (port : Z) (loopbackOnly ipv6 : bool) (garbage : InetAddress) : InetAddress :=
  if ipv6 then
    let a := set_family AF_INET6 (memZero sizeof_sockaddr_in6 garbage) in
    let a := set_sin6_addr (if loopbackOnly then in6addr_loopback else in6addr_any) a in
    set_port (hostToNetwork16 port) a
  else
    let a := set_family AF_INET (memZero sizeof_sockaddr_in garbage) in
    let a := set_sin_addr (le_bytes 4 (hostToNetwork32 (if loopbackOnly then kInaddrLoopback else kInaddrAny))) a in
    set_port (hostToNetwork16 port) a.

(** [sockets::fromIpPort]; a text that does not parse leaves the address alone and
    is only logged. *)
Definition fromIpPort4 (ip : bytes) (port : Z) (a : InetAddress) : InetAddress :=
  let a := set_port (hostToNetwork16 port) (set_family AF_INET a) in
  match inet_pton4 ip with Some b => set_sin_addr b a | None => a end.

Definition fromIpPort6 (ip : bytes) (port : Z) (a : InetAddress) : InetAddress :=
  let a := set_port (hostToNetwork16 port) (set_family AF_INET6 a) in
  match inet_pton6 ip with Some b => set_sin6_addr b a | None => a end.

Definition inetAddress_of (ip : bytes) (port : Z) (ipv6 : bool) (garbage : InetAddress) : InetAddress :=
  if ipv6 then fromIpPort6 ip port (memZero sizeof_sockaddr_in6 garbage)
  else fromIpPort4 ip port (memZero sizeof_sockaddr_in garbage).

(** [sockets::toIp]: what is in the buffer of [size] bytes that began empty. *)
Definition sockets_toIp (size : Z) (a : InetAddress) : outcome bytes :=
  if family a =? AF_INET then
    c_assert (INET_ADDRSTRLEN <=? size);;
    Ok (inet_ntop4 (sin_addr a))
  else if family a =? AF_INET6 then
    c_assert (INET6_ADDRSTRLEN <=? size);;
    Ok (inet_ntop6 (sin6_addr a))
  else Ok [].

Definition sockets_toIpPort (size : Z) (a : InetAddress) : outcome bytes :=
  buf ← sockets_toIp size a;
  let end_ := zlen buf in
  let port := networkToHost16 (portNetEndian a) in
  c_assert (end_ <? size);;
  Ok (buf ++ snprintf (size - end_) (colon :: dec port)).

Definition toIpPort (a : InetAddress) : outcome bytes := sockets_toIpPort 64 a.
Definition toIp (a : InetAddress) : outcome bytes := sockets_toIp 64 a.
Definition toPort (a : InetAddress) : Z := networkToHost16 (portNetEndian a).
Definition ipNetEndian (a : InetAddress) : outcome Z :=
  c_assert (family a =? AF_INET);; Ok (le_value (sin_addr a)).
Definition setScopeId (scope_id : Z) (a : InetAddress) : InetAddress :=
  if family a =? AF_INET6 then zwrite 24 (le_bytes 4 scope_id) a else a.

(** [resolve]: the answer of gethostbyname_r is the type, the length and the bytes
    of the first address; only the address is replaced. *)
Definition resolve (answer : option (Z * Z * bytes)) (out : InetAddress) : outcome (bool * InetAddress) :=
  match answer with
  | Some (h_addrtype, h_length, h_addr) =>
      c_assert ((h_addrtype =? AF_INET) && (h_length =? 4));;
      Ok (true, set_sin_addr h_addr out)
  | None => Ok (false, out)
  end.

(** [sockets::isSelfConnect] on what getsockname and getpeername answered. *)
Definition isSelfConnect (localaddr peeraddr : InetAddress) : bool :=
  if family localaddr =? AF_INET then
    (portNetEndian localaddr =? portNetEndian peeraddr) && (le_value (sin_addr localaddr) =? le_value (sin_addr peeraddr))
  else if family localaddr =? AF_INET6 then
    (portNetEndian localaddr =? portNetEndian peeraddr) && bytes_eqb (sin6_addr localaddr) (sin6_addr peeraddr)
  else false.

(** ** Text and back *)

(** What identifies an address. *)
Definition significant (a : InetAddress) : Z * Z * bytes :=
  (family a, portNetEndian a, if family a =? AF_INET then sin_addr a else sin6_addr a).

Definition text6_ok : Prop := forall b, zlen b = 16 ->
  zlen (inet_ntop6 b) < INET6_ADDRSTRLEN /\ inet_pton6 (inet_ntop6 b) = Some b.

Lemma field_same off data (a : InetAddress) :
  0 <= off -> off + zlen data <= zlen a -> field off (zlen data) (zwrite off data a) = data.
Proof. intros. unfold field. by apply zslice_zwrite_same. Qed.

Lemma field_before off len off' data (a : InetAddress) :
  0 <= off -> 0 <= len -> off + len <= off' -> off' + zlen data <= zlen a -> field off len (zwrite off' data a) = field off len a.
Proof. intros. unfold field. apply zslice_zwrite_before; lia. Qed.

Lemma field_after off len off' data (a : InetAddress) :
  0 <= off' -> off' + zlen data <= off -> 0 <= len -> off + len <= zlen a -> field off len (zwrite off' data a) = field off len a.
Proof. intros. unfold field. apply zslice_zwrite_after; lia. Qed.

Lemma value_bytes2 v : 0 <= v < 65536 -> le_value (le_bytes 2 v) = v.
Proof. intros. rewrite le_value_le_bytes. by apply Z.mod_small. Qed.

Lemma significant_written f p off ip (a : InetAddress) :
  zlen a = 28 -> 0 <= f < 65536 -> 0 <= p < 65536 -> 4 <= off -> off + zlen ip <= 28 ->
  let b := zwrite off ip (set_port p (set_family f a)) in
  family b = f /\ portNetEndian b = p /\ field off (zlen ip) b = ip.
Proof.
  intros Ha Hf Hp Hoff Hip. assert (L1 : zlen (le_bytes 2 f) = 2) by apply zlen_le_bytes.
  assert (L2 : zlen (le_bytes 2 p) = 2) by apply zlen_le_bytes.
  unfold set_port, set_family, family, portNetEndian. cbn zeta.
  assert (Z1 : zlen (zwrite 0 (le_bytes 2 f) a) = 28) by (rewrite zlen_zwrite; lia).
  assert (Z2 : zlen (zwrite 2 (le_bytes 2 p) (zwrite 0 (le_bytes 2 f) a)) = 28) by (rewrite zlen_zwrite; lia).
  split_and!.
  - rewrite (field_before 0 2 off), (field_before 0 2 2) by lia.
    pose proof (field_same 0 (le_bytes 2 f) a) as E. rewrite L1 in E. rewrite E by lia. by apply value_bytes2.
  - rewrite (field_before 2 2 off) by lia.
    pose proof (field_same 2 (le_bytes 2 p) (zwrite 0 (le_bytes 2 f) a)) as E. rewrite L2 in E. rewrite E by lia. by apply value_bytes2.
  - apply field_same; lia.
Qed.

Lemma port_swap p : 0 <= p < 65536 -> hostToNetwork16 (networkToHost16 p) = p /\ 0 <= networkToHost16 p < 65536.
Proof.
  intros Hp. unfold hostToNetwork16, networkToHost16. split; [rewrite bswap_involutive; by apply Z.mod_small|].
  unfold bswap. pose proof (le_value_range (rev (le_bytes 2 p))) as H. rewrite zlen_rev, zlen_le_bytes in H. exact H.
Qed.

Lemma field_value_range off (a : InetAddress) : zlen a = 28 -> 0 <= off <= 26 -> 0 <= le_value (field off 2 a) < 65536.
Proof.
  intros Ha Hoff. pose proof (le_value_range (field off 2 a)) as H. unfold field in H at 3. rewrite zlen_zslice in H by lia.
  replace (off + 2 - off) with 2 in H by lia. exact H.
Qed.

Lemma memZero_len len (a : InetAddress) : zlen a = 28 -> 0 <= len <= 28 -> zlen (memZero len a) = 28.
Proof.
  intros Ha Hl. assert (E : zlen (replicate (Z.to_nat len) nul) = len) by (unfold zlen; rewrite length_replicate; lia).
  unfold memZero. rewrite zlen_zwrite; lia.
Qed.

Lemma toIpPort_text a ip :
  zlen a = 28 -> toIp a = Ok ip -> zlen ip < INET6_ADDRSTRLEN -> toIpPort a = Ok (ip ++ colon :: dec (toPort a)).
Proof.
  intros Ha Hip Hlen. unfold toIpPort, sockets_toIpPort. unfold toIp in Hip. rewrite Hip. cbn [mbind outcome_bind].
  unfold INET6_ADDRSTRLEN in Hlen. rewrite (proj2 (Z.ltb_lt (zlen ip) 64)) by lia. cbn [c_assert mbind outcome_bind].
  do 2 f_equal. unfold snprintf. apply ztake_all. fold (toPort a). rewrite zlen_cons.
  pose proof (proj2 (port_swap _ (field_value_range 2 a Ha ltac:(lia)))) as Hp.
  change (networkToHost16 (le_value (field 2 2 a))) with (toPort a) in Hp.
  unfold dec. rewrite (proj2 (Z.ltb_ge _ _)) by lia. pose proof (dec_nonneg_length (toPort a) 5 ltac:(lia) ltac:(lia) ltac:(lia)). lia.
Qed.

(** The text of an address reads back: for every IPv4 or IPv6 address, toIp
    succeeds, toIpPort is that text, a colon and the port in decimal, whole, and an
    InetAddress constructed from the text and the port has the family, the port and
    the address it was printed from, whatever its memory held before. *)
Theorem inet_address_roundtrip a garbage
  (H6 : text6_ok) (Ha : zlen a = 28) (Hg : zlen garbage = 28) (Hfam : family a = AF_INET \/ family a = AF_INET6) :
  exists ip, toIp a = Ok ip /\ toIpPort a = Ok (ip ++ colon :: dec (toPort a)) /\ 0 <= toPort a < 65536 /\
    significant (inetAddress_of ip (toPort a) (family a =? AF_INET6) garbage) = significant a.
Proof.
  destruct (port_swap _ (field_value_range 2 a Ha ltac:(lia))) as [Hswap Hport]. 
  change (networkToHost16 (le_value (field 2 2 a))) with (toPort a) in Hswap, Hport.
  change (le_value (field 2 2 a)) with (portNetEndian a) in Hswap.
  pose proof (field_value_range 2 a Ha ltac:(lia)) as Hp. fold (portNetEndian a) in Hp.
  assert (Hl4 : zlen (sin_addr a) = 4) by (unfold sin_addr, field; rewrite zlen_zslice; lia).
  assert (Hl6 : zlen (sin6_addr a) = 16) by (unfold sin6_addr, field; rewrite zlen_zslice; lia).
  destruct Hfam as [Hf|Hf].
  - destruct (pton_ntop4 (sin_addr a) Hl4) as [Hrt Hlen]. exists (inet_ntop4 (sin_addr a)).
    assert (Hip : toIp a = Ok (inet_ntop4 (sin_addr a))) by (unfold toIp, sockets_toIp; rewrite Hf; done).
    split; [done|]. split; [apply toIpPort_text; [done|done|unfold INET6_ADDRSTRLEN; lia]|]. split; [done|].
    rewrite Hf. unfold inetAddress_of, fromIpPort4. cbn [Z.eqb AF_INET AF_INET6 Pos.eqb]. rewrite Hrt, Hswap.
    destruct (significant_written AF_INET (portNetEndian a) 4 (sin_addr a) (memZero sizeof_sockaddr_in garbage)) as (E1 & E2 & E3);
      [by apply memZero_len|done|done|lia|lia|].
    unfold significant, set_sin_addr. rewrite E1, E2, Hf. rewrite Z.eqb_refl. rewrite Hl4 in E3. f_equal. exact E3.
  - destruct (H6 (sin6_addr a) Hl6) as [Hlen Hrt]. exists (inet_ntop6 (sin6_addr a)).
    assert (Hip : toIp a = Ok (inet_ntop6 (sin6_addr a))) by (unfold toIp, sockets_toIp; rewrite Hf; done).
    split; [done|]. split; [by apply toIpPort_text|]. split; [done|].
    rewrite Hf. unfold inetAddress_of, fromIpPort6. rewrite Z.eqb_refl, Hrt, Hswap.
    destruct (significant_written AF_INET6 (portNetEndian a) 8 (sin6_addr a) (memZero sizeof_sockaddr_in6 garbage)) as (E1 & E2 & E3);
      [by apply memZero_len|done|done|lia|lia|].
    unfold significant, set_sin6_addr. rewrite E1, E2, Hf. rewrite Hl6 in E3. f_equal. exact E3.
Qed.

Lemma le_value_inj (x y : bytes) : zlen x = zlen y -> le_value x = le_value y -> x = y.
Proof.
  intros Hl H. rewrite <- (le_bytes_le_value x), <- (le_bytes_le_value y), H. f_equal. unfold zlen in Hl. lia.
Qed.

(** The two ends of a connection are the same socket exactly when isSelfConnect
    says so. *)
Lemma isSelfConnect_exact l p :
  zlen l = 28 -> zlen p = 28 -> family l = family p -> family l = AF_INET \/ family l = AF_INET6 ->
  isSelfConnect l p = true <-> significant l = significant p.
Proof.
  intros Hl Hp Hf Hfam. unfold isSelfConnect, significant. rewrite <- Hf.
  assert (Hz : zlen (sin_addr l) = zlen (sin_addr p)) by (unfold sin_addr, field; rewrite !zlen_zslice; lia).
  destruct Hfam as [E|E]; rewrite E; cbn [Z.eqb AF_INET AF_INET6 Pos.eqb]; rewrite andb_true_iff, Z.eqb_eq.
  - rewrite Z.eqb_eq. split; [intros [-> Hv]|intros [= -> ->]; done]. by rewrite (le_value_inj _ _ Hz Hv).
  - unfold bytes_eqb. rewrite bool_decide_eq_true. split; [by intros [-> ->]|by intros [= -> ->]].
Qed.

End inet.

(** ** Sample: two letters per byte stand for the text of an IPv6 address *)
Module InetSample.
Definition sample_address : InetAddress := newInetAddress 80 true false (replicate 28 (code_char 255)).

(** Half a byte to a letter and back. *)
Definition half (n : Z) : ascii := code_char (97 + n).
Definition ntop (b : bytes) : bytes := concat (map (fun c => [half (char_code c / 16); half (char_code c mod 16)]) (ztake 16 b)).
Fixpoint pton_loop (l : bytes) : bytes :=
  match l with
  | h :: l' :: rest => code_char (16 * (char_code h - 97) + (char_code l' - 97)) :: pton_loop rest
  | _ => []
  end.
Definition pton (l : bytes) : option bytes := Some (pton_loop l).

Lemma ntop_text6_ok : text6_ok ntop pton.
Proof.
  intros b Hb. unfold pton, ntop. rewrite ztake_all by lia. clear -Hb. split.
  - assert (E : forall b : bytes, zlen (concat (map (fun c => [half (char_code c / 16); half (char_code c mod 16)]) b)) = 2 * zlen b).
    { clear. induction b as [|c b IH]; [done|]. cbn [map concat app]. rewrite !zlen_cons. lia. }
    rewrite E, Hb. unfold INET6_ADDRSTRLEN. lia.
  - f_equal. clear. induction b as [|c b IH]; [done|]. cbn [map concat app pton_loop]. rewrite IH. f_equal.
    pose proof (char_code_range c). unfold half. rewrite !char_code_code_char.
    rewrite !(Z.mod_small (97 + _)) by (Z.div_mod_to_equations; lia).
    replace (16 * (97 + char_code c / 16 - 97) + (97 + char_code c mod 16 - 97)) with (char_code c) by (Z.div_mod_to_equations; lia).
    apply code_char_char_code.
Qed.

Lemma inet_address_roundtrip_witness :
  exists ip, toIp ntop sample_address = Ok ip /\ ip = lit "127.0.0.1" /\
    toIpPort ntop sample_address = Ok (lit "127.0.0.1:80") /\
    significant (inetAddress_of pton ip 80 false (replicate 28 nul)) = significant sample_address.
Proof.
  destruct (inet_address_roundtrip ntop pton sample_address (replicate 28 nul) ntop_text6_ok) as (ip & Hip & Htext & _ & Hback);
    [by vm_compute|by vm_compute|left; by vm_compute|].
  exists ip. assert (E : toIp ntop sample_address = Ok (lit "127.0.0.1")) by (vm_compute; reflexivity).
  rewrite E in Hip. injection Hip as <-. split; [exact E|]. split; [reflexivity|].
  assert (Ep : toPort sample_address = 80) by (vm_compute; reflexivity). rewrite Ep in *. split; [exact Htext|]. exact Hback.
Defined.
End InetSample.
