(* ===== verification/StringPiece.v ===== *)
(** * StringPiece: base/StringPiece.h

    A piece is a pointer and a length.  [block] is the array the pointer points
    into (with its terminating NUL where it has one), so that a piece moved over
    its block, two pieces of one block, and reads past the end of a piece are what
    they are in the code; a read outside the block is undefined behaviour.  The
    null pointer points into no array.

    Theorems: on pieces inside their blocks the comparison operators are the
    order of the byte strings they denote, [starts_with] is the prefix test, and
    moving the ends of a piece cuts the string it denotes. *)

From S2P Require Import Prelude StdContainers.

Record StringPiece := mkPiece { block : bytes; ptr_ : Z; length_ : Z }.

(** [strlen]: a string without a NUL is read to the end of its array and beyond. *)
Definition strlen (b : bytes) (p : Z) : outcome Z :=
  let n := find_char nul (zdrop p b) in
  if (0 <=? p) && (p + n <? zlen b) then Ok n else Fault UndefinedBehaviour.

(** ** Construction and [set] *)
Definition newStringPiece : StringPiece := mkPiece [] 0 0.

Definition piece_of_cstr (b : bytes) (p : Z) : outcome StringPiece :=
  n ← strlen b p; Ok (mkPiece b p (wrapS 32 n)).

Definition piece_of_string (str : bytes) : StringPiece :=
  mkPiece (str ++ [nul]) 0 (wrapS 32 (zlen str)).

Definition piece_of (b : bytes) (offset len : Z) : StringPiece := mkPiece b offset len.

Definition piece_clear (s : StringPiece) : StringPiece := mkPiece [] 0 0.

Definition piece_set (b : bytes) (p len : Z) (s : StringPiece) : StringPiece := mkPiece b p len.

Definition piece_set_cstr (b : bytes) (p : Z) (s : StringPiece) : outcome StringPiece :=
  n ← strlen b p; Ok (mkPiece b p (wrapS 32 n)).

(** ** Observers *)
Definition piece_size (s : StringPiece) : Z := length_ s.
Definition piece_empty (s : StringPiece) : bool := length_ s =? 0.
Definition piece_begin (s : StringPiece) : Z := ptr_ s.
Definition piece_end (s : StringPiece) : Z := ptr_ s + length_ s.

(** [*p], a read of one character. *)
Definition load (b : bytes) (p : Z) : outcome ascii := get_or UndefinedBehaviour (zget b p).

Definition piece_get (i : Z) (s : StringPiece) : outcome ascii := load (block s) (ptr_ s + i).

Definition remove_prefix (n : Z) (s : StringPiece) : StringPiece :=
  mkPiece (block s) (ptr_ s + n) (wrapS 32 (length_ s - n)).

Definition remove_suffix (n : Z) (s : StringPiece) : StringPiece :=
  mkPiece (block s) (ptr_ s) (wrapS 32 (length_ s - n)).

(** The [n] bytes at a pointer; [n] is converted to size_t, so a negative length
    is out of every array. *)
Definition load_range (b : bytes) (p n : Z) : outcome bytes :=
  let n := wrapU 64 n in
  if n =? 0 then Ok []
  else if (0 <=? p) && (p + n <=? zlen b) then Ok (zslice p (p + n) b) else Fault UndefinedBehaviour.

(** ** Comparison

    [memcmp] is the difference of the first bytes that differ, as unsigned
    characters; the C library promises its sign, which is all the code uses. *)
Fixpoint diff (a b : bytes) : Z :=
  match a, b with
  | x :: a', y :: b' =>
      if char_code x =? char_code y then diff a' b' else char_code x - char_code y
  | _, _ => 0
  end.

Definition memcmp (s x : StringPiece) (n : Z) : outcome Z :=
  a ← load_range (block s) (ptr_ s) n; b ← load_range (block x) (ptr_ x) n; Ok (diff a b).

Definition piece_eq (s x : StringPiece) : outcome bool :=
  if length_ s =? length_ x then r ← memcmp s x (length_ s); Ok (r =? 0) else Ok false.

Definition piece_ne (s x : StringPiece) : outcome bool := negb <$> piece_eq s x.

(** STRINGPIECE_BINARY_PREDICATE(cmp, auxcmp) *)
Definition binary_predicate (cmp auxcmp : Z -> Z -> bool) (s x : StringPiece) : outcome bool :=
  r ← memcmp s x (if length_ s <? length_ x then length_ s else length_ x);
  Ok (auxcmp r 0 || ((r =? 0) && cmp (length_ s) (length_ x))).

Definition piece_lt := binary_predicate Z.ltb Z.ltb.
Definition piece_le := binary_predicate Z.leb Z.ltb.
Definition piece_ge := binary_predicate Z.geb Z.gtb.
Definition piece_gt := binary_predicate Z.gtb Z.gtb.

Definition piece_compare (s x : StringPiece) : outcome Z :=
  r ← memcmp s x (if length_ s <? length_ x then length_ s else length_ x);
  Ok (if r =? 0 then
        if length_ s <? length_ x then -1 else if length_ s >? length_ x then 1 else r
      else r).

(** [std::string(data(), size())] throws on a length above its maximal size. *)
Definition as_string (s : StringPiece) : outcome bytes :=
  if length_ s <? 0 then Fault LengthError else load_range (block s) (ptr_ s) (length_ s).

Definition CopyToString (target : bytes) (s : StringPiece) : outcome bytes :=
  if length_ s <? 0 then Fault LengthError else load_range (block s) (ptr_ s) (length_ s).

Definition starts_with (x s : StringPiece) : outcome bool :=
  if length_ s >=? length_ x then r ← memcmp s x (length_ x); Ok (r =? 0) else Ok false.

(** ** Pieces inside their blocks *)
Record piece_ok (s : StringPiece) : Prop := {
  pk_ptr : 0 <= ptr_ s;
  pk_len : 0 <= length_ s < 2 ^ 31;
  pk_in : ptr_ s + length_ s <= zlen (block s);
}.

(** The string a piece denotes. *)
Definition text (s : StringPiece) : bytes := zslice (ptr_ s) (ptr_ s + length_ s) (block s).

Lemma zlen_text s : piece_ok s -> zlen (text s) = length_ s.
Proof. intros [? ? ?]. unfold text. rewrite zlen_zslice by lia. lia. Qed.

Lemma load_range_ok s n :
  piece_ok s -> 0 <= n <= length_ s -> load_range (block s) (ptr_ s) n = Ok (ztake n (text s)).
Proof.
  intros [H1 H2 H3] Hn. unfold load_range, text. rewrite wrapU_id by (unfold in_u; lia).
  destruct (Z.eqb_spec n 0) as [->|Hz]; [by rewrite ztake_0|].
  rewrite (proj2 (Z.leb_le 0 _)), (proj2 (Z.leb_le (_ + n) _)) by lia. simpl.
  unfold zslice. rewrite ztake_ztake by lia. do 2 f_equal. lia.
Qed.

Lemma memcmp_ok s x n :
  piece_ok s -> piece_ok x -> 0 <= n <= length_ s -> n <= length_ x ->
  memcmp s x n = Ok (diff (ztake n (text s)) (ztake n (text x))).
Proof. intros Hs Hx H1 H2. unfold memcmp. by rewrite !load_range_ok by (done || lia). Qed.

Lemma diff_eq a b : zlen a = zlen b -> diff a b = 0 <-> a = b.
Proof.
  revert b. induction a as [|x a IH]; intros [|y b]; rewrite ?zlen_cons; znil; simpl.
  - done.
  - pose proof (zlen_nonneg b). lia.
  - pose proof (zlen_nonneg a). lia.
  - intros Hl. destruct (Z.eqb_spec (char_code x) (char_code y)) as [He|Hne].
    + apply char_code_inj in He as ->. rewrite IH by lia. naive_solver.
    + split; [lia|]. intros [= -> ->]. done.
Qed.

(** What [memcmp] on the common length and the lengths say about the order. *)
Lemma diff_order a b :
  let n := Z.min (zlen a) (zlen b) in
  let r := diff (ztake n a) (ztake n b) in
  bytes_ltb a b = (r <? 0) || ((r =? 0) && (zlen a <? zlen b)).
Proof.
  cbn zeta. revert b. induction a as [|x a IH]; intros [|y b]; rewrite ?zlen_cons; znil; try done.
  - pose proof (zlen_nonneg b). rewrite Z.min_l, ztake_0 by lia. simpl. lia.
  - pose proof (zlen_nonneg a). rewrite Z.min_r, !ztake_0 by lia. simpl. lia.
  - pose proof (zlen_nonneg a). pose proof (zlen_nonneg b).
    replace (Z.min (1 + zlen a) (1 + zlen b)) with (1 + Z.min (zlen a) (zlen b)) by lia.
    specialize (IH b). unfold ztake in IH |- *. rewrite Z2Nat.inj_add by lia.
    change (Z.to_nat 1) with 1%nat. cbn [Nat.add take diff bytes_ltb].
    destruct (Z.eqb_spec (char_code x) (char_code y)) as [He|Hne].
    + rewrite IH, He, Z.ltb_irrefl. set (r := diff _ _). cbn [orb andb]. lia.
    + cbn [andb orb]. lia.
Qed.

Lemma diff_opp a b : diff b a = - diff a b.
Proof.
  revert b. induction a as [|x a IH]; intros [|y b]; try done. cbn [diff].
  rewrite IH, (Z.eqb_sym (char_code y)). destruct (_ =? _); lia.
Qed.

(** The order seen from the two lengths and the [memcmp] of the common part. *)
Lemma piece_memcmp s x :
  piece_ok s -> piece_ok x ->
  exists r, memcmp s x (if length_ s <? length_ x then length_ s else length_ x) = Ok r /\
    bytes_ltb (text s) (text x) = (r <? 0) || ((r =? 0) && (length_ s <? length_ x)) /\
    bytes_ltb (text x) (text s) = (0 <? r) || ((r =? 0) && (length_ x <? length_ s)).
Proof.
  intros Hs Hx. pose proof (pk_len _ Hs). pose proof (pk_len _ Hx).
  replace (if _ <? _ then _ else _) with (Z.min (length_ s) (length_ x))
    by (destruct (Z.ltb_spec (length_ s) (length_ x)); lia).
  eexists. split; [apply memcmp_ok; try done; lia|].
  pose proof (diff_order (text s) (text x)) as H1. pose proof (diff_order (text x) (text s)) as H2.
  cbn zeta in H1, H2. rewrite !zlen_text in H1, H2 by done. rewrite H1, H2. split; [done|].
  rewrite (Z.min_comm (length_ x)), diff_opp. set (r := diff _ _). lia.
Qed.

(** [memcmp] over the whole of the second piece is an equality test. *)
Lemma memcmp_text s x :
  piece_ok s -> piece_ok x -> length_ x <= length_ s ->
  (r ← memcmp s x (length_ x); Ok (r =? 0)) = Ok (bytes_eqb (ztake (length_ x) (text s)) (text x)).
Proof.
  intros Hs Hx Hl. pose proof (pk_len _ Hx). rewrite memcmp_ok by (done || lia).
  rewrite (ztake_all _ (text x)) by (rewrite zlen_text by done; lia). simpl. f_equal.
  unfold bytes_eqb. apply eq_bool_prop_intro. rewrite Is_true_true, Is_true_true, Z.eqb_eq, bool_decide_eq_true.
  apply diff_eq. rewrite zlen_ztake, zlen_text by (rewrite ?zlen_text by done; (done || lia)). done.
Qed.

(** On pieces inside their blocks no operator reads outside them, and they are
    the comparisons of the strings denoted: equality, the lexicographic order of
    unsigned bytes with its four operators, the sign of [compare], and the prefix
    test of [starts_with]. *)
Theorem pieces_are_strings s x :
  piece_ok s -> piece_ok x ->
  piece_eq s x = Ok (bytes_eqb (text s) (text x)) /\
  piece_ne s x = Ok (negb (bytes_eqb (text s) (text x))) /\
  piece_lt s x = Ok (bytes_ltb (text s) (text x)) /\
  piece_gt s x = Ok (bytes_ltb (text x) (text s)) /\
  piece_le s x = Ok (negb (bytes_ltb (text x) (text s))) /\
  piece_ge s x = Ok (negb (bytes_ltb (text s) (text x))) /\
  (exists r, piece_compare s x = Ok r /\
     (r < 0 <-> bytes_ltb (text s) (text x) = true) /\ (0 < r <-> bytes_ltb (text x) (text s) = true)) /\
  starts_with x s = Ok (bytes_eqb (ztake (length_ x) (text s)) (text x)) /\
  as_string s = Ok (text s).
Proof.
  intros Hs Hx. pose proof (pk_len _ Hs). pose proof (pk_len _ Hx).
  assert (Heq : piece_eq s x = Ok (bytes_eqb (text s) (text x))).
  { unfold piece_eq. destruct (Z.eqb_spec (length_ s) (length_ x)) as [E|E].
    - rewrite E, (memcmp_text s x) by (done || lia).
      by rewrite ztake_all by (rewrite zlen_text by done; lia).
    - unfold bytes_eqb. rewrite bool_decide_eq_false_2; [done|]. intros Ht. apply E.
      by rewrite <- !zlen_text, Ht. }
  destruct (piece_memcmp s x Hs Hx) as (r & Hr & Hlt & Hgt).
  unfold piece_ne, piece_lt, piece_gt, piece_le, piece_ge, binary_predicate, piece_compare.
  rewrite Heq, Hr, Hlt, Hgt. split_and!; try done; simpl; try (f_equal; lia).
  - eexists. split; [done|]. rewrite Z.gtb_ltb.
    destruct (Z.eqb_spec r 0), (Z.ltb_spec (length_ s) (length_ x)), (Z.ltb_spec (length_ x) (length_ s)); lia.
  - unfold starts_with. rewrite Z.geb_leb. destruct (Z.leb_spec (length_ x) (length_ s)).
    + by rewrite memcmp_text by (done || lia).
    + unfold bytes_eqb. rewrite bool_decide_eq_false_2; [done|]. intros Ht.
      apply (f_equal zlen) in Ht. 
      rewrite ztake_all, !zlen_text in Ht by (done || rewrite zlen_text by done; lia). lia.
  - unfold as_string. rewrite (proj2 (Z.ltb_ge _ _)), load_range_ok by (done || lia).
    by rewrite ztake_all by (rewrite zlen_text by done; lia).
Qed.

Lemma pieces_are_strings_witness :
  piece_lt (piece_of (lit "abcabd") 0 3) (piece_of (lit "abcabd") 3 3) = Ok true.
Proof.
  by apply (pieces_are_strings (piece_of (lit "abcabd") 0 3) (piece_of (lit "abcabd") 3 3)).
Defined.

(** ** Cutting and building *)
Lemma remove_prefix_text n s :
  piece_ok s -> 0 <= n <= length_ s ->
  piece_ok (remove_prefix n s) /\ text (remove_prefix n s) = zdrop n (text s).
Proof.
  intros [H1 H2 H3] Hn. unfold remove_prefix, text. rewrite wrapS_id by (unfold in_s; lia).
  split; [constructor; simpl; lia|]. simpl. rewrite zdrop_zslice by lia. f_equal. lia.
Qed.

Lemma remove_suffix_text n s :
  piece_ok s -> 0 <= n <= length_ s ->
  piece_ok (remove_suffix n s) /\ text (remove_suffix n s) = ztake (length_ s - n) (text s).
Proof.
  intros [H1 H2 H3] Hn. unfold remove_suffix, text. rewrite wrapS_id by (unfold in_s; lia).
  split; [constructor; simpl; lia|]. simpl. rewrite ztake_zslice by lia. done.
Qed.

Lemma piece_of_string_text str :
  zlen str < 2 ^ 31 -> piece_ok (piece_of_string str) /\ text (piece_of_string str) = str.
Proof.
  intros H. pose proof (zlen_nonneg str). unfold piece_of_string, text.
  rewrite wrapS_id by (unfold in_s; lia).
  split; [constructor; simpl; rewrite ?zlen_app, ?zlen_cons; znil; lia|]. simpl.
  unfold zslice. rewrite zdrop_0. apply ztake_app_exact. lia.
Qed.

(** The default piece and the C string constructor. *)
Lemma piece_of_cstr_text (s rest : bytes) :
  nul ∉ s -> zlen s < 2 ^ 31 ->
  exists p, piece_of_cstr (s ++ nul :: rest) 0 = Ok p /\ piece_ok p /\ text p = s.
Proof.
  intros Hs Hl. pose proof (zlen_nonneg s). pose proof (zlen_nonneg rest). unfold piece_of_cstr, strlen.
  rewrite zdrop_0, find_char_app, zlen_app, zlen_cons by done.
  rewrite (proj2 (Z.ltb_lt _ _)) by lia. simpl. eexists. split; [done|].
  rewrite wrapS_id by (unfold in_s; lia). unfold text, zslice. simpl.
  split; [constructor; simpl; rewrite ?zlen_app, ?zlen_cons; lia|].
  rewrite zdrop_0. apply ztake_app_exact. lia.
Qed.
