(* ===== verification/ProcessInfo.v ===== *)
(** * ProcessInfo: base/ProcessInfo.cc and the readers of /proc texts in
      net/inspect/ProcessInspector.cc

    The directories and files of /proc are arguments: the entries of a directory
    in the order the kernel lists them, the text of a file.  The thread-local
    state of the scandir filters is threaded through [scanDir].  The thread table
    writes a NUL into the text it parses ("don't do this at home"): texts are
    blocks shared by the pieces over them, so the write is seen by every reader.
    CPU times are kept in clock ticks; their division by the clock rate and the
    %12.3f columns are left out.

    Theorems: the thread table shows the threads in the order of their ids, each
    with its own name, state and CPU times, for names with blanks and
    parentheses too; the up time shows the whole age of the process. *)

From stdpp Require Import sorting.
From S2P Require Import Prelude Format StdContainers Timestamp StringPiece.

Definition lparen : ascii := code_char 40.
Definition rparen : ascii := code_char 41.
Definition space : ascii := code_char 32.
Definition tab : ascii := code_char 9.

(** ** The C and C++ library functions *)
Definition LONG_MAX : Z := 2 ^ 63 - 1.
Definition LONG_MIN : Z := - 2 ^ 63.

(** The NUL-terminated string at a pointer. *)
Definition cstr (b : bytes) (p : Z) : outcome bytes := n ← strlen b p; Ok (zslice p (p + n) b).

(** [strtol(s, NULL, 10)] and [atol] stop at the limits of long; [atoi] converts
    the result to int. *)
Definition strtol (s : bytes) : Z := Z.max LONG_MIN (Z.min LONG_MAX (atol s)).
Definition atoi (s : bytes) : Z := wrapS 32 (strtol s).

(** [string::find(key)] and [string::rfind(c)]; [None] is npos. *)
Fixpoint find_str (key l : bytes) : option Z :=
  if bytes_eqb (take (length key) l) key then Some 0
  else match l with
       | [] => None
       | _ :: l' => Z.add 1 <$> find_str key l'
       end.

Fixpoint rfind_char (c : ascii) (l : bytes) : option Z :=
  match l with
  | [] => None
  | x :: l' =>
      match rfind_char c l' with
      | Some i => Some (1 + i)
      | None => if ceqb x c then Some 0 else None
      end
  end.

(** ** Directories

    [scandir] calls the filter on every entry and keeps those it accepts; [None]
    is a directory that cannot be read. *)
Definition scan_step {S} (filter : bytes -> S -> Z * S) (acc : Z * S) (name : bytes) : Z * S :=
  let '(r, s) := filter name (snd acc) in ((if r =? 0 then fst acc else fst acc + 1), s).

Definition scanDir {S} (filter : bytes -> S -> Z * S) (dir : option (list bytes)) (s : S) : outcome (Z * S) :=
  match dir with
  | None => Ok (-1, s)
  | Some names =>
      let '(kept, s) := fold_left (scan_step filter) names (0, s) in
      _ ← c_assert (kept =? 0); Ok (kept, s)
  end.

(** [isdigit(d->d_name[0])] *)
Definition digit_name (name : bytes) : bool := is_digit (hd nul name).

Definition fdDirFilter (name : bytes) (t_numOpenedFiles : Z) : Z * Z :=
  (0, if digit_name name then wrapS 32 (t_numOpenedFiles + 1) else t_numOpenedFiles).

Definition taskDirFilter (name : bytes) (t_pids : list Z) : Z * list Z :=
  (0, if digit_name name then t_pids ++ [atoi name] else t_pids).

Definition openedFiles (fd_dir : option (list bytes)) : outcome Z :=
  '(_, n) ← scanDir fdDirFilter fd_dir 0; Ok n.

Definition maxOpenFiles (rlim_cur : option Z) (fd_dir : option (list bytes)) : outcome Z :=
  match rlim_cur with
  | None => openedFiles fd_dir
  | Some n => Ok (wrapS 32 n)
  end.

Definition threads (task_dir : option (list bytes)) : outcome (list Z) :=
  '(_, result) ← scanDir taskDirFilter task_dir []; Ok (merge_sort Z.le result).

(** ** Texts *)
Definition pidString (pid : Z) : bytes := snprintf 32 (dec pid).

(** The piece points into [stat], whose block ends with a NUL. *)
Definition procname (stat : bytes) : StringPiece :=
  let lp := find_char lparen stat in
  match rfind_char rparen stat with
  | Some rp =>
      if (lp <? zlen stat) && (lp <? rp)
      then mkPiece (stat ++ [nul]) (lp + 1) (wrapS 32 (rp - lp - 1)) else newStringPiece
  | None => newStringPiece
  end.

Definition getLong (procStatus key : bytes) : Z :=
  match find_str key procStatus with
  | Some pos => strtol (zdrop (pos + zlen key) procStatus)
  | None => 0
  end.

Definition numThreads (status : bytes) : Z :=
  match find_str (lit "Threads:") status with
  | Some pos => atoi (zdrop (pos + 8) status)
  | None => 0
  end.

Fixpoint skip_tabs (l : bytes) : bytes :=
  match l with
  | c :: l' => if ceqb c tab then skip_tabs l' else l
  | [] => []
  end.

(** The scan for the end of the line has no bound: without one it leaves the
    string. *)
Definition getProcessName (procStatus : bytes) : outcome bytes :=
  match find_str (lit "Name:") procStatus with
  | None => Ok []
  | Some pos =>
      let rest := skip_tabs (zdrop (pos + 5) procStatus) in
      let n := find_char lf rest in
      if n <? zlen rest then Ok (ztake n rest) else Fault UndefinedBehaviour
  end.

Definition uptime (now start : Z) (showMicroseconds : bool) : bytes :=
  let age := wrapS 64 (now - start) in
  let seconds := wrapS 32 (Z.quot age kMicroSecondsPerSecond) in
  let days := Z.quot seconds 86400 in
  let hours := Z.quot (Z.rem seconds 86400) 3600 in
  let minutes := Z.quot (Z.rem seconds 3600) 60 in
  let clock := fmt_int true 2 hours ++ lit ":" ++ fmt_int true 2 minutes ++ lit ":" ++ fmt_int true 2 (Z.rem seconds 60) in
  if showMicroseconds then
    let microseconds := wrapS 32 (Z.rem age kMicroSecondsPerSecond) in
    snprintf 256 (dec days ++ lit " days " ++ clock ++ lit "." ++ fmt_int true 6 microseconds)
  else snprintf 256 (dec days ++ lit " days " ++ clock).

(** ** The thread table *)
Definition next (data : StringPiece) : outcome StringPiece :=
  l ← load_range (block data) (ptr_ data) (length_ data);
  let sp := find_char space l in
  Ok (if sp <? zlen l then remove_prefix (wrapS 32 (sp + 1)) data else mkPiece [nul] 0 0).

Fixpoint nexts (n : nat) (data : StringPiece) : outcome StringPiece :=
  match n with
  | O => Ok data
  | S n => data ← next data; nexts n data
  end.

(** User and system time, in ticks. *)
Definition getCpuTime (data : StringPiece) : outcome (Z * Z) :=
  data ← nexts 10 data;
  u ← cstr (block data) (ptr_ data);
  data ← next data;
  s ← cstr (block data) (ptr_ data);
  Ok (strtol u, strtol s).

Record row := mkRow { r_name : bytes; r_state : ascii; r_user : Z; r_system : Z }.

(** One thread, from the text of its stat file. *)
Definition thread_row (stat : bytes) : outcome row :=
  let name := procname stat in
  let rp := piece_end name in
  c ← load (block name) rp;
  _ ← c_assert (ceqb c rparen);
  let state := rp + 2 in
  let written := zset (block name) rp nul in
  let data := remove_prefix (wrapS 32 (state + 2)) (mkPiece written 0 (wrapS 32 (zlen stat))) in
  '(u, s) ← getCpuTime data;
  n ← cstr written (ptr_ name);
  st ← load written state;
  Ok (mkRow n st u s).

(** A thread whose stat file cannot be read (it ended meanwhile) is left out. *)
Definition table_step (read : Z -> option bytes) (rows : list (Z * row)) (tid : Z) : outcome (list (Z * row)) :=
  match read tid with
  | Some stat => r ← thread_row stat; Ok (rows ++ [(tid, r)])
  | None => Ok rows
  end.

Definition thread_table (task_dir : option (list bytes)) (read : Z -> option bytes) : outcome (list (Z * row)) :=
  tids ← threads task_dir; foldM (table_step read) [] tids.

Definition sample_stat : bytes :=
  lit "12 (a) b (c)) S 1 2 3 4 5 -6 7 8 9 10 345 67 0 0".

Example sample_row : thread_row sample_stat = Ok (mkRow (lit "a) b (c)") (code_char 83) 345 67).
Proof. by vm_compute. Qed.

(** ** Numbers and searches *)
Lemma not_digit_dec c n : 0 <= n -> is_digit c = false -> c ∉ dec n.
Proof.
  intros Hn Hc Hin. unfold dec in Hin. rewrite (proj2 (Z.ltb_ge _ _)) in Hin by lia.
  pose proof (dec_nonneg_digits n Hn) as H. rewrite Forall_forall in H. specialize (H _ Hin). congruence.
Qed.

Lemma digit_not_space c : is_digit c = true -> isspace c = false /\ ceqb c minus = false /\ ceqb c (code_char 43) = false.
Proof.
  intros H. split; [unfold is_digit, isspace in *; lia|]. split; [by apply is_digit_not_minus|].
  apply ceqb_neq. intros ->. done.
Qed.

(** A decimal number followed by something else reads back. *)
Lemma strtol_dec n rest :
  0 <= n <= LONG_MAX -> (forall c l, rest = c :: l -> is_digit c = false) -> strtol (dec n ++ rest) = n.
Proof.
  intros Hn Hrest. unfold strtol, atol, dec. rewrite (proj2 (Z.ltb_ge n 0)) by lia.
  assert (Htake : take_digits (dec_nonneg n ++ rest) = dec_nonneg n).
  { pose proof (dec_nonneg_digits n ltac:(lia)) as Hall. destruct rest as [|c rest].
    - rewrite app_nil_r. induction Hall as [|x l Hx Hl IH]; [done|]. simpl. by rewrite Hx, IH.
    - apply take_digits_app; eauto. }
  destruct (dec_nonneg_head n ltac:(lia)) as (c & l & Hd & Hc).
  destruct (digit_not_space c Hc) as (H1 & H2 & H3).
  assert (Hs : skip_spaces (dec_nonneg n ++ rest) = c :: l ++ rest) by (rewrite Hd; simpl; by rewrite H1).
  rewrite Hs, H2, H3. replace (c :: l ++ rest) with (dec_nonneg n ++ rest) by (by rewrite Hd).
  rewrite Htake, undec_dec_nonneg by lia. unfold LONG_MIN, LONG_MAX in *. lia.
Qed.

Lemma atoi_dec n : 0 <= n < 2 ^ 31 -> atoi (dec n) = n.
Proof.
  intros Hn. unfold atoi. rewrite <- (app_nil_r (dec n)), strtol_dec by (done || unfold LONG_MAX; lia).
  apply wrapS_id; unfold in_s; lia.
Qed.

Lemma rfind_none c l : c ∉ l -> rfind_char c l = None.
Proof.
  induction l as [|x l IH]; intros H; simpl; [done|]. apply not_elem_of_cons in H as [H1 H2].
  rewrite IH by done. by rewrite (proj2 (ceqb_neq x c)).
Qed.

Lemma rfind_app c l1 l2 : c ∉ l2 -> rfind_char c (l1 ++ c :: l2) = Some (zlen l1).
Proof.
  intros H. induction l1 as [|x l1 IH]; simpl.
  - rewrite rfind_none by done. by rewrite (proj2 (ceqb_eq c c)).
  - by rewrite IH, zlen_cons.
Qed.

(** The name is what stands between the first "(" and the last ")". *)
Lemma procname_spec pre comm rest :
  let stat := pre ++ lparen :: comm ++ rparen :: rest in
  lparen ∉ pre -> rparen ∉ rest -> zlen stat < 2 ^ 31 ->
  procname stat = mkPiece (stat ++ [nul]) (zlen pre + 1) (zlen comm).
Proof.
  cbn zeta. intros H1 H2 Hl. unfold procname. rewrite find_char_app by done.
  assert (Hr : rfind_char rparen (pre ++ lparen :: comm ++ rparen :: rest) = Some (zlen pre + 1 + zlen comm)).
  { replace (pre ++ lparen :: comm ++ rparen :: rest) with ((pre ++ lparen :: comm) ++ rparen :: rest)
      by (by rewrite <- app_assoc).
    rewrite rfind_app by done. f_equal. rewrite zlen_app, zlen_cons. lia. }
  rewrite Hr. rewrite !zlen_app, !zlen_cons, !zlen_app, !zlen_cons in *.
  pose proof (zlen_nonneg pre). pose proof (zlen_nonneg comm). pose proof (zlen_nonneg rest).
  rewrite (proj2 (Z.ltb_lt _ _)), (proj2 (Z.ltb_lt _ _)) by lia. simpl.
  rewrite wrapS_id by (unfold in_s; lia). f_equal. lia.
Qed.

(** ** Pieces that run to the end of their block *)
Definition over (w t : bytes) : StringPiece := mkPiece (w ++ t ++ [nul]) (zlen w) (zlen t).

Lemma over_ok w t : zlen t < 2 ^ 31 -> piece_ok (over w t) /\ text (over w t) = t.
Proof.
  intros H. pose proof (zlen_nonneg w). pose proof (zlen_nonneg t). split.
  - constructor; simpl; rewrite ?zlen_app; znil; rewrite ?zlen_cons; znil; lia.
  - unfold text, over, zslice. simpl. rewrite zdrop_app_exact by done. apply ztake_app_exact. lia.
Qed.

Lemma load_at w c r : load (w ++ c :: r) (zlen w) = Ok c.
Proof. unfold load. by rewrite zget_app_first. Qed.

Lemma cstr_at w s r : nul ∉ s -> cstr (w ++ s ++ nul :: r) (zlen w) = Ok s.
Proof.
  intros H. pose proof (zlen_nonneg w). pose proof (zlen_nonneg r). pose proof (zlen_nonneg s).
  unfold cstr, strlen. rewrite zdrop_app_exact, find_char_app by done.
  rewrite !zlen_app, zlen_cons, (proj2 (Z.leb_le 0 _)), (proj2 (Z.ltb_lt _ _)) by lia. simpl.
  unfold zslice. rewrite zdrop_app_exact by done. f_equal. apply ztake_app_exact. lia.
Qed.

Lemma cstr_over w t : nul ∉ t -> cstr (block (over w t)) (ptr_ (over w t)) = Ok t.
Proof. intros H. exact (cstr_at w t [] H). Qed.

Lemma next_over w f t :
  space ∉ f -> zlen (f ++ space :: t) < 2 ^ 31 ->
  next (over w (f ++ space :: t)) = Ok (over (w ++ f ++ [space]) t).
Proof.
  intros Hf Hl. pose proof (zlen_nonneg f). pose proof (zlen_nonneg t).
  destruct (over_ok w _ Hl) as [Hok Htext]. unfold next.
  rewrite load_range_ok, Htext by (done || pose proof (pk_len _ Hok); lia).
  cbn [mbind outcome_bind]. rewrite ztake_all by (simpl; lia). rewrite find_char_app by done.
  rewrite zlen_app, zlen_cons in *. rewrite (proj2 (Z.ltb_lt _ _)) by lia.
  unfold remove_prefix, over. simpl. rewrite !zlen_app, !zlen_cons.
  rewrite !wrapS_id by (unfold in_s; lia). znil. f_equal. f_equal; [|lia..].
  by rewrite <- !app_assoc.
Qed.

Definition spaced (fs : list bytes) : bytes := concat (map (fun f => f ++ [space]) fs).

Lemma nexts_over fs w t :
  Forall (fun f => space ∉ f) fs -> zlen (spaced fs ++ t) < 2 ^ 31 ->
  nexts (length fs) (over w (spaced fs ++ t)) = Ok (over (w ++ spaced fs) t).
Proof.
  intros H. revert w. induction H as [|f fs Hf Hfs IH]; intros w Hl; unfold spaced in *; simpl in *.
  - by rewrite app_nil_r.
  - rewrite <- !app_assoc in *. simpl in *. rewrite next_over by done. cbn [mbind outcome_bind].
    rewrite IH.
    + by rewrite <- !app_assoc.
    + rewrite !zlen_app, !zlen_cons, !zlen_app in *. pose proof (zlen_nonneg f). lia.
Qed.

(** ** Threads and their stat files

    The format of /proc/<pid>/task/<tid>/stat: id, name in parentheses, state,
    ten numbers, user and system time, and more numbers.  The name is the
    thread's own choice. *)
Record task := mkTask {
  tid : Z; comm : bytes; state : ascii; numbers : list bytes; utime : Z; stime : Z; more : bytes;
}.

Definition stat_tail (t : task) : bytes :=
  spaced (numbers t) ++ dec (utime t) ++ space :: dec (stime t) ++ more t.

Definition stat_text (t : task) : bytes :=
  (dec (tid t) ++ [space]) ++ lparen :: comm t ++ rparen :: [space; state t; space] ++ stat_tail t.

Record task_ok (t : task) : Prop := {
  tk_tid : 0 < tid t < 2 ^ 31;
  tk_comm : nul ∉ comm t;
  tk_state : state t <> rparen;
  tk_numbers : length (numbers t) = 10%nat /\ Forall (fun f => space ∉ f) (numbers t);
  tk_utime : 0 <= utime t <= LONG_MAX;
  tk_stime : 0 <= stime t <= LONG_MAX;
  tk_more : forall c l, more t = c :: l -> is_digit c = false;
  tk_plain : rparen ∉ stat_tail t /\ nul ∉ stat_tail t;
  tk_size : zlen (stat_text t) <= 65536;
}.

Definition row_of (t : task) : row := mkRow (comm t) (state t) (utime t) (stime t).

Lemma getCpuTime_spec t w :
  task_ok t -> zlen (stat_tail t) < 2 ^ 31 ->
  getCpuTime (over w (stat_tail t)) = Ok (utime t, stime t).
Proof.
  intros H Hl. destruct (tk_numbers _ H) as [Hn Hsp]. destruct (tk_plain _ H) as [_ Hnul].
  pose proof (tk_utime _ H). pose proof (tk_stime _ H).
  unfold getCpuTime, stat_tail in *. rewrite <- Hn, nexts_over by done. cbn [mbind outcome_bind].
  rewrite zlen_app in Hl. pose proof (zlen_nonneg (spaced (numbers t))).
  apply not_elem_of_app in Hnul as [_ Hnul].
  rewrite cstr_over by done.
  cbn [mbind outcome_bind]. rewrite next_over; [|apply not_digit_dec; [lia|done]|lia].
  cbn [mbind outcome_bind]. rewrite cstr_over by set_solver.
  cbn [mbind outcome_bind]. rewrite strtol_dec, strtol_dec; try done; [apply (tk_more _ H)|].
  intros c l [= <- _]. done.
Qed.

Lemma zset_app_first {A} (l1 l2 : list A) x y : zset (l1 ++ x :: l2) (zlen l1) y = l1 ++ y :: l2.
Proof.
  pose proof (zlen_nonneg l1). unfold zset. rewrite (proj2 (Z.ltb_ge _ _)) by lia.
  unfold zlen. rewrite Nat2Z.id. rewrite <- (Nat.add_0_r (length l1)). by rewrite insert_app_r.
Qed.

(** The text up to the end of the name, and the block once the NUL is written
    behind it. *)
Definition name_part (t : task) : bytes := (dec (tid t) ++ [space]) ++ lparen :: comm t.

Definition cut (t : task) : bytes := name_part t ++ [nul; space; state t; space].

Lemma stat_text_name t :
  stat_text t ++ [nul] = name_part t ++ rparen :: [space; state t; space] ++ stat_tail t ++ [nul].
Proof. unfold stat_text, name_part. simpl. by rewrite <- !app_assoc; simpl; rewrite <- ?app_assoc. Qed.

Lemma written_block t :
  zset (stat_text t ++ [nul]) (zlen (name_part t)) nul = cut t ++ stat_tail t ++ [nul].
Proof. rewrite stat_text_name, zset_app_first. unfold cut. by rewrite <- app_assoc. Qed.

Lemma zlen_cut t : zlen (cut t) = zlen (name_part t) + 4.
Proof. unfold cut. by rewrite zlen_app. Qed.

Lemma zlen_stat_text t : zlen (stat_text t) = zlen (cut t) + zlen (stat_tail t).
Proof.
  pose proof (f_equal zlen (stat_text_name t)) as H. rewrite zlen_cut.
  rewrite !zlen_app, (zlen_cons rparen), !zlen_app in H. change (zlen [nul]) with 1 in H.
  change (zlen [space; state t; space]) with 3 in H. lia.
Qed.

Lemma procname_stat t :
  task_ok t -> procname (stat_text t) = mkPiece (stat_text t ++ [nul]) (zlen (dec (tid t) ++ [space]) + 1) (zlen (comm t)).
Proof.
  intros H. pose proof (tk_tid _ H). pose proof (tk_size _ H). pose proof (tk_state _ H). destruct (tk_plain _ H) as [Hrp _].
  apply procname_spec.
  - rewrite not_elem_of_app, not_elem_of_cons. split_and!; [apply not_digit_dec; [lia|done]|done|apply not_elem_of_nil].
  - simpl. rewrite !not_elem_of_cons. split_and!; congruence || done.
  - fold (stat_text t). lia.
Qed.

(** One row of the table, whatever the name of the thread. *)
Lemma thread_row_spec t : task_ok t -> thread_row (stat_text t) = Ok (row_of t).
Proof.
  intros H. pose proof (tk_size _ H) as Hsz. rewrite zlen_stat_text in Hsz. pose proof (zlen_cut t) as Hcut.
  pose proof (zlen_nonneg (name_part t)). pose proof (zlen_nonneg (stat_tail t)).
  unfold thread_row. rewrite procname_stat by done. unfold piece_end. cbn [block ptr_ length_].
  replace (zlen (dec (tid t) ++ [space]) + 1 + zlen (comm t)) with (zlen (name_part t))
    by (unfold name_part; rewrite (zlen_app (_ ++ _)), zlen_cons; lia).
  rewrite written_block, stat_text_name. rewrite load_at.
  cbn [mbind outcome_bind]. rewrite (proj2 (ceqb_eq rparen rparen)) by done.
  cbn [mbind outcome_bind c_assert]. rewrite zlen_stat_text.
  replace (remove_prefix _ _) with (over (cut t) (stat_tail t)).
  2: { unfold remove_prefix, over. cbn [block ptr_ length_].
       rewrite (wrapS_id 32 (zlen (name_part t) + 2 + 2)), (wrapS_id 32 (zlen (cut t) + _)), wrapS_id
         by (unfold in_s; lia). f_equal; lia. }
  rewrite getCpuTime_spec by (done || lia). cbn [mbind outcome_bind].
  replace (cut t ++ stat_tail t ++ [nul]) with
    (((dec (tid t) ++ [space]) ++ [lparen]) ++ comm t ++ nul :: [space; state t; space] ++ stat_tail t ++ [nul])
    by (unfold cut, name_part; by rewrite <- !app_assoc; simpl; rewrite <- ?app_assoc).
  replace (zlen (dec (tid t) ++ [space]) + 1) with (zlen ((dec (tid t) ++ [space]) ++ [lparen]))
    by (by rewrite zlen_app).
  rewrite cstr_at by apply (tk_comm _ H). cbn [mbind outcome_bind].
  replace (((dec (tid t) ++ [space]) ++ [lparen]) ++ comm t ++ nul :: [space; state t; space] ++ stat_tail t ++ [nul])
    with ((name_part t ++ [nul; space]) ++ state t :: space :: stat_tail t ++ [nul])
    by (unfold name_part; by rewrite <- !app_assoc; simpl; rewrite <- ?app_assoc).
  replace (zlen (name_part t) + 2) with (zlen (name_part t ++ [nul; space])) by (by rewrite zlen_app).
  by rewrite load_at.
Qed.

(** ** Scanning the directories *)
Lemma scan_fold {S} (filter : bytes -> S -> Z * S) names k s :
  (forall name s, fst (filter name s) = 0) ->
  fold_left (scan_step filter) names (k, s) = (k, fold_left (fun s name => snd (filter name s)) names s).
Proof.
  intros H. revert s. induction names as [|n names IH]; intros s; [done|]. simpl.
  unfold scan_step at 2. simpl. specialize (H n s). destruct (filter n s) as [r s']. simpl in *. subst r. apply IH.
Qed.

(** A filter that accepts nothing keeps scandir's list empty. *)
Lemma scanDir_ok {S} (filter : bytes -> S -> Z * S) names s :
  (forall name s, fst (filter name s) = 0) ->
  scanDir filter (Some names) s = Ok (0, fold_left (fun s name => snd (filter name s)) names s).
Proof. intros H. unfold scanDir. by rewrite scan_fold. Qed.

Lemma threads_ok names :
  threads (Some names) = Ok (merge_sort Z.le (map atoi (filter digit_name names))).
Proof.
  unfold threads. rewrite scanDir_ok by done. cbn [mbind outcome_bind]. do 2 f_equal.
  change (map atoi (filter digit_name names)) with ([] ++ map atoi (filter digit_name names)).
  generalize (@nil Z). induction names as [|n names IH]; intros l; [by rewrite app_nil_r|].
  simpl. rewrite IH. destruct (digit_name n) eqn:E.
  - rewrite filter_cons_True by (by rewrite E). simpl. by rewrite <- app_assoc.
  - rewrite filter_cons_False by (rewrite E; auto). done.
Qed.

Lemma openedFiles_counts names :
  zlen names < 2 ^ 31 -> openedFiles (Some names) = Ok (zlen (filter digit_name names)).
Proof.
  intros Hl. unfold openedFiles. rewrite scanDir_ok by done. cbn [mbind outcome_bind]. f_equal.
  assert (H : forall n, 0 <= n -> n + zlen names < 2 ^ 31 ->
    fold_left (fun s name => snd (fdDirFilter name s)) names n = n + zlen (filter digit_name names)).
  { clear Hl. induction names as [|x names IH]; intros n Hn Hl; [by rewrite filter_nil, zlen_nil, Z.add_0_r|].
    rewrite zlen_cons in Hl. pose proof (zlen_nonneg names). simpl. destruct (digit_name x) eqn:E.
    - rewrite filter_cons_True, zlen_cons by (by rewrite E). rewrite wrapS_id, IH by (unfold in_s; lia). lia.
    - rewrite filter_cons_False by (rewrite E; auto). apply IH; lia. }
  apply H; lia.
Qed.

(** ** The table *)
Section Table.
Context (read : Z -> option bytes) (ts : list task).
Hypothesis tasks_ok : Forall task_ok ts.
Hypothesis read_stat : forall t stat, t ∈ ts -> read (tid t) = Some stat -> stat = stat_text t.

(** The threads still there when their file is read. *)
Definition alive (t : task) : Prop := is_Some (read (tid t)).

Lemma task_names : map atoi (filter digit_name (map (fun t => dec (tid t)) ts)) = map tid ts.
Proof.
  clear read_stat. induction tasks_ok as [|t l Ht Hl IH]; [done|]. pose proof (tk_tid _ Ht). simpl.
  rewrite filter_cons_True; [simpl; by rewrite IH, atoi_dec by (done || lia)|].
  unfold digit_name, dec. rewrite (proj2 (Z.ltb_ge _ _)) by lia.
  destruct (dec_nonneg_head (tid t) ltac:(lia)) as (c & l' & -> & Hc). simpl. by rewrite Hc.
Qed.

Lemma table_step_ok t rows :
  t ∈ ts -> table_step read rows (tid t) = Ok (rows ++ map (fun t => (tid t, row_of t)) (filter alive [t])).
Proof.
  intros Ht. unfold table_step. destruct (read (tid t)) as [stat|] eqn:E.
  - rewrite (read_stat t stat Ht E), thread_row_spec by (by eapply Forall_forall).
    by rewrite filter_cons_True by (by eexists).
  - rewrite filter_cons_False; [by rewrite app_nil_r|]. unfold alive. rewrite E. by intros [].
Qed.

Lemma table_rows ts' rows :
  ts' ⊆ ts ->
  foldM (table_step read) rows (map tid ts') =
    Ok (rows ++ map (fun t => (tid t, row_of t)) (filter alive ts')).
Proof.
  revert rows. induction ts' as [|t ts' IH]; intros rows Hin; [by rewrite app_nil_r|].
  cbn [map foldM]. rewrite table_step_ok by (apply Hin; left). cbn [mbind outcome_bind].
  rewrite IH by (intros x Hx; apply Hin; by right).
  by rewrite <- app_assoc, <- map_app, <- filter_app.
Qed.

Lemma sorted_rows ts' :
  StronglySorted Z.le (map tid ts') ->
  StronglySorted Z.le (map fst (map (fun t => (tid t, row_of t)) (filter alive ts'))).
Proof.
  rewrite map_map. simpl. induction ts' as [|t ts' IH]; intros H; simpl in *; [constructor|].
  apply StronglySorted_inv in H as [H1 H2]. destruct (decide (alive t)).
  - rewrite filter_cons_True by done. simpl. constructor; [auto|]. rewrite Forall_map in *.
    rewrite Forall_forall in *. intros x Hx. apply H2. by apply list_elem_of_filter in Hx as [_ ?].
  - rewrite filter_cons_False by done. auto.
Qed.

(** The thread table.  The task directory lists the threads in any order among
    names that are no numbers (the dot entries), and threads may end before their file is read.  The
    table has one row for each thread still there, in the order of the ids, with
    the name, state and CPU times of that thread - whatever characters the name
    is made of, though the text is cut in place while it is read. *)
Theorem thread_table_correct dir dots :
  dir ≡ₚ map (fun t => dec (tid t)) ts ++ dots -> Forall (fun n => digit_name n = false) dots ->
  exists rows, thread_table (Some dir) read = Ok rows /\
    rows ≡ₚ map (fun t => (tid t, row_of t)) (filter alive ts) /\
    StronglySorted Z.le (map fst rows).
Proof.
  intros Hdir Hdots. unfold thread_table. rewrite threads_ok. cbn [mbind outcome_bind].
  set (l := merge_sort Z.le _).
  assert (Hl : l ≡ₚ map tid ts).
  { unfold l. rewrite merge_sort_Permutation, Hdir, filter_app, map_app, task_names, (filter_none _ dots).
    - by rewrite app_nil_r.
    - rewrite Forall_forall in Hdots. intros n Hn. rewrite (Hdots n Hn). auto. }
  assert (Hs : StronglySorted Z.le l) by (apply StronglySorted_merge_sort; [intros x y z; lia|intros x y; lia]).
  apply Permutation_map_inv in Hl as (ts' & -> & Hp).
  rewrite table_rows by (intros x; by rewrite Hp). eexists. split; [done|]. simpl. split.
  - by rewrite Hp.
  - by apply sorted_rows.
Qed.
End Table.

(** Three threads with awkward names; the second ends before its file is read. *)
Module Sample.
Definition ten : list bytes := map dec [1; 2; 3; 4; 5; 6; 7; 8; 9; 10].
Definition main : task := mkTask 31 (lit "a) S 1 (b") (code_char 83) ten 345 67 (lit " 0 20").
Definition gone : task := mkTask 40 (lit "worker") (code_char 82) ten 0 0 [].
Definition other : task := mkTask 104 (lit ") (") (code_char 82) ten 0 9 (lit " 0").
Definition proc (n : Z) : option bytes :=
  if n =? 31 then Some (stat_text main) else if n =? 104 then Some (stat_text other) else None.

Lemma samples_ok : Forall task_ok [main; gone; other].
Proof.
  repeat constructor; try (by apply (bool_decide_unpack _)); try (by vm_compute);
    try (apply (bool_decide_unpack _); by vm_compute); intros c l; by intros [= <- <-].
Qed.

Lemma thread_table_correct_witness :
  exists rows, thread_table (Some (map lit ["104"; ".."; "31"; "40"; "."])) proc = Ok rows /\
    rows ≡ₚ map (fun t => (tid t, row_of t)) (filter (alive proc) [main; gone; other]) /\
    StronglySorted Z.le (map fst rows).
Proof.
  apply (thread_table_correct proc [main; gone; other] samples_ok) with (dots := map lit [".."; "."]).
  - intros t stat Ht. rewrite !elem_of_cons in Ht.
    destruct Ht as [->|[->|[->|Ht]]]; [..|by apply not_elem_of_nil in Ht]; cbn; by intros [= <-].
  - apply (bool_decide_unpack _). by vm_compute.
  - repeat constructor.
Defined.
End Sample.

(** ** The other readers *)

(** On a text without a closing parenthesis the piece of the name is null, and
    the assertion itself reads through it. *)
Lemma thread_row_no_name stat : rparen ∉ stat -> thread_row stat = Fault UndefinedBehaviour.
Proof. intros H. unfold thread_row, procname. by rewrite rfind_none. Qed.

Lemma find_str_first key pre rest :
  (forall i, (i < length pre)%nat -> take (length key) (drop i (pre ++ key ++ rest)) <> key) ->
  find_str key (pre ++ key ++ rest) = Some (zlen pre).
Proof.
  induction pre as [|x pre IH]; intros H.
  - simpl. destruct key as [|k key]; [by destruct rest|]. simpl. rewrite take_app_length.
    unfold bytes_eqb. by rewrite bool_decide_eq_true_2.
  - specialize (H 0%nat) as H0. simpl in H0 |- *. unfold bytes_eqb. rewrite bool_decide_eq_false_2 by (apply H0; lia).
    rewrite IH; [by rewrite zlen_cons|]. intros i Hi. apply (H (S i)). simpl. lia.
Qed.

Lemma find_str_start key rest : find_str key (key ++ rest) = Some 0.
Proof. apply (find_str_first key []). simpl. lia. Qed.

(** The number behind the first occurrence of its key. *)
Lemma getLong_first key pre n rest :
  (forall i, (i < length pre)%nat -> take (length key) (drop i (pre ++ key ++ dec n ++ rest)) <> key) ->
  0 <= n <= LONG_MAX -> (forall c l, rest = c :: l -> is_digit c = false) ->
  getLong (pre ++ key ++ dec n ++ rest) key = n.
Proof.
  intros Hk Hn Hr. unfold getLong. rewrite find_str_first by done.
  rewrite (app_assoc pre key), zdrop_app_exact by (by rewrite zlen_app). by apply strtol_dec.
Qed.

Lemma getProcessName_first name rest :
  tab ∉ name -> lf ∉ name -> getProcessName (lit "Name:" ++ tab :: name ++ lf :: rest) = Ok name.
Proof.
  intros Ht Hn. unfold getProcessName. rewrite find_str_start.
  change (zdrop _ _) with (tab :: name ++ lf :: rest). cbn [skip_tabs].
  assert (Hs : skip_tabs (name ++ lf :: rest) = name ++ lf :: rest).
  { destruct name as [|c name]; [done|]. simpl. by rewrite (proj2 (ceqb_neq c tab)) by set_solver. }
  rewrite (proj2 (ceqb_eq tab tab)), Hs, find_char_app, zlen_app, zlen_cons by done.
  pose proof (zlen_nonneg rest). rewrite (proj2 (Z.ltb_lt _ _)) by lia. by rewrite ztake_app_exact.
Qed.

(** A status text cut off in its first line is read beyond its end. *)
Lemma getProcessName_unterminated name :
  lf ∉ name -> getProcessName (lit "Name:" ++ name) = Fault UndefinedBehaviour.
Proof.
  intros Hn. unfold getProcessName. rewrite find_str_start.
  change (zdrop _ _) with name.
  assert (Hs : lf ∉ skip_tabs name).
  { induction name as [|c name IH]; [done|]. simpl. destruct (ceqb c tab); [apply IH|]; set_solver. }
  rewrite find_char_none by done. by rewrite Z.ltb_irrefl.
Qed.

(** The up time shows the whole age, as long as its seconds fit an int. *)
Lemma uptime_exact now start show :
  0 <= now - start < 2 ^ 31 * kMicroSecondsPerSecond ->
  exists d h m s us,
    now - start = (((d * 24 + h) * 60 + m) * 60 + s) * kMicroSecondsPerSecond + us /\
    0 <= d /\ 0 <= h < 24 /\ 0 <= m < 60 /\ 0 <= s < 60 /\ 0 <= us < kMicroSecondsPerSecond /\
    uptime now start show = dec d ++ lit " days " ++ fmt_int true 2 h ++ lit ":" ++ fmt_int true 2 m ++ lit ":" ++
      fmt_int true 2 s ++ if show : bool then lit "." ++ fmt_int true 6 us else [].
Proof.
  intros H. unfold kMicroSecondsPerSecond in *. set (age := now - start) in *.
  set (sec := age / 1000000). assert (0 <= sec < 2 ^ 31) by (unfold sec; split; [apply Z.div_pos|apply Z.div_lt_upper_bound]; lia).
  exists (sec / 86400), (sec mod 86400 / 3600), (sec mod 3600 / 60), (sec mod 60), (age mod 1000000).
  assert (Hparts : sec = ((sec / 86400 * 24 + sec mod 86400 / 3600) * 60 + sec mod 3600 / 60) * 60 + sec mod 60 /\
    0 <= sec / 86400 < 24856 /\ 0 <= sec mod 86400 / 3600 < 24 /\ 0 <= sec mod 3600 / 60 < 60 /\ 0 <= sec mod 60 < 60)
    by (Z.div_mod_to_equations; lia).
  destruct Hparts as (P1 & P2 & P3 & P4 & P5).
  assert (Hus : age = sec * 1000000 + age mod 1000000 /\ 0 <= age mod 1000000 < 1000000)
    by (unfold sec; Z.div_mod_to_equations; lia).
  split; [rewrite <- P1; lia|]. split_and!; try lia.
  unfold uptime. fold age. rewrite (wrapS_id 64) by (unfold in_s; lia). unfold kMicroSecondsPerSecond.
  change (1000 * 1000) with 1000000. rewrite (Z.quot_div_nonneg age), (Z.rem_mod_nonneg age) by lia. fold sec.
  rewrite (wrapS_id 32 sec), (wrapS_id 32 (age mod 1000000)) by (unfold in_s; lia).
  rewrite !(Z.rem_mod_nonneg sec) by lia.
  rewrite (Z.quot_div_nonneg sec), !(Z.quot_div_nonneg (sec mod _)) by (lia || apply Z.mod_pos_bound; lia).
  pose proof (fmt_int_zero_small 2 (sec mod 86400 / 3600) ltac:(lia) ltac:(lia) ltac:(lia)) as [L1 _].
  pose proof (fmt_int_zero_small 2 (sec mod 3600 / 60) ltac:(lia) ltac:(lia) ltac:(lia)) as [L2 _].
  pose proof (fmt_int_zero_small 2 (sec mod 60) ltac:(lia) ltac:(lia) ltac:(lia)) as [L3 _].
  pose proof (fmt_int_zero_small 6 (age mod 1000000) ltac:(lia) ltac:(lia) ltac:(lia)) as [L4 _].
  pose proof (dec_length64 (sec / 86400) ltac:(lia)).
  assert (zlen (lit " days ") = 6 /\ zlen (lit ":") = 1 /\ zlen (lit ".") = 1) as (L5 & L6 & L7) by done.
  unfold snprintf. rewrite <- !app_assoc.
  destruct show; rewrite ?app_nil_r; apply ztake_all; rewrite !zlen_app; lia.
Qed.
