(* ===== verification/Stream.v ===== *)
(** * Stream: what a service sees of a TcpConnection

    A service is a set of callbacks over one connection (Services.v).  This file
    gives the abstract connection such a service runs on, a [stream]: bytes in and
    out, a state, and the write-complete notices not yet delivered.  Its steps say
    what may happen, not how: any part of the output may be written, any bytes may
    arrive.  [service_step] runs the same callbacks on the connection of
    TcpConnection.v.

    Theorem: every event of the connection is a step of the stream, so what is
    proved of a service by rule induction on streams holds of its connections with
    either poller.  Writes that fail with EPIPE or ECONNRESET, after which the
    connection drops the message, and the destruction of a connection that is being
    shut down, which aborts, are left out ([world_ok]). *)

From S2P Require Import Prelude Buffer Channel Poller EventLoop TcpConnection.
Import TcpConnection.

(** What a callback asks of its connection. *)
Inductive act :=
| ASend (message : bytes)
| ATake (n : Z)                  (* retrieve up to n bytes of the input *)
| AShutdown.

(** Callbacks of a service with private state [A]: onConnection sees whether the
    connection is up, onMessage the readable bytes of the buffer. *)
Record Service (A : Type) := mkService {
  onConnection : A -> bool -> list act * A;
  onMessage : A -> bytes -> list act * A;
  onWriteComplete : A -> list act * A;
}.
Arguments mkService {A}.
Arguments onConnection {A}.
Arguments onMessage {A}.
Arguments onWriteComplete {A}.

(** ** The abstract connection *)
Record stream := mkStream {
  s_state : StateE;
  s_in : bytes;                  (* received and not taken *)
  s_taken : bytes;
  s_wire : bytes;                (* written to the socket *)
  s_out : bytes;                 (* accepted and not written *)
  s_shut : bool;
  s_done : nat;                  (* write-complete callbacks queued *)
  s_notify : bool;               (* writeCompleteCallback_ is set *)
}.

Definition s_open (s : stream) : bool :=
  bool_decide (s_state s = kConnected) || bool_decide (s_state s = kDisconnecting).

Definition s_received (s : stream) : bytes := s_taken s ++ s_in s.
Definition s_accepted (s : stream) : bytes := s_wire s ++ s_out s.

Definition notice (s : stream) (rest : bytes) : nat :=
  if s_notify s && bool_decide (rest = []) then S (s_done s) else s_done s.

Definition set_state st (s : stream) : stream :=
  mkStream st (s_in s) (s_taken s) (s_wire s) (s_out s) (s_shut s) (s_done s) (s_notify s).
Definition set_in i t (s : stream) : stream :=
  mkStream (s_state s) i t (s_wire s) (s_out s) (s_shut s) (s_done s) (s_notify s).
Definition set_out w o d (s : stream) : stream :=
  mkStream (s_state s) (s_in s) (s_taken s) w o (s_shut s) d (s_notify s).
Definition set_shut b (s : stream) : stream :=
  mkStream (s_state s) (s_in s) (s_taken s) (s_wire s) (s_out s) b (s_done s) (s_notify s).

(** A message is written as far as the kernel takes it when nothing waits before
    it, and waits otherwise. *)
Inductive does1 : act -> stream -> stream -> Prop :=
| do_send_closed m s : s_state s <> kConnected -> does1 (ASend m) s s
| do_send_direct w r s :
    s_state s = kConnected -> s_out s = [] ->
    does1 (ASend (w ++ r)) s (set_out (s_wire s ++ w) r (notice s r) s)
| do_send_queued m s :
    s_state s = kConnected -> s_out s <> [] ->
    does1 (ASend m) s (set_out (s_wire s) (s_out s ++ m) (s_done s) s)
| do_take n k s :
    k = Z.max 0 (Z.min n (zlen (s_in s))) ->
    does1 (ATake n) s (set_in (zdrop k (s_in s)) (s_taken s ++ ztake k (s_in s)) s)
| do_shutdown s :
    s_state s = kConnected ->
    does1 AShutdown s (set_shut (bool_decide (s_out s = [])) (set_state kDisconnecting s))
| do_shutdown_again s : s_state s <> kConnected -> does1 AShutdown s s.

Inductive does : list act -> stream -> stream -> Prop :=
| does_nil s : does [] s s
| does_cons a acts s1 s2 s3 : does1 a s1 s2 -> does acts s2 s3 -> does (a :: acts) s1 s3.

Inductive stream_step {A} (svc : Service A) : A * stream -> A * stream -> Prop :=
| step_idle x : stream_step svc x x
| step_up a s acts a' s' :
    s_state s = kConnecting -> onConnection svc a true = (acts, a') ->
    does acts (set_state kConnected s) s' -> stream_step svc (a, s) (a', s')
| step_read a s data acts a' s' :
    s_open s = true -> data <> [] -> onMessage svc a (s_in s ++ data) = (acts, a') ->
    does acts (set_in (s_in s ++ data) (s_taken s) s) s' -> stream_step svc (a, s) (a', s')
| step_write a s w r :
    s_open s = true -> s_out s = w ++ r -> w <> [] ->
    stream_step svc (a, s)
      (a, set_shut (s_shut s || (bool_decide (s_state s = kDisconnecting) && bool_decide (r = [])))
            (set_out (s_wire s ++ w) r (notice s r) s))
| step_done a s n acts a' s' :
    s_done s = S n -> onWriteComplete svc a = (acts, a') ->
    does acts (set_out (s_wire s) (s_out s) n s) s' -> stream_step svc (a, s) (a', s')
| step_down a s acts a' s' :
    s_open s = true -> onConnection svc a false = (acts, a') ->
    does acts (set_state kDisconnected s) s' -> stream_step svc (a, s) (a', s').

Inductive stream_steps {A} (svc : Service A) : A * stream -> A * stream -> Prop :=
| steps_refl x : stream_steps svc x x
| steps_step x y z : stream_steps svc x y -> stream_step svc y z -> stream_steps svc x z.

Lemma steps_left {A} (svc : Service A) x y z :
  stream_step svc x y -> stream_steps svc y z -> stream_steps svc x z.
Proof.
  intros H1 H2. induction H2 as [y|y z z' H2 IH H3].
  - eapply steps_step; [constructor|done].
  - eapply steps_step; [by apply IH|done].
Qed.

Definition new_stream (notify : bool) : stream := mkStream kConnecting [] [] [] [] false 0 notify.

(** An invariant of a service, by rule induction. *)
Lemma stream_invariant {A} (svc : Service A) (J : A -> stream -> Prop) a0 s0 a s :
  J a0 s0 -> (forall a s a' s', J a s -> stream_step svc (a, s) (a', s') -> J a' s') ->
  stream_steps svc (a0, s0) (a, s) -> J a s.
Proof.
  intros H0 Hstep Hs. remember (a0, s0) as x eqn:Ex. remember (a, s) as y eqn:Ey.
  revert a s Ey. induction Hs as [x|x [a1 s1] z Hs IH H1]; intros a s ->.
  - by injection Ex as -> ->.
  - eapply Hstep; [by eapply IH|exact H1].
Qed.

(** What an action leaves alone. *)
Lemma does1_frame x s s' :
  does1 x s s' -> s_notify s' = s_notify s /\ s_received s' = s_received s.
Proof.
  destruct 1; simpl; split; try done. unfold s_received; simpl.
  by rewrite <- app_assoc, ztake_zdrop.
Qed.

(** ** The same callbacks on a connection *)
Section connection.
Context {P : Type} `{PL : PollerLaws P}.

Definition user_of (answer : write_answer) (a : act) : user_action :=
  match a with
  | ASend m => USend m answer
  | ATake n => UTake n
  | AShutdown => UShutdown
  end.

(** What the loop and the kernel do to the connection. *)
Inductive world :=
| WUp (answer : write_answer)
| WRead (readv : Z -> io_result) (answer : write_answer)
| WWrite (answer : write_answer)
| WClose
| WError
| WRun (answer : write_answer)          (* the oldest functor of the loop *)
| WDestroy.

Definition with_acts {A} (answer : write_answer) (mk : list user_action -> event) (x : list act * A) : event * A :=
  (mk (map (user_of answer) (fst x)), snd x).

(** The event, with the actions of the callback it calls. *)
Definition serve {A} (svc : Service A) (a : A) (c : TcpConnection P) (w : world) : event * A :=
  match w with
  | WUp answer => with_acts answer Established (onConnection svc a true)
  | WRead readv answer =>
      match readFd readv (inputBuffer_ c) with
      | Ok (n, _, buf) =>
          if 0 <? n then with_acts answer (fun acts => ReadReady readv acts []) (onMessage svc a (content buf))
          else if n =? 0 then with_acts answer (ReadReady readv []) (onConnection svc a false)
          else (ReadReady readv [] [], a)
      | Fault _ => (ReadReady readv [] [], a)
      end
  | WWrite answer => (WriteReady answer, a)
  | WClose => with_acts (Wrote 0) CloseReady (onConnection svc a false)
  | WError => (ErrorReady, a)
  | WRun answer =>
      match functors c with
      | FWriteComplete :: _ => with_acts answer (RunFunctor answer) (onWriteComplete svc a)
      | _ => (RunFunctor answer [], a)
      end
  | WDestroy =>
      if connected c then with_acts (Wrote 0) Destroy (onConnection svc a false) else (Destroy [], a)
  end.

Definition service_step {A} (svc : Service A) (x : A * TcpConnection P) (w : world) : outcome (A * TcpConnection P) :=
  let '(e, a) := serve svc (fst x) (snd x) w in
  c ← step (snd x) e;
  Ok (a, c).

(** A write error other than "try again" loses the message: the runs considered
    have none from EPIPE and ECONNRESET. *)
Definition answer_ok (answer : write_answer) : Prop :=
  match answer with Wrote _ => True | WriteFails e => e <> EPIPE /\ e <> ECONNRESET end.

Definition world_ok (c : TcpConnection P) (w : world) : Prop :=
  match w with
  | WUp answer => state_ c = kConnecting /\ answer_ok answer
  | WRead readv answer => is_open c = true /\ readv_fits readv /\ answer_ok answer
  | WClose => is_open c = true
  | WRun answer => state_ c <> kConnecting /\ answer_ok answer
  | WDestroy => removed c = false /\ (state_ c = kDisconnected \/ state_ c = kConnected)
  | WWrite _ | WError => True
  end.

Fixpoint world_run {A} (svc : Service A) (x : A * TcpConnection P) (ws : list world) : Prop :=
  match ws with
  | [] => True
  | w :: ws => world_ok (snd x) w /\ forall x', service_step svc x w = Ok x' -> world_run svc x' ws
  end.

(** The stream a connection implements. *)
Definition stream_of (c : TcpConnection P) : stream :=
  mkStream (state_ c) (content (inputBuffer_ c)) (taken c) (wire c) (content (outputBuffer_ c)) (shut c)
    (length (functors c)) (hasWriteComplete c).

Record implements (c : TcpConnection P) (s : stream) : Prop := {
  im_inv : exists S, cinv S c;
  im_stream : s = stream_of c;
  im_reading : reading_ c = true;
  im_highWater : hasHighWater c = false;
  im_functors : Forall (eq FWriteComplete) (functors c);
}.

(** What sending changes: only the output side. *)
Record output_only (c c' : TcpConnection P) : Prop := {
  oo_state : state_ c' = state_ c;
  oo_input : inputBuffer_ c' = inputBuffer_ c;
  oo_taken : taken c' = taken c;
  oo_reading : reading_ c' = reading_ c;
  oo_highWater : hasHighWater c' = hasHighWater c;
  oo_notify : hasWriteComplete c' = hasWriteComplete c;
  oo_shut : shut c' = shut c;
}.

Lemma post_any {A} (Q : A -> Prop) E (m : outcome A) : post Q E m -> post Q (fun _ => True) m.
Proof. by destruct m. Qed.

Lemma queue_rest_effect ch remaining rest (c : TcpConnection P) :
  wf (outputBuffer_ c) -> zlen rest <= vector_max_size -> hasHighWater c = false ->
  post (fun c' => output_only c c' /\ wire c' = wire c /\ functors c' = functors c /\
          content (outputBuffer_ c') = content (outputBuffer_ c) ++ rest) (fun _ => True)
    (queue_rest ch remaining rest c).
Proof.
  intros Hwf Hsz Hhw. unfold queue_rest. cbn zeta. rewrite Hhw, andb_false_r.
  eapply post_bind; [eapply post_any, append_post; [done|done]|].
  intros out _ (_ & Hco). destruct (negb (isWriting ch)); [|by repeat split].
  destruct (on_channel _ _) as [c4|] eqn:E; [|done]. apply on_channel_frame in E as (l & ->). by repeat split.
Qed.

(** The two ways a message goes: written as far as possible, or queued. *)
Lemma sendInLoop_effect S c answer data :
  cinv S c -> state_ c = kConnected -> hasHighWater c = false -> answer_ok answer ->
  data <> [] -> zlen data <= vector_max_size ->
  post (fun c' => output_only c c' /\
    ((content (outputBuffer_ c) = [] /\ exists w r, data = w ++ r /\ wire c' = wire c ++ w /\
        content (outputBuffer_ c') = r /\
        functors c' = functors c ++ (if hasWriteComplete c && bool_decide (r = []) then [FWriteComplete] else [])) \/
     (content (outputBuffer_ c) <> [] /\ wire c' = wire c /\ functors c' = functors c /\
        content (outputBuffer_ c') = content (outputBuffer_ c) ++ data))) (fun _ => True) (sendInLoop answer data c).
Proof.
  intros Hc Hst Hhw Ha Hne Hsz. pose proof (ci_output _ _ Hc) as Hwo. pose proof (zlen_nonneg data).
  assert (Hpos : 0 < zlen data).
  { destruct (decide (zlen data = 0)) as [E|]; [by apply zlen_0_nil in E|lia]. }
  assert (Hsh : shut c = false).
  { destruct (shut c) eqn:E; [|done]. destruct (ci_shut _ _ Hc E) as [?|[? _]]; congruence. }
  destruct (open_chan _ _ Hc ltac:(apply is_open_true; auto)) as (s & ch & _ & _ & _ & _ & Hch & _ & Hwr & _).
  unfold sendInLoop. replace (disconnected c) with false by (unfold disconnected; by rewrite Hst).
  rewrite Hch. cbn [mbind outcome_bind]. unfold try_write. rewrite Hwr, (readable_nil _ Hwo).
  destruct (decide (content (outputBuffer_ c) = [])) as [Hnil|Hnn].
  - rewrite (bool_decide_eq_false_2 (_ <> [])), bool_decide_eq_true_2 by naive_solver.
    cbn [negb andb]. unfold sock_write. rewrite Hsh. destruct answer as [n|errno].
    + set (w := ztake n data). pose proof (zlen_ztake_le n data) as Hw. fold w in Hw.
      pose proof (zlen_nonneg w). pose proof (ztake_rest n data) as Hsplit. fold w in Hsplit.
      rewrite (proj2 (Z.leb_le _ _)) by lia. cbn [c_assert mbind outcome_bind negb andb].
      destruct (Z.eqb_spec (zlen data - zlen w) 0) as [Hz|Hz].
      * rewrite (proj2 (Z.ltb_ge _ _)) by lia. cbn [andb].
        assert (Hall : w = data) by (rewrite zdrop_all, app_nil_r in Hsplit by lia; exact Hsplit).
        set (c1 := with_socket _ _ c). change (hasWriteComplete c1) with (hasWriteComplete c).
        destruct (hasWriteComplete c) eqn:Hwc.
        all: (split; [constructor; simpl; congruence|]); left; (split; [done|]); exists w, [].
        all: rewrite ?bool_decide_eq_true_2, ?app_nil_r by done; done.
      * rewrite (proj2 (Z.ltb_lt _ _)) by lia. cbn [andb].
        eapply post_mono; [apply queue_rest_effect; simpl; [done|rewrite zlen_zdrop by lia; lia|done]|].
        intros c' ([] & Hwire & Hf & Hco). simpl in *. split; [constructor; congruence|]. left. split; [done|].
        exists w, (zdrop (zlen w) data). rewrite Hco, Hnil, Hf. split; [done|]. split; [done|]. split; [done|].
        rewrite bool_decide_eq_false_2; [by rewrite andb_false_r, app_nil_r|].
        intros E. apply (f_equal zlen) in E. rewrite zlen_zdrop in E by lia. change (zlen (@nil ascii)) with 0 in E. lia.
    + destruct Ha as [Ha1 Ha2]. rewrite (proj2 (Z.eqb_neq errno EPIPE)), (proj2 (Z.eqb_neq errno ECONNRESET)) by done.
      cbn [orb]. rewrite andb_false_r. rewrite (proj2 (Z.leb_le _ _)) by lia.
      cbn [c_assert mbind outcome_bind negb andb]. rewrite (proj2 (Z.ltb_lt _ _)) by lia. cbn [andb].
      eapply post_mono; [apply queue_rest_effect; simpl; [done|rewrite zdrop_0; done|done]|].
      intros c' ([] & Hwire & Hf & Hco). simpl in *. split; [constructor; congruence|]. left. split; [done|].
      exists [], data. rewrite Hco, Hnil, Hf, zdrop_0, app_nil_r. split; [done|]. split; [done|]. split; [done|].
      rewrite bool_decide_eq_false_2 by done. by rewrite andb_false_r, app_nil_r.
  - rewrite (bool_decide_eq_true_2 (_ <> [])) by done. cbn [negb andb].
    rewrite (proj2 (Z.leb_le _ _)) by lia. cbn [c_assert mbind outcome_bind negb andb].
    rewrite (proj2 (Z.ltb_lt _ _)) by lia.
    eapply post_mono; [apply queue_rest_effect; simpl; [done|rewrite zdrop_0; done|done]|].
    intros c' ([] & Hwire & Hf & Hco). simpl in *. split; [constructor; congruence|]. right. by rewrite Hco, zdrop_0.
Qed.

(** ** Simulation of the actions *)
Definition act_fine (a : act) : Prop :=
  match a with ASend m => m <> [] /\ zlen m <= vector_max_size | _ => True end.

Lemma act_fine_ok answer acts : Forall act_fine acts -> Forall act_ok (map (user_of answer) acts).
Proof.
  intros Hf. rewrite Forall_map. eapply Forall_impl; [exact Hf|]. intros [m|n|]; simpl; [by intros []|done..].
Qed.

Lemma acts_down_ok answer acts : down_ok (map (user_of answer) acts).
Proof. unfold down_ok. rewrite Forall_map, Forall_forall. by intros []. Qed.

Definition past_connecting (c : TcpConnection P) : Prop := state_ c <> kConnecting.

Lemma implements_send c s m answer :
  implements c s -> state_ c = kConnected -> m <> [] -> zlen m <= vector_max_size -> answer_ok answer ->
  post (fun c' => exists s', does1 (ASend m) s s' /\ implements c' s' /\ past_connecting c') (eq LengthError)
    (sendInLoop answer m c).
Proof.
  intros [[S Hc] -> Hrd Hhw Hfs] Hst Hne Hsz Ha.
  pose proof (sendInLoop_post S c answer m Hc ltac:(congruence) Hsz) as H1.
  pose proof (sendInLoop_effect S c answer m Hc Hst Hhw Ha Hne Hsz) as H2.
  eapply post_mono; [exact (post_conj _ _ _ _ _ H1 H2)|].
  intros c' ((S' & Hc' & _) & [Es Ei Et Er Eh En Esh] & Hcase).
  assert (Hp : past_connecting c') by (unfold past_connecting; congruence).
  destruct Hcase as [(Hnil & w & r & -> & Hw & Hr & Hf)|(Hnn & Hw & Hf & Hr)].
  - exists (stream_of c'). split; [|split; [|done]].
    + replace (stream_of c') with (set_out (s_wire (stream_of c) ++ w) r (notice (stream_of c) r) (stream_of c)).
      * by apply do_send_direct.
      * unfold stream_of, set_out, notice. simpl. rewrite Es, Ei, Et, Hw, Hr, Esh, En, Hf, length_app.
        f_equal. destruct (_ && _); simpl; lia.
    + constructor; [eauto|done|congruence|congruence|]. rewrite Hf. apply Forall_app. split; [done|].
      destruct (_ && _); by repeat constructor.
  - exists (stream_of c'). split; [|split; [|done]].
    + replace (stream_of c') with (set_out (s_wire (stream_of c)) (s_out (stream_of c) ++ m) (s_done (stream_of c)) (stream_of c)).
      * by apply do_send_queued.
      * unfold stream_of, set_out. simpl. by rewrite Es, Ei, Et, Hw, Hr, Esh, En, Hf.
    + constructor; [eauto|done|congruence|congruence|]. by rewrite Hf.
Qed.

Lemma implements_shutdown c s :
  implements c s -> state_ c = kConnected ->
  post (fun c' => exists s', does1 AShutdown s s' /\ implements c' s' /\ past_connecting c') (eq LengthError)
    (shutdown true c).
Proof.
  intros [[S Hc] -> Hrd Hhw Hfs] Hst. unfold shutdown. rewrite (proj2 (connected_true c) Hst).
  assert (Ho : is_open c = true) by (apply is_open_true; auto).
  assert (Hsh : shut c = false).
  { destruct (shut c) eqn:E; [|done]. destruct (ci_shut _ _ Hc E) as [?|[? _]]; congruence. }
  pose proof (shutdownInLoop_post S _ (cinv_disconnecting S c Hc Ho) (or_introl eq_refl)) as Hpost.
  unfold shutdownInLoop in *. destruct (channel (setState kDisconnecting c)) as [ch|]; [|done].
  cbn [mbind outcome_bind] in *.
  set (c' := if negb (isWriting ch) then with_socket (wire (setState kDisconnecting c)) true (setState kDisconnecting c)
             else setState kDisconnecting c).
  replace (if negb (isWriting ch) then Ok _ else Ok _) with (Ok c') in * by (unfold c'; by destruct (isWriting ch)).
  simpl in Hpost. destruct Hpost as (Hc' & _ & Hs'). specialize (Hs' eq_refl). rewrite Hsh, orb_false_r in Hs'.
  simpl. exists (stream_of c').
  assert (Hframe : stream_of c' = set_shut (shut c') (set_state kDisconnecting (stream_of c)) /\
    past_connecting c' /\ reading_ c' = reading_ c /\ hasHighWater c' = hasHighWater c /\ functors c' = functors c)
    by (unfold c', past_connecting; destruct (isWriting ch); simpl; split_and!; done).
  destruct Hframe as (Hf & Hp & Hr' & Hh' & Hf').
  split; [rewrite Hf, Hs'; by apply do_shutdown|]. split; [|done].
  constructor; [eauto|done|congruence|congruence|]. by rewrite Hf'.
Qed.

Lemma implements_take c s n :
  implements c s -> past_connecting c ->
  post (fun c' => exists s', does1 (ATake n) s s' /\ implements c' s' /\ past_connecting c') (eq LengthError)
    (user c (UTake n)).
Proof.
  intros [[S Hc] -> Hrd Hhw Hfs] Hp. pose proof (ci_input _ _ Hc) as Hin.
  assert (Hlen : zlen (content (inputBuffer_ c)) = readableBytes (inputBuffer_ c)) by (by rewrite content_length).
  pose proof (zlen_nonneg (content (inputBuffer_ c))). cbn [user].
  set (k := Z.max 0 _).
  destruct (retrieveAsString_take k (inputBuffer_ c) Hin) as (b' & -> & Hb' & Hcb); [lia|]. simpl.
  eexists. split; [apply (do_take n k); simpl; lia|]. split; [|done].
  constructor; simpl; try done; [|by unfold set_in, stream_of; simpl; rewrite Hcb].
  exists S. apply cinv_take; [done..|]. by rewrite Hcb, <- (assoc_L (++)), ztake_zdrop.
Qed.

Lemma implements_act c s a answer :
  implements c s -> past_connecting c -> act_fine a -> answer_ok answer ->
  post (fun c' => exists s', does1 a s s' /\ implements c' s' /\ past_connecting c') (eq LengthError)
    (user c (user_of answer a)).
Proof.
  intros Hi Hp Hf Ha. pose proof (im_stream _ _ Hi) as Hs.
  assert (Hcn : connected c = false -> s_state s <> kConnected).
  { intros E. rewrite Hs. simpl. unfold connected in E. by apply bool_decide_eq_false in E. }
  destruct a as [m|n|]; cbn [user_of].
  - cbn [user]. unfold send. destruct (connected c) eqn:E.
    + apply connected_true in E. destruct Hf. by apply implements_send.
    + simpl. exists s. split; [apply do_send_closed; auto|done].
  - by apply implements_take.
  - cbn [user]. destruct (connected c) eqn:E.
    + apply connected_true in E. by apply implements_shutdown.
    + unfold shutdown. rewrite E. simpl. exists s. split; [apply do_shutdown_again; auto|done].
Qed.

Lemma implements_acts acts c s answer :
  implements c s -> past_connecting c -> Forall act_fine acts -> answer_ok answer ->
  post (fun c' => exists s', does acts s s' /\ implements c' s' /\ past_connecting c') (eq LengthError)
    (foldM user c (map (user_of answer) acts)).
Proof.
  intros Hi Hp Hf Ha. revert c s Hi Hp. induction Hf as [|a acts Hfa Hf IH]; intros c s Hi Hp; simpl.
  - exists s. split; [constructor|done].
  - eapply post_bind; [by apply implements_act|]. intros c1 _ (s1 & Hd & Hi1 & Hp1).
    eapply post_mono; [by apply IH|]. intros c2 (s2 & Hd2 & Hi2 & Hp2). exists s2. split; [by eapply does_cons|done].
Qed.

(** *** Events *)
Lemma established_split acts (c : TcpConnection P) :
  connectEstablished acts c = c1 ← connectEstablished [] c; foldM user c1 acts.
Proof.
  unfold connectEstablished, connectionCallback. simpl.
  destruct (c_assert _); [|done]. cbn [mbind outcome_bind].
  destruct (tie_channel _); [|done]. cbn [mbind outcome_bind].
  by destruct (on_channel _ _).
Qed.

Lemma established_effect (c : TcpConnection P) :
  post (fun c' => stream_of c' = set_state kConnected (stream_of c) /\ reading_ c' = reading_ c /\
          hasHighWater c' = hasHighWater c /\ functors c' = functors c) (fun _ => True) (connectEstablished [] c).
Proof.
  unfold connectEstablished, tie_channel, connectionCallback. destruct (c_assert _); [|done]. cbn [mbind outcome_bind].
  destruct (channel _); [|done]. cbn [mbind outcome_bind].
  destruct (on_channel _ _) as [c1|] eqn:E; [|done]. apply on_channel_frame in E as (l & ->).
  by simpl.
Qed.

Lemma implements_up c s acts answer :
  implements c s -> state_ c = kConnecting -> Forall act_fine acts -> answer_ok answer ->
  post (fun c' => exists s', does acts (set_state kConnected s) s' /\ implements c' s') (eq LengthError)
    (connectEstablished (map (user_of answer) acts) c).
Proof.
  intros [[S Hc] -> Hrd Hhw Hfs] Hst Hf Ha. rewrite established_split.
  eapply post_bind; [exact (post_conj _ _ _ _ _ (established_post S c [] Hc Hst ltac:(done)) (established_effect c))|].
  intros c1 _ ((S1 & Hc1 & Ho1) & Hs1 & Hr1 & Hh1 & Hf1).
  eapply post_mono; [apply implements_acts; [|unfold past_connecting|done|done]|].
  - constructor; [eauto|exact (eq_sym Hs1)|congruence|congruence|by rewrite Hf1].
  - intros E. unfold is_open in Ho1. by rewrite E in Ho1.
  - intros c2 (s2 & ? & ? & _). eauto.
Qed.

(** The connection goes down; the callback runs on the closed connection. *)
Lemma implements_down c s :
  implements c s -> is_open c = true ->
  exists l, on_channel Loop.disableAll (setState kDisconnected c) = Ok (with_loop l (setState kDisconnected c)) /\
    implements (with_calls (ups c) (downs c + 1) (closes c) (with_loop l (setState kDisconnected c)))
      (set_state kDisconnected s) /\ closes c = 0.
Proof.
  intros [[S Hc] -> Hrd Hhw Hfs] Ho.
  destruct (enter_closed S c Hc Ho (or_introl Hrd)) as (l & S' & Hu & Hc' & Hk). exists l. split; [done|].
  split; [|done]. constructor; [by exists S'|done..].
Qed.

Lemma implements_closed_acts acts c s answer :
  implements c s -> state_ c = kDisconnected -> Forall act_fine acts -> answer_ok answer ->
  post (fun c' => (exists s', does acts s s' /\ implements c' s') /\
          state_ c' = kDisconnected /\ closes c' = closes c /\ removed c' = removed c) (eq LengthError)
    (foldM user c (map (user_of answer) acts)).
Proof.
  intros Hi Hst Hf Ha. pose proof Hi as [[S Hc] _ _ _ _].
  eapply post_mono; [exact (post_conj _ _ _ _ _
    (implements_acts acts c s answer Hi ltac:(unfold past_connecting; congruence) Hf Ha)
    (users_closed_post _ S c Hc Hst (acts_down_ok answer acts)))|].
  intros c' ((s' & Hd & Hi' & _) & _ & Hst' & Hcl & Hrm). eauto 10.
Qed.

Lemma implements_close c s acts answer :
  implements c s -> is_open c = true -> Forall act_fine acts -> answer_ok answer ->
  post (fun c' => exists s', does acts (set_state kDisconnected s) s' /\ implements c' s') (eq LengthError)
    (handleClose (map (user_of answer) acts) c).
Proof.
  intros Hi Ho Hf Ha. unfold handleClose. rewrite Ho. cbn [c_assert mbind outcome_bind].
  destruct (implements_down c s Hi Ho) as (l & -> & Hi1 & Hk). cbn [mbind outcome_bind]. unfold connectionCallback.
  simpl connected. cbn iota. eapply post_bind; [by apply implements_closed_acts|].
  intros c2 _ ((s2 & Hd & [[S Hc2] -> Hrd Hhw Hfs]) & Hst & Hcl & _). exists (stream_of c2). split; [done|].
  pose proof (ci_downs _ _ Hc2) as Hdn. rewrite Hst in Hdn. simpl in Hdn, Hcl.
  constructor; try done. exists S. destruct Hc2. constructor; simpl; try done. lia.
Qed.

Lemma implements_destroy c s acts answer :
  implements c s -> removed c = false -> state_ c = kConnected -> Forall act_fine acts -> answer_ok answer ->
  post (fun c' => exists s', does acts (set_state kDisconnected s) s' /\ implements c' s') (eq LengthError)
    (connectDestroyed (map (user_of answer) acts) c).
Proof.
  intros Hi Hrm Hst Hf Ha. unfold connectDestroyed. rewrite (proj2 (connected_true c) Hst).
  assert (Ho : is_open c = true) by (apply is_open_true; auto).
  destruct (implements_down c s Hi Ho) as (l & -> & Hi1 & Hk). cbn [mbind outcome_bind]. unfold connectionCallback.
  simpl connected. cbn iota. eapply post_bind; [by apply implements_closed_acts|].
  intros c2 _ ((s2 & Hd & [[S Hc2] -> Hrd Hhw Hfs]) & Hst2 & _ & Hrm2). simpl in Hrm2.
  destruct (remove_post S c2 Hc2 Hst2 ltac:(congruence)) as (S' & c3 & Hu & Hc3). rewrite Hu.
  apply on_channel_frame in Hu as (l' & ->). simpl. exists (stream_of c2). split; [done|].
  constructor; [by exists S'|done..].
Qed.

(** The kernel took [w] of the output and left [r]. *)
Record write_effect (c : TcpConnection P) (w r : bytes) (c' : TcpConnection P) : Prop := {
  we_split : content (outputBuffer_ c) = w ++ r;
  we_some : w <> [];
  we_state : state_ c' = state_ c;
  we_input : inputBuffer_ c' = inputBuffer_ c;
  we_taken : taken c' = taken c;
  we_reading : reading_ c' = reading_ c;
  we_highWater : hasHighWater c' = hasHighWater c;
  we_notify : hasWriteComplete c' = hasWriteComplete c;
  we_wire : wire c' = wire c ++ w;
  we_output : content (outputBuffer_ c') = r;
  we_functors : functors c' = functors c ++ (if hasWriteComplete c && bool_decide (r = []) then [FWriteComplete] else []);
  we_shut : shut c' = false \/ state_ c = kDisconnecting /\ r = [];
}.

Lemma handleWrite_effect S answer c :
  cinv S c -> is_open c = true -> content (outputBuffer_ c) <> [] ->
  post (fun c' => c' = c \/ exists w r, write_effect c w r c') (fun _ => True) (handleWrite answer c).
Proof.
  intros Hc Ho Hne. destruct (open_chan _ _ Hc Ho) as (s & ch & _ & _ & _ & _ & Hch & _ & Hwr & _).
  assert (Hsh : shut c = false).
  { destruct (shut c) eqn:E; [|done]. destruct (ci_shut _ _ Hc E) as [Hx|[_ Hx]]; [|done].
    apply is_open_true in Ho as [Ho|Ho]; congruence. }
  unfold handleWrite. rewrite Hch. cbn [mbind outcome_bind]. rewrite Hwr, bool_decide_eq_true_2 by done.
  unfold sock_write. rewrite Hsh. destruct answer as [n|errno]; [|by left].
  set (w := ztake n (content (outputBuffer_ c))). pose proof (zlen_ztake_le n (content (outputBuffer_ c))) as Hle.
  fold w in Hle. pose proof (ci_output _ _ Hc) as Hwo. rewrite content_length in Hle by done.
  pose proof (ztake_rest n (content (outputBuffer_ c))) as Hsplit. fold w in Hsplit.
  destruct (Z.ltb_spec 0 (zlen w)) as [Hpos|Hz].
  2: { simpl. left. assert (w = []) as -> by (apply zlen_0_nil; pose proof (zlen_nonneg w); lia).
       rewrite app_nil_r, <- Hsh. by destruct c. }
  assert (Hw0 : w <> []) by (intros E; rewrite E in Hpos; change (zlen (@nil ascii)) with 0 in Hpos; lia).
  destruct (retrieve_spec (zlen w) (outputBuffer_ c) Hwo ltac:(lia)) as (out & Hret & Hwf & Hco & _).
  rewrite <- Hco in Hsplit. simpl. rewrite Hret. cbn [mbind outcome_bind]. rewrite (readable_nil _ Hwf).
  destruct (bool_decide_reflect (content out = [])) as [Hnil|Hnn].
  2: { simpl. right. exists w, (content out). constructor; try done; [|by left].
       by rewrite (bool_decide_eq_false_2 (content out = [])), andb_false_r, app_nil_r by done. }
  destruct (on_channel _ _) as [c1|] eqn:E1; [|done].
  apply on_channel_frame in E1 as (l & ->). cbn [mbind outcome_bind]. simpl.
  set (c2 := if hasWriteComplete c then _ else _).
  assert (H2 : write_effect c w [] c2).
  { unfold c2. destruct (hasWriteComplete c) eqn:Hwc; constructor; simpl; try congruence;
      rewrite ?Hwc, ?bool_decide_eq_true_2, ?app_nil_r by done; auto. }
  clearbody c2. destruct (bool_decide_reflect (state_ c2 = kDisconnecting)) as [Hdg|_]; [|simpl; right; eauto].
  unfold shutdownInLoop. destruct (channel c2) as [ch2|]; [|done]. cbn [mbind outcome_bind].
  destruct (negb (isWriting ch2)); simpl; right; [|eauto]. exists w, []. destruct H2. constructor; simpl; try done.
  right. split; [congruence|done].
Qed.

Lemma implements_write {A} (svc : Service A) a c s answer :
  implements c s ->
  post (fun c' => exists s', stream_step svc (a, s) (a, s') /\ implements c' s') (eq LengthError) (handleWrite answer c).
Proof.
  intros Hi. pose proof Hi as [[S Hc] Hs Hrd Hhw Hfs].
  assert (Hidle : handleWrite answer c = Ok c ->
    post (fun c' => exists s', stream_step svc (a, s) (a, s') /\ implements c' s') (eq LengthError) (handleWrite answer c)).
  { intros ->. simpl. exists s. split; [constructor|done]. }
  destruct (is_open c) eqn:Ho.
  2: { apply Hidle. unfold handleWrite. destruct (not_open_quiet S c Hc Ho) as (ch & -> & Hw). simpl. by rewrite Hw. }
  destruct (decide (content (outputBuffer_ c) = [])) as [Hnil|Hne].
  { apply Hidle. unfold handleWrite. destruct (open_chan _ _ Hc Ho) as (s' & ch & _ & _ & _ & _ & -> & _ & Hwr & _).
    simpl. by rewrite Hwr, bool_decide_eq_false_2 by naive_solver. }
  eapply post_mono; [exact (post_conj _ _ _ _ _ (handleWrite_post S c answer Hc) (handleWrite_effect S answer c Hc Ho Hne))|].
  intros c' ((S' & Hc' & Hst & Hfin) & [->|(w & r & [])]); [exists s; split; [constructor|done]|].
  exists (stream_of c'). split.
  - subst s. replace (stream_of c') with
      (set_shut (s_shut (stream_of c) || (bool_decide (s_state (stream_of c) = kDisconnecting) && bool_decide (r = [])))
        (set_out (s_wire (stream_of c) ++ w) r (notice (stream_of c) r) (stream_of c))).
    + by apply step_write.
    + unfold stream_of, set_shut, set_out, notice; simpl.
      rewrite we_state0, we_input0, we_taken0, we_notify0, we_wire0, we_output0, we_functors0, length_app.
      assert (Hsh : shut c = false).
      { destruct (shut c) eqn:E; [|done]. destruct (ci_shut _ _ Hc E) as [Hx|[_ Hx]]; [|done].
        apply is_open_true in Ho as [Ho|Ho]; congruence. }
      rewrite Hsh. f_equal; [|destruct (_ && _); simpl; lia]. cbn [orb].
      destruct (decide (state_ c = kDisconnecting /\ r = [])) as [[Hd Hr]|Hno].
      * rewrite !bool_decide_eq_true_2 by done. symmetry. apply Hfin; congruence.
      * destruct we_shut0 as [->|?]; [|done]. symmetry.
        destruct (bool_decide_reflect (state_ c = kDisconnecting)), (bool_decide_reflect (r = [])); naive_solver.
  - constructor; [eauto|done|congruence|congruence|]. rewrite we_functors0. apply Forall_app. split; [done|].
    destruct (_ && _); by repeat constructor.
Qed.

(** A service sends no empty message and none that no string can hold. *)
Record service_fine {A} (svc : Service A) : Prop := {
  fine_connection : forall a up, Forall act_fine (fst (onConnection svc a up));
  fine_message : forall a data, data <> [] -> zlen data <= vector_max_size ->
    Forall act_fine (fst (onMessage svc a data));
  fine_complete : forall a, Forall act_fine (fst (onWriteComplete svc a));
}.

Lemma open_stream c : s_open (stream_of c) = is_open c.
Proof. done. Qed.

Lemma content_fits (b : Buffer) : wf b -> zlen (content b) <= vector_max_size.
Proof. intros Hb. rewrite content_length, readableBytes_wf by done. wf_lia. Qed.

(** The buffer read into is the one the callback sees. *)
Lemma implements_read {A} (svc : Service A) a c s readv answer :
  service_fine svc -> implements c s -> is_open c = true -> readv_fits readv -> answer_ok answer ->
  post (fun x => exists s', stream_step svc (a, s) (fst x, s') /\ implements (snd x) s') (eq LengthError)
    (service_step svc (a, c) (WRead readv answer)).
Proof.
  intros Hfine Hi Ho Hfit Ha. pose proof Hi as [[S Hc] Hs Hrd Hhw Hfs]. pose proof (ci_input _ _ Hc) as Hin.
  pose proof (readFd_post readv Hfit (inputBuffer_ c) Hin) as Hrf. unfold service_step, serve. cbn [fst snd].
  destruct (readv _) as [errno|data].
  { rewrite Hrf. cbn iota. simpl. unfold handleRead. rewrite Hrf. simpl. exists s. split; [constructor|done]. }
  destruct (readFd readv (inputBuffer_ c)) as [r|e] eqn:Er; [|by simpl; unfold handleRead; rewrite Er].
  simpl in Hrf. destruct Hrf as (b' & -> & Hb' & Hcb). pose proof (zlen_nonneg data). cbn iota.
  destruct (Z.ltb_spec 0 (zlen data)) as [Hpos|Hz].
  - destruct (onMessage svc a (content b')) as [acts a'] eqn:Em. unfold with_acts. cbn [fst snd step].
    unfold handleRead. rewrite Er. cbn [mbind outcome_bind]. rewrite (proj2 (Z.ltb_lt _ _)) by done.
    assert (Hne : data <> []) by (intros ->; change (zlen (@nil ascii)) with 0 in Hpos; lia).
    unfold messageCallback. eapply post_bind.
    + apply (implements_acts acts _ (set_in (s_in s ++ data) (s_taken s) s) answer); [| | |done].
      * rewrite Hcb, zdrop_app_exact by done. constructor; simpl; try done.
        -- exists S. destruct Hc. constructor; simpl; try done. by rewrite Hcb, (assoc_L (++)), ci_received0.
        -- subst s. unfold set_in, stream_of; simpl. by rewrite Hcb.
      * unfold past_connecting. simpl. intros E. unfold is_open in Ho. by rewrite E in Ho.
      * pose proof (fine_message _ Hfine a (content b')) as Hf. rewrite Em in Hf. apply Hf.
        -- rewrite Hcb. by destruct (content (inputBuffer_ c)), data.
        -- by apply content_fits.
    + intros c' _ (s' & Hd & Hi' & _). simpl. exists s'. split; [|done].
      eapply step_read; [by subst s|exact Hne| |exact Hd]. subst s. simpl. by rewrite <- Hcb.
  - assert (data = []) as -> by (apply zlen_0_nil; lia). rewrite app_nil_r in Hcb. simpl.
    destruct (onConnection svc a false) as [acts a'] eqn:Ec. unfold with_acts. cbn [fst snd step].
    unfold handleRead. rewrite Er. cbn [mbind outcome_bind]. simpl. eapply post_bind.
    + apply (implements_close _ s acts answer); [|done| |done].
      * constructor; simpl; try done.
        -- exists S. destruct Hc. constructor; simpl; try done. congruence.
        -- subst s. unfold stream_of; simpl. by rewrite Hcb.
      * pose proof (fine_connection _ Hfine a false) as Hf. by rewrite Ec in Hf.
    + intros c' _ (s' & Hd & Hi'). simpl. exists s'. split; [|done]. eapply step_down; [by subst s|exact Ec|done].
Qed.

(** The loop runs a write-complete notice. *)
Lemma implements_run {A} (svc : Service A) a c s answer :
  service_fine svc -> implements c s -> past_connecting c -> answer_ok answer ->
  post (fun x => exists s', stream_step svc (a, s) (fst x, s') /\ implements (snd x) s') (eq LengthError)
    (service_step svc (a, c) (WRun answer)).
Proof.
  intros Hfine Hi Hp Ha. pose proof Hi as [[S Hc] Hs Hrd Hhw Hfs]. unfold service_step, serve. cbn [fst snd].
  destruct (functors c) as [|f rest] eqn:Ef.
  { simpl. rewrite Ef. simpl. exists s. split; [constructor|done]. }
  apply Forall_cons in Hfs as [<- Hrest]. destruct (onWriteComplete svc a) as [acts a'] eqn:Ew.
  unfold with_acts. cbn [fst snd step]. rewrite Ef. cbn [run_functor]. eapply post_bind.
  - apply (implements_acts acts _ (set_out (s_wire s) (s_out s) (length rest) s) answer); [|done| |done].
    + constructor; simpl; try done; [|by subst s].
      exists S. apply cinv_functors; [done|]. pose proof (ci_functors _ _ Hc) as Hall. rewrite Ef in Hall.
      by apply Forall_cons in Hall as [_ ?].
    + pose proof (fine_complete _ Hfine a) as Hf. by rewrite Ew in Hf.
  - intros c' _ (s' & Hd & Hi' & _). simpl. exists s'. split; [|done].
    eapply step_done; [|exact Ew|exact Hd]. subst s. simpl. by rewrite Ef.
Qed.

(** Each event of the connection is a step of the stream. *)
Lemma service_refines {A} (svc : Service A) a c s w :
  service_fine svc -> implements c s -> world_ok c w ->
  post (fun x => exists s', stream_step svc (a, s) (fst x, s') /\ implements (snd x) s') (eq LengthError)
    (service_step svc (a, c) w).
Proof.
  intros Hfine Hi Hw. pose proof (im_stream _ _ Hi) as Hs.
  destruct w as [answer|readv answer|answer| | |answer| ]; cbn [world_ok] in Hw.
  - destruct Hw as [Hst Ha]. unfold service_step, serve. cbn [fst snd].
    destruct (onConnection svc a true) as [acts a'] eqn:Ec. unfold with_acts. cbn [fst snd step].
    pose proof (fine_connection _ Hfine a true) as Hf. rewrite Ec in Hf.
    eapply post_bind; [by apply implements_up|]. intros c' _ (s' & Hd & Hi'). simpl. exists s'. split; [|done].
    eapply step_up; [by subst s|exact Ec|done].
  - destruct Hw as (Ho & Hfit & Ha). by apply implements_read.
  - unfold service_step. cbn [serve fst snd step].
    eapply post_bind; [by apply (implements_write svc a)|]. intros c' _ (s' & Hd & Hi'). simpl. eauto.
  - unfold service_step, serve. cbn [fst snd].
    destruct (onConnection svc a false) as [acts a'] eqn:Ec. unfold with_acts. cbn [fst snd step].
    pose proof (fine_connection _ Hfine a false) as Hf. rewrite Ec in Hf.
    eapply post_bind; [by apply implements_close|]. intros c' _ (s' & Hd & Hi'). simpl. exists s'. split; [|done].
    eapply step_down; [by subst s|exact Ec|done].
  - simpl. exists s. split; [constructor|done].
  - destruct Hw as [Hp Ha]. by apply implements_run.
  - destruct Hw as [Hrm Hst]. unfold service_step, serve. cbn [fst snd]. destruct (connected c) eqn:Hcn.
    + destruct (onConnection svc a false) as [acts a'] eqn:Ec. unfold with_acts. cbn [fst snd step].
      pose proof (fine_connection _ Hfine a false) as Hf. rewrite Ec in Hf. apply connected_true in Hcn.
      eapply post_bind; [by apply implements_destroy|]. intros c' _ (s' & Hd & Hi'). simpl. exists s'. split; [|done].
      eapply step_down; [|exact Ec|done]. subst s. rewrite open_stream. apply is_open_true; auto.
    + assert (Hd : state_ c = kDisconnected) by (destruct Hst as [?|E]; [done|]; by apply connected_true in E; congruence).
      pose proof Hi as [[S Hc] _ Hrd Hhw Hfs]. cbn [step]. unfold connectDestroyed. rewrite Hcn. cbn [mbind outcome_bind].
      destruct (remove_post S c Hc Hd Hrm) as (S' & c3 & Hu & Hc3). rewrite Hu.
      apply on_channel_frame in Hu as (l' & ->). simpl. exists s. split; [constructor|].
      constructor; [by exists S'|done..].
Qed.

Lemma service_run_refines {A} (svc : Service A) x s ws :
  service_fine svc -> implements (snd x) s -> world_run svc x ws ->
  post (fun x' => exists s', stream_steps svc (fst x, s) (fst x', s') /\ implements (snd x') s') (eq LengthError)
    (foldM (service_step svc) x ws).
Proof.
  intros Hfine. revert x s. induction ws as [|w ws IH]; intros [a c] s Hi Hr; simpl.
  - exists s. split; [constructor|done].
  - destruct Hr as [Hw Hr]. eapply post_bind; [by apply (service_refines svc a c s w)|].
    intros [a1 c1] E (s1 & H1 & Hi1). specialize (Hr _ E).
    eapply post_mono; [by apply (IH (a1, c1) s1)|]. intros [a2 c2] (s2 & H2 & Hi2). exists s2. split; [|done].
    by eapply steps_left.
Qed.

(** The stream of a connection that has just been made. *)
Lemma new_implements S loop ch fd wc :
  Loop.linv S loop -> S !! ch = None -> 0 <= fd < fd_limit -> fd_free S fd ->
  exists c, newTcpConnection loop ch fd wc false = Ok c /\ implements c (new_stream wc).
Proof.
  intros Hl Hn Hfd Hfree. destruct (new_post S loop ch fd wc false Hl Hn Hfd Hfree) as (c & S' & Hc & Hci & Hst).
  exists c. split; [done|]. unfold newTcpConnection in Hc.
  destruct (Loop.linv_construct S loop ch fd Hl Hn Hfd) as (l & Hlc & _). rewrite Hlc in Hc. cbn [mbind outcome_bind] in Hc.
  destruct (newBuffer_spec kInitialSize) as (b & Hb & _ & Hbc & _); [unfold kInitialSize, vector_max_size, kCheapPrepend; lia..|].
  rewrite Hb in Hc. cbn [mbind outcome_bind] in Hc. injection Hc as <-.
  constructor; [eauto|unfold stream_of, new_stream; simpl; by rewrite Hbc|done|done|constructor].
Qed.

(** A connection as a service knows it after a run. *)
Definition shows (c : TcpConnection P) (s : stream) : Prop :=
  s = stream_of c /\ s_received s = received c /\ s_accepted s = accepted c.

(** A connection just made on a loop in any state its channels can be in. *)
Definition made (wc : bool) (c : TcpConnection P) : Prop :=
  exists ops S loop ch fd,
    Loop.allowed_trace ∅ ops S /\ foldM Loop.perform (Loop.newEventLoop (P := P)) ops = Ok loop /\
    S !! ch = None /\ 0 <= fd < fd_limit /\ fd_free S fd /\ newTcpConnection loop ch fd wc false = Ok c.

Lemma made_implements wc c : made wc c -> implements c (new_stream wc).
Proof.
  intros (ops & S & loop & ch & fd & Htrace & Hloop & Hnew & Hfd & Hfree & Hc).
  destruct (Loop.linv_run ∅ Loop.newEventLoop ops S Loop.linv_init Htrace) as (l & Hl & Hinv).
  rewrite Hloop in Hl. injection Hl as <-.
  destruct (new_implements S loop ch fd wc Hinv Hnew Hfd Hfree) as (c1 & Hc1 & Hi).
  rewrite Hc in Hc1. by injection Hc1 as <-.
Qed.

(** C29: Any service on such a connection, in every run where a write fails only with
    an error after which the connection goes on (not EPIPE or ECONNRESET, after which
    it drops the message) and where the owner destroys the connection connected or
    disconnected, not being shut down: no assertion fails, and the run is one of the
    stream, so that what the connection received and accepted is the history of the
    stream. *)
Theorem service_run wc c {A} (svc : Service A) a ws
  (Hmade : made wc c) (Hfine : service_fine svc) (Hrun : world_run svc (a, c) ws) :
  post (fun x => exists s, stream_steps svc (a, new_stream wc) (fst x, s) /\ shows (snd x) s) (eq LengthError)
    (foldM (service_step svc) (a, c) ws).
Proof.
  eapply post_mono; [by apply (service_run_refines svc (a, c) (new_stream wc)); [|apply made_implements|]|].
  intros x (s & Hs & [[S' Hc'] -> _ _ _]). eexists. split; [exact Hs|]. split; [done|].
  split; [exact (ci_received _ _ Hc')|exact (ci_sent _ _ Hc')].
Qed.

(** An invariant of the service's stream holds of the connection. *)
Lemma service_invariant wc c {A} (svc : Service A) a ws (J : A -> stream -> Prop) :
  made wc c -> service_fine svc -> world_run svc (a, c) ws -> J a (new_stream wc) ->
  (forall a s a' s', J a s -> stream_step svc (a, s) (a', s') -> J a' s') ->
  post (fun x => exists s, J (fst x) s /\ shows (snd x) s) (eq LengthError) (foldM (service_step svc) (a, c) ws).
Proof.
  intros Hm Hf Hr H0 Hstep. eapply post_mono; [by apply (service_run_refines svc (a, c) (new_stream wc)); [|apply made_implements|]|].
  intros [a' c'] (s & Hs & [[S' Hc'] -> _ _ _]). eexists. split; [by eapply stream_invariant|]. split; [done|].
  split; [exact (ci_received _ _ Hc')|exact (ci_sent _ _ Hc')].
Qed.
End connection.
