(* ===== verification/Services.v ===== *)
(** * Services: the servers and clients of examples/simple

    Each program is a [Service] of Stream.v: its callbacks as functions of what
    they look at (whether the connection is up, the readable bytes), with the
    private state it keeps.  The logging of the callbacks is left out, and so are
    the main functions, which only construct the parts and run the loop.

    Theorems, over any run of the connection: the echo server sends back exactly
    the bytes it receives; the character generator repeats its message without a
    gap and never holds more than one copy of it in memory; the time and daytime
    servers send their answer whole and then close their side; and the time
    client learns the server's clock however the network cuts the four bytes. *)

From S2P Require Import Prelude Endian Format Timestamp Buffer Channel Poller EventLoop TcpConnection Stream.
Import TcpConnection.

(** ** The programs *)
Definition retrieveAllOf (data : bytes) : act := ATake (zlen data).

(** examples/simple/echo *)
Definition EchoServer : Service unit :=
  mkService (fun a _ => ([], a))
    (fun a buf => ([retrieveAllOf buf; ASend buf], a))
    (fun a => ([], a)).

(** examples/simple/discard *)
Definition DiscardServer : Service unit :=
  mkService (fun a _ => ([], a)) (fun a buf => ([retrieveAllOf buf], a)) (fun a => ([], a)).

(** examples/simple/chargen: the constructor's [line] and [message_]. *)
Definition chargen_line : bytes :=
  let line := map (fun i => code_char (Z.of_nat i)) (seq 33 (127 - 33)) in line ++ line.

Definition chargen_message : bytes :=
  concat (map (fun i => take 72 (drop i chargen_line) ++ [lf]) (seq 0 (127 - 33))).

(** The state is what this connection adds to [transferred_], the counter of the
    server that no callback looks at. *)
Definition ChargenServer : Service Z :=
  mkService (fun a up => (if up : bool then [ASend chargen_message] else [], a))
    (fun a buf => ([retrieveAllOf buf], a))
    (fun a => ([ASend chargen_message], i64 (a + zlen chargen_message))).

(** The reset of printThroughput: the counter and the start of the interval. *)
Definition printThroughput (now : Z) (transferred startTime : Z) : Z * Z := (0, now).

(** examples/simple/daytime, with the clock reading of the connection. *)
Definition DaytimeServer (now : Z) : Service unit :=
  mkService (fun a up => (if up : bool then [ASend (toFormattedString true now ++ [lf]); AShutdown] else [], a))
    (fun a buf => ([retrieveAllOf buf], a))
    (fun a => ([], a)).

(** examples/simple/time: the four bytes of [be32] in memory. *)
Definition time_bytes (now : Z) : bytes := le_bytes 4 (hostToNetwork32 (u32 (i32 now))).

Definition TimeServer (now : Z) : Service unit :=
  mkService (fun a up => (if up : bool then [ASend (time_bytes now); AShutdown] else [], a))
    (fun a buf => ([retrieveAllOf buf], a))
    (fun a => ([], a)).

(** examples/simple/timeclient: the times it showed, and whether it ended its
    loop. *)
Record TimeClient := mkTimeClient { shown : list Z; quit : bool }.

Definition TimeClientService : Service TimeClient :=
  mkService (fun a up => ([], if up : bool then a else mkTimeClient (shown a) true))
    (fun a buf =>
       if 4 <=? zlen buf then
         ([ATake 4], mkTimeClient (shown a ++ [networkToHost32 (le_value (ztake 4 buf))]) (quit a))
       else ([], a))
    (fun a => ([], a)).

(** The timestamp it prints. *)
Definition server_timestamp (time : Z) : Z := u64 (time * kMicroSecondsPerSecond).

(** examples/simple/chargenclient: [retrieveAll], and quit when down. *)
Definition ChargenClient : Service bool :=
  mkService (fun a up => ([], if up : bool then a else true))
    (fun a buf => ([retrieveAllOf buf], a))
    (fun a => ([], a)).

(** ** The messages are ones a service may send *)
(** net/TcpConnection.cc: the callbacks of a connection whose user sets none.  The
    state is the lines they log; the names are the addresses as toIpPort. *)
Definition defaultConnectionCallback (localAddr peerAddr : bytes) (lines : list bytes) (up : bool) : list act * list bytes :=
  ([], lines ++ [localAddr ++ lit " -> " ++ peerAddr ++ lit " is " ++ lit (if up then "UP" else "DOWN")]).

Definition defaultMessageCallback (lines : list bytes) (data : bytes) : list act * list bytes := ([retrieveAllOf data], lines).

Definition DefaultService (localAddr peerAddr : bytes) : Service (list bytes) :=
  mkService (defaultConnectionCallback localAddr peerAddr) defaultMessageCallback (fun lines => ([], lines)).

Lemma message_fits m : m <> [] -> zlen m <= 100000 -> act_fine (ASend m).
Proof. intros. split; [done|]. unfold vector_max_size. lia. Qed.

Lemma chargen_size : zlen chargen_message = 6862.
Proof. by vm_compute. Qed.

(** RFC 864: lines of 72 printable characters, each line one character further. *)
Lemma chargen_lines :
  chargen_message =
    concat (map (fun i => map (fun j => code_char (33 + Z.of_nat (i + j) mod 94)) (seq 0 72) ++ [lf]) (seq 0 94)).
Proof. by vm_compute. Qed.

#[local] Opaque chargen_message.

Lemma chargen_nonempty : chargen_message <> [].
Proof. intros E. pose proof chargen_size as H. by rewrite E in H. Qed.

Lemma time_bytes_be now : time_bytes now = be_bytes 4 (u32 (i32 now)).
Proof. apply htobe_image. Qed.

Lemma zlen_time_bytes now : zlen (time_bytes now) = 4.
Proof. apply zlen_le_bytes. Qed.

Ltac solve_acts :=
  repeat match goal with
  | |- Forall _ [] => apply Forall_nil_2
  | |- Forall _ (_ :: _) => apply Forall_cons_2
  | |- act_fine (ATake _) => exact I
  | |- act_fine (retrieveAllOf _) => exact I
  | |- act_fine AShutdown => exact I
  | H : ?G |- ?G => exact H
  end.

Lemma echo_fine : service_fine EchoServer.
Proof. constructor; intros; cbn [EchoServer onConnection onMessage onWriteComplete fst]; solve_acts; by split. Qed.

Lemma discard_fine : service_fine DiscardServer.
Proof. constructor; intros; cbn [DiscardServer onConnection onMessage onWriteComplete fst]; solve_acts. Qed.

Lemma chargen_fine : service_fine ChargenServer.
Proof.
  assert (act_fine (ASend chargen_message)) by (apply message_fits; [apply chargen_nonempty|rewrite chargen_size; lia]).
  constructor; intros; cbn [ChargenServer onConnection onMessage onWriteComplete fst]; [destruct up|..]; solve_acts.
Qed.

Lemma time_fine now : service_fine (TimeServer now).
Proof.
  assert (act_fine (ASend (time_bytes now))).
  { apply message_fits; [|rewrite zlen_time_bytes; lia]. intros E. pose proof (zlen_time_bytes now) as H. by rewrite E in H. }
  constructor; intros; cbn [TimeServer onConnection onMessage onWriteComplete fst]; [destruct up|..]; solve_acts.
Qed.

Lemma daytime_fine now : service_fine (DaytimeServer now).
Proof.
  assert (act_fine (ASend (toFormattedString true now ++ [lf]))).
  { apply message_fits; [by destruct (toFormattedString true now)|].
    rewrite zlen_app. unfold toFormattedString, snprintf. cbn zeta.
    set (t := date_time_text _ ++ _ ++ _).
    assert (zlen (ztake (64 - 1) t) <= 63) by (unfold zlen, ztake; rewrite length_take; lia).
    change (zlen [lf]) with 1. lia. }
  constructor; intros; cbn [DaytimeServer onConnection onMessage onWriteComplete fst]; [destruct up|..]; solve_acts.
Qed.

Lemma timeclient_fine : service_fine TimeClientService.
Proof.
  constructor; intros; cbn [TimeClientService onConnection onMessage onWriteComplete fst];
    [|destruct (4 <=? zlen data); cbn [fst]|]; solve_acts.
Qed.

(** ** Running the callbacks *)
Ltac inv_does :=
  repeat match goal with
  | H : does [] _ _ |- _ => inversion H; clear H; subst
  | H : does (_ :: _) _ _ |- _ => inversion H; clear H; subst
  end.

Ltac inv_step H :=
  inversion H; clear H; subst;
  cbn [EchoServer DiscardServer ChargenServer DaytimeServer TimeServer TimeClientService
       onConnection onMessage onWriteComplete] in *;
  repeat match goal with
  | E : (_, _) = (_, _) |- _ => injection E as E; subst
  end.

Lemma take_all_effect data s s' :
  does1 (retrieveAllOf data) s s' -> s_in s = data -> s' = set_in [] (s_taken s ++ data) s.
Proof.
  intros H <-. inversion H as [| | |n k s0 Hk| |]; subst. pose proof (zlen_nonneg (s_in s)).
  rewrite ztake_all, zdrop_all by lia. done.
Qed.

(** Taking the front of the input, doing nothing, and what was received. *)
Lemma take_effect k r s s' :
  does1 (ATake (zlen (k ++ r) - zlen r)) s s' -> s_in s = k ++ r -> s' = set_in r (s_taken s ++ k) s.
Proof.
  intros H E. inversion H as [| | |n m s0 Hm| |]; subst. rewrite E, zlen_app. pose proof (zlen_nonneg k). pose proof (zlen_nonneg r).
  replace (Z.max 0 _) with (zlen k) by lia. by rewrite ztake_app_exact, zdrop_app_exact.
Qed.

Lemma does_nil_inv s s' : does [] s s' -> s' = s.
Proof. by inversion 1. Qed.

Lemma does_received acts s s' : does acts s s' -> s_received s' = s_received s.
Proof. induction 1 as [|x acts s1 s2 s3 H1 _ IH]; [done|]. rewrite IH. by apply does1_frame in H1 as [_ ?]. Qed.

(** A message sent on a connected stream is appended to what was accepted. *)
Lemma send_effect m s s' :
  does1 (ASend m) s s' -> s_state s = kConnected ->
  s_accepted s' = s_accepted s ++ m /\ s_state s' = s_state s /\ s_in s' = s_in s /\ s_taken s' = s_taken s /\
  s_notify s' = s_notify s /\ s_shut s' = s_shut s /\
  (s_out s = [] -> s_out s' `suffix_of` m /\ s_done s' = notice s (s_out s')).
Proof.
  intros H Hst. remember (ASend m) as x eqn:Ex.
  destruct H as [m' s Hno|w r s _ Hnil|m' s _ Hne| | |]; try discriminate Ex; injection Ex as <-;
    unfold s_accepted; simpl; [done|..].
  - split_and!; try done; [by rewrite Hnil, app_nil_r, app_assoc|]. intros _. split; [by exists w|done].
  - split_and!; try done. by rewrite app_assoc.
Qed.

(** The effects of a message retrieved whole and of a message sent. *)
Ltac take_all :=
  match goal with H : does1 (retrieveAllOf _) _ _ |- _ => apply take_all_effect in H; [subst|done] end.
Ltac do_send :=
  match goal with H : does1 (ASend _) _ _ |- _ => apply send_effect in H; [revert H|] end; cycle 1.

Lemma write_accepted s w r d :
  s_out s = w ++ r -> s_accepted (set_out (s_wire s ++ w) r d s) = s_accepted s.
Proof. intros H. unfold s_accepted; simpl. by rewrite H, app_assoc. Qed.

(** ** Echo *)
Definition echo_inv (_ : unit) (s : stream) : Prop :=
  s_state s <> kDisconnecting /\ s_in s = [] /\ s_accepted s = s_taken s.

Lemma open_connected s : s_open s = true -> s_state s <> kDisconnecting -> s_state s = kConnected.
Proof. unfold s_open. by destruct (s_state s). Qed.

Lemma echo_step a s a' s' :
  echo_inv a s -> stream_step EchoServer (a, s) (a', s') -> echo_inv a' s'.
Proof.
  intros (Hst & Hin & Hacc) H. inv_step H.
  - done.
  - inv_does. by split_and!.
  - rewrite Hin in *. cbn [app] in *. inv_does. take_all. do_send.
    { by apply open_connected. }
    intros (E1 & E2 & E3 & E4 & _). unfold echo_inv. rewrite E1, E2, E3, E4. simpl.
    split; [done|]. split; [done|]. unfold s_accepted in *; simpl. by rewrite Hacc.
  - unfold echo_inv. simpl. split; [done|]. split; [done|]. rewrite <- Hacc. by eapply (write_accepted _ _ _ 0).
  - inv_does. by split_and!.
  - inv_does. by split_and!.
Qed.

(** ** Character generator *)
Definition copies (k : nat) : bytes := concat (replicate k chargen_message).

Lemma copies_S k : copies (S k) = copies k ++ chargen_message.
Proof. unfold copies. rewrite replicate_S_end, concat_app. cbn [concat]. by rewrite app_nil_r. Qed.

Lemma i64_add x y : i64 (i64 x + y) = i64 (x + y).
Proof.
  unfold wrapS. f_equal.
  replace ((x + 2 ^ (64 - 1)) mod 2 ^ 64 - 2 ^ (64 - 1) + y + 2 ^ (64 - 1)) with ((x + 2 ^ (64 - 1)) mod 2 ^ 64 + y) by lia.
  rewrite Z.add_mod_idemp_l by lia. f_equal. lia.
Qed.

(** [k] copies were accepted; the last one is being written, or is written and
    its notice is on the way (or was delivered after the close). *)
Record chargen_up (a : Z) (s : stream) (k : nat) : Prop := {
  cg_state : s_state s = kConnected \/ s_state s = kDisconnected;
  cg_in : s_in s = [];
  cg_accepted : s_accepted s = copies (S k);
  cg_bound : zlen (s_out s) <= zlen chargen_message;
  cg_notify : s_notify s = true;
  cg_done :
    s_done s = (if bool_decide (s_out s = []) then 1%nat else 0%nat) /\ a = i64 (Z.of_nat k * zlen chargen_message) \/
    s_state s = kDisconnected /\ s_done s = 0%nat /\ s_out s = [] /\ a = i64 (Z.of_nat (S k) * zlen chargen_message);
}.

Definition chargen_inv (a : Z) (s : stream) : Prop :=
  s = new_stream true /\ a = 0 \/ exists k, chargen_up a s k.

Lemma suffix_bound (r m : bytes) : r `suffix_of` m -> zlen r <= zlen m.
Proof. intros [w ->]. rewrite zlen_app. pose proof (zlen_nonneg w). lia. Qed.

(** A copy sent while nothing waits. *)
Lemma chargen_send a s s' k :
  does1 (ASend chargen_message) s s' -> s_state s = kConnected -> s_in s = [] -> s_out s = [] -> s_done s = 0%nat ->
  s_notify s = true -> s_accepted s = copies k -> a = i64 (Z.of_nat k * zlen chargen_message) -> chargen_up a s' k.
Proof.
  intros H Hst Hin Hout Hdone Hn Hacc Ha. apply send_effect in H as (E1 & E2 & E3 & E4 & E5 & E6 & E7); [|done].
  destruct (E7 Hout) as [Hsuf Hd]. constructor.
  - left. congruence.
  - congruence.
  - by rewrite E1, Hacc, copies_S.
  - by apply suffix_bound.
  - congruence.
  - left. split; [|done]. rewrite Hd. unfold notice. rewrite Hn, Hdone. cbn [andb]. by destruct (bool_decide _).
Qed.

Lemma chargen_step a s a' s' :
  chargen_inv a s -> stream_step ChargenServer (a, s) (a', s') -> chargen_inv a' s'.
Proof.
  intros [[-> ->]|[k [Hst Hin Hacc Hb Hn Hdone]]] H; inv_step H; try discriminate.
  - by left.
  - inv_does. right. exists 0%nat. eapply chargen_send; [eassumption|done..].
  - right. exists k. by constructor.
  - destruct Hst; congruence.
  - inv_does. rewrite Hin in *. cbn [app] in *. take_all. right. exists k. by constructor.
  - match goal with E : s_out s = _ ++ _ |- _ => rename E into Hsplit end.
    right. exists k. assert (Hne : s_out s <> []) by (rewrite Hsplit; by destruct w).
    rewrite bool_decide_eq_false_2 in Hdone by done.
    constructor; simpl; try done.
    + rewrite <- Hacc. by eapply (write_accepted _ _ _ 0).
    + rewrite Hsplit, zlen_app in Hb. pose proof (zlen_nonneg w). lia.
    + destruct Hdone as [[Hd Ha]|(_ & _ & Hx & _)]; [|done]. left. split; [|done].
      unfold notice. rewrite Hn, Hd. cbn [andb]. by destruct (bool_decide _).
  - destruct Hdone as [[Hd Ha]|(_ & Hd & _)]; [|congruence].
    destruct (bool_decide_reflect (s_out s = [])) as [Hout|]; [|congruence].
    assert (n = 0%nat) as -> by congruence.
    inv_does. right. destruct Hst as [Hst|Hst].
    + exists (S k). eapply chargen_send; [eassumption|done..|]. rewrite ?Ha. rewrite i64_add. f_equal. lia.
    + match goal with H : does1 _ _ _ |- _ => inversion H; subst; simpl in *; try congruence end.
      exists k. constructor; simpl; try done; [by right|]. right. split_and!; try done.
      rewrite i64_add. f_equal. lia.
  - inv_does. right. exists k. constructor; simpl; try done; [by right|].
    destruct Hdone as [?|(? & ? & ? & ?)]; [by left|by right].
Qed.

(** ** One answer, then shutdown: the time and daytime servers *)
Record answers_with (text : bytes) (svc : Service unit) : Prop := {
  aw_up : onConnection svc tt true = ([ASend text; AShutdown], tt);
  aw_down : onConnection svc tt false = ([], tt);
  aw_message : forall data, onMessage svc tt data = ([retrieveAllOf data], tt);
  aw_complete : onWriteComplete svc tt = ([], tt);
}.

Lemma time_answers now : answers_with (time_bytes now) (TimeServer now).
Proof. by constructor. Qed.

Lemma daytime_answers now : answers_with (toFormattedString true now ++ [lf]) (DaytimeServer now).
Proof. by constructor. Qed.

(** After the callback the answer is accepted, and the write side is shut exactly
    when all of it is written. *)
Record answered (text : bytes) (s : stream) : Prop := {
  an_in : s_in s = [];
  an_accepted : s_accepted s = text;
  an_state : s_state s = kDisconnecting \/ s_state s = kDisconnected;
  an_notify : s_notify s = false;
  an_shut : s_state s = kDisconnecting -> s_shut s = bool_decide (s_out s = []);
}.

Definition answer_inv (text : bytes) (_ : unit) (s : stream) : Prop := s = new_stream false \/ answered text s.

Lemma answer_up text s s' :
  s = new_stream false -> does [ASend text; AShutdown] (set_state kConnected s) s' -> answered text s'.
Proof.
  intros -> H. inv_does. do_send. { done. } intros (E1 & E2 & E3 & E4 & E5 & E6 & _). simpl in *.
  match goal with H : does1 AShutdown _ _ |- _ => inversion H; subst; try congruence end.
  constructor; simpl; try done. by left.
Qed.

Lemma answer_step text svc a s a' s' :
  answers_with text svc -> answer_inv text a s -> stream_step svc (a, s) (a', s') -> answer_inv text a' s'.
Proof.
  intros [Hup Hdown Hmsg Hdone] Hinv H. destruct a. inversion H; clear H; subst.
  - done.
  - destruct Hinv as [->|Han]; [|destruct (an_state _ _ Han); congruence].
    rewrite Hup in *. simplify_eq. right. by eapply answer_up.
  - destruct Hinv as [->|[Hin Hacc Hst Hn Hsh]]; [discriminate|]. rewrite Hmsg, Hin in *. simplify_eq. cbn [app] in *.
    inv_does. take_all. right. by constructor.
  - destruct Hinv as [->|[Hin Hacc Hst Hn Hsh]]; [discriminate|].
    match goal with E : s_out s = _ ++ _ |- _ => rename E into Hsplit end.
    right. constructor; simpl; try done.
    + rewrite <- Hacc. by eapply (write_accepted _ _ _ 0).
    + intros E. rewrite (Hsh E), Hsplit, (bool_decide_eq_false_2 (w ++ r = [])) by (by destruct w).
      rewrite (bool_decide_eq_true_2 (s_state s = _)) by done. done.
  - rewrite Hdone in *. simplify_eq. inv_does. destruct Hinv as [->|[Hin Hacc Hst Hn Hsh]]; [discriminate|].
    right. by constructor.
  - rewrite Hdown in *. simplify_eq. inv_does. destruct Hinv as [->|[Hin Hacc Hst Hn Hsh]]; [discriminate|].
    right. constructor; simpl; try done. by right.
Qed.

(** ** The time client *)
Definition word (t : Z) : bytes := be_bytes 4 t.

(** The bytes taken are those of the times shown, and up to four bytes none waits
    complete. *)
Record client_inv (a : TimeClient) (s : stream) : Prop := {
  tc_taken : s_taken s = concat (map word (shown a));
  tc_values : Forall (fun t => 0 <= t < 2 ^ 32) (shown a);
  tc_first : zlen (s_received s) <= 4 -> zlen (s_in s) < 4;
  tc_quit : quit a = bool_decide (s_state s = kDisconnected);
  tc_state : s_state s <> kDisconnecting;
}.

(** Four bytes of the network are the number they are read as. *)
Lemma word_read l : zlen l = 4 -> word (networkToHost32 (le_value l)) = l /\ 0 <= networkToHost32 (le_value l) < 2 ^ 32.
Proof.
  intros Hl. assert (Hn : length l = 4%nat) by (unfold zlen in Hl; lia).
  unfold networkToHost32. rewrite <- Hn, betoh_image. unfold word. rewrite <- Hn at 1. rewrite be_bytes_be_value.
  split; [done|]. unfold be_value. pose proof (le_value_range (rev l)) as H. rewrite zlen_rev, Hl in H. exact H.
Qed.

Lemma client_step a s a' s' :
  client_inv a s -> stream_step TimeClientService (a, s) (a', s') -> client_inv a' s'.
Proof.
  intros Hc H. pose proof Hc as [Ht Hv Hf Hq Hst]. inv_step H; try done.
  - inv_does. constructor; simpl; try done. rewrite Hq.
    match goal with E : s_state s = _ |- _ => by rewrite E end.
  - assert (Hs : s_state s = kConnected) by (by apply open_connected).
    destruct (Z.leb_spec 4 (zlen (s_in s ++ data))) as [Hl|Hl]; simplify_eq; inv_does.
    + match goal with H : does1 _ _ _ |- _ => inversion H; subst end. cbn [set_in s_in s_taken] in *.
      pose proof (zlen_nonneg (s_in s ++ data)). replace (Z.max 0 _) with 4 by lia.
      destruct (word_read (ztake 4 (s_in s ++ data))) as [Hw Hr]; [by rewrite zlen_ztake by lia|].
      constructor; simpl; try done.
      * rewrite map_app, concat_app. cbn [map concat]. by rewrite app_nil_r, Hw, Ht.
      * apply Forall_app. split; [done|]. by apply Forall_singleton.
      * unfold s_received; simpl. rewrite zlen_app, zlen_app, zlen_ztake, !zlen_zdrop by lia.
        pose proof (zlen_nonneg (s_taken s)). lia.
    + constructor; simpl; try done.
  - inv_does. by constructor.
  - inv_does. constructor; simpl; try done.
Qed.

(** ** On connections *)
(** *** The default callbacks: everything is thrown away, nothing sent, and the log
    has one line for each end of the life of the connection. *)
Definition default_inv (localAddr peerAddr : bytes) (lines : list bytes) (s : stream) : Prop :=
  let line t := localAddr ++ lit " -> " ++ peerAddr ++ lit " is " ++ lit t in
  s_in s = [] /\ s_accepted s = [] /\ s_state s <> kDisconnecting /\
  lines = match s_state s with
          | kConnecting => []
          | kConnected | kDisconnecting => [line "UP"]
          | kDisconnected => [line "UP"; line "DOWN"]
          end%string.

Lemma default_fine localAddr peerAddr : service_fine (DefaultService localAddr peerAddr).
Proof. constructor; intros; cbn; repeat constructor. Qed.

Lemma default_step localAddr peerAddr a s a' s' :
  default_inv localAddr peerAddr a s -> stream_step (DefaultService localAddr peerAddr) (a, s) (a', s') ->
  default_inv localAddr peerAddr a' s'.
Proof.
  intros (Hin & Hacc & Hd & Hl) H. pose proof (open_connected s) as Hoc.
  inversion H as [x|a0 s0 acts a0' s0' Hst Hcb Hdo|a0 s0 data acts a0' s0' Ho Hne Hcb Hdo|a0 s0 w r Ho Hsplit Hw|
    a0 s0 n acts a0' s0' Hn Hcb Hdo|a0 s0 acts a0' s0' Ho Hcb Hdo]; clear H; subst;
    cbn [DefaultService onConnection onMessage onWriteComplete] in *; unfold default_inv; try (injection Hcb as <- <-).
  - done.
  - apply does_nil_inv in Hdo as ->. cbn. by rewrite Hst.
  - rewrite Hin in *. inversion Hdo as [|x xs s1 s2 s3 H1 H2]; subst. apply does_nil_inv in H2 as ->.
    apply take_all_effect in H1; [|done]. by subst s2.
  - unfold s_accepted in Hacc. apply app_eq_nil in Hacc as [_ Hout]. rewrite Hout in Hsplit. symmetry in Hsplit.
    by apply app_eq_nil in Hsplit as [? _].
  - apply does_nil_inv in Hdo as ->. done.
  - apply does_nil_inv in Hdo as ->. cbn. by rewrite (Hoc Ho Hd).
Qed.

Section connections.
Context {P : Type} `{PL : PollerLaws P}.

(** Whatever arrives and whenever the kernel takes output, the echo server has
    accepted for its peer exactly the bytes it received: those on the wire
    followed by those still in the output buffer.  No byte is lost, repeated or
    reordered, and none waits unread. *)
Theorem echo_correct (c : TcpConnection P) ws
  (Hmade : made false c) (Hrun : world_run EchoServer (tt, c) ws) :
  post (fun x => content (inputBuffer_ (snd x)) = [] /\
          wire (snd x) ++ content (outputBuffer_ (snd x)) = received (snd x)) (eq LengthError)
    (foldM (service_step EchoServer) (tt, c) ws).
Proof.
  eapply post_mono; [by apply (service_invariant false c EchoServer tt ws echo_inv); [| apply echo_fine| | |apply echo_step]|].
  intros [a' c'] (s & (Hst & Hin & Hacc) & Hs & Hr & _). simpl in *. subst s. split; [done|].
  rewrite <- Hr. unfold s_received. rewrite Hin, app_nil_r, <- Hacc. done.
Qed.

(** C32: The character generator: what it has accepted is a whole number of copies of
    its message, so the wire shows an unbroken repetition; at most one copy is
    held in the output buffer, however slow the reader; the counter of the
    throughput is that of the copies completed, the one being written left out. *)
Theorem chargen_correct (c : TcpConnection P) ws
  (Hmade : made true c) (Hrun : world_run ChargenServer (0, c) ws) :
  post (fun x => exists k, 
          wire (snd x) ++ content (outputBuffer_ (snd x)) = copies k /\
          zlen (content (outputBuffer_ (snd x))) <= zlen chargen_message /\
          content (inputBuffer_ (snd x)) = [] /\
          (state_ (snd x) = kConnected -> fst x = i64 ((Z.of_nat k - 1) * zlen chargen_message))) (eq LengthError)
    (foldM (service_step ChargenServer) (0, c) ws).
Proof.
  eapply post_mono; [apply (service_invariant true c ChargenServer 0 ws chargen_inv); [done|apply chargen_fine|done|by left|apply chargen_step]|].
  intros [a' c'] (s & Hinv & Hs & _). simpl in *. destruct Hinv as [[Hnew ->]|[k [Hst Hin Hacc Hb Hn Hd]]].
  - exists 0%nat. rewrite Hs in Hnew. injection Hnew as E1 E2 E3 E4 E5 E6. cbn [fst snd]. rewrite E4, E5.
    split_and!; [done|pose proof (zlen_nonneg chargen_message); znil; lia|done|congruence].
  - subst s. exists (S k). simpl in *. split_and!; [done|done|done|]. intros Hc.
    destruct Hd as [[_ ->]|(? & _)]; [|congruence]. f_equal. lia.
Qed.

(** The time and daytime servers: once the connection is up the answer is
    accepted whole, and the write side is shut exactly when it is all written;
    nothing else is ever sent. *)
Lemma answer_correct text svc (c : TcpConnection P) ws :
  answers_with text svc -> service_fine svc -> made false c -> world_run svc (tt, c) ws ->
  post (fun x => let c' := snd x in
          state_ c' = kConnecting /\ wire c' = [] \/
          wire c' ++ content (outputBuffer_ c') = text /\
          (state_ c' = kDisconnecting \/ state_ c' = kDisconnected) /\
          (state_ c' = kDisconnecting -> shut c' = bool_decide (wire c' = text))) (eq LengthError)
    (foldM (service_step svc) (tt, c) ws).
Proof.
  intros Ha Hf Hm Hr.
  eapply post_mono; [apply (service_invariant false c svc tt ws (answer_inv text)); [done|done|done|by left|]|].
  { intros a s a' s'. by apply answer_step. }
  intros [a' c'] (s & Hinv & Hs & _). simpl. destruct Hinv as [Hnew|[Hin Hacc Hst Hn Hsh]].
  - left. rewrite Hs in Hnew. injection Hnew as E1 E2 E3 E4 E5 E6. done.
  - right. subst s. simpl in *. split; [done|]. split; [done|]. intros E. rewrite (Hsh E).
    apply bool_decide_ext. rewrite <- Hacc. unfold s_accepted; simpl. split.
    + intros ->. by rewrite app_nil_r.
    + intros E'. rewrite <- (app_nil_r (wire c')) in E' at 1. by apply app_inv_head in E'.
Qed.

Theorem daytime_correct now (c : TcpConnection P) ws
  (Hmade : made false c) (Hrun : world_run (DaytimeServer now) (tt, c) ws) :
  post (fun x => let c' := snd x in let text := toFormattedString true now ++ [lf] in
          state_ c' = kConnecting /\ wire c' = [] \/
          wire c' ++ content (outputBuffer_ c') = text /\
          (state_ c' = kDisconnecting \/ state_ c' = kDisconnected) /\
          (state_ c' = kDisconnecting -> shut c' = bool_decide (wire c' = text))) (eq LengthError)
    (foldM (service_step (DaytimeServer now)) (tt, c) ws).
Proof. by apply answer_correct; [apply daytime_answers|apply daytime_fine|..]. Qed.

(** Four bytes of a time, read by the client's invariant. *)
Lemma client_reads now a s :
  client_inv a s -> s_received s `prefix_of` time_bytes now ->
  shown a = if 4 <=? zlen (s_received s) then [u32 now] else [].
Proof.
  intros [Ht Hv Hf _ _] [rest Hp]. pose proof (f_equal zlen Hp) as Hl. rewrite zlen_time_bytes, zlen_app in Hl.
  pose proof (zlen_nonneg rest). specialize (Hf ltac:(lia)). pose proof (zlen_nonneg (s_in s)).
  assert (Hw : zlen (s_taken s) = 4 * zlen (shown a)).
  { rewrite Ht. generalize (shown a). intros l. induction l as [|t l IH]; [done|].
    cbn [map concat]. rewrite zlen_app, zlen_cons, IH. unfold word. rewrite zlen_be_bytes. lia. }
  assert (Hr : zlen (s_received s) = 4 * zlen (shown a) + zlen (s_in s)) by (unfold s_received; rewrite zlen_app; lia).
  pose proof (zlen_nonneg (shown a)). destruct (Z.leb_spec 4 (zlen (s_received s))) as [H4|H4].
  - assert (Hone : zlen (shown a) = 1) by lia. destruct (shown a) as [|t [|t' l]] eqn:Esh.
    + change (zlen (@nil Z)) with 0 in Hone. lia.
    + assert (rest = []) as -> by (apply zlen_0_nil; lia). assert (Hin : s_in s = []) by (apply zlen_0_nil; lia).
      rewrite Forall_singleton in Hv. f_equal. rewrite app_nil_r in Hp. unfold s_received in Hp.
      rewrite Hin, app_nil_r, Ht in Hp. cbn [map concat] in Hp. rewrite app_nil_r, time_bytes_be in Hp.
      apply (f_equal be_value) in Hp. unfold word in Hp. rewrite !be_value_be_bytes in Hp.
      change (256 ^ Z.of_nat 4) with (2 ^ 32) in Hp. rewrite wrapU_wrapS in Hp by lia.
      rewrite (Z.mod_small t) in Hp by lia. rewrite <- Hp. unfold wrapU. by rewrite Z.mod_mod by lia.
    + rewrite !zlen_cons in Hone. pose proof (zlen_nonneg l). lia.
  - apply zlen_0_nil. lia.
Qed.

(** Time server and time client, each on its own loop: in any run of both, if what
    the client has received is a prefix of what the server has put on the wire,
    then the client has shown nothing until the fourth byte, and after it exactly
    one time, the server's clock (modulo 2^32), however the bytes were cut. *)
Theorem time_transfer now (sc cc : TcpConnection P) sws cws
  (Hsm : made false sc) (Hsr : world_run (TimeServer now) (tt, sc) sws)
  (Hcm : made false cc) (Hcr : world_run TimeClientService (mkTimeClient [] false, cc) cws) :
  post (fun xs => post (fun xc =>
      received (snd xc) `prefix_of` wire (snd xs) ->
      shown (fst xc) = (if 4 <=? zlen (received (snd xc)) then [u32 now] else []) /\
      quit (fst xc) = bool_decide (state_ (snd xc) = kDisconnected))
    (eq LengthError) (foldM (service_step TimeClientService) (mkTimeClient [] false, cc) cws))
  (eq LengthError) (foldM (service_step (TimeServer now)) (tt, sc) sws).
Proof.
  eapply post_mono; [exact (answer_correct (time_bytes now) _ sc sws (time_answers now) (time_fine now) Hsm Hsr)|].
  intros [u sc'] Hs. cbn [snd] in Hs.
  eapply post_mono; [apply (service_invariant false cc TimeClientService _ cws client_inv Hcm timeclient_fine Hcr); [|apply client_step]|].
  - by constructor.
  - intros [a cc'] (s & Hinv & Hshow & Hrecv & _) Hp. cbn [fst snd] in *. rewrite <- Hrecv in *. split.
    + apply client_reads; [done|]. destruct Hs as [[_ Hw]|[Hw _]].
      * rewrite Hw in Hp. etrans; [exact Hp|]. by exists (time_bytes now).
      * etrans; [exact Hp|]. by exists (content (outputBuffer_ sc')).
    + rewrite (tc_quit _ _ Hinv), Hshow. done.
Qed.

(** A connection without callbacks of its user, whatever the peer sends: the input is
    empty after each event, nothing was sent, and the log says UP once it is
    established and DOWN once it is closed. *)
Theorem default_callbacks localAddr peerAddr (c : TcpConnection P) ws
  (Hmade : made false c) (Hrun : world_run (DefaultService localAddr peerAddr) ([], c) ws) :
  post (fun x => default_inv localAddr peerAddr (fst x) (stream_of (snd x))) (eq LengthError)
    (foldM (service_step (DefaultService localAddr peerAddr)) ([], c) ws).
Proof.
  eapply post_mono; [apply (service_invariant false c _ [] ws (default_inv localAddr peerAddr) Hmade (default_fine _ _) Hrun)|].
  - done.
  - apply default_step.
  - intros [a c'] (s & Hi & -> & _). exact Hi.
Qed.
End connections.

(** ** Concrete runs, on the epoll poller *)
Module Sample.
Import EPollPoller.
Abbreviation EConn := (TcpConnection EPollPoller).

Definition start (wc : bool) : outcome EConn := newTcpConnection Loop.newEventLoop 1000 7 wc false.

Lemma start_made wc c : start wc = Ok c -> made wc c.
Proof.
  intros Hc. exists [], ∅, Loop.newEventLoop, 1000, 7.
  repeat split; [constructor|done..|unfold fd_limit; lia|apply empty_free|done].
Qed.

(** The peer sends [data]. *)
Definition delivers (data : bytes) (room : Z) : io_result := IoBytes (ztake room data).

Lemma delivers_fits data : readv_fits (delivers data).
Proof.
  intros room d Hr [= <-]. unfold zlen, ztake. rewrite length_take. lia.
Qed.

(** [world_ok], evaluated; what a read delivers is one of the samples. *)
Definition answer_okb (answer : write_answer) : bool :=
  match answer with Wrote _ => true | WriteFails e => negb (e =? EPIPE) && negb (e =? ECONNRESET) end.

Inductive sample := SUp (answer : write_answer) | SRead (data : bytes) (answer : write_answer)
| SWrite (answer : write_answer) | SClose | SRun (answer : write_answer).

Definition world_of (w : sample) : world :=
  match w with
  | SUp answer => WUp answer
  | SRead data answer => WRead (delivers data) answer
  | SWrite answer => WWrite answer
  | SClose => WClose
  | SRun answer => WRun answer
  end.

Definition sample_okb (c : EConn) (w : sample) : bool :=
  match w with
  | SUp answer => bool_decide (state_ c = kConnecting) && answer_okb answer
  | SRead _ answer => is_open c && answer_okb answer
  | SClose => is_open c
  | SRun answer => negb (bool_decide (state_ c = kConnecting)) && answer_okb answer
  | SWrite _ => true
  end.

Fixpoint sample_run {A} (svc : Service A) (x : A * EConn) (ws : list sample) : outcome (bool * (A * EConn)) :=
  match ws with
  | [] => Ok (true, x)
  | w :: ws =>
      x' ← service_step svc x (world_of w);
      '(b, y) ← sample_run svc x' ws;
      Ok (sample_okb (snd x) w && b, y)
  end.

Lemma answer_okb_ok answer : answer_okb answer = true -> answer_ok answer.
Proof. destruct answer; simpl; [done|]. rewrite andb_true_iff, !negb_true_iff, !Z.eqb_neq. done. Qed.

Lemma sample_okb_ok c w : sample_okb c w = true -> world_ok c (world_of w).
Proof.
  destruct w; cbn [sample_okb world_ok world_of]; rewrite ?andb_true_iff, ?negb_true_iff, ?bool_decide_eq_true, ?bool_decide_eq_false.
  - intros [? ?%answer_okb_ok]. done.
  - intros [? ?%answer_okb_ok]. split_and!; [done|apply delivers_fits|done].
  - done.
  - done.
  - intros [? ?%answer_okb_ok]. done.
Qed.

Lemma sample_run_ok {A} (svc : Service A) x ws y :
  sample_run svc x ws = Ok (true, y) ->
  world_run svc x (map world_of ws) /\ foldM (service_step svc) x (map world_of ws) = Ok y.
Proof.
  revert x. induction ws as [|w ws IH]; intros x H; cbn [sample_run map foldM world_run] in *.
  - by injection H as ->.
  - apply outcome_bind_ok in H as (x' & Hx & H). apply outcome_bind_ok in H as ([b y'] & Hy & H).
    injection H as Hb ->. apply andb_true_iff in Hb as [Hw ->].
    destruct (IH x' Hy) as [H1 H2]. split; [split; [by apply sample_okb_ok|]|].
    + intros x'' E. rewrite Hx in E. by injection E as <-.
    + by rewrite Hx.
Qed.

(** Two messages; the kernel takes two bytes of the first answer, then is full,
    then takes the rest. *)
Definition echo_run : list sample :=
  [SUp (Wrote 0); SRead (lit "hello") (Wrote 2); SRead (lit " world") (WriteFails EWOULDBLOCK); SWrite (Wrote 4)].

Lemma echo_correct_witness :
  exists (c : EConn) x, start false = Ok c /\ foldM (service_step EchoServer) (tt, c) (map world_of echo_run) = Ok x /\
    wire (snd x) = lit "hello " /\ received (snd x) = lit "hello world" /\
    wire (snd x) ++ content (outputBuffer_ (snd x)) = received (snd x).
Proof.
  assert (Hp : (c ← start false; (fun '(b, x) => (b, wire (snd x), received (snd x))) <$> sample_run EchoServer (tt, c) echo_run)
    = Ok (true, lit "hello ", lit "hello world")) by (vm_compute; reflexivity).
  destruct (start false) as [c|] eqn:E0; [|discriminate Hp]. cbn [mbind outcome_bind] in Hp.
  destruct (sample_run EchoServer (tt, c) echo_run) as [[b x]|] eqn:E; [|discriminate Hp].
  simpl in Hp. injection Hp as -> H1 H2. apply sample_run_ok in E as [Hr Hf].
  exists c, x. split; [done|]. split; [done|]. split; [done|]. split; [done|].
  pose proof (echo_correct c (map world_of echo_run) (start_made _ _ E0) Hr) as H. rewrite Hf in H. by destruct H.
Defined.

(** A message discarded. *)
Lemma service_run_witness :
  exists (c : EConn) x s, start false = Ok c /\
    foldM (service_step DiscardServer) (tt, c) (map world_of [SUp (Wrote 0); SRead (lit "abc") (Wrote 0)]) = Ok x /\
    stream_steps DiscardServer (tt, new_stream false) (fst x, s) /\ shows (snd x) s /\ s_taken s = lit "abc".
Proof.
  assert (Hp : (c ← start false; (fun '(b, x) => (b, taken (snd x))) <$>
      sample_run DiscardServer (tt, c) [SUp (Wrote 0); SRead (lit "abc") (Wrote 0)]) = Ok (true, lit "abc"))
    by (vm_compute; reflexivity).
  destruct (start false) as [c|] eqn:E0; [|discriminate Hp]. cbn [mbind outcome_bind] in Hp.
  destruct (sample_run DiscardServer (tt, c) _) as [[b x]|] eqn:E; [|discriminate Hp].
  simpl in Hp. injection Hp as -> H1. apply sample_run_ok in E as [Hr Hf].
  pose proof (service_run false c DiscardServer tt _ (start_made _ _ E0) discard_fine Hr) as H. rewrite Hf in H.
  destruct H as (s & Hs & Hsh). exists c, x, s. split_and!; try done. destruct Hsh as [-> _]. exact H1.
Defined.

(** The reader stops after 100 bytes, later takes the rest of the first copy. *)
Definition chargen_run : list sample := [SUp (Wrote 100); SWrite (Wrote 10000); SRun (Wrote 200)].

Lemma chargen_correct_witness :
  exists (c : EConn) x k, start true = Ok c /\
    foldM (service_step ChargenServer) (0, c) (map world_of chargen_run) = Ok x /\
    zlen (wire (snd x)) = 7062 /\ fst x = 6862 /\
    wire (snd x) ++ content (outputBuffer_ (snd x)) = copies k.
Proof.
  assert (Hp : (c ← start true; (fun '(b, x) => (b, zlen (wire (snd x)), fst x)) <$> sample_run ChargenServer (0, c) chargen_run)
    = Ok (true, 7062, 6862)) by (vm_compute; reflexivity).
  destruct (start true) as [c|] eqn:E0; [|discriminate Hp]. cbn [mbind outcome_bind] in Hp.
  destruct (sample_run ChargenServer (0, c) chargen_run) as [[b x]|] eqn:E; [|discriminate Hp].
  simpl in Hp. injection Hp as -> H1 H2. apply sample_run_ok in E as [Hr Hf].
  pose proof (chargen_correct c (map world_of chargen_run) (start_made _ _ E0) Hr) as H. rewrite Hf in H.
  destruct H as (k & H & _). exists c, x, k. done.
Defined.

(** The server's clock is 1700000000; the client gets one byte, then three. *)
Definition time_server_run : list sample := [SUp (Wrote 3); SWrite (Wrote 1)].
Definition time_client_run : list sample :=
  [SUp (Wrote 0); SRead (ztake 1 (time_bytes 1700000000)) (Wrote 0); SRead (zdrop 1 (time_bytes 1700000000)) (Wrote 0); SClose].

Lemma time_transfer_witness :
  exists (c : EConn) xs xc, start false = Ok c /\
    foldM (service_step (TimeServer 1700000000)) (tt, c) (map world_of time_server_run) = Ok xs /\
    foldM (service_step TimeClientService) (mkTimeClient [] false, c) (map world_of time_client_run) = Ok xc /\
    shut (snd xs) = true /\ received (snd xc) = wire (snd xs) /\ shown (fst xc) = [1700000000].
Proof.
  assert (Hp : (c ← start false;
      s ← (fun '(b, x) => (b, shut (snd x), wire (snd x))) <$> sample_run (TimeServer 1700000000) (tt, c) time_server_run;
      k ← (fun '(b, x) => (b, received (snd x))) <$> sample_run TimeClientService (mkTimeClient [] false, c) time_client_run;
      Ok (s, k)) = Ok ((true, true, time_bytes 1700000000), (true, time_bytes 1700000000))) by (vm_compute; reflexivity).
  destruct (start false) as [c|] eqn:E0; [|discriminate Hp]. cbn [mbind outcome_bind] in Hp.
  destruct (sample_run (TimeServer _) (tt, c) time_server_run) as [[b xs]|] eqn:E1; [|discriminate Hp].
  cbn [fmap outcome_fmap mbind outcome_bind] in Hp.
  destruct (sample_run TimeClientService _ time_client_run) as [[b' xc]|] eqn:E2; [|discriminate Hp].
  cbn [fmap outcome_fmap mbind outcome_bind] in Hp. injection Hp as -> H1 H2 -> H3.
  apply sample_run_ok in E1 as [Hr1 Hf1]. apply sample_run_ok in E2 as [Hr2 Hf2].
  pose proof (time_transfer 1700000000 c c _ _ (start_made _ _ E0) Hr1 (start_made _ _ E0) Hr2) as H.
  rewrite Hf1 in H. cbn [post] in H. rewrite Hf2 in H. cbn [post] in H.
  exists c, xs, xc. split; [done|]. split; [done|]. split; [done|]. split; [done|]. split; [congruence|].
  destruct H as [-> _]; [by rewrite H2, H3|]. by rewrite H3.
Defined.
End Sample.
