(* ===== verification/Thread.v ===== *)
(** * Thread: base/Thread, base/CurrentThread, base/Exception

    Module [CurrentThread] holds the thread-local variables with the cached thread
    id and the text of a stack trace.  Module [Thread] is the life of threads: the
    actions of the thread that owns a Thread object (constructor, start, join,
    destructor), and those of the thread started (runInThread, one action for each
    access to shared memory, and startThread), over a heap of Thread and ThreadData
    objects.  The latch is that of Queues.v, each of its methods one critical
    section.  The system's answers (pthread_create, gettid) and what the function
    of a thread does (return or throw) are arguments of the actions, so a list of
    actions is an interleaving of any number of threads.  Threads are numbered;
    a pthread_t is such a number.

    Theorems: in every interleaving, if the owner respects the protocol of the
    class, no assertion fails and neither the Thread object nor the ThreadData is
    used after its destruction, although the object may be destroyed as soon as
    start() has returned; after start() the thread id is known; every function
    runs once, in its own thread; join returns only after the function has; no
    ThreadData is leaked; start() always returns. *)

From S2P Require Import Prelude Format Timestamp Monitor Queues Rpc.

Module CurrentThread.
(** [const char*]: a literal, or the [name_.c_str()] of a ThreadData. *)
Inductive cname := Static (s : bytes) | DataName (data : Z).

(** The thread-local variables, as a thread finds them. *)
Record TLS := mkTLS {
  t_cachedTid : Z;
  t_tidString : bytes;
  t_tidStringLength : Z;
  t_threadName : cname;
}.

Definition newTLS : TLS := mkTLS 0 [] 6 (Static (lit "unknown")).

Definition set_name (n : cname) (v : TLS) : TLS :=
  mkTLS (t_cachedTid v) (t_tidString v) (t_tidStringLength v) n.

(** [gettid] is the answer of the system call. *)
Definition cacheTid (gettid : Z) (v : TLS) : TLS :=
  if t_cachedTid v =? 0 then
    let s := fmt_int false 5 gettid ++ lit " " in
    mkTLS gettid (snprintf 32 s) (zlen s) (t_threadName v)
  else v.

Definition tid (gettid : Z) (v : TLS) : Z * TLS :=
  let v := if t_cachedTid v =? 0 then cacheTid gettid v else v in (t_cachedTid v, v).

Definition isMainThread (gettid getpid : Z) (v : TLS) : bool * TLS :=
  let '(t, v) := tid gettid v in (t =? getpid, v).

(** In the child of a fork, before anything else runs in it. *)
Definition afterFork (gettid : Z) (v : TLS) : TLS :=
  let v := mkTLS 0 (t_tidString v) (t_tidStringLength v) (Static (lit "main")) in
  snd (tid gettid v).

(** The constructor of the static object [init]. *)
Definition ThreadNameInitializer (gettid : Z) (v : TLS) : TLS :=
  snd (tid gettid (set_name (Static (lit "main")) v)).

(** The timespec given to nanosleep. *)
Definition sleepUsec (usec : Z) : Z * Z :=
  (Z.quot usec kMicroSecondsPerSecond, Z.rem usec kMicroSecondsPerSecond * 1000).

(** ** stackTrace: [demangle] is the answer of [__cxa_demangle] for a name *)
Fixpoint find_last (c : ascii) (l : bytes) : option Z :=
  match l with
  | [] => None
  | x :: l' =>
      match find_last c l' with
      | Some i => Some (i + 1)
      | None => if ceqb x c then Some 0 else None
      end
  end.

(** The C string at [left_par + 1] while [*plus] is NUL. *)
Definition mangled (frame : bytes) (left_par plus : Z) : bytes :=
  if left_par <? plus then zslice (left_par + 1) plus frame else zdrop (left_par + 1) frame.

Definition frame_text (demangle : option (bytes -> option bytes)) (frame : bytes) : bytes :=
  match demangle, find_last "("%char frame, find_last "+"%char frame with
  | Some f, Some left_par, Some plus =>
      match f (mangled frame left_par plus) with
      | Some ret => ztake (left_par + 1) frame ++ ret ++ zdrop plus frame ++ [lf]
      | None => frame ++ [lf]
      end
  | _, _, _ => frame ++ [lf]
  end.

(** [frames] is what backtrace_symbols answers, innermost first, or nothing; the
    backtrace has at most 200 frames. *)
Definition stackTrace (demangle : option (bytes -> option bytes)) (frames : option (list bytes)) : bytes :=
  match frames with
  | Some l => concat (map (frame_text demangle) (drop 1 (take 200 l)))
  | None => []
  end.

(** ** base/Exception *)
Record Exception := mkException { message_ : bytes; stack_ : bytes }.
Definition newException (msg : bytes) (frames : option (list bytes)) : Exception :=
  mkException msg (stackTrace None frames).

(** ** The cached id is the thread's own *)
Lemma tid_string g v : t_cachedTid v = 0 -> 0 < g < 2 ^ 31 ->
  t_cachedTid (cacheTid g v) = g /\ t_tidString (cacheTid g v) = fmt_int false 5 g ++ lit " " /\
  t_tidStringLength (cacheTid g v) = zlen (t_tidString (cacheTid g v)) /\ 6 <= t_tidStringLength (cacheTid g v) <= 11.
Proof.
  intros E Hg. unfold cacheTid. rewrite E, Z.eqb_refl. cbn [t_cachedTid t_tidString t_tidStringLength].
  assert (Hl : 5 <= zlen (fmt_int false 5 g) <= 10).
  { unfold fmt_int. rewrite (proj2 (Z.ltb_ge g 0)) by lia. rewrite Z.abs_eq by lia. unfold dec.
    rewrite (proj2 (Z.ltb_ge g 0)) by lia. znil. simpl app. rewrite zlen_app. unfold zlen at 1 4. rewrite length_replicate.
    pose proof (dec_nonneg_length g 10 ltac:(lia) ltac:(lia) ltac:(lia)). lia. }
  unfold snprintf. assert (Hs : zlen (fmt_int false 5 g ++ lit " ") = zlen (fmt_int false 5 g) + 1) by (by rewrite zlen_app).
  rewrite ztake_all by lia. split_and!; try done; lia.
Qed.

Lemma tid_own g v : g <> 0 -> t_cachedTid v = 0 \/ t_cachedTid v = g ->
  fst (tid g v) = g /\ t_cachedTid (snd (tid g v)) = g /\ tid g (snd (tid g v)) = tid g v.
Proof.
  intros Hg Hv. pose proof (proj2 (Z.eqb_neq g 0) Hg) as Hn. unfold tid, cacheTid.
  destruct Hv as [E|E]; rewrite E; [|rewrite Hn]; cbn [Z.eqb fst snd t_cachedTid]; rewrite ?E, ?Hn, ?E; done.
Qed.

(** In the child of a fork the id of the parent is forgotten. *)
Lemma afterFork_own g v : t_cachedTid (afterFork g v) = g /\ t_threadName (afterFork g v) = Static (lit "main").
Proof. done. Qed.

(** A sleep of nanosleep's precision: the two parts make up the time asked for. *)
Lemma sleepUsec_exact usec : 0 <= usec ->
  let '(sec, nsec) := sleepUsec usec in
  sec * 10 ^ 9 + nsec = usec * 1000 /\ 0 <= sec /\ 0 <= nsec < 10 ^ 9.
Proof.
  intros H. unfold sleepUsec, kMicroSecondsPerSecond. pose proof (Z.quot_rem' usec (1000 * 1000)).
  pose proof (Z.rem_bound_pos usec (1000 * 1000) H ltac:(lia)). pose proof (Z.quot_pos usec (1000 * 1000) H ltac:(lia)). lia.
Qed.

(** A frame "file(symbol+offset) [address]" gets its symbol replaced. *)
Lemma find_last_app c l1 l2 : c ∉ l2 -> find_last c (l1 ++ c :: l2) = Some (zlen l1).
Proof.
  intros Hn. assert (H0 : find_last c l2 = None).
  { induction l2 as [|x l2 IH]; [done|]. simpl. rewrite IH by set_solver.
    destruct (ceqb x c) eqn:E; [apply ceqb_eq in E; set_solver|done]. }
  induction l1 as [|x l1 IH]; simpl.
  - rewrite H0. by rewrite (proj2 (ceqb_eq c c)).
  - rewrite IH, zlen_cons. f_equal. lia.
Qed.

Lemma frame_demangled f file symbol ret offset :
  "("%char ∉ symbol -> "("%char ∉ offset -> "+"%char ∉ offset -> f symbol = Some ret ->
  frame_text (Some f) (file ++ "("%char :: symbol ++ "+"%char :: offset) = file ++ "("%char :: ret ++ "+"%char :: offset ++ [lf].
Proof.
  intros H1 H2 H3 Hf. unfold frame_text. rewrite find_last_app by set_solver.
  replace (file ++ "("%char :: symbol ++ "+"%char :: offset) with ((file ++ "("%char :: symbol) ++ "+"%char :: offset)
    by (rewrite <- app_assoc; done).
  rewrite find_last_app by done. unfold mangled. rewrite zlen_app, zlen_cons. pose proof (zlen_nonneg symbol).
  rewrite (proj2 (Z.ltb_lt _ _)) by lia. unfold zslice.
  rewrite <- app_assoc. simpl. rewrite zdrop_app_cons, ztake_app_exact by lia. rewrite Hf.
  replace (file ++ "("%char :: symbol ++ "+"%char :: offset) with ((file ++ ["("%char]) ++ symbol ++ "+"%char :: offset)
    by (rewrite <- app_assoc; done).
  rewrite ztake_app_exact by (rewrite zlen_app; done).
  rewrite (app_assoc (file ++ ["("%char]) symbol), zdrop_app_exact by (rewrite !zlen_app; change (zlen ["("%char]) with 1; lia).
  rewrite <- app_assoc. done.
Qed.
End CurrentThread.

Module Thread.
Import CurrentThread.

(** A function object is the number of its code; [latch_] has count 1. *)
Record Thread := mkThread {
  started_ : bool;
  joined_ : bool;
  pthreadId_ : Z;
  tid_ : Z;
  func_ : Z;
  name_ : bytes;
  latch_ : CountDownLatch.Data;
}.

(** detail::ThreadData: [d_tid], [d_latch] are pointers into the Thread object. *)
Record ThreadData := mkData {
  d_func : Z;
  d_name : bytes;
  d_tid : option Z;
  d_latch : option Z;
}.

(** Where a started thread stands in startThread. *)
Inductive phase :=
| Entered          (* before the write of *tid_ *)
| TidWritten       (* before latch_->countDown() *)
| CountedDown      (* before the name is set and func_ called *)
| Running          (* in func_() *)
| Returned         (* before delete data *)
| Exited.

#[export] Instance phase_eq_dec : EqDecision phase.
Proof. solve_decision. Defined.

Record pthread := mkPthread {
  p_gettid : Z;
  p_tls : TLS;
  p_data : Z;
  p_phase : phase;
  p_detached : bool;
  p_joined : bool;      (* pthread_join was called for it *)
}.

Record World := mkWorld {
  threads : gmap Z Thread;
  datas : gmap Z ThreadData;
  pthreads : gmap Z pthread;
  numCreated_ : Z;
  starting : gset Z;        (* objects whose start() waits on the latch *)
  joining : gset Z;         (* threads some caller of join waits for *)
  joins : list Z;           (* history: threads for which join returned *)
  ran : list (Z * Z);       (* history: thread, function it called *)
}.

Definition newWorld : World := mkWorld ∅ ∅ ∅ 0 ∅ ∅ [] [].

Definition set_threads x w := mkWorld x (datas w) (pthreads w) (numCreated_ w) (starting w) (joining w) (joins w) (ran w).
Definition set_datas x w := mkWorld (threads w) x (pthreads w) (numCreated_ w) (starting w) (joining w) (joins w) (ran w).
Definition set_pthreads x w := mkWorld (threads w) (datas w) x (numCreated_ w) (starting w) (joining w) (joins w) (ran w).
Definition set_created x w := mkWorld (threads w) (datas w) (pthreads w) x (starting w) (joining w) (joins w) (ran w).
Definition set_starting x w := mkWorld (threads w) (datas w) (pthreads w) (numCreated_ w) x (joining w) (joins w) (ran w).
Definition set_joining x j w := mkWorld (threads w) (datas w) (pthreads w) (numCreated_ w) (starting w) x j (ran w).
Definition set_ran x w := mkWorld (threads w) (datas w) (pthreads w) (numCreated_ w) (starting w) (joining w) (joins w) x.

(** Dereferencing a pointer to an object that is not alive. *)
Definition object (w : World) (obj : Z) : outcome Thread := get_or UndefinedBehaviour (threads w !! obj).
Definition data_of (w : World) (data : Z) : outcome ThreadData := get_or UndefinedBehaviour (datas w !! data).

(** ** The thread that owns the object *)
Definition setDefaultName (num : Z) (n : bytes) : outcome (bytes * Z) :=
  '(num, value) ← incrementAndGet 32 num;
  Ok (match n with [] => snprintf 32 (lit "Thread" ++ dec num) | _ => n end, value).

Definition newThread (obj func : Z) (n : bytes) (w : World) : outcome World :=
  '(name, num) ← setDefaultName (numCreated_ w) n;
  let t := mkThread false false 0 0 func name (CountDownLatch.newCountDownLatch 1) in
  Ok (set_created num (set_threads (<[obj := t]> (threads w)) w)).

(** start() up to latch_.wait(): [data] is the address [new] answers, [created] the
    new thread and its kernel id, or the failure of pthread_create.  In that case
    LOG_SYSFATAL ends the process. *)
Definition start (obj data : Z) (created : option (Z * Z)) (w : World) : outcome World :=
  t ← object w obj;
  c_assert (negb (started_ t));;
  match created with
  | None => Fault FatalLog
  | Some (p, gettid) =>
      let t := mkThread true (joined_ t) p (tid_ t) (func_ t) (name_ t) (latch_ t) in
      let d := mkData (func_ t) (name_ t) (Some obj) (Some obj) in
      let w := set_threads (<[obj := t]> (threads w)) w in
      let w := set_datas (<[data := d]> (datas w)) w in
      let w := set_pthreads (<[p := mkPthread gettid newTLS data Entered false false]> (pthreads w)) w in
      Ok (set_starting ({[obj]} ∪ starting w) w)
  end.

(** start(): a test of latch_.wait(), and what follows it. *)
Definition start_wait (obj : Z) (w : World) : outcome World :=
  if bool_decide (obj ∈ starting w) then
    t ← object w obj;
    match CountDownLatch.wait (latch_ t) with
    | Block _ => Ok w
    | Crash e => Fault e
    | Return _ _ _ =>
        c_assert (0 <? tid_ t);;
        Ok (set_starting (starting w ∖ {[obj]}) w)
    end
  else Ok w.

(** join() up to the wait of pthread_join, which must not be called for a thread
    that was detached or joined before. *)
Definition join (obj : Z) (w : World) : outcome World :=
  t ← object w obj;
  c_assert (started_ t);;
  c_assert (negb (joined_ t));;
  let t := mkThread (started_ t) true (pthreadId_ t) (tid_ t) (func_ t) (name_ t) (latch_ t) in
  pt ← get_or UndefinedBehaviour (pthreads w !! pthreadId_ t);
  if p_detached pt || p_joined pt then Fault UndefinedBehaviour
  else
    let pt := mkPthread (p_gettid pt) (p_tls pt) (p_data pt) (p_phase pt) (p_detached pt) true in
    let w := set_threads (<[obj := t]> (threads w)) w in
    let w := set_pthreads (<[pthreadId_ t := pt]> (pthreads w)) w in
    Ok (set_joining ({[pthreadId_ t]} ∪ joining w) (joins w) w).

(** pthread_join returns once the thread has exited. *)
Definition join_wait (p : Z) (w : World) : outcome World :=
  match pthreads w !! p with
  | Some pt =>
      if bool_decide (p ∈ joining w /\ p_phase pt = Exited) then
        Ok (set_joining (joining w ∖ {[p]}) (joins w ++ [p]) w)
      else Ok w
  | None => Ok w
  end.

Definition destroyThread (obj : Z) (w : World) : outcome World :=
  t ← object w obj;
  let w' := set_threads (delete obj (threads w)) w in
  if started_ t && negb (joined_ t) then
    pt ← get_or UndefinedBehaviour (pthreads w !! pthreadId_ t);
    if p_detached pt || p_joined pt then Fault UndefinedBehaviour
    else
      let pt := mkPthread (p_gettid pt) (p_tls pt) (p_data pt) (p_phase pt) true (p_joined pt) in
      Ok (set_pthreads (<[pthreadId_ t := pt]> (pthreads w)) w')
  else Ok w'.

(** ** The thread started: runInThread and startThread *)
Inductive ending := Returns | ThrowsException | ThrowsStdException | ThrowsOther.

Definition at_phase (v : TLS) (ph : phase) (pt : pthread) : pthread :=
  mkPthread (p_gettid pt) v (p_data pt) ph (p_detached pt) (p_joined pt).

Definition go (p : Z) (v : TLS) (ph : phase) (pt : pthread) (w : World) : World :=
  set_pthreads (<[p := at_phase v ph pt]> (pthreads w)) w.

Definition write_tid (p : Z) (pt : pthread) (w : World) : outcome World :=
  d ← data_of w (p_data pt);
  obj ← get_or UndefinedBehaviour (d_tid d);
  t ← object w obj;
  let '(id, v) := tid (p_gettid pt) (p_tls pt) in
  let t := mkThread (started_ t) (joined_ t) (pthreadId_ t) id (func_ t) (name_ t) (latch_ t) in
  let w := set_threads (<[obj := t]> (threads w)) w in
  let w := set_datas (<[p_data pt := mkData (d_func d) (d_name d) None (d_latch d)]> (datas w)) w in
  Ok (go p v TidWritten pt w).

Definition count_down (p : Z) (pt : pthread) (w : World) : outcome World :=
  d ← data_of w (p_data pt);
  obj ← get_or UndefinedBehaviour (d_latch d);
  t ← object w obj;
  match CountDownLatch.countDown (latch_ t) with
  | Return latch _ _ =>
      let t := mkThread (started_ t) (joined_ t) (pthreadId_ t) (tid_ t) (func_ t) (name_ t) latch in
      let w := set_threads (<[obj := t]> (threads w)) w in
      let w := set_datas (<[p_data pt := mkData (d_func d) (d_name d) (d_tid d) None]> (datas w)) w in
      Ok (go p (p_tls pt) CountedDown pt w)
  | Block _ => Ok w
  | Crash e => Fault e
  end.

Definition call_func (p : Z) (pt : pthread) (w : World) : outcome World :=
  d ← data_of w (p_data pt);
  let n := match d_name d with [] => Static (lit "muduoThread") | _ => DataName (p_data pt) end in
  Ok (go p (set_name n (p_tls pt)) Running pt (set_ran (ran w ++ [(p, d_func d)]) w)).

(** A thrown exception ends the process: two handlers call abort(), the third
    rethrows out of the thread, which calls terminate. *)
Definition end_func (e : ending) (p : Z) (pt : pthread) (w : World) : outcome World :=
  match e with
  | Returns => Ok (go p (set_name (Static (lit "finished")) (p_tls pt)) Returned pt w)
  | ThrowsException | ThrowsStdException | ThrowsOther => Fault Aborted
  end.

Definition delete_data (p : Z) (pt : pthread) (w : World) : outcome World :=
  data_of w (p_data pt);;
  Ok (go p (p_tls pt) Exited pt (set_datas (delete (p_data pt) (datas w)) w)).

Definition startThread (p : Z) (e : ending) (w : World) : outcome World :=
  match pthreads w !! p with
  | None => Ok w
  | Some pt =>
      match p_phase pt with
      | Entered => write_tid p pt w
      | TidWritten => count_down p pt w
      | CountedDown => call_func p pt w
      | Running => end_func e p pt w
      | Returned => delete_data p pt w
      | Exited => Ok w
      end
  end.

(** CurrentThread::name() in thread [pt]. *)
Definition current_name (w : World) (pt : pthread) : outcome bytes :=
  match t_threadName (p_tls pt) with
  | Static s => Ok s
  | DataName data => d ← data_of w data; Ok (d_name d)
  end.

(** ** Interleavings *)
Inductive action :=
| Construct (obj func : Z) (n : bytes)
| Start (obj data : Z) (created : option (Z * Z))
| StartWait (obj : Z)
| Join (obj : Z)
| JoinWait (p : Z)
| Destroy (obj : Z)
| Child (p : Z) (e : ending).

Definition step (w : World) (a : action) : outcome World :=
  match a with
  | Construct obj func n => newThread obj func n w
  | Start obj data created => start obj data created w
  | StartWait obj => start_wait obj w
  | Join obj => join obj w
  | JoinWait p => join_wait p w
  | Destroy obj => destroyThread obj w
  | Child p e => startThread p e w
  end.

Definition absent {A} (m : gmap Z A) (k : Z) : bool := match m !! k with Some _ => false | None => true end.

(** The protocol of the class: objects are constructed at unused addresses, fewer
    than 2^31 of them; start() is called once, join() at most once and after
    start() has returned, and the object is not destroyed during start().  The
    system gives unused addresses and new threads with positive ids. *)
Definition allowed (w : World) (a : action) : bool :=
  match a with
  | Construct obj _ _ => absent (threads w) obj && (numCreated_ w <? 2 ^ 31 - 1)
  | Start obj data created =>
      match threads w !! obj with
      | Some t => negb (started_ t) && absent (datas w) data &&
          match created with
          | Some (p, gettid) => absent (pthreads w) p && (0 <? gettid) && (gettid <? 2 ^ 31)
          | None => true
          end
      | None => false
      end
  | Join obj =>
      match threads w !! obj with
      | Some t => started_ t && negb (joined_ t) && negb (bool_decide (obj ∈ starting w))
      | None => false
      end
  | Destroy obj => negb (absent (threads w) obj) && negb (bool_decide (obj ∈ starting w))
  | StartWait _ | JoinWait _ | Child _ _ => true
  end.

Fixpoint proper (w : World) (l : list action) : bool :=
  match l with
  | [] => true
  | a :: l' => allowed w a && match step w a with Ok w' => proper w' l' | Fault _ => true end
  end.

(** The faults the environment asks for. *)
Definition excuse (a : action) (e : fault) : Prop :=
  match a with
  | Start _ _ None => e = FatalLog
  | Child _ (ThrowsException | ThrowsStdException | ThrowsOther) => e = Aborted
  | _ => False
  end.

(** ** Invariant *)
Definition early (ph : phase) : bool := match ph with Entered | TidWritten => true | _ => false end.
Definition called (ph : phase) : bool := match ph with Running | Returned | Exited => true | _ => false end.

(** A started object and its thread. *)
Record runs (w : World) (obj : Z) (t : Thread) (pt : pthread) : Prop := {
  rn_latch : CountDownLatch.count_ (latch_ t) = (if early (p_phase pt) then 1 else 0);
  rn_tid : p_phase pt <> Entered -> tid_ t = p_gettid pt;
  rn_early : early (p_phase pt) = true -> obj ∈ starting w;
  rn_joined : joined_ t = p_joined pt;
  rn_attached : p_detached pt = false;
  rn_func : if called (p_phase pt) then (pthreadId_ t, func_ t) ∈ ran w
            else exists d, datas w !! p_data pt = Some d /\ d_func d = func_ t;
}.

Definition object_ok (w : World) (obj : Z) (t : Thread) : Prop :=
  if started_ t then exists pt, pthreads w !! pthreadId_ t = Some pt /\ runs w obj t pt
  else CountDownLatch.count_ (latch_ t) = 1 /\ joined_ t = false /\ obj ∉ starting w.

(** A thread of the process and its ThreadData. *)
Definition points (w : World) (p : Z) (ptr : option Z) : Prop :=
  exists obj t, ptr = Some obj /\ threads w !! obj = Some t /\ started_ t = true /\ pthreadId_ t = p.

Record thread_ok (w : World) (p : Z) (pt : pthread) : Prop := {
  th_pos : 0 < p_gettid pt;
  th_data : p_phase pt <> Exited -> exists d, datas w !! p_data pt = Some d /\
    (p_phase pt = Entered -> points w p (d_tid d)) /\ (early (p_phase pt) = true -> points w p (d_latch d));
  th_fresh : p_phase pt = Entered -> t_cachedTid (p_tls pt) = 0;
  th_name : forall a, t_threadName (p_tls pt) = DataName a -> a = p_data pt /\ p_phase pt = Running;
  th_ran : called (p_phase pt) = true <-> p ∈ (ran w).*1;
}.

Record winv (w : World) : Prop := {
  wi_num : 0 <= numCreated_ w < 2 ^ 31;
  wi_objects : forall obj t, threads w !! obj = Some t -> object_ok w obj t;
  wi_threads : forall p pt, pthreads w !! p = Some pt -> thread_ok w p pt;
  wi_own : forall o1 o2 t1 t2, threads w !! o1 = Some t1 -> threads w !! o2 = Some t2 ->
    started_ t1 = true -> started_ t2 = true -> pthreadId_ t1 = pthreadId_ t2 -> o1 = o2;
  wi_datas : forall p q pt qt, pthreads w !! p = Some pt -> pthreads w !! q = Some qt ->
    p_phase pt <> Exited -> p_phase qt <> Exited -> p_data pt = p_data qt -> p = q;
  wi_leak : forall a d, datas w !! a = Some d -> exists p pt, pthreads w !! p = Some pt /\ p_data pt = a /\ p_phase pt <> Exited;
  wi_starting : forall obj, obj ∈ starting w -> exists t, threads w !! obj = Some t /\ started_ t = true;
  wi_once : NoDup (ran w).*1;
  wi_ran : forall p, p ∈ (ran w).*1 -> is_Some (pthreads w !! p);
  wi_joins : forall p, p ∈ joins w -> exists pt, pthreads w !! p = Some pt /\ p_phase pt = Exited;
}.

Lemma winv_new : winv newWorld.
Proof. constructor; simpl; try (intros *; rewrite ?lookup_empty; set_solver); try lia; constructor. Qed.

(** Frame: parts of the invariant under changes elsewhere. *)
Lemma object_frame w w' obj t :
  object_ok w obj t ->
  (forall pt, started_ t = true -> pthreads w !! pthreadId_ t = Some pt ->
     pthreads w' !! pthreadId_ t = Some pt /\
     (called (p_phase pt) = false -> forall d, datas w !! p_data pt = Some d -> exists d', datas w' !! p_data pt = Some d' /\ d_func d' = d_func d)) ->
  (obj ∈ starting w' <-> obj ∈ starting w) -> ran w `prefix_of` ran w' ->
  object_ok w' obj t.
Proof.
  unfold object_ok. destruct (started_ t).
  - intros (pt & Hp & [H1 H2 H3 H4 H5 H6]) Hf Hs [k Hr]. destruct (Hf pt eq_refl Hp) as [Hp' Hd].
    exists pt. split; [done|]. constructor; try done.
    + intros He. apply Hs. auto.
    + destruct (called (p_phase pt)).
      * rewrite Hr. apply elem_of_app. by left.
      * destruct H6 as (d & Hd1 & Hd2). destruct (Hd eq_refl d Hd1) as (d' & ? & ?). exists d'. split; [done|congruence].
  - intros (? & ? & ?) _ Hs _. split_and!; [done|done|]. by rewrite Hs.
Qed.

Lemma thread_frame w w' p pt :
  thread_ok w p pt ->
  (p_phase pt <> Exited -> datas w' !! p_data pt = datas w !! p_data pt) ->
  (early (p_phase pt) = true -> forall ptr, points w p ptr -> points w' p ptr) ->
  (p ∈ (ran w').*1 <-> p ∈ (ran w).*1) ->
  thread_ok w' p pt.
Proof.
  intros [H1 H2 H3 H4 H5] Hd Hp Hr. constructor; try done.
  - intros Hne. destruct (H2 Hne) as (d & Hd1 & Ht & Hl). exists d. rewrite Hd by done. split_and!; [done| |]; intros E.
    + apply Hp; [by rewrite E|]. auto.
    + apply Hp; auto.
  - by rewrite Hr.
Qed.

(** ** Steps of a started thread *)
Definition same_start (t t' : Thread) : Prop := started_ t' = started_ t /\ pthreadId_ t' = pthreadId_ t.

(** What a step of thread [p] may change. *)
Record child_frame (p : Z) (pt pt' : pthread) (w w' : World) : Prop := {
  cf_num : numCreated_ w' = numCreated_ w;
  cf_starting : starting w' = starting w;
  cf_joins : joins w' = joins w;
  cf_pthreads : pthreads w' = <[p := pt']> (pthreads w);
  cf_same : p_data pt' = p_data pt;
  cf_threads : forall o, threads w' !! o = threads w !! o \/
    exists t t', threads w !! o = Some t /\ threads w' !! o = Some t' /\ same_start t t' /\ started_ t = true /\ pthreadId_ t = p;
  cf_datas : forall a, a <> p_data pt -> datas w' !! a = datas w !! a;
  cf_deleted : p_phase pt' = Exited -> datas w' !! p_data pt = None;
  cf_ran : ran w' = ran w \/ p ∉ (ran w).*1 /\ exists f, ran w' = ran w ++ [(p, f)];
}.

Lemma cf_ran_other p pt pt' w w' : child_frame p pt pt' w w' ->
  ran w `prefix_of` ran w' /\ forall q, q <> p -> q ∈ (ran w').*1 <-> q ∈ (ran w).*1.
Proof.
  intros Hf. destruct (cf_ran _ _ _ _ _ Hf) as [->|(_ & f & ->)]; split_and!; try done.
  - by eexists.
  - intros q Hq. rewrite fmap_app, elem_of_app. simpl. set_solver.
Qed.

Lemma cf_back p pt pt' w w' o t' : child_frame p pt pt' w w' -> threads w' !! o = Some t' ->
  exists t, threads w !! o = Some t /\ same_start t t' /\ (t' = t \/ started_ t = true /\ pthreadId_ t = p).
Proof.
  intros Hf Ht. destruct (cf_threads _ _ _ _ _ Hf o) as [E|(t & t1 & H1 & H2 & H3 & H4 & H5)].
  - exists t'. rewrite <- E. split_and!; [done|done|by left].
  - exists t. rewrite Ht in H2. injection H2 as <-. split_and!; [done|done|by right].
Qed.

Lemma cf_points p pt pt' w w' q ptr : child_frame p pt pt' w w' -> points w q ptr -> points w' q ptr.
Proof.
  intros Hf (o & t & -> & Ht & Hs & Hq).
  destruct (cf_threads _ _ _ _ _ Hf o) as [E|(t0 & t1 & H1 & H2 & [H3 H3'] & _)].
  - exists o, t. by rewrite E.
  - rewrite Ht in H1. injection H1 as <-. exists o, t1. split_and!; [done|done|by rewrite H3|by rewrite H3'].
Qed.

Lemma child_keeps p pt pt' w w' :
  winv w -> pthreads w !! p = Some pt -> p_phase pt <> Exited -> child_frame p pt pt' w w' ->
  thread_ok w' p pt' ->
  (forall o t', threads w' !! o = Some t' -> started_ t' = true -> pthreadId_ t' = p -> runs w' o t' pt') ->
  winv w'.
Proof.
  intros Hw Hp Hne Hf Hok Hruns. pose proof (cf_ran_other _ _ _ _ _ Hf) as (Hpre & Hoth).
  pose proof Hf as [Fn Fs Fj Fp Fd Ft Fa Fx Fr].
  assert (Hdiff : forall q qt, q <> p -> pthreads w !! q = Some qt -> p_phase qt <> Exited -> p_data qt <> p_data pt).
  { intros q qt Hq Hqt Hn E. apply Hq. by apply (wi_datas w Hw q p qt pt). }
  constructor.
  - rewrite Fn. apply Hw.
  - intros o t' Ht'. destruct (cf_back _ _ _ _ _ _ _ Hf Ht') as (t & Ht & [Es Ei] & Hch).
    destruct (decide (started_ t' = true /\ pthreadId_ t' = p)) as [[Hst Hpt]|Hn].
    + unfold object_ok. rewrite Hst, Hpt. exists pt'. rewrite Fp, lookup_insert_eq. split; [done|]. by apply Hruns.
    + destruct Hch as [->|[H1 H2]]; [|exfalso; apply Hn; split; congruence].
      apply (object_frame w); [by apply Hw| |by rewrite Fs|done].
      intros qt Hst Hqt. assert (Hq : pthreadId_ t <> p) by naive_solver.
      rewrite Fp, lookup_insert_ne by done. split; [done|]. intros Hc d Hd. exists d.
      rewrite Fa; [done|]. apply (Hdiff _ _ Hq Hqt). intros E. by rewrite E in Hc.
  - intros q qt. rewrite Fp. destruct (decide (q = p)) as [->|Hq].
    + rewrite lookup_insert_eq. by intros [= <-].
    + rewrite lookup_insert_ne by done. intros Hqt. apply (thread_frame w); [by apply Hw| | |by apply Hoth].
      * intros Hn. apply Fa. by apply (Hdiff q).
      * intros _ ptr. by apply (cf_points _ _ _ _ _ _ _ Hf).
  - intros o1 o2 t1 t2 H1 H2 S1 S2 E.
    destruct (cf_back _ _ _ _ _ _ _ Hf H1) as (u1 & U1 & [A1 B1] & _).
    destruct (cf_back _ _ _ _ _ _ _ Hf H2) as (u2 & U2 & [A2 B2] & _).
    apply (wi_own w Hw o1 o2 u1 u2); congruence.
  - intros q r qt rt. rewrite Fp. destruct (decide (q = p)) as [->|Hq], (decide (r = p)) as [->|Hr];
      rewrite ?lookup_insert_eq, ?lookup_insert_ne by done; try done.
    + intros [= <-] Hrt _ Hn E. rewrite Fd in E. by destruct (Hdiff r rt).
    + intros Hqt [= <-] Hn _ E. rewrite Fd in E. by destruct (Hdiff q qt).
    + apply (wi_datas w Hw).
  - intros a d Ha. destruct (decide (a = p_data pt)) as [->|Hn].
    + exists p, pt'. rewrite Fp, lookup_insert_eq. split_and!; [done|done|]. intros E. by rewrite (Fx E) in Ha.
    + rewrite Fa in Ha by done. destruct (wi_leak w Hw a d Ha) as (q & qt & Hq & Hqd & Hqn). exists q, qt.
      rewrite Fp, lookup_insert_ne; [done|]. intros ->. congruence.
  - intros o Ho. rewrite Fs in Ho. destruct (wi_starting w Hw o Ho) as (t & Ht & Hst).
    destruct (Ft o) as [E|(t0 & t1 & H1 & H2 & [H3 _] & H4 & _)]; [exists t; by rewrite E|exists t1; split; congruence].
  - destruct Fr as [->|(Hn & f & ->)]; [apply Hw|]. rewrite fmap_app. apply NoDup_app. split_and!; [apply Hw| |].
    + intros x Hx Hx'. simpl in Hx'. apply list_elem_of_singleton in Hx' as ->. done.
    + apply NoDup_singleton.
  - intros q Hq. rewrite Fp. destruct (decide (q = p)) as [->|Hqp]; [by rewrite lookup_insert_eq|].
    rewrite lookup_insert_ne by done. apply (wi_ran w Hw). by apply Hoth.
  - intros q Hq. rewrite Fj in Hq. destruct (wi_joins w Hw q Hq) as (qt & Hqt & Ex). exists qt.
    rewrite Fp, lookup_insert_ne; [done|]. intros ->. congruence.
Qed.

(** The object a ThreadData still points to is the one its thread was started for. *)
Lemma points_runs w p pt ptr : winv w -> pthreads w !! p = Some pt -> points w p ptr ->
  exists obj t, ptr = Some obj /\ threads w !! obj = Some t /\ started_ t = true /\ pthreadId_ t = p /\ runs w obj t pt.
Proof.
  intros Hw Hp (obj & t & -> & Ht & Hs & Hi). exists obj, t. split_and!; try done.
  pose proof (wi_objects w Hw obj t Ht) as Ho. unfold object_ok in Ho. rewrite Hs, Hi, Hp in Ho.
  destruct Ho as (pt' & [= <-] & Hr). done.
Qed.

Lemma owner_unique w p obj t o t' : winv w -> threads w !! obj = Some t -> started_ t = true -> pthreadId_ t = p ->
  threads w !! o = Some t' -> started_ t' = true -> pthreadId_ t' = p -> o = obj /\ t' = t.
Proof.
  intros Hw H1 H2 H3 H4 H5 H6. assert (o = obj) as -> by (apply (wi_own w Hw o obj t' t); congruence).
  split; congruence.
Qed.

Lemma owner_runs w p pt o t : winv w -> pthreads w !! p = Some pt -> threads w !! o = Some t ->
  started_ t = true -> pthreadId_ t = p -> runs w o t pt.
Proof.
  intros Hw Hp Ht Hs Hi. pose proof (wi_objects w Hw o t Ht) as Ho. unfold object_ok in Ho.
  rewrite Hs, Hi, Hp in Ho. by destruct Ho as (pt' & [= <-] & Hr).
Qed.

(** The first two steps find the object alive. *)
Lemma write_tid_eq w p pt : winv w -> pthreads w !! p = Some pt -> p_phase pt = Entered ->
  exists d obj t, datas w !! p_data pt = Some d /\ d_latch d = Some obj /\ threads w !! obj = Some t /\
    started_ t = true /\ pthreadId_ t = p /\
    write_tid p pt w = Ok (go p (cacheTid (p_gettid pt) (p_tls pt)) TidWritten pt
      (set_datas (<[p_data pt := mkData (d_func d) (d_name d) None (d_latch d)]> (datas w))
         (set_threads (<[obj := mkThread (started_ t) (joined_ t) (pthreadId_ t) (p_gettid pt) (func_ t) (name_ t) (latch_ t)]> (threads w)) w))).
Proof.
  intros Hw Hp Hph. destruct (wi_threads w Hw p pt Hp) as [Tpos Tdata Tfr Tnm Tran].
  destruct (Tdata ltac:(congruence)) as (d & Hd & Htid & Hl).
  destruct (points_runs _ _ _ _ Hw Hp (Htid Hph)) as (obj & t & Ed & Ht & Hs & Hi & _).
  destruct (points_runs _ _ _ _ Hw Hp (Hl ltac:(by rewrite Hph))) as (obj' & t' & Ed' & Ht' & Hs' & Hi' & _).
  destruct (owner_unique w p obj t obj' t') as [-> ->]; try done. exists d, obj, t. split_and!; try done.
  unfold write_tid, data_of, object. rewrite Hd. simpl. rewrite Ed. simpl. rewrite Ht. simpl.
  unfold cacheTid. by rewrite (Tfr Hph).
Qed.

Lemma count_down_eq w p pt : winv w -> pthreads w !! p = Some pt -> p_phase pt = TidWritten ->
  exists d obj t, datas w !! p_data pt = Some d /\ threads w !! obj = Some t /\ started_ t = true /\ pthreadId_ t = p /\
    count_down p pt w = Ok (go p (p_tls pt) CountedDown pt
      (set_datas (<[p_data pt := mkData (d_func d) (d_name d) (d_tid d) None]> (datas w))
         (set_threads (<[obj := mkThread (started_ t) (joined_ t) (pthreadId_ t) (tid_ t) (func_ t) (name_ t)
                                  (CountDownLatch.mkData 0 (CountDownLatch.downs (latch_ t) + 1))]> (threads w)) w))).
Proof.
  intros Hw Hp Hph. destruct (wi_threads w Hw p pt Hp) as [Tpos Tdata Tfr Tnm Tran].
  destruct (Tdata ltac:(congruence)) as (d & Hd & _ & Hl).
  destruct (points_runs _ _ _ _ Hw Hp (Hl ltac:(by rewrite Hph))) as (obj & t & Ed & Ht & Hs & Hi & [R1 _ _ _ _ _]).
  rewrite Hph in R1. simpl in R1. exists d, obj, t. split_and!; try done.
  unfold count_down, data_of, object. rewrite Hd. simpl. rewrite Ed. simpl. rewrite Ht. simpl.
  unfold CountDownLatch.countDown. by rewrite R1.
Qed.

(** A step that replaces the object of the thread and its ThreadData. *)
Lemma replace_keeps w p pt v ph obj t t1 d d1 :
  winv w -> pthreads w !! p = Some pt -> p_phase pt <> Exited -> ph <> Exited -> called ph = called (p_phase pt) -> called ph = false ->
  threads w !! obj = Some t -> started_ t = true -> pthreadId_ t = p -> same_start t t1 -> func_ t1 = func_ t -> joined_ t1 = joined_ t ->
  datas w !! p_data pt = Some d -> d_func d1 = d_func d ->
  (ph = Entered -> t_cachedTid v = 0) -> (forall a, t_threadName v = DataName a -> False) ->
  (ph = Entered -> d_tid d1 = Some obj) -> (early ph = true -> d_latch d1 = Some obj /\ early (p_phase pt) = true) ->
  CountDownLatch.count_ (latch_ t1) = (if early ph then 1 else 0) -> (ph <> Entered -> tid_ t1 = p_gettid pt) ->
  winv (go p v ph pt (set_datas (<[p_data pt := d1]> (datas w)) (set_threads (<[obj := t1]> (threads w)) w))).
Proof.
  intros Hw Hp Hne Hne' Hcl Hcf Ht Hs Hi [Es Ei] Ef Ej Hd Edf Hfr Hnm Hdt Hdl Hcount Htid.
  pose proof (owner_runs w p pt obj t Hw Hp Ht Hs Hi) as [R1 R2 R3 R4 R5 R6].
  destruct (wi_threads w Hw p pt Hp) as [Tpos Tdata Tfr Tnm Tran].
  assert (Hpts : forall ptr, ptr = Some obj ->
    points (go p v ph pt (set_datas (<[p_data pt := d1]> (datas w)) (set_threads (<[obj := t1]> (threads w)) w))) p ptr).
  { intros ptr ->. exists obj, t1. simpl. rewrite lookup_insert_eq. split_and!; try done; congruence. }
  apply (child_keeps p pt (at_phase v ph pt) w); try done.
  - constructor; simpl; try done.
    + intros o. destruct (decide (o = obj)) as [->|]; [right; exists t, t1|left].
      * by rewrite lookup_insert_eq.
      * by rewrite lookup_insert_ne.
    + intros a Ha. by rewrite lookup_insert_ne.
    + by left.
  - constructor; simpl; try done.
    + intros _. rewrite lookup_insert_eq. exists d1. split; [done|]. split; intros E; apply Hpts; [auto|]. by destruct (Hdl E).
    + intros a Ha. by destruct (Hnm a).
    + by rewrite Hcl.
  - intros o u Hu Hus Hui. simpl in Hu. destruct (decide (o = obj)) as [->|Hno].
    + rewrite lookup_insert_eq in Hu. injection Hu as <-. constructor; simpl; try done.
      * intros E. apply R3. by destruct (Hdl E).
      * congruence.
      * rewrite Hcf. rewrite <- Hcl, Hcf in R6. destruct R6 as (d0 & Hd0 & E0). exists d1.
        rewrite lookup_insert_eq. split; [done|]. congruence.
    + rewrite lookup_insert_ne in Hu by done. destruct (owner_unique w p obj t o u) as [-> _]; done.
Qed.

Lemma write_tid_keeps w p pt : winv w -> pthreads w !! p = Some pt -> p_phase pt = Entered ->
  post winv (fun _ => False) (write_tid p pt w).
Proof.
  intros Hw Hp Hph. destruct (write_tid_eq w p pt Hw Hp Hph) as (d & obj & t & Hd & Hl & Ht & Hs & Hi & ->). simpl.
  pose proof (owner_runs w p pt obj t Hw Hp Ht Hs Hi) as [R1 R2 R3 R4 R5 R6]. rewrite Hph in R1.
  eapply (replace_keeps w p pt _ TidWritten obj t _ d); try done; try (by rewrite Hph).
  intros a. unfold cacheTid. destruct (_ =? 0); simpl; intros Ha; apply (th_name _ _ _ (wi_threads w Hw p pt Hp)) in Ha as [_ Ha]; congruence.
Qed.

Lemma count_down_keeps w p pt : winv w -> pthreads w !! p = Some pt -> p_phase pt = TidWritten ->
  post winv (fun _ => False) (count_down p pt w).
Proof.
  intros Hw Hp Hph. destruct (count_down_eq w p pt Hw Hp Hph) as (d & obj & t & Hd & Ht & Hs & Hi & ->). simpl.
  pose proof (owner_runs w p pt obj t Hw Hp Ht Hs Hi) as [R1 R2 R3 R4 R5 R6].
  eapply (replace_keeps w p pt _ CountedDown obj t _ d); try done; try (by rewrite Hph).
  - intros a Ha. apply (th_name _ _ _ (wi_threads w Hw p pt Hp)) in Ha as [_ Ha]. congruence.
  - intros _. apply R2. congruence.
Qed.

(** A step of the thread on its own: the Thread object is not looked at. *)
Lemma alone_keeps w w' p pt pt' :
  winv w -> pthreads w !! p = Some pt -> early (p_phase pt) = false -> p_phase pt <> Exited ->
  child_frame p pt pt' w w' -> threads w' = threads w -> thread_ok w' p pt' ->
  early (p_phase pt') = false -> p_gettid pt' = p_gettid pt -> p_joined pt' = p_joined pt -> p_detached pt' = p_detached pt ->
  called (p_phase pt') = true -> (called (p_phase pt) = true \/ exists d, datas w !! p_data pt = Some d /\ (p, d_func d) ∈ ran w') ->
  winv w'.
Proof.
  intros Hw Hp He Hne Hf Eth Hok He' Eg Ej Ed Hc' Hran. eapply (child_keeps p pt); try done.
  intros o t Ht Hs Hi. rewrite Eth in Ht. destruct (owner_runs w p pt o t Hw Hp Ht Hs Hi) as [R1 R2 R3 R4 R5 R6].
  destruct (cf_ran_other _ _ _ _ _ Hf) as [[k Hk] _].
  constructor; rewrite ?He', ?Hc', ?Eg, ?Ej, ?Ed; try done.
  - by rewrite R1, He.
  - intros _. apply R2. intros E. by rewrite E in He.
  - destruct (called (p_phase pt)) eqn:Ec; [rewrite Hk; apply elem_of_app; by left|].
    destruct Hran as [?|(d & Hd & Hin)]; [done|]. destruct R6 as (d' & Hd' & <-). rewrite Hi. congruence.
Qed.

Lemma call_func_keeps w p pt : winv w -> pthreads w !! p = Some pt -> p_phase pt = CountedDown ->
  post winv (fun _ => False) (call_func p pt w).
Proof.
  intros Hw Hp Hph. destruct (wi_threads w Hw p pt Hp) as [Tpos Tdata Tfr Tnm Tran].
  destruct (Tdata ltac:(congruence)) as (d & Hd & _ & _).
  unfold call_func, data_of. rewrite Hd. simpl. rewrite Hph in Tran. simpl in Tran.
  assert (Hn : p ∉ (ran w).*1) by (intros Hin; by apply Tran in Hin).
  assert (Hin : (p, d_func d) ∈ ran w ++ [(p, d_func d)]) by (apply elem_of_app; right; by apply list_elem_of_singleton).
  eapply (alone_keeps w _ p pt (at_phase _ Running pt)); try done; try (by rewrite Hph).
  - constructor; simpl; try done; eauto.
  - constructor; simpl; try done.
    + intros _. by exists d.
    + intros a. destruct (d_name d); [done|]. by intros [= <-].
    + split; [intros _; rewrite fmap_app; apply elem_of_app; right; simpl; by apply list_elem_of_singleton|done].
  - right. exists d. done.
Qed.

Lemma end_func_keeps w p pt e : winv w -> pthreads w !! p = Some pt -> p_phase pt = Running ->
  post winv (excuse (Child p e)) (end_func e p pt w).
Proof.
  intros Hw Hp Hph. destruct (wi_threads w Hw p pt Hp) as [Tpos Tdata Tfr Tnm Tran]. destruct e; simpl; try done.
  destruct (Tdata ltac:(congruence)) as (d & Hd & _ & _). rewrite Hph in Tran.
  eapply (alone_keeps w _ p pt (at_phase _ Returned pt)); try done; try (by rewrite Hph); [| |left; by rewrite Hph].
  - constructor; simpl; try done; eauto.
  - constructor; simpl; try done. intros _. by exists d.
Qed.

Lemma delete_data_keeps w p pt : winv w -> pthreads w !! p = Some pt -> p_phase pt = Returned ->
  post winv (fun _ => False) (delete_data p pt w).
Proof.
  intros Hw Hp Hph. destruct (wi_threads w Hw p pt Hp) as [Tpos Tdata Tfr Tnm Tran].
  destruct (Tdata ltac:(congruence)) as (d & Hd & _ & _). rewrite Hph in Tran.
  unfold delete_data, data_of. rewrite Hd. simpl.
  eapply (alone_keeps w _ p pt (at_phase _ Exited pt)); try done; try (by rewrite Hph); [| |left; by rewrite Hph].
  - constructor; simpl; eauto; [intros a Ha; by rewrite lookup_delete_ne|intros _; apply lookup_delete_eq].
  - constructor; simpl; try done. intros a Ha. apply Tnm in Ha as [_ Ha]. congruence.
Qed.

Lemma startThread_keeps w p e : winv w -> post winv (excuse (Child p e)) (startThread p e w).
Proof.
  intros Hw. unfold startThread. destruct (pthreads w !! p) as [pt|] eqn:Hp; [|done].
  assert (Hlift : forall m : outcome World, post winv (fun _ => False) m -> post winv (excuse (Child p e)) m) by (by intros [|]).
  destruct (p_phase pt) eqn:Hph; [apply Hlift, write_tid_keeps| apply Hlift, count_down_keeps|apply Hlift, call_func_keeps| |apply Hlift, delete_data_keeps|]; try done.
  by apply end_func_keeps.
Qed.

(** ** Steps of the owner *)
Lemma absent_none {A} (m : gmap Z A) k : absent m k = true -> m !! k = None.
Proof. unfold absent. by destruct (m !! k). Qed.

Lemma setDefaultName_ok num n : 0 <= num < 2 ^ 31 - 1 ->
  setDefaultName num n = Ok (match n with [] => lit "Thread" ++ dec (num + 1) | _ => n end, num + 1).
Proof.
  intros Hn. unfold setDefaultName, incrementAndGet, addAndGet, getAndAdd.
  rewrite bool_decide_true by (unfold in_s; lia). simpl. rewrite wrapS_id by (unfold in_s; lia).
  destruct n; [|done]. do 2 f_equal. unfold snprintf. apply ztake_all. rewrite !zlen_cons.
  pose proof (dec_length64 (num + 1) ltac:(lia)). lia.
Qed.

Lemma newThread_keeps w obj func n : winv w -> allowed w (Construct obj func n) = true ->
  post winv (fun _ => False) (newThread obj func n w).
Proof.
  intros Hw Ha. simpl in Ha. apply andb_prop in Ha as [Hab Hnum]. apply absent_none in Hab. apply Z.ltb_lt in Hnum.
  pose proof (wi_num w Hw). unfold newThread. rewrite setDefaultName_ok by lia. simpl.
  match goal with |- context [<[obj := ?T]> (threads w)] => set (t1 := T) end.
  constructor; simpl.
  - lia.
  - intros o t. destruct (decide (o = obj)) as [->|Hne].
    + rewrite lookup_insert_eq. intros [= <-]. split_and!; [done|done|]. simpl. intros Hin.
      destruct (wi_starting w Hw obj Hin) as (t & Ht & _). congruence.
    + rewrite lookup_insert_ne by done. intros Ht. apply (object_frame w); [by apply Hw| |done|done]. simpl. eauto.
  - intros p pt Hp. apply (thread_frame w); [by apply Hw|done| |done].
    intros _ ptr (o & t & -> & Ht & Hs & Hi). exists o, t. simpl. rewrite lookup_insert_ne by congruence. done.
  - intros o1 o2 u1 u2 H1 H2 S1 S2 E.
    destruct (decide (o1 = obj)) as [->|N1]; [rewrite lookup_insert_eq in H1; injection H1 as <-; done|].
    destruct (decide (o2 = obj)) as [->|N2]; [rewrite lookup_insert_eq in H2; injection H2 as <-; done|].
    rewrite lookup_insert_ne in H1, H2 by done. by apply (wi_own w Hw o1 o2 u1 u2).
  - apply Hw.
  - apply Hw.
  - intros o Ho. destruct (wi_starting w Hw o Ho) as (t & Ht & Hs). exists t. rewrite lookup_insert_ne by congruence. done.
  - apply Hw.
  - apply Hw.
  - apply Hw.
Qed.

Lemma start_keeps w obj data created : winv w -> allowed w (Start obj data created) = true ->
  post winv (excuse (Start obj data created)) (start obj data created w).
Proof.
  intros Hw Ha. simpl in Ha. destruct (threads w !! obj) as [t|] eqn:Ht; [|done].
  apply andb_prop in Ha as [Ha Hcr]. apply andb_prop in Ha as [Hst Hd]. apply negb_true_iff in Hst. apply absent_none in Hd.
  pose proof (wi_objects w Hw obj t Ht) as Ho. unfold object_ok in Ho. rewrite Hst in Ho. destruct Ho as (Hc & Hj & Hns).
  unfold start, object. rewrite Ht. simpl. rewrite Hst. simpl. destruct created as [[p k]|]; [|done].
  apply andb_prop in Hcr as [Hcr Hk2]. apply andb_prop in Hcr as [Hp Hk]. apply absent_none in Hp. apply Z.ltb_lt in Hk.
  match goal with |- context [<[obj := ?T]> (threads w)] => set (t1 := T) end.
  match goal with |- context [<[p := ?T]> (pthreads w)] => set (pt1 := T) end.
  assert (Hother : forall q qt, pthreads w !! q = Some qt -> p_phase qt <> Exited -> p_data qt <> data).
  { intros q qt Hq Hn E. destruct (wi_threads w Hw q qt Hq) as [_ Td _ _ _]. destruct (Td Hn) as (d & Hd' & _). congruence. }
  assert (Hfresh : forall o u, threads w !! o = Some u -> started_ u = true -> pthreadId_ u <> p).
  { intros o u Hu Hus E. pose proof (wi_objects w Hw o u Hu) as Ho. unfold object_ok in Ho. rewrite Hus in Ho.
    destruct Ho as (pt & Hpt & _). congruence. }
  assert (Hnran : p ∉ (ran w).*1) by (intros Hin; apply (wi_ran w Hw) in Hin as [? ?]; congruence).
  constructor; simpl; try apply Hw.
  - intros o u. destruct (decide (o = obj)) as [->|Hne].
    + rewrite lookup_insert_eq. intros [= <-]. unfold object_ok. simpl. exists pt1. rewrite lookup_insert_eq. split; [done|].
      constructor; simpl; try done; [set_solver|]. rewrite lookup_insert_eq. by eexists.
    + rewrite lookup_insert_ne by done. intros Hu. apply (object_frame w); [by apply Hw| |simpl; set_solver|done].
      intros pt Hus Hpt. simpl. rewrite lookup_insert_ne by (symmetry; by apply (Hfresh o)). split; [done|].
      intros Hcl d Hd'. exists d. rewrite lookup_insert_ne; [done|]. congruence.
  - intros q qt. destruct (decide (q = p)) as [->|Hne].
    + rewrite lookup_insert_eq. intros [= <-]. constructor; simpl; try done.
      intros _. rewrite lookup_insert_eq. eexists. split; [done|]. simpl.
      split; intros _; exists obj, t1; simpl; by rewrite lookup_insert_eq.
    + rewrite lookup_insert_ne by done. intros Hq. apply (thread_frame w); [by apply Hw| | |done].
      * intros Hn. simpl. rewrite lookup_insert_ne; [done|]. intros E. symmetry in E. by apply (Hother q qt).
      * intros _ ptr (o & u & -> & Hu & Hus & Hui). exists o, u. simpl. rewrite lookup_insert_ne; [done|]. congruence.
  - intros o1 o2 u1 u2. destruct (decide (o1 = obj)) as [->|N1], (decide (o2 = obj)) as [->|N2];
      rewrite ?lookup_insert_eq, ?lookup_insert_ne by done; try done.
    + intros [= <-] H2 _ S2 E. symmetry in E. by apply (Hfresh o2) in E.
    + intros H1 [= <-] S1 _ E. by apply (Hfresh o1) in E.
    + apply (wi_own w Hw).
  - intros q r qt rt. destruct (decide (q = p)) as [->|N1], (decide (r = p)) as [->|N2];
      rewrite ?lookup_insert_eq, ?lookup_insert_ne by done; try done.
    + intros [= <-] H2 _ S2 E. symmetry in E. by apply (Hother r) in E.
    + intros H1 [= <-] S1 _ E. by apply (Hother q) in E.
    + apply (wi_datas w Hw).
  - intros a d. destruct (decide (a = data)) as [->|Hne].
    + intros _. exists p, pt1. by rewrite lookup_insert_eq.
    + rewrite lookup_insert_ne by done. intros Ha. destruct (wi_leak w Hw a d Ha) as (q & qt & Hq & H1 & H2).
      exists q, qt. rewrite lookup_insert_ne by congruence. done.
  - intros o Ho. destruct (decide (o = obj)) as [->|Hne]; [exists t1; by rewrite lookup_insert_eq|].
    rewrite lookup_insert_ne by done. apply (wi_starting w Hw). set_solver.
  - intros q Hq. apply (wi_ran w Hw) in Hq. destruct (decide (q = p)) as [->|]; [by rewrite lookup_insert_eq|by rewrite lookup_insert_ne].
  - intros q Hq. destruct (wi_joins w Hw q Hq) as (qt & ? & ?). exists qt. rewrite lookup_insert_ne by congruence. done.
Qed.

Lemma start_wait_keeps w obj : winv w -> post winv (fun _ => False) (start_wait obj w).
Proof.
  intros Hw. unfold start_wait. case_bool_decide as Hin; [|done].
  destruct (wi_starting w Hw obj Hin) as (t & Ht & Hs). unfold object. rewrite Ht. simpl.
  pose proof (wi_objects w Hw obj t Ht) as Ho. unfold object_ok in Ho. rewrite Hs in Ho. destruct Ho as (pt & Hp & Hr).
  pose proof Hr as [R1 R2 R3 R4 R5 R6]. unfold CountDownLatch.wait. rewrite R1.
  destruct (early (p_phase pt)) eqn:He; simpl; [done|].
  assert (Hne : p_phase pt <> Entered) by (intros E; by rewrite E in He).
  rewrite R2 by done. pose proof (th_pos _ _ _ (wi_threads w Hw _ _ Hp)).
  rewrite (proj2 (Z.ltb_lt _ _)) by done. simpl.
  constructor; simpl; try apply Hw.
  - intros o u Hu. destruct (decide (o = obj)) as [->|].
    + rewrite Ht in Hu. injection Hu as <-. unfold object_ok. simpl. rewrite Hs. exists pt. split; [done|].
      constructor; simpl; rewrite ?He; done.
    + apply (object_frame w); [by apply Hw|simpl; eauto|simpl; set_solver|done].
  - intros p' pt' Hp'. by apply (thread_frame w); [apply Hw|..].
  - intros o Ho. apply (wi_starting w Hw). set_solver.
Qed.

Lemma join_wait_keeps w p : winv w -> post winv (fun _ => False) (join_wait p w).
Proof.
  intros Hw. unfold join_wait. destruct (pthreads w !! p) as [pt|] eqn:Hp; [|done].
  case_bool_decide as Hb; [|done]. destruct Hb as [_ Hex]. simpl.
  constructor; simpl; try apply Hw.
  - intros o u Hu. apply (object_frame w); [by apply Hw|simpl; eauto|done|done].
  - intros p' pt' Hp'. by apply (thread_frame w); [apply Hw|..].
  - intros q Hq. apply elem_of_app in Hq as [Hq|Hq]; [by apply (wi_joins w Hw)|].
    apply list_elem_of_singleton in Hq as ->. eauto.
Qed.

(** A change of the flags of one thread, and of the object that owns it. *)
Definition flags (detached joined : bool) (pt : pthread) : pthread :=
  mkPthread (p_gettid pt) (p_tls pt) (p_data pt) (p_phase pt) detached joined.

Lemma flags_keep w th p pt dt jn jg :
  winv w -> pthreads w !! p = Some pt ->
  (forall o t', th !! o = Some t' -> exists t, threads w !! o = Some t /\ same_start t t' /\
     (started_ t = true /\ pthreadId_ t = p \/ t' = t)) ->
  (forall o t, threads w !! o = Some t -> o ∈ starting w \/ early (p_phase pt) = true /\ started_ t = true /\ pthreadId_ t = p ->
     exists t', th !! o = Some t' /\ same_start t t') ->
  (forall o t', th !! o = Some t' -> started_ t' = true -> pthreadId_ t' = p -> runs w o t' (flags dt jn pt)) ->
  winv (set_joining jg (joins w) (set_pthreads (<[p := flags dt jn pt]> (pthreads w)) (set_threads th w))).
Proof.
  intros Hw Hp Hback Hforth Hruns. constructor; simpl; try apply Hw.
  - intros o t' Ht'. destruct (Hback o t' Ht') as (t & Ht & [Es Ei] & Hch).
    destruct (decide (started_ t' = true /\ pthreadId_ t' = p)) as [[Hst Hpt]|Hn].
    + unfold object_ok. rewrite Hst. simpl. rewrite Hpt, lookup_insert_eq. eexists. split; [done|].
      destruct (Hruns o t' Ht' Hst Hpt). by constructor.
    + destruct Hch as [[H1 H2]| -> ]; [exfalso; apply Hn; split; congruence|].
      apply (object_frame w); [by apply Hw| |done|done]. intros qt Hst Hqt. simpl.
      rewrite lookup_insert_ne by naive_solver. eauto.
  - intros q qt. destruct (decide (q = p)) as [->|Hq].
    + rewrite lookup_insert_eq. intros [= <-].
      destruct (wi_threads w Hw p pt Hp) as [T1 T2 T3 T4 T5]. constructor; simpl; try done. intros Hn.
      destruct (T2 Hn) as (d & Hd & Ha & Hb). exists d. split; [done|].
      assert (Hmv : early (p_phase pt) = true -> forall ptr, points w p ptr -> exists o t', ptr = Some o /\ th !! o = Some t' /\ started_ t' = true /\ pthreadId_ t' = p).
      { intros He ptr (o & t & -> & Ht & Hs & Hi). destruct (Hforth o t Ht) as (t' & Ht' & [E1 E2]); [by right|].
        exists o, t'. split_and!; try done; congruence. }
      split; intros E; apply Hmv; auto. by rewrite E.
    + rewrite lookup_insert_ne by done. intros Hqt. apply (thread_frame w); [by apply Hw|done| |done].
      intros He ptr (o & t & -> & Ht & Hs & Hi). destruct (Hforth o t Ht) as (t' & Ht' & [E1 E2]).
      { left. apply (rn_early w o t qt); [|done]. by apply (owner_runs w q). }
      exists o, t'. simpl. split_and!; try done; congruence.
  - intros o1 o2 t1 t2 H1 H2 S1 S2 E.
    destruct (Hback _ _ H1) as (u1 & U1 & [A1 B1] & _), (Hback _ _ H2) as (u2 & U2 & [A2 B2] & _).
    apply (wi_own w Hw o1 o2 u1 u2); congruence.
  - intros q r qt rt. destruct (decide (q = p)) as [->|Hq], (decide (r = p)) as [->|Hr];
      rewrite ?lookup_insert_eq, ?lookup_insert_ne by done; try done.
    + intros [= <-] Hrt. apply (wi_datas w Hw p r pt rt Hp Hrt).
    + intros Hqt [= <-]. apply (wi_datas w Hw q p qt pt Hqt Hp).
    + apply (wi_datas w Hw).
  - intros a d Ha. destruct (wi_leak w Hw a d Ha) as (q & qt & Hq & H1 & H2).
    destruct (decide (q = p)) as [->|Hn]; [|exists q, qt; by rewrite lookup_insert_ne].
    exists p, (flags dt jn pt). rewrite lookup_insert_eq. rewrite Hp in Hq. injection Hq as <-. done.
  - intros o Ho. destruct (wi_starting w Hw o Ho) as (t & Ht & Hs).
    destruct (Hforth o t Ht) as (t' & Ht' & [E1 E2]); [by left|]. exists t'. split; congruence.
  - intros q Hq. apply (wi_ran w Hw) in Hq. destruct (decide (q = p)) as [->|]; [by rewrite lookup_insert_eq|by rewrite lookup_insert_ne].
  - intros q Hq. destruct (wi_joins w Hw q Hq) as (qt & Hqt & Ex).
    destruct (decide (q = p)) as [->|Hn]; [|exists qt; by rewrite lookup_insert_ne].
    exists (flags dt jn pt). rewrite lookup_insert_eq. rewrite Hp in Hqt. injection Hqt as <-. done.
Qed.

Lemma join_keeps w obj : winv w -> allowed w (Join obj) = true -> post winv (fun _ => False) (join obj w).
Proof.
  intros Hw Ha. simpl in Ha. destruct (threads w !! obj) as [t|] eqn:Ht; [|done].
  apply andb_prop in Ha as [Ha Hns]. apply andb_prop in Ha as [Hs Hj]. apply negb_true_iff in Hj, Hns.
  apply bool_decide_eq_false in Hns.
  pose proof (wi_objects w Hw obj t Ht) as Ho. unfold object_ok in Ho. rewrite Hs in Ho. destruct Ho as (pt & Hp & Hr).
  unfold join, object. rewrite Ht. simpl. rewrite Hs, Hj. simpl. rewrite Hp. simpl.
  rewrite (rn_attached _ _ _ _ Hr), <- (rn_joined _ _ _ _ Hr), Hj. simpl.
  match goal with |- context [<[obj := ?T]> (threads w)] => set (t1 := T) end.
  apply (flags_keep w _ _ pt); [done|done| | |].
  - intros o u. destruct (decide (o = obj)) as [->|]; [rewrite lookup_insert_eq; intros [= <-]|rewrite lookup_insert_ne by done].
    + exists t. split_and!; [done|by split|by left].
    + intros Hu. exists u. split_and!; [done|done|by right].
  - intros o u Hu _. destruct (decide (o = obj)) as [->|]; [|exists u; by rewrite lookup_insert_ne].
    exists t1. rewrite lookup_insert_eq. split; [done|]. rewrite Ht in Hu. injection Hu as <-. by split.
  - intros o u Hu Hus Hui. destruct (decide (o = obj)) as [->|].
    + rewrite lookup_insert_eq in Hu. injection Hu as <-. destruct Hr. by constructor.
    + rewrite lookup_insert_ne in Hu by done. by destruct (owner_unique w _ obj t o u Hw Ht Hs eq_refl Hu Hus Hui).
Qed.

Lemma removed_keeps w obj : winv w -> obj ∉ starting w -> winv (set_threads (delete obj (threads w)) w).
Proof.
  intros Hw Hns. constructor; simpl; try apply Hw.
  - intros o t Ht. apply lookup_delete_Some in Ht as [_ Ht]. apply (object_frame w); [by apply Hw|simpl; eauto|done|done].
  - intros p pt Hp. apply (thread_frame w); [by apply Hw|done| |done].
    intros He ptr (o & t & -> & Ht & Hs & Hi). exists o, t. simpl. rewrite lookup_delete_ne; [done|]. intros ->.
    apply Hns. apply (rn_early w o t pt); [|done]. by apply (owner_runs w p).
  - intros o1 o2 t1 t2 H1 H2. apply lookup_delete_Some in H1 as [_ H1]. apply lookup_delete_Some in H2 as [_ H2].
    by apply (wi_own w Hw).
  - intros o Ho. destruct (wi_starting w Hw o Ho) as (t & Ht & Hs). exists t. rewrite lookup_delete_ne; [done|]. by intros ->.
Qed.

Lemma destroyThread_keeps w obj : winv w -> allowed w (Destroy obj) = true -> post winv (fun _ => False) (destroyThread obj w).
Proof.
  intros Hw Ha. simpl in Ha. apply andb_prop in Ha as [Hl Hns]. apply negb_true_iff in Hl, Hns. apply bool_decide_eq_false in Hns.
  unfold absent in Hl. destruct (threads w !! obj) as [t|] eqn:Ht; [|done].
  unfold destroyThread, object. rewrite Ht. simpl. pose proof (removed_keeps w obj Hw Hns) as Hw'.
  destruct (started_ t) eqn:Hs; [|done]. destruct (joined_ t) eqn:Hj; [done|]. simpl.
  pose proof (wi_objects w Hw obj t Ht) as Ho. unfold object_ok in Ho. rewrite Hs in Ho. destruct Ho as (pt & Hp & Hr).
  rewrite Hp. simpl. rewrite (rn_attached _ _ _ _ Hr), <- (rn_joined _ _ _ _ Hr), Hj. simpl.
  apply (flags_keep (set_threads (delete obj (threads w)) w) (delete obj (threads w)) (pthreadId_ t) pt true false (joining w)); try done; simpl.
  - intros o u Hu. exists u. split_and!; [done|done|by right].
  - intros o u Hu _. by exists u.
  - intros o u Hu Hus Hui. apply lookup_delete_Some in Hu as [Hne Hu].
    by destruct (owner_unique w _ obj t o u Hw Ht Hs eq_refl Hu Hus Hui).
Qed.

Lemma step_keeps w a : winv w -> allowed w a = true -> post winv (excuse a) (step w a).
Proof.
  intros Hw Ha. assert (Hlift : forall m : outcome World, post winv (fun _ => False) m -> post winv (excuse a) m) by (by intros [|]).
  destruct a; simpl; [apply Hlift, newThread_keeps|apply start_keeps|apply Hlift, start_wait_keeps|apply Hlift, join_keeps|
    apply Hlift, join_wait_keeps|apply Hlift, destroyThread_keeps|apply startThread_keeps]; done.
Qed.

Lemma run_keeps w l : winv w -> proper w l = true -> post winv (fun e => exists a, a ∈ l /\ excuse a e) (foldM step w l).
Proof.
  revert w. induction l as [|a l IH]; intros w Hw Hpr; simpl; [done|]. simpl in Hpr. apply andb_prop in Hpr as [Ha Hrest].
  pose proof (step_keeps w a Hw Ha) as Hst. destruct (step w a) as [w1|e]; simpl in *.
  - specialize (IH w1 Hst Hrest). destruct (foldM step w1 l); simpl in *; [done|].
    destruct IH as (b & ? & ?). exists b. split; [by right|done].
  - exists a. split; [by left|done].
Qed.

(** What the users of threads see. *)
Record threads_fine (w : World) : Prop := {
  (* after start() the id is known, and the thread runs the function of the object *)
  tf_started : forall obj t, threads w !! obj = Some t -> started_ t = true -> obj ∉ starting w ->
    exists pt, pthreads w !! pthreadId_ t = Some pt /\ tid_ t = p_gettid pt /\ 0 < tid_ t;
  tf_func : forall obj t pt f, threads w !! obj = Some t -> started_ t = true -> pthreads w !! pthreadId_ t = Some pt ->
    (pthreadId_ t, f) ∈ ran w -> f = func_ t;
  tf_once : NoDup (ran w).*1;
  tf_joined : forall p, p ∈ joins w -> p ∈ (ran w).*1 /\ exists pt, pthreads w !! p = Some pt /\ p_phase pt = Exited;
  tf_name : forall p pt, pthreads w !! p = Some pt -> is_ok (current_name w pt) = true;
  tf_leak : (forall p pt, pthreads w !! p = Some pt -> p_phase pt = Exited) -> datas w = ∅;
}.

Lemma NoDup_fst_unique {A B} (l : list (A * B)) a b c : NoDup l.*1 -> (a, b) ∈ l -> (a, c) ∈ l -> b = c.
Proof.
  induction l as [|[x y] l IH]; simpl; [by intros _ ?%elem_of_nil|]. intros [Hx Hn]%NoDup_cons.
  rewrite !elem_of_cons. intros [E1|H1] [E2|H2]; simplify_eq; try done.
  - destruct Hx. by apply (list_elem_of_fmap_2 fst) in H2.
  - destruct Hx. by apply (list_elem_of_fmap_2 fst) in H1.
  - by apply IH.
Qed.

Lemma winv_fine w : winv w -> threads_fine w.
Proof.
  intros Hw. constructor.
  - intros obj t Ht Hs Hns. pose proof (wi_objects w Hw obj t Ht) as Ho. unfold object_ok in Ho. rewrite Hs in Ho.
    destruct Ho as (pt & Hp & [R1 R2 R3 R4 R5 R6]). exists pt.
    assert (Hne : p_phase pt <> Entered) by (intros E; apply Hns, R3; by rewrite E).
    rewrite R2 by done. split_and!; try done. by apply (wi_threads w Hw _ _ Hp).
  - intros obj t pt f Ht Hs Hp Hin. destruct (owner_runs w _ pt obj t Hw Hp Ht Hs eq_refl) as [_ _ _ _ _ R6].
    rewrite (proj2 (th_ran _ _ _ (wi_threads w Hw _ _ Hp))) in R6.
    + by apply (NoDup_fst_unique (ran w) (pthreadId_ t)); [apply Hw|..].
    + by apply (list_elem_of_fmap_2 fst) in Hin.
  - apply Hw.
  - intros p Hp. destruct (wi_joins w Hw p Hp) as (pt & Hpt & Ex). split; [|eauto].
    apply (th_ran _ _ _ (wi_threads w Hw _ _ Hpt)). by rewrite Ex.
  - intros p pt Hp. unfold current_name. destruct (wi_threads w Hw p pt Hp) as [_ Td _ Tn _].
    destruct (t_threadName (p_tls pt)) as [|a] eqn:E; [done|]. destruct (Tn a eq_refl) as [-> Hr].
    destruct (Td ltac:(congruence)) as (d & Hd & _). unfold data_of. by rewrite Hd.
  - intros Hall. apply map_eq. intros a. rewrite lookup_empty. destruct (datas w !! a) as [d|] eqn:E; [|done].
    destruct (wi_leak w Hw a d E) as (p & pt & Hp & _ & Hn). by destruct (Hn (Hall p pt Hp)).
Qed.

(** C33: In every interleaving that respects the protocol of the class: the process
    stops only because pthread_create failed or a function threw; otherwise no
    assertion fails, no object is used after its destruction, the thread id is
    known once start() has returned, each function runs at most once and in its
    own thread, join returns only after the function ran and the thread exited,
    the name of the current thread can always be read, and when the threads have
    exited no ThreadData is left. *)
Theorem thread_safe l (Hproper : proper newWorld l = true) :
  post threads_fine (fun e => exists a, a ∈ l /\ excuse a e) (foldM step newWorld l).
Proof. eapply post_mono; [apply run_keeps; [apply winv_new|done]|apply winv_fine]. Qed.

(** A caller of start() whose thread stands at [ph]. *)
Definition awaits (w : World) (obj p : Z) (ph : phase) : Prop :=
  obj ∈ starting w /\ exists t pt, threads w !! obj = Some t /\ started_ t = true /\ pthreadId_ t = p /\
    pthreads w !! p = Some pt /\ p_phase pt = ph.

Lemma awaits_tid w obj p e : winv w -> awaits w obj p Entered ->
  exists w', startThread p e w = Ok w' /\ winv w' /\ awaits w' obj p TidWritten.
Proof.
  intros Hw (Hin & t & pt & Ht & Hs & Hi & Hp & Hph).
  unfold startThread. rewrite Hp, Hph. pose proof (write_tid_keeps w p pt Hw Hp Hph) as Hk'.
  destruct (write_tid_eq w p pt Hw Hp Hph) as (d & obj' & t' & Hd & Hl & Ht' & Hs' & Hi' & E).
  destruct (owner_unique w p obj t obj' t') as [-> ->]; try done.
  rewrite E in Hk'. eexists. split; [exact E|]. split; [done|]. split; [done|].
  eexists _, _. simpl. by rewrite !lookup_insert_eq.
Qed.

Lemma awaits_latch w obj p e : winv w -> awaits w obj p TidWritten ->
  exists w', startThread p e w = Ok w' /\ winv w' /\ awaits w' obj p CountedDown.
Proof.
  intros Hw (Hin & t & pt & Ht & Hs & Hi & Hp & Hph).
  unfold startThread. rewrite Hp, Hph. pose proof (count_down_keeps w p pt Hw Hp Hph) as Hk'.
  destruct (count_down_eq w p pt Hw Hp Hph) as (d & obj' & t' & Hd & Ht' & Hs' & Hi' & E).
  destruct (owner_unique w p obj t obj' t') as [-> ->]; try done.
  rewrite E in Hk'. eexists. split; [exact E|]. split; [done|]. split; [done|].
  eexists _, _. simpl. by rewrite !lookup_insert_eq.
Qed.

Lemma awaits_open w obj p ph : winv w -> awaits w obj p ph -> early ph = false ->
  exists w', start_wait obj w = Ok w' /\ obj ∉ starting w'.
Proof.
  intros Hw (Hin & t & pt & Ht & Hs & Hi & Hp & Hph) He. pose proof (start_wait_keeps w obj Hw) as Hk.
  pose proof (owner_runs w p pt obj t Hw Hp Ht Hs Hi) as [R1 _ _ _ _ _]. rewrite Hph, He in R1.
  unfold start_wait in *. rewrite bool_decide_true in * by done. unfold object in *. rewrite Ht in *. simpl in *.
  unfold CountDownLatch.wait in *. rewrite R1 in *. simpl in *.
  destruct (c_assert (0 <? tid_ t)); simpl in *; [|done]. eexists. split; [done|]. simpl. set_solver.
Qed.

(** start() returns: wherever the two threads stand, at most two actions of the
    new thread open the latch, whatever its function will do, and the next test of
    the latch lets start() go. *)
Theorem start_returns l w obj t e
  (Hproper : proper newWorld l = true) (Hrun : foldM step newWorld l = Ok w)
  (Hobj : threads w !! obj = Some t) (Hin : obj ∈ starting w) :
  exists n w', (n <= 2)%nat /\
    foldM step w (replicate n (Child (pthreadId_ t) e) ++ [StartWait obj]) = Ok w' /\ obj ∉ starting w'.
Proof.
  pose proof (run_keeps newWorld l winv_new Hproper) as Hw. rewrite Hrun in Hw. simpl in Hw.
  destruct (wi_starting w Hw obj Hin) as (t' & Ht' & Hs). rewrite Hobj in Ht'. injection Ht' as <-.
  pose proof (wi_objects w Hw obj t Hobj) as Ho. unfold object_ok in Ho. rewrite Hs in Ho. destruct Ho as (pt & Hp & _).
  assert (Ha : awaits w obj (pthreadId_ t) (p_phase pt)) by (split; [done|]; by exists t, pt).
  destruct (early (p_phase pt)) eqn:He; [destruct (p_phase pt) eqn:Hph; try done|].
  - destruct (awaits_tid w obj _ e Hw Ha) as (w1 & E1 & Hw1 & Ha1). destruct (awaits_latch w1 obj _ e Hw1 Ha1) as (w2 & E2 & Hw2 & Ha2).
    destruct (awaits_open w2 obj _ _ Hw2 Ha2 eq_refl) as (w' & E3 & ?). exists 2%nat, w'. split_and!; [lia| |done].
    simpl. rewrite E1. simpl. rewrite E2. simpl. by rewrite E3.
  - destruct (awaits_latch w obj _ e Hw Ha) as (w2 & E2 & Hw2 & Ha2).
    destruct (awaits_open w2 obj _ _ Hw2 Ha2 eq_refl) as (w' & E3 & ?). exists 1%nat, w'. split_and!; [lia| |done].
    simpl. rewrite E2. simpl. by rewrite E3.
  - destruct (awaits_open w obj _ _ Hw Ha He) as (w' & E3 & ?). exists 0%nat, w'. split_and!; [lia| |done].
    simpl. by rewrite E3.
Qed.

(** The names of threads constructed one after another; those constructed without
    a name get different ones. *)
Definition name_threads (acc : list bytes * Z) (n : bytes) : outcome (list bytes * Z) :=
  '(name, num) ← setDefaultName (snd acc) n; Ok (fst acc ++ [name], num).

Lemma thread_number_inj x y : lit "Thread" ++ dec x = lit "Thread" ++ dec y -> x = y.
Proof. intros E. apply dec_inj. by apply app_inv_head in E. Qed.

Lemma name_threads_eq ns : forall acc num, 0 <= num -> num + zlen ns < 2 ^ 31 ->
  foldM name_threads (acc, num) ns =
  Ok (acc ++ imap (fun i n => match n with [] => lit "Thread" ++ dec (num + Z.of_nat i + 1) | _ => n end) ns, num + zlen ns).
Proof.
  induction ns as [|n ns IH]; intros acc num H0 Hb.
  - simpl. rewrite app_nil_r. do 2 f_equal. rewrite zlen_nil. lia.
  - rewrite zlen_cons in Hb. pose proof (zlen_nonneg ns). cbn [foldM]. unfold name_threads at 2. cbn [fst snd].
    rewrite setDefaultName_ok by lia. cbn [mbind outcome_bind]. rewrite IH by lia. do 2 f_equal.
    + rewrite <- app_assoc. f_equal. cbn [imap app]. f_equal; [destruct n; [do 2 f_equal; lia|done]|].
      apply imap_ext. intros i x _. unfold compose. destruct x; [|done].
      by replace (num + Z.of_nat (S i) + 1) with (num + 1 + Z.of_nat i + 1) by lia.
    + rewrite zlen_cons. lia.
Qed.

Lemma default_names_distinct ns names num i j :
  zlen ns < 2 ^ 31 -> foldM name_threads ([], 0) ns = Ok (names, num) ->
  ns !! i = Some [] -> ns !! j = Some [] -> names !! i = names !! j -> i = j.
Proof.
  intros Hb Hr Hi Hj E. rewrite name_threads_eq in Hr by lia. injection Hr as <- _.
  rewrite !list_lookup_imap, Hi, Hj in E. cbn [fmap option_fmap option_map] in E. injection E as E.
  assert (E' : lit "Thread" ++ dec (0 + Z.of_nat i + 1) = lit "Thread" ++ dec (0 + Z.of_nat j + 1)) by (simpl; congruence).
  apply thread_number_inj in E'. lia.
Qed.
End Thread.

Module ThreadSample.
Import Thread.

(** Two threads: the object of the first is destroyed right after start(), while
    its thread has not yet called its function; the second is joined. *)
Definition sample_run : list action :=
  [Construct 100 1 []; Construct 200 2 (lit "worker"); Start 100 10 (Some (7, 4001)); StartWait 100;
   Child 7 Returns; Start 200 20 (Some (8, 4002)); Child 8 Returns; Child 7 Returns; StartWait 100; Destroy 100;
   Child 7 Returns; Child 8 Returns; StartWait 200; Join 200; JoinWait 8; Child 8 Returns; Child 8 Returns; Child 8 Returns;
   JoinWait 8; Child 7 Returns; Child 7 Returns; Destroy 200].

Lemma thread_safe_witness :
  exists w, foldM step newWorld sample_run = Ok w /\ threads_fine w /\ ran w = [(7, 1); (8, 2)] /\ joins w = [8] /\ datas w = ∅.
Proof.
  pose proof (thread_safe sample_run ltac:(vm_compute; reflexivity)) as H.
  destruct (foldM step newWorld sample_run) as [w|] eqn:E; [|vm_compute in E; discriminate].
  exists w. split; [done|]. split; [exact H|]. vm_compute in E. injection E as <-. done.
Defined.

Lemma start_returns_witness :
  exists w t n w', foldM step newWorld [Construct 100 1 []; Start 100 10 (Some (7, 4001))] = Ok w /\
    threads w !! 100 = Some t /\ (n <= 2)%nat /\
    foldM step w (replicate n (Child (pthreadId_ t) ThrowsOther) ++ [StartWait 100]) = Ok w' /\ 100 ∉ starting w'.
Proof.
  set (l := [Construct 100 1 []; Start 100 10 (Some (7, 4001))]).
  destruct (foldM step newWorld l) as [w|] eqn:E; [|vm_compute in E; discriminate].
  destruct (threads w !! 100) as [t|] eqn:Et; [|vm_compute in E; injection E as <-; vm_compute in Et; discriminate].
  destruct (start_returns l w 100 t ThrowsOther ltac:(vm_compute; reflexivity) E Et) as (n & w' & H1 & H2 & H3).
  - vm_compute in E. injection E as <-. simpl. set_solver.
  - by exists w, t, n, w'.
Defined.

(** Outside the protocol: an object destroyed during start() is used by both
    threads; a second join fails its assertion; a function that throws, whatever
    it throws, ends the process. *)
Example thread_misuse :
  foldM step newWorld [Construct 100 1 []; Start 100 10 (Some (7, 4001)); Destroy 100; StartWait 100] = Fault UndefinedBehaviour /\
  foldM step newWorld [Construct 100 1 []; Start 100 10 (Some (7, 4001)); Destroy 100; Child 7 Returns] = Fault UndefinedBehaviour /\
  foldM step newWorld [Construct 100 1 []; Join 100] = Fault AssertFailed /\
  foldM step newWorld (take 14 sample_run ++ [Join 200]) = Fault AssertFailed /\
  (forall e, e <> Returns -> foldM step newWorld ([Construct 100 1 []; Start 100 10 (Some (7, 4001))] ++ replicate 4 (Child 7 e)) = Fault Aborted).
Proof. split_and!; try (vm_compute; reflexivity). intros e He. destruct e; try done; vm_compute; reflexivity. Qed.
End ThreadSample.
