(* ===== verification/ZlibStream.v ===== *)
(** * ZlibStream: net/ZlibStream.h (ZlibOutputStream), net/protobuf/BufferStream.h

    ZlibOutputStream compresses into a Buffer.  zlib itself is a parameter: the
    class [Zlib] has its three functions, the class [ZlibLaws] what zlib.h
    documents of them (how much a call consumes and produces, when it returns
    which code, that a stream being finished is called again only with Z_FINISH
    and the input left, that the output of a finished stream decompresses to the
    input, that the output is bounded in the length of the input).  A call of deflate is
    given the bytes at [next_in] and the room at [next_out].

    BufferOutputStream hands the free space of a Buffer to a serializer.

    Theorems: pieces written and finished always end, give zlib's complete stream
    behind what the buffer held, and decompress to the pieces; a write from a
    Buffer takes a prefix of it; what a serializer writes through Next and BackUp
    is appended to the buffer.  Runs show what the order of writes may break. *)

From S2P Require Import Prelude Buffer.

Definition Z_OK : Z := 0.
Definition Z_STREAM_END : Z := 1.
Definition Z_STREAM_ERROR : Z := -2.
Definition Z_DATA_ERROR : Z := -3.
Definition Z_BUF_ERROR : Z := -5.

Inductive flush := Z_NO_FLUSH | Z_FINISH.

(** ** zlib, and what its documentation promises *)
Class Zlib := {
  ZState : Type;
  deflateInit : Z * ZState;
  (* state, input, output room, flush: code, input consumed, output, state *)
  deflate : ZState -> bytes -> Z -> flush -> Z * Z * bytes * ZState;
  deflateEnd : ZState -> Z;
}.

(** zlib.h: after a call with Z_FINISH that returned Z_OK, deflate "must be called
    again with Z_FINISH and more output space but no more input data, until it
    returns with Z_STREAM_END or an error".  So an open stream may be called in
    any way, and one that is being finished only with Z_FINISH and the input that
    was left. *)
Definition permits {St : Type} (stream : St -> bytes -> bytes -> Prop) (finishing : St -> bytes -> bytes -> bytes -> Prop)
    (s : St) (i o avail : bytes) (f : flush) : Prop :=
  stream s i o \/ f = Z_FINISH /\ finishing s i o avail.

Class ZlibLaws (ZL : Zlib) := {
  (* the state of an open stream that has consumed the first and produced the second *)
  stream : ZState -> bytes -> bytes -> Prop;
  (* the state after Z_FINISH returned Z_OK; the third is the input it left *)
  finishing : ZState -> bytes -> bytes -> bytes -> Prop;
  (* the state of a stream for which Z_STREAM_END was returned *)
  complete : ZState -> Prop;
  inflate : bytes -> option bytes;
  deflateBound : Z -> Z;
  init_ok : fst deflateInit = Z_OK /\ stream (snd deflateInit) [] [];
  (* progress is always possible with input, or when finishing, and with room *)
  deflate_code s i o avail room f code n p s' :
    permits stream finishing s i o avail f -> deflate s avail room f = (code, n, p, s') -> 0 < room ->
    avail <> [] \/ f = Z_FINISH -> code = Z_OK \/ f = Z_FINISH /\ code = Z_STREAM_END;
  deflate_fits s i o avail room f code n p s' :
    permits stream finishing s i o avail f -> deflate s avail room f = (code, n, p, s') -> 0 < room ->
    0 <= n <= zlen avail /\ zlen p <= room;
  deflate_ok s i o avail room n p s' :
    stream s i o -> deflate s avail room Z_NO_FLUSH = (Z_OK, n, p, s') -> 0 < room ->
    stream s' (i ++ ztake n avail) (o ++ p);
  deflate_unfinished s i o avail room n p s' :
    permits stream finishing s i o avail Z_FINISH -> deflate s avail room Z_FINISH = (Z_OK, n, p, s') -> 0 < room ->
    finishing s' (i ++ ztake n avail) (o ++ p) (zdrop n avail);
  (* it stops when the input is used up or the output is full *)
  deflate_stops s i o avail room f n p s' :
    permits stream finishing s i o avail f -> deflate s avail room f = (Z_OK, n, p, s') -> 0 < room ->
    zlen p = room \/ f = Z_NO_FLUSH /\ n = zlen avail;
  deflate_end s i o avail room n p s' :
    permits stream finishing s i o avail Z_FINISH -> deflate s avail room Z_FINISH = (Z_STREAM_END, n, p, s') -> 0 < room ->
    n = zlen avail /\ complete s' /\ inflate (o ++ p) = Some (i ++ avail);
  bound_ok s i o avail f : permits stream finishing s i o avail f -> zlen o <= deflateBound (zlen (i ++ avail));
  bound_mono m n : 0 <= m <= n -> deflateBound m <= deflateBound n;
  deflateEnd_ok s : complete s -> deflateEnd s = Z_OK;
}.

Section zlib.
Context {ZL : Zlib}.

(** [avail]: the [avail_in] bytes at [next_in]; address 0 is NULL. *)
Record z_stream := mkZstream {
  next_in : Z;
  avail : bytes;
  total_in : Z;
  total_out : Z;
  zstate : ZState;
}.

(** [ends]: history, the calls of deflateEnd. *)
Record ZlibOutputStream := mkZlib {
  output_ : Buffer;
  zstream_ : z_stream;
  zerror_ : Z;
  bufferSize_ : Z;
  ends : nat;
}.

Definition newZlibOutputStream (output : Buffer) : ZlibOutputStream :=
  let '(code, s) := deflateInit in mkZlib output (mkZstream 0 [] 0 0 s) code 1024 0.

Definition zlibErrorCode (z : ZlibOutputStream) : Z := zerror_ z.
Definition inputBytes (z : ZlibOutputStream) : Z := i64 (total_in (zstream_ z)).
Definition outputBytes (z : ZlibOutputStream) : Z := i64 (total_out (zstream_ z)).
Definition internalOutputBufferSize (z : ZlibOutputStream) : Z := bufferSize_ z.

Definition set_zerror (e : Z) (z : ZlibOutputStream) := mkZlib (output_ z) (zstream_ z) e (bufferSize_ z) (ends z).
Definition set_input (next : Z) (a : bytes) (z : ZlibOutputStream) :=
  mkZlib (output_ z) (mkZstream next a (total_in (zstream_ z)) (total_out (zstream_ z)) (zstate (zstream_ z)))
    (zerror_ z) (bufferSize_ z) (ends z).

Definition compress (f : flush) (z : ZlibOutputStream) : outcome (Z * ZlibOutputStream) :=
  out ← ensureWritableBytes (bufferSize_ z) (output_ z);
  let zs := zstream_ z in
  let avail_out := u32 (i32 (writableBytes out)) in
  let '(error, n, p, s) := deflate (zstate zs) (avail zs) avail_out f in
  let zs := mkZstream (next_in zs + n) (zdrop n (avail zs)) (u64 (total_in zs + n)) (u64 (total_out zs + zlen p)) s in
  let avail_out := u32 (avail_out - zlen p) in
  out ← hasWritten (u64 (writableBytes out - avail_out)) (storeAtWrite p out);
  let size := if (writableBytes out =? 0) && (bufferSize_ z <? 65536) then i32 (bufferSize_ z * 2) else bufferSize_ z in
  Ok (error, mkZlib out zs (zerror_ z) size (ends z)).

Definition avail_in (z : ZlibOutputStream) : Z := zlen (avail (zstream_ z)).

Fixpoint write_loop (fuel : nat) (z : ZlibOutputStream) : outcome ZlibOutputStream :=
  if (0 <? avail_in z) && (zerror_ z =? Z_OK) then
    match fuel with
    | O => Fault OutOfFuel
    | S fuel => '(e, z) ← compress Z_NO_FLUSH z; write_loop fuel (set_zerror e z)
    end
  else Ok z.

(** write(StringPiece): the piece is the bytes [buf] at address [data]. *)
Definition write (fuel : nat) (data : Z) (buf : bytes) (z : ZlibOutputStream) : outcome (bool * ZlibOutputStream) :=
  if negb (zerror_ z =? Z_OK) then Ok (false, z)
  else
    c_assert ((next_in (zstream_ z) =? 0) && (avail_in z =? 0));;
    z ← write_loop fuel (set_input data buf z);
    z ← (if avail_in z =? 0 then
           (c_assert (next_in (zstream_ z) =? data + zlen buf);; Ok (set_input 0 [] z))
         else Ok z);
    Ok (zerror_ z =? Z_OK, z).

(** The write of a Buffer: [base] is the address of the input's storage. *)
Definition writeBuffer (base : Z) (input : Buffer) (z : ZlibOutputStream) : outcome (bool * Buffer * ZlibOutputStream) :=
  if negb (zerror_ z =? Z_OK) then Ok (false, input, z)
  else
    let z := set_input (base + peek input) (ztake (u32 (i32 (readableBytes input))) (content input)) z in
    z ← (if (0 <? avail_in z) && (zerror_ z =? Z_OK) then
           '(e, z) ← compress Z_NO_FLUSH z; Ok (set_zerror e z)
         else Ok z);
    input ← retrieve (u64 (readableBytes input - avail_in z)) input;
    Ok (zerror_ z =? Z_OK, input, z).

Fixpoint finish_loop (fuel : nat) (z : ZlibOutputStream) : outcome ZlibOutputStream :=
  if zerror_ z =? Z_OK then
    match fuel with
    | O => Fault OutOfFuel
    | S fuel => '(e, z) ← compress Z_FINISH z; finish_loop fuel (set_zerror e z)
    end
  else Ok z.

(** Also the destructor. *)
Definition finish (fuel : nat) (z : ZlibOutputStream) : outcome (bool * ZlibOutputStream) :=
  if negb (zerror_ z =? Z_OK) then Ok (false, z)
  else
    z ← finish_loop fuel z;
    let ok := deflateEnd (zstate (zstream_ z)) =? Z_OK in
    Ok (ok, mkZlib (output_ z) (zstream_ z) Z_STREAM_END (bufferSize_ z) (S (ends z))).

(** Several pieces, each at its address, then finish; the results of the writes. *)
Fixpoint write_all (fuel : nat) (pieces : list (Z * bytes)) (z : ZlibOutputStream) : outcome (list bool * ZlibOutputStream) :=
  match pieces with
  | [] => Ok ([], z)
  | (data, buf) :: rest =>
      '(r, z) ← write fuel data buf z;
      '(rs, z) ← write_all fuel rest z;
      Ok (r :: rs, z)
  end.

(** ** One call of compress *)
Context `{LZ : !ZlibLaws ZL}.

Lemma ensureWritableBytes_size len b b' :
  wf b -> 0 <= len -> writerIndex_ b + len <= vector_max_size -> ensureWritableBytes len b = Ok b' ->
  zlen (buffer_ b') <= Z.max (zlen (buffer_ b)) (writerIndex_ b + len).
Proof.
  intros H Hl Hm. unfold ensureWritableBytes. destruct (writableBytes b <? len).
  - unfold makeSpace. intros Hr. inv_ok. destruct (_ <? _).
    + rewrite wrapU_id in * by wf_lia. destruct (vector_max_size <? _) eqn:E; [done|]. inv_ok. subst. simpl.
      rewrite zlen_zresize by wf_lia. lia.
    + inv_ok. repeat match goal with u : unit |- _ => destruct u end. inv_ok. subst. simpl. pose proof (content_length b H) as Hc. pose proof (readableBytes_wf b H) as Hrd.
      rewrite zlen_zwrite by wf_lia. lia.
  - intros Hr. inv_ok. subst. lia.
Qed.

Definition grown (size : Z) : Prop := exists k, 0 <= k <= 6 /\ size = 1024 * 2 ^ k.

Lemma grown_double size : grown size -> grown (if size <? 65536 then i32 (size * 2) else size).
Proof.
  intros (k & Hk & ->). destruct (Z.ltb_spec (1024 * 2 ^ k) 65536) as [H|H]; [|by exists k].
  assert (k < 6) by (destruct (decide (k = 6)) as [->|]; lia). exists (k + 1). split; [lia|].
  rewrite Z.pow_add_r by lia. rewrite wrapS_id; [lia|lia|]. unfold in_s.
  assert (0 < 2 ^ k) by lia. lia.
Qed.

Lemma grown_range size : grown size -> 1024 <= size <= 65536.
Proof.
  intros (k & Hk & ->). assert (2 ^ 0 <= 2 ^ k <= 2 ^ 6) by (split; apply Z.pow_le_mono_r; lia). lia.
Qed.

(** [i] consumed, and [o] produced behind the content [c0] of a buffer whose write
    index was [w0]; the storage stays below [cap]. *)
Record zbuf (c0 : bytes) (w0 cap : Z) (i o : bytes) (z : ZlibOutputStream) : Prop := {
  zb_wf : wf (output_ z);
  zb_content : content (output_ z) = c0 ++ o;
  zb_writer : writerIndex_ (output_ z) <= w0 + zlen o;
  zb_size : zlen (buffer_ (output_ z)) <= cap;
  zb_grown : grown (bufferSize_ z);
  zb_in : total_in (zstream_ z) = u64 (zlen i);
  zb_out : total_out (zstream_ z) = u64 (zlen o);
}.

(** The stream may be given its input with the flush [f]. *)
Definition zready (i o : bytes) (f : flush) (z : ZlibOutputStream) : Prop :=
  permits stream finishing (zstate (zstream_ z)) i o (avail (zstream_ z)) f.

(** An open stream. *)
Record zopen (c0 : bytes) (w0 cap : Z) (i o : bytes) (z : ZlibOutputStream) : Prop := {
  zo_stream : stream (zstate (zstream_ z)) i o;
  zo_buf : zbuf c0 w0 cap i o z;
}.

Lemma zopen_ready c0 w0 cap i o f z : zopen c0 w0 cap i o z -> zready i o f z.
Proof. intros [H _]. by left. Qed.

(** What a call gives: it consumed [n] bytes and appended [p]. *)
Record compressed (c0 : bytes) (w0 cap : Z) (i o : bytes) (f : flush) (z : ZlibOutputStream) (code n : Z) (p : bytes) (z' : ZlibOutputStream) : Prop := {
  co_code : code = Z_OK \/ f = Z_FINISH /\ code = Z_STREAM_END;
  co_n : 0 <= n <= avail_in z;
  co_next : next_in (zstream_ z') = next_in (zstream_ z) + n;
  co_avail : avail (zstream_ z') = zdrop n (avail (zstream_ z));
  co_ok : code = Z_OK ->
    (f = Z_NO_FLUSH -> zopen c0 w0 cap (i ++ ztake n (avail (zstream_ z))) (o ++ p) z') /\
    zbuf c0 w0 cap (i ++ ztake n (avail (zstream_ z))) (o ++ p) z' /\
    zready (i ++ ztake n (avail (zstream_ z))) (o ++ p) f z' /\
    (1024 <= zlen p \/ f = Z_NO_FLUSH /\ n = avail_in z);
  co_end : code = Z_STREAM_END -> n = avail_in z /\ wf (output_ z') /\ content (output_ z') = c0 ++ o ++ p /\
    complete (zstate (zstream_ z')) /\ inflate (o ++ p) = Some (i ++ avail (zstream_ z)) /\
    total_in (zstream_ z') = u64 (zlen (i ++ avail (zstream_ z))) /\ total_out (zstream_ z') = u64 (zlen (o ++ p));
  co_zerror : zerror_ z' = zerror_ z;
  co_ends : ends z' = ends z;
  co_grown : grown (bufferSize_ z');
}.

Lemma u64_add_l x y : u64 (u64 x + y) = u64 (x + y).
Proof. unfold wrapU. by rewrite Z.add_mod_idemp_l by lia. Qed.

Lemma compress_spec c0 w0 cap i o f z :
  zready i o f z -> zbuf c0 w0 cap i o z ->
  avail (zstream_ z) <> [] \/ f = Z_FINISH -> w0 + zlen o + 65536 <= cap < 2 ^ 31 ->
  exists code n p z', compress f z = Ok (code, z') /\ compressed c0 w0 cap i o f z code n p z'.
Proof.
  intros Hs [Hwf Hc Hw Hsz Hg Hti Hto] Hwork Hcap. pose proof (grown_range _ Hg) as Hgr. pose proof (zlen_nonneg o).
  destruct (ensureWritableBytes_spec (bufferSize_ z) (output_ z) Hwf) as (b1 & Eb & Hwf1 & Hc1 & Hroom & _ & Hw1); [lia|wf_lia|].
  pose proof (ensureWritableBytes_size (bufferSize_ z) (output_ z) b1 Hwf ltac:(lia) ltac:(wf_lia) Eb) as Hsz1.
  unfold compress. rewrite Eb. cbn [mbind outcome_bind].
  assert (Hav : u32 (i32 (writableBytes b1)) = writableBytes b1).
  { rewrite writableBytes_wf in * by done. rewrite wrapS_id by (unfold in_s; wf_lia). by rewrite wrapU_id by (unfold in_u; wf_lia). }
  rewrite Hav. destruct (deflate _ _ _ f) as [[[code n] p] s'] eqn:Ed.
  assert (Hpos : 0 < writableBytes b1) by lia.
  destruct (deflate_fits _ _ _ _ _ _ _ _ _ _ Hs Ed Hpos) as [Hn Hp]. pose proof (zlen_nonneg p).
  destruct (storeAtWrite_hasWritten p b1 Hwf1 Hp) as (b2 & Eb2 & Hwf2 & Hc2 & _ & Hw2).
  assert (Hlen : zlen (buffer_ b2) = zlen (buffer_ b1)).
  { unfold hasWritten in Eb2. inv_ok. subst b2. simpl. rewrite (writableBytes_wf b1) in * by done. unfold beginWrite. apply zlen_zwrite; wf_lia. }
  assert (Hwr1 : writableBytes b1 < 2 ^ 31) by (rewrite writableBytes_wf by done; wf_lia).
  replace (u64 (writableBytes b1 - u32 (writableBytes b1 - zlen p))) with (zlen p)
    by (rewrite (wrapU_id 32) by (unfold in_u; lia); rewrite wrapU_id by (unfold in_u; lia); lia).
  rewrite Eb2. cbn [mbind outcome_bind].
  eexists code, n, p, _. split; [done|].
  assert (Hg2 : grown (if (writableBytes b2 =? 0) && (bufferSize_ z <? 65536) then i32 (bufferSize_ z * 2) else bufferSize_ z)).
  { destruct (writableBytes b2 =? 0); [simpl; by apply grown_double|done]. }
  constructor; simpl; try done.
  - by apply (deflate_code _ _ _ _ _ _ _ _ _ _ Hs Ed).
  - intros ->. set (z' := mkZlib _ _ _ _ _). assert (Hb : zbuf c0 w0 cap (i ++ ztake n (avail (zstream_ z))) (o ++ p) z').
    { constructor; simpl; try done.
      - by rewrite Hc2, Hc1, Hc, app_assoc.
      - rewrite zlen_app. lia.
      - lia.
      - rewrite Hti, u64_add_l, zlen_app, zlen_ztake by done. done.
      - by rewrite Hto, u64_add_l, zlen_app. }
    assert (Ho : f = Z_NO_FLUSH -> stream s' (i ++ ztake n (avail (zstream_ z))) (o ++ p)).
    { intros ->. destruct Hs as [Hs|[? _]]; [|done]. by apply (deflate_ok _ _ _ _ _ _ _ _ Hs Ed). }
    split_and!; [|done| |].
    + intros E. constructor; [by apply Ho|done].
    + destruct f; [left; by apply Ho|right]. split; [done|]. by apply (deflate_unfinished _ _ _ _ _ _ _ _ Hs Ed).
    + destruct (deflate_stops _ _ _ _ _ _ _ _ _ Hs Ed Hpos) as [->|?]; [left; lia|by right].
  - intros ->. assert (f = Z_FINISH) as -> by (destruct (deflate_code _ _ _ _ _ _ _ _ _ _ Hs Ed Hpos Hwork) as [?|[? _]]; done).
    destruct (deflate_end _ _ _ _ _ _ _ _ Hs Ed Hpos) as (Hn' & Hcmp & Hinf). split_and!; try done.
    + by rewrite Hc2, Hc1, Hc, app_assoc.
    + by rewrite Hti, u64_add_l, zlen_app, Hn'.
    + by rewrite Hto, u64_add_l, zlen_app.
Qed.

(** ** The loops end *)
Section loops.
Context (c0 : bytes) (w0 cap T : Z).
Context (Hcap : w0 + deflateBound T + 65536 <= cap < 2 ^ 31).

Lemma zready_bound i o f z : zready i o f z -> zlen (i ++ avail (zstream_ z)) <= T -> zlen o <= deflateBound T.
Proof.
  intros H Hi. etrans; [apply (bound_ok _ _ _ _ _ H)|]. apply bound_mono. pose proof (zlen_nonneg (i ++ avail (zstream_ z))). lia.
Qed.

Lemma zbuf_set_zerror e i o z : zbuf c0 w0 cap i o z -> zbuf c0 w0 cap i o (set_zerror e z).
Proof. by intros [? ? ? ? ? ? ?]. Qed.

Lemma zopen_set_zerror e i o z : zopen c0 w0 cap i o z -> zopen c0 w0 cap i o (set_zerror e z).
Proof. intros [? Hb]. constructor; [done|]. by apply zbuf_set_zerror. Qed.

Lemma zopen_set_input nx a i o z : zopen c0 w0 cap i o z -> zopen c0 w0 cap i o (set_input nx a z).
Proof. intros [? [? ? ? ? ? ? ?]]. constructor; [done|]. by constructor. Qed.

Lemma compress_open i o z :
  zopen c0 w0 cap i o z -> avail (zstream_ z) <> [] -> w0 + zlen o + 65536 <= cap < 2 ^ 31 ->
  exists n p z', compress Z_NO_FLUSH z = Ok (Z_OK, z') /\ compressed c0 w0 cap i o Z_NO_FLUSH z Z_OK n p z'.
Proof.
  intros Ho Ha Hc. destruct (compress_spec c0 w0 cap i o Z_NO_FLUSH z) as (code & n & p & z' & E & H);
    [by eapply zopen_ready|apply Ho|by left|done|].
  exists n, p, z'. assert (code = Z_OK) as -> by (destruct (co_code _ _ _ _ _ _ _ _ _ _ _ H) as [?|[? _]]; done). done.
Qed.

Lemma write_loop_idle fuel z : avail (zstream_ z) = [] -> write_loop fuel z = Ok z.
Proof. intros E. destruct fuel; simpl; unfold avail_in; by rewrite E. Qed.

(** A stream between two calls: nothing pending, no error. *)
Record zidle (i o : bytes) (z : ZlibOutputStream) : Prop := {
  zi_open : zopen c0 w0 cap i o z;
  zi_avail : avail (zstream_ z) = [];
  zi_error : zerror_ z = Z_OK;
  zi_ends : ends z = 0%nat;
}.

Lemma write_loop_spec fuel : forall i o z,
  zopen c0 w0 cap i o z -> zerror_ z = Z_OK -> ends z = 0%nat -> zlen (i ++ avail (zstream_ z)) <= T ->
  deflateBound T - zlen o < Z.of_nat fuel ->
  exists o' z', write_loop fuel z = Ok z' /\ zidle (i ++ avail (zstream_ z)) (o ++ o') z' /\
    next_in (zstream_ z') = next_in (zstream_ z) + avail_in z.
Proof.
  induction fuel as [|fuel IH]; intros i o z Ho He Hend HT Hf.
  all: pose proof (zready_bound i o Z_NO_FLUSH z ltac:(by eapply zopen_ready) HT) as Hbo; pose proof (zlen_nonneg o).
  all: destruct (decide (avail (zstream_ z) = [])) as [Ea|Ea].
  1, 3: exists [], z; rewrite write_loop_idle by done; unfold avail_in; rewrite Ea, !app_nil_r; split_and!; [done|by constructor|znil; lia].
  - lia.
  - destruct (compress_open i o z Ho Ea) as (n & p & z1 & Ec & [_ Cn Cx Ca Cok _ Cz Ce _]); [lia|].
    destruct (Cok eq_refl) as (Ho1 & _ & _ & Hprog). specialize (Ho1 eq_refl). clear Cok.
    cbn [write_loop]. assert (Hav : 0 < avail_in z).
    { unfold avail_in. pose proof (zlen_nonneg (avail (zstream_ z))). destruct (decide (zlen (avail (zstream_ z)) = 0)) as [E|]; [by apply zlen_0_nil in E|lia]. }
    rewrite (proj2 (Z.ltb_lt _ _)), He by done. cbn [Z_OK Z.eqb andb]. rewrite Ec. cbn [mbind outcome_bind].
    assert (Hsplit : (i ++ ztake n (avail (zstream_ z))) ++ avail (zstream_ z1) = i ++ avail (zstream_ z)).
    { by rewrite Ca, <- app_assoc, ztake_zdrop. }
    assert (Hlen1 : avail_in z1 = avail_in z - n) by (unfold avail_in in *; rewrite Ca, zlen_zdrop by done; done).
    destruct Hprog as [Hp|[_ Hn]].
    + destruct (IH (i ++ ztake n (avail (zstream_ z))) (o ++ p) (set_zerror Z_OK z1)) as (o' & z' & E' & Hidle & Hnx); simpl.
      * by apply zopen_set_zerror.
      * done.
      * congruence.
      * by rewrite Hsplit.
      * rewrite zlen_app. lia.
      * simpl in Hidle. rewrite Hsplit, <- app_assoc in Hidle. exists (p ++ o'), z'. split_and!; [done|done|].
        rewrite Hnx. simpl. rewrite Cx. change (avail_in (set_zerror Z_OK z1)) with (avail_in z1). lia.
    + assert (Ez : avail (zstream_ z1) = []) by (rewrite Ca, Hn; apply zdrop_all; unfold avail_in; lia).
      rewrite write_loop_idle by done. exists p, (set_zerror Z_OK z1). rewrite Ez, app_nil_r in Hsplit.
      split_and!; [done| |by rewrite <- Hn]. constructor; simpl; try done; [|congruence].
      rewrite <- Hsplit. by apply zopen_set_zerror.
Qed.

Lemma write_spec fuel data buf i o z :
  zidle i o z -> next_in (zstream_ z) = 0 -> zlen (i ++ buf) <= T -> deflateBound T < Z.of_nat fuel ->
  exists o' z', write fuel data buf z = Ok (true, z') /\ zidle (i ++ buf) (o ++ o') z' /\ next_in (zstream_ z') = 0.
Proof.
  intros [Ho Ha He Hend] Hnx HT Hf. unfold write. rewrite He. cbn [Z_OK Z.eqb negb].
  assert (Hav : forall y, avail (zstream_ y) = [] -> avail_in y = 0) by (unfold avail_in; by intros y ->).
  rewrite Hnx, Hav by done. rewrite c_assert_bind_true by done. pose proof (zlen_nonneg o).
  destruct (write_loop_spec fuel i o (set_input data buf z)) as (o' & z' & -> & Hidle & Hn'); simpl; try done.
  { by apply zopen_set_input. }
  { lia. }
  pose proof Hidle as [Ho' Ha' He' Hend']. cbn [mbind outcome_bind]. rewrite (Hav z') by done. cbn [Z.eqb].
  rewrite c_assert_bind_true by (apply Z.eqb_eq; rewrite Hn'; done). cbn [mbind outcome_bind].
  exists o', (set_input 0 [] z'). simpl. rewrite He'. split_and!; try done. constructor; simpl; try done. by apply zopen_set_input.
Qed.

(** The finished stream. *)
Record zdone (i o : bytes) (z : ZlibOutputStream) : Prop := {
  zd_wf : wf (output_ z);
  zd_content : content (output_ z) = c0 ++ o;
  zd_inflate : inflate o = Some i;
  zd_complete : complete (zstate (zstream_ z));
  zd_in : total_in (zstream_ z) = u64 (zlen i);
  zd_out : total_out (zstream_ z) = u64 (zlen o);
  zd_size : grown (bufferSize_ z);
}.

Lemma finish_loop_spec fuel : forall i o z,
  zready i o Z_FINISH z -> zbuf c0 w0 cap i o z -> zerror_ z = Z_OK -> zlen (i ++ avail (zstream_ z)) <= T ->
  deflateBound T - zlen o < Z.of_nat fuel ->
  exists o' z', finish_loop fuel z = Ok z' /\ zdone (i ++ avail (zstream_ z)) (o ++ o') z' /\
    zerror_ z' = Z_STREAM_END /\ ends z' = ends z.
Proof.
  induction fuel as [|fuel IH]; intros i o z Hr Hb He HT Hf.
  all: pose proof (zready_bound i o Z_FINISH z Hr HT) as Hbo; pose proof (zlen_nonneg o).
  { lia. }
  destruct (compress_spec c0 w0 cap i o Z_FINISH z Hr Hb) as (code & n & p & z1 & Ec & [Cc Cn Cx Ca Cok Cend Cz Ce Cg]); [by right|lia|].
  cbn [finish_loop]. rewrite He. cbn [Z_OK Z.eqb]. rewrite Ec. cbn [mbind outcome_bind].
  destruct Cc as [->|[_ ->]].
  - destruct (Cok eq_refl) as (_ & Hb1 & Hr1 & [Hp|[? _]]); [|done].
    assert (Hsplit : (i ++ ztake n (avail (zstream_ z))) ++ avail (zstream_ z1) = i ++ avail (zstream_ z)).
    { by rewrite Ca, <- app_assoc, ztake_zdrop. }
    destruct (IH (i ++ ztake n (avail (zstream_ z))) (o ++ p) (set_zerror Z_OK z1)) as (o' & z' & E' & Hdone & Hz' & He'); simpl.
    + done.
    + by apply zbuf_set_zerror.
    + done.
    + by rewrite Hsplit.
    + rewrite zlen_app. lia.
    + simpl in *. rewrite Hsplit, <- app_assoc in Hdone. exists (p ++ o'), z'. split_and!; try done. congruence.
  - destruct (Cend eq_refl) as (Hn & Hwf & Hc & Hcmp & Hinf & Hti & Hto). exists p, (set_zerror Z_STREAM_END z1).
    split_and!; [by destruct fuel|by constructor|done|done].
Qed.
End loops.

Lemma write_all_spec c0 w0 cap T fuel pieces : w0 + deflateBound T + 65536 <= cap < 2 ^ 31 -> deflateBound T < Z.of_nat fuel ->
  forall i o z, zidle c0 w0 cap i o z -> next_in (zstream_ z) = 0 -> zlen (i ++ concat pieces.*2) <= T ->
  exists o' z', write_all fuel pieces z = Ok (replicate (length pieces) true, z') /\
    zidle c0 w0 cap (i ++ concat pieces.*2) (o ++ o') z' /\ next_in (zstream_ z') = 0.
Proof.
  intros Hcap Hf. induction pieces as [|[data buf] pieces IH]; intros i o z Hz Hnx HT.
  - exists [], z. simpl. by rewrite !app_nil_r.
  - rewrite fmap_cons in *. cbn [write_all length replicate concat snd] in *. rewrite app_assoc in HT.
    destruct (write_spec c0 w0 cap T Hcap fuel data buf i o z) as (o1 & z1 & -> & Hz1 & Hn1); try done.
    { rewrite zlen_app in HT. pose proof (zlen_nonneg (concat pieces.*2)). lia. }
    cbn [mbind outcome_bind]. destruct (IH _ _ _ Hz1 Hn1 HT) as (o2 & z2 & -> & Hz2 & Hn2). exists (o1 ++ o2), z2.
    split; [done|]. split; [|done]. by rewrite !app_assoc.
Qed.

(** ** Pieces in, one zlib stream out *)
Definition compress_pieces (fuel : nat) (pieces : list (Z * bytes)) (output : Buffer) : outcome (list bool * bool * ZlibOutputStream) :=
  '(rs, z) ← write_all fuel pieces (newZlibOutputStream output);
  '(ok, z) ← finish fuel z;
  Ok (rs, ok, z).

Lemma new_idle output cap : wf output -> zlen (buffer_ output) <= cap ->
  zidle (content output) (writerIndex_ output) cap [] [] (newZlibOutputStream output) /\
  next_in (zstream_ (newZlibOutputStream output)) = 0.
Proof.
  intros Hwf Hsz. destruct init_ok as [Hc Hs]. unfold newZlibOutputStream. destruct deflateInit as [code st]. simpl in *.
  split; [|done]. constructor; try done. constructor; [done|]. constructor; simpl; try done.
  - by rewrite app_nil_r.
  - znil. lia.
  - by exists 0.
Qed.

Lemma finish_spec c0 w0 cap T fuel i o z : w0 + deflateBound T + 65536 <= cap < 2 ^ 31 -> deflateBound T < Z.of_nat fuel ->
  zopen c0 w0 cap i o z -> zerror_ z = Z_OK -> zlen (i ++ avail (zstream_ z)) <= T ->
  exists o' z', finish fuel z = Ok (true, z') /\ zdone c0 (i ++ avail (zstream_ z)) (o ++ o') z' /\
    zerror_ z' = Z_STREAM_END /\ ends z' = S (ends z).
Proof.
  intros Hcap Hf Ho He HT. pose proof (zlen_nonneg o).
  destruct (finish_loop_spec c0 w0 cap T Hcap fuel i o z (zopen_ready _ _ _ _ _ _ _ Ho) (zo_buf _ _ _ _ _ _ Ho) He HT) as (o' & z' & Hl & Hd & Hz & Hn); [lia|].
  unfold finish. rewrite He. cbn [Z_OK Z.eqb negb]. rewrite Hl. cbn [mbind outcome_bind].
  rewrite (deflateEnd_ok _ (zd_complete _ _ _ _ Hd)). exists o'. eexists. split; [done|]. simpl.
  split; [by destruct Hd|]. split; [done|congruence].
Qed.

(** C34: With a zlib that keeps its contract ([ZlibLaws]), whatever pieces are written
    to a new stream over any buffer, the output staying below 2 GiB, every write
    succeeds, finish ends and succeeds, and the buffer holds what it held, followed
    by a complete stream that decompresses to the pieces in order; the counters are
    right, zlib's state is released once, and a second finish (the destructor) does
    nothing. *)
Theorem zlib_roundtrip fuel pieces output
  (Hwf : wf output) (Hsize : zlen (buffer_ output) < 2 ^ 31)
  (Hroom : writerIndex_ output + deflateBound (zlen (concat pieces.*2)) + 65536 < 2 ^ 31)
  (Hin : zlen (concat pieces.*2) < 2 ^ 63)
  (Hfuel : deflateBound (zlen (concat pieces.*2)) < Z.of_nat fuel) :
  exists out z, compress_pieces fuel pieces output = Ok (replicate (length pieces) true, true, z) /\
    content (output_ z) = content output ++ out /\ inflate out = Some (concat pieces.*2) /\
    inputBytes z = zlen (concat pieces.*2) /\ outputBytes z = zlen out /\
    1024 <= internalOutputBufferSize z <= 65536 /\ ends z = 1%nat /\ finish fuel z = Ok (false, z).
Proof.
  set (T := zlen (concat pieces.*2)) in *. set (w0 := writerIndex_ output) in *.
  set (cap := Z.max (zlen (buffer_ output)) (w0 + deflateBound T + 65536)).
  assert (Hcap : w0 + deflateBound T + 65536 <= cap < 2 ^ 31) by lia.
  destruct (new_idle output cap Hwf ltac:(lia)) as [Hi Hn].
  destruct (write_all_spec _ w0 cap T fuel pieces Hcap Hfuel [] [] _ Hi Hn ltac:(simpl; lia)) as (o1 & z1 & E1 & [Ho1 Ha1 He1 Hd1] & _).
  destruct (finish_spec _ w0 cap T fuel _ _ z1 Hcap Hfuel Ho1 He1) as (o2 & z2 & E2 & [D1 D2 D3 D4 D5 D6 D7] & He2 & Hd2).
  { rewrite Ha1, app_nil_r. simpl. lia. }
  rewrite Ha1, app_nil_r in *. simpl in *. exists (o1 ++ o2), z2.
  unfold compress_pieces. rewrite E1. cbn [mbind outcome_bind]. rewrite E2. cbn [mbind outcome_bind].
  assert (Hob : 0 <= zlen (o1 ++ o2) < 2 ^ 63).
  { pose proof (content_length _ D1) as Hl. rewrite readableBytes_wf, D2, zlen_app in Hl by done.
    pose proof (zlen_nonneg (content output)). pose proof (zlen_nonneg (o1 ++ o2)). wf_lia. }
  pose proof (zlen_nonneg (concat pieces.*2)). fold T in H.
  unfold inputBytes, outputBytes, internalOutputBufferSize. rewrite D5, D6, !wrapS_wrapU, !wrapS_id by (unfold in_s; lia).
  split_and!; try done; try (by apply grown_range); [congruence|]. unfold finish. by rewrite He2.
Qed.

(** The write of a Buffer takes a prefix of it, possibly not all: then a full
    block of output was produced. *)
Theorem writeBuffer_prefix c0 w0 cap i o base input z
  (Hcap : w0 + zlen o + 65536 <= cap < 2 ^ 31) (Hwf : wf input) (Hlen : readableBytes input < 2 ^ 31)
  (Hz : zopen c0 w0 cap i o z) (Hok : zerror_ z = Z_OK) :
  exists n p input' z', writeBuffer base input z = Ok (true, input', z') /\ 0 <= n <= readableBytes input /\
    content input' = zdrop n (content input) /\ zopen c0 w0 cap (i ++ ztake n (content input)) (o ++ p) z' /\
    avail (zstream_ z') = content input' /\ (content input' = [] \/ 1024 <= zlen p).
Proof.
  pose proof (content_length input Hwf) as Hcl. pose proof (zlen_nonneg (content input)).
  unfold writeBuffer. rewrite Hok. cbn [Z_OK Z.eqb negb].
  rewrite wrapS_id, wrapU_id by (unfold in_s, in_u; lia). rewrite <- Hcl, ztake_all by lia.
  set (z1 := set_input (base + peek input) (content input) z).
  assert (Hz1 : zopen c0 w0 cap i o z1) by (by apply zopen_set_input).
  destruct (decide (content input = [])) as [E|E].
  - assert (Ea : avail_in z1 = 0) by (unfold avail_in; simpl; by rewrite E). rewrite Ea. cbn [Z.ltb Z.compare andb mbind outcome_bind].
    rewrite Ea, Z.sub_0_r, wrapU_id by (unfold in_u; lia).
    destruct (retrieve_spec (zlen (content input)) input Hwf) as (b & -> & Hb & Hc & _); [lia|]. cbn [mbind outcome_bind].
    exists 0, [], b, z1. change (zerror_ z1) with (zerror_ z). rewrite Hc, E, Hok, !app_nil_r. split_and!; try done; try lia. by left.
  - destruct (compress_open c0 w0 cap i o z1 Hz1 E) as (n & p & z2 & Ec & [_ Cn Cx Ca Cok _ Cz Ce _]); [done|].
    destruct (Cok eq_refl) as (Ho1 & _ & _ & Hprog). specialize (Ho1 eq_refl). clear Cok.
    assert (0 < avail_in z1).
    { unfold avail_in. simpl. destruct (decide (zlen (content input) = 0)) as [E'|]; [by apply zlen_0_nil in E'|lia]. }
    rewrite (proj2 (Z.ltb_lt _ _)) by done. change (zerror_ z1) with (zerror_ z). rewrite Hok. cbn [Z_OK Z.eqb andb].
    rewrite Ec. cbn [mbind outcome_bind]. change (avail_in z1) with (zlen (content input)) in *.
    assert (Ha2 : avail_in (set_zerror Z_OK z2) = zlen (content input) - n) by (unfold avail_in; simpl; rewrite Ca; by apply zlen_zdrop).
    rewrite Ha2, wrapU_id by (unfold in_u; lia). replace (zlen (content input) - (zlen (content input) - n)) with n by lia.
    destruct (retrieve_spec n input Hwf) as (b & -> & Hb & Hc & _); [lia|]. cbn [mbind outcome_bind].
    exists n, p, b, (set_zerror Z_OK z2). split_and!; try done; try lia.
    + by apply zopen_set_zerror.
    + by rewrite Hc.
    + destruct Hprog as [?|[_ ->]]; [by right|left]. rewrite Hc. by apply zdrop_all.
Qed.
End zlib.

(** ** A concrete zlib: bytes are stored, and a closing byte is added *)
Module ZlibSample.
(** As zlib, it refuses any other call than Z_FINISH with the input that was left
    (here: as many bytes) when it is being finished, and all calls afterwards. *)
Inductive phase := Open | Finishing (left_in : Z) | Done.

Definition stored_finish (a : bytes) (room : Z) : Z * Z * bytes * phase :=
  let n := Z.min (zlen a) room in
  if n <? room then (Z_STREAM_END, n, ztake n a ++ ["."%char], Done)
  else (Z_OK, n, ztake n a, Finishing (zlen a - n)).

Definition stored_deflate (s : phase) (a : bytes) (room : Z) (f : flush) : Z * Z * bytes * phase :=
  match s, f with
  | Open, Z_NO_FLUSH =>
      let n := Z.min (zlen a) room in (if n =? 0 then Z_BUF_ERROR else Z_OK, n, ztake n a, Open)
  | Open, Z_FINISH => stored_finish a room
  | Finishing k, Z_FINISH => if zlen a =? k then stored_finish a room else (Z_BUF_ERROR, 0, [], s)
  | Finishing _, Z_NO_FLUSH | Done, _ => (Z_STREAM_ERROR, 0, [], s)
  end.

#[export] Instance stored : Zlib := {|
  ZState := phase;
  deflateInit := (Z_OK, Open);
  deflate := stored_deflate;
  deflateEnd s := match s with Done => Z_OK | _ => Z_DATA_ERROR end;
|}.

Definition stored_stream (s : phase) (i o : bytes) : Prop := s = Open /\ o = i.
Definition stored_finishing (s : phase) (i o a : bytes) : Prop := s = Finishing (zlen a) /\ o = i.

Lemma stored_no_flush s i o a room : stored_stream s i o ->
  stored_deflate s a room Z_NO_FLUSH =
    (if Z.min (zlen a) room =? 0 then Z_BUF_ERROR else Z_OK, Z.min (zlen a) room, ztake (Z.min (zlen a) room) a, Open).
Proof. by intros [-> _]. Qed.

Lemma stored_finishes s i o a room : permits stored_stream stored_finishing s i o a Z_FINISH ->
  stored_deflate s a room Z_FINISH = stored_finish a room /\ o = i.
Proof. intros [[-> ->]|(_ & -> & ->)]; [done|]. simpl. by rewrite Z.eqb_refl. Qed.

#[export, refine] Instance stored_laws : ZlibLaws stored := {|
  stream := stored_stream;
  finishing := stored_finishing;
  complete s := s = Done;
  inflate l := Some (ztake (zlen l - 1) l);
  deflateBound n := n + 1;
|}.
Proof.
  all: cbn [deflate deflateInit deflateEnd stored ZState].
  - done.
  - intros s i o a room [] code n p s' Hp Hd Hr Hw.
    + destruct Hp as [Hs|[? _]]; [|done]. rewrite (stored_no_flush _ _ _ _ _ Hs) in Hd. injection Hd as <- _ _ _. left.
      destruct Hw as [Ha|]; [|done]. assert (zlen a <> 0) by (intros E; by apply Ha, zlen_0_nil). pose proof (zlen_nonneg a).
      by rewrite (proj2 (Z.eqb_neq _ _)) by lia.
    + destruct (stored_finishes _ _ _ _ room Hp) as [E _]. rewrite E in Hd. unfold stored_finish in Hd.
      destruct (_ <? _); injection Hd as <- _ _ _; [by right|by left].
  - intros s i o a room f code n p s' Hp Hd Hr. pose proof (zlen_nonneg a). destruct f.
    + destruct Hp as [Hs|[? _]]; [|done]. rewrite (stored_no_flush _ _ _ _ _ Hs) in Hd. injection Hd as _ <- <- _.
      rewrite zlen_ztake by lia. lia.
    + destruct (stored_finishes _ _ _ _ room Hp) as [E _]. rewrite E in Hd. unfold stored_finish in Hd.
      destruct (Z.ltb_spec (Z.min (zlen a) room) room); injection Hd as _ <- <- _;
        rewrite ?zlen_app, zlen_ztake by lia; change (zlen ["."%char]) with 1; lia.
  - intros s i o a room n p s' Hs Hd Hr. rewrite (stored_no_flush _ _ _ _ _ Hs) in Hd. injection Hd as _ <- <- <-.
    by destruct Hs as [_ ->].
  - intros s i o a room n p s' Hp Hd Hr. pose proof (zlen_nonneg a).
    destruct (stored_finishes _ _ _ _ room Hp) as [E ->]. rewrite E in Hd. unfold stored_finish in Hd.
    destruct (_ <? _); [done|]. injection Hd as <- <- <-. split; [|done]. by rewrite zlen_zdrop by lia.
  - intros s i o a room f n p s' Hp Hd Hr. pose proof (zlen_nonneg a). destruct f.
    + destruct Hp as [Hs|[? _]]; [|done]. rewrite (stored_no_flush _ _ _ _ _ Hs) in Hd. injection Hd as _ <- <- _.
      rewrite zlen_ztake by lia. destruct (decide (zlen a <= room)); [right; split; [done|lia]|left; lia].
    + destruct (stored_finishes _ _ _ _ room Hp) as [E _]. rewrite E in Hd. unfold stored_finish in Hd.
      destruct (Z.ltb_spec (Z.min (zlen a) room) room); [done|]. injection Hd as <- <- _. left. rewrite zlen_ztake by lia. lia.
  - intros s i o a room n p s' Hp Hd Hr. pose proof (zlen_nonneg a).
    destruct (stored_finishes _ _ _ _ room Hp) as [E ->]. rewrite E in Hd. unfold stored_finish in Hd.
    destruct (Z.ltb_spec (Z.min (zlen a) room) room); [|done]. injection Hd as <- <- <-.
    rewrite Z.min_l, (ztake_all (zlen a) a) by lia. split_and!; [done|done|].
    f_equal. rewrite app_assoc, ztake_app_exact; [done|]. rewrite (zlen_app (i ++ a)). change (zlen ["."%char]) with 1. lia.
  - intros s i o a f Hp. pose proof (zlen_nonneg a). rewrite zlen_app. destruct Hp as [[_ ->]|(_ & _ & ->)]; lia.
  - lia.
  - by intros s ->.
Defined.

Definition empty_output : Buffer := mkBuffer (replicate 1032 nul) 8 8.
Lemma empty_output_wf : wf empty_output.
Proof. by vm_compute. Qed.

(** 3000 bytes in two pieces: the output buffer has to grow. *)
Definition pieces : list (Z * bytes) := [(4096, replicate 2999 "x"%char); (9000, lit "y")].

Lemma zlib_roundtrip_witness :
  exists out z, compress_pieces 3002 pieces empty_output = Ok ([true; true], true, z) /\
    content (output_ z) = out /\ inflate out = Some (replicate 2999 "x"%char ++ lit "y").
Proof.
  destruct (zlib_roundtrip 3002 pieces empty_output empty_output_wf) as (out & z & H1 & H2 & H3 & _);
    try (vm_compute; reflexivity).
  exists out, z. split; [exact H1|]. split; [rewrite H2; reflexivity|]. rewrite H3. reflexivity.
Defined.

Definition input : Buffer := mkBuffer (replicate 8 nul ++ replicate 1100 "x"%char) 8 1108.
Lemma input_wf : wf input.
Proof. by vm_compute. Qed.

Lemma writeBuffer_prefix_witness :
  exists n p input' z', writeBuffer 5000 input (newZlibOutputStream empty_output) = Ok (true, input', z') /\
    0 <= n <= 1100 /\ content input' = zdrop n (content input) /\ content (output_ z') = p.
Proof.
  destruct (new_idle empty_output (2 ^ 20) empty_output_wf) as [[Ho _ He _] _]; [vm_compute; discriminate|].
  destruct (writeBuffer_prefix (content empty_output) (writerIndex_ empty_output) (2 ^ 20) [] [] 5000 input
    (newZlibOutputStream empty_output)) as (n & p & b & z & H1 & H2 & H3 & H4 & _).
  - split; vm_compute; congruence.
  - apply input_wf.
  - vm_compute. reflexivity.
  - exact Ho.
  - exact He.
  - exists n, p, b, z. split; [exact H1|]. split; [exact H2|]. split; [exact H3|]. rewrite (zb_content _ _ _ _ _ _ (zo_buf _ _ _ _ _ _ H4)). reflexivity.
Defined.

(** After the write of a Buffer next_in is not reset: the write of a piece then
    fails its assertion, even when the Buffer was empty. *)
Example piece_after_buffer_aborts :
  ('(_, _, z) ← writeBuffer 5000 empty_output (newZlibOutputStream empty_output);
   write 10 4096 (lit "abc") z) = Fault AssertFailed.
Proof. vm_compute. reflexivity. Qed.

(** When the write of a Buffer left bytes in it, finish compresses those as well,
    although they are still readable in the Buffer. *)
Example finish_takes_unread_bytes :
  exists b z, ('(_, b, z) ← writeBuffer 5000 input (newZlibOutputStream empty_output);
               '(_, z) ← finish 1200 z; Ok (b, z)) = Ok (b, z) /\
    readableBytes b = 76 /\ inflate (content (output_ z)) = Some (content input).
Proof.
  destruct ('(_, b, z) ← writeBuffer 5000 input (newZlibOutputStream empty_output);
            '(_, z) ← finish 1200 z; Ok (b, z)) as [[b z]|] eqn:E; [|vm_compute in E; discriminate].
  exists b, z. split; [done|]. vm_compute in E. injection E as <- <-. vm_compute. done.
Qed.

(** After an error finish does not call deflateEnd: the memory of zlib is lost. *)
Example finish_after_error_leaks (z : ZlibOutputStream) fuel :
  zerror_ z <> Z_OK -> finish fuel z = Ok (false, z).
Proof. intros H. unfold finish. by rewrite (proj2 (Z.eqb_neq _ _)). Qed.
End ZlibSample.

(** ** BufferOutputStream *)
Record BufferOutputStream := mkStream { bs_buffer : Buffer; originalSize_ : Z }.

Definition newBufferOutputStream (b : Buffer) : BufferOutputStream := mkStream b (readableBytes b).

(** The block handed out, as its offset in the storage and its size. *)
Definition Next (s : BufferOutputStream) : outcome (Z * Z * BufferOutputStream) :=
  b ← ensureWritableBytes 4096 (bs_buffer s);
  let data := beginWrite b in
  let size := i32 (writableBytes b) in
  b ← hasWritten (u64 size) b;
  Ok (data, size, mkStream b (originalSize_ s)).

Definition BackUp (count : Z) (s : BufferOutputStream) : outcome BufferOutputStream :=
  b ← unwrite (u64 count) (bs_buffer s);
  Ok (mkStream b (originalSize_ s)).

Definition ByteCount (s : BufferOutputStream) : Z := i64 (u64 (readableBytes (bs_buffer s) - originalSize_ s)).

(** A serializer: it asks for a block, stores bytes that depend on the size offered
    at the start of it, and gives the rest back.  [log] collects what it wrote. *)
Definition poke (off : Z) (data : bytes) (s : BufferOutputStream) : BufferOutputStream :=
  let b := bs_buffer s in
  mkStream (mkBuffer (zwrite off data (buffer_ b)) (readerIndex_ b) (writerIndex_ b)) (originalSize_ s).

Definition serialize (x : BufferOutputStream * bytes) (f : Z -> bytes) : outcome (BufferOutputStream * bytes) :=
  let '(s, log) := x in
  '(data, size, s) ← Next s;
  s ← BackUp (size - zlen (f size)) (poke data (f size) s);
  Ok (s, log ++ f size).

(** One block: asking, storing and giving back is appending. *)
Lemma serialize_append s log f b1 :
  ensureWritableBytes 4096 (bs_buffer s) = Ok b1 -> wf b1 -> zlen (buffer_ b1) < 2 ^ 31 -> zlen (f (writableBytes b1)) <= writableBytes b1 ->
  serialize (s, log) f =
    (b ← hasWritten (zlen (f (writableBytes b1))) (storeAtWrite (f (writableBytes b1)) b1);
     Ok (mkStream b (originalSize_ s), log ++ f (writableBytes b1))).
Proof.
  intros E Hwf Hsz Hf. unfold serialize, Next. rewrite E. cbn [mbind outcome_bind].
  pose proof (writableBytes_wf b1 Hwf) as Hw. assert (Hr : 0 <= writableBytes b1 < 2 ^ 31) by wf_lia.
  rewrite wrapS_id by (unfold in_s; lia). rewrite (wrapU_id 64 (writableBytes b1)) by (unfold in_u; lia).
  set (d := f (writableBytes b1)) in *. pose proof (zlen_nonneg d).
  unfold hasWritten at 1. rewrite c_assert_bind_true by lia. cbn [mbind outcome_bind].
  assert (Hst : zlen (zwrite (beginWrite b1) d (buffer_ b1)) = zlen (buffer_ b1)) by (unfold beginWrite; apply zlen_zwrite; wf_lia).
  rewrite (wrapU_id 64 (writerIndex_ b1 + writableBytes b1)) by (unfold in_u; wf_lia).
  unfold BackUp, poke, unwrite. cbn [bs_buffer originalSize_ buffer_ readerIndex_ writerIndex_]. fold d.
  rewrite (wrapU_id 64 (writableBytes b1 - zlen d)) by (unfold in_u; lia).
  rewrite c_assert_bind_true.
  2:{ unfold readableBytes. simpl. apply Z.leb_le. rewrite wrapU_id; [wf_lia|unfold in_u; wf_lia]. }
  cbn [mbind outcome_bind]. unfold hasWritten. rewrite c_assert_bind_true.
  2:{ apply Z.leb_le. unfold writableBytes, storeAtWrite. simpl. rewrite Hst. fold (writableBytes b1). done. }
  cbn [mbind outcome_bind]. do 4 f_equal. simpl. f_equal. lia.
Qed.

Record serialized (c0 : bytes) (w0 cap : Z) (s : BufferOutputStream) (log : bytes) : Prop := {
  sz_wf : wf (bs_buffer s);
  sz_content : content (bs_buffer s) = c0 ++ log;
  sz_size : originalSize_ s = zlen c0;
  sz_writer : writerIndex_ (bs_buffer s) <= w0 + zlen log;
  sz_cap : zlen (buffer_ (bs_buffer s)) <= cap;
}.

Lemma serialize_keeps c0 w0 cap s log f :
  serialized c0 w0 cap s log -> w0 + zlen log + 4096 <= cap < 2 ^ 31 -> (forall size, 0 <= size -> zlen (f size) <= size) ->
  exists size s', serialize (s, log) f = Ok (s', log ++ f size) /\ serialized c0 w0 cap s' (log ++ f size) /\ 0 <= size.
Proof.
  intros [H1 H2 H3 H4 H5] Hc Hf. pose proof (zlen_nonneg log).
  destruct (ensureWritableBytes_spec 4096 (bs_buffer s) H1) as (b1 & E & W1 & C1 & R1 & _ & X1); [lia|wf_lia|].
  pose proof (ensureWritableBytes_size 4096 (bs_buffer s) b1 H1 ltac:(lia) ltac:(wf_lia) E) as S1.
  rewrite (serialize_append s log f b1) by (done || lia || apply Hf; lia).
  destruct (storeAtWrite_hasWritten (f (writableBytes b1)) b1 W1 (Hf (writableBytes b1) ltac:(lia))) as (b2 & E2 & W2 & C2 & _ & X2).
  exists (writableBytes b1), (mkStream b2 (originalSize_ s)). rewrite E2. split; [done|]. split; [|simpl; lia].
  constructor; simpl; try done.
  - by rewrite C2, C1, H2, app_assoc.
  - rewrite zlen_app. lia.
  - unfold hasWritten in E2. inv_ok. subst b2. simpl. pose proof (Hf (writableBytes b1) ltac:(lia)) as Hd.
    rewrite (writableBytes_wf b1) in * by done. unfold beginWrite.
    rewrite zlen_zwrite; [lia|wf_lia|wf_lia].
Qed.

(** A block of a serializer: a bound on what it stores, and the bytes it stores in a
    block of a given size. *)
Definition block_ok (x : Z * (Z -> bytes)) 
  : Prop := forall size, 0 <= size -> zlen (snd x size) <= size /\ zlen (snd x size) <= fst x.
Definition block_total (fs : list (Z * (Z -> bytes))) : Z := foldr (fun x t => fst x + t) 0 fs.

Lemma block_total_nonneg fs : Forall block_ok fs -> 0 <= block_total fs.
Proof.
  induction 1 as [|x fs Hx _ IH]; simpl; [done|]. destruct (Hx 0 ltac:(lia)). pose proof (zlen_nonneg (snd x 0)). fold (block_total fs). lia.
Qed.

Lemma serialize_all c0 w0 cap fs : Forall block_ok fs -> forall s log,
  serialized c0 w0 cap s log -> w0 + zlen log + block_total fs + 4096 <= cap < 2 ^ 31 ->
  exists s' log', foldM serialize (s, log) (map snd fs) = Ok (s', log') /\ serialized c0 w0 cap s' log'.
Proof.
  induction 1 as [|x fs Hx Hfs IH]; intros s log Hs Hc; [by exists s, log|].
  pose proof (block_total_nonneg fs Hfs). simpl in Hc. fold (block_total fs) in Hc. destruct (Hx 0 ltac:(lia)) as [_ H0].
  pose proof (zlen_nonneg (snd x 0)).
  destruct (serialize_keeps c0 w0 cap s log (snd x) Hs) as (size & s1 & E1 & Hs1 & Hsz); [lia|intros; by apply Hx|].
  cbn [map foldM]. rewrite E1. cbn [mbind outcome_bind]. apply IH; [done|]. rewrite zlen_app. destruct (Hx size Hsz). lia.
Qed.

(** What a serializer writes through the stream, in blocks of any sizes, is appended
    to the buffer, and ByteCount is its length. *)
Theorem buffer_stream_appends (b : Buffer) (fs : list (Z * (Z -> bytes)))
  (Hwf : wf b) (Hfs : Forall block_ok fs)
  (Hsize : zlen (buffer_ b) < 2 ^ 31) (Hroom : writerIndex_ b + block_total fs + 4096 < 2 ^ 31) :
  exists s log, foldM serialize (newBufferOutputStream b, []) (map snd fs) = Ok (s, log) /\
    content (bs_buffer s) = content b ++ log /\ ByteCount s = zlen log.
Proof.
  pose proof (content_length b Hwf) as Hl.
  destruct (serialize_all (content b) (writerIndex_ b) (Z.max (zlen (buffer_ b)) (writerIndex_ b + block_total fs + 4096)) fs Hfs
              (newBufferOutputStream b) []) as (s & log & E & [H1 H2 H3 _ _]).
  { constructor; simpl; try done; [by rewrite app_nil_r|znil; lia|lia]. }
  { znil. lia. }
  exists s, log. split_and!; [done|done|]. unfold ByteCount. pose proof (content_length _ H1) as Hl1.
  rewrite readableBytes_wf, H2, zlen_app in Hl1 by done. pose proof (zlen_nonneg log). pose proof (zlen_nonneg (content b)).
  rewrite readableBytes_wf, H3, wrapS_wrapU, wrapS_id by (done || lia || unfold in_s; wf_lia). lia.
Qed.

(** 5000 bytes into the 1024 free bytes of a new buffer: the first block takes what
    it is given, the second the rest. *)
Lemma buffer_stream_appends_witness :
  let fs := [(5000, fun size => ztake size (replicate 5000 "x"%char)); (10, fun size => ztake size (lit "end"))] in
  exists s log, foldM serialize (newBufferOutputStream ZlibSample.empty_output, []) (map snd fs) = Ok (s, log) /\
    content (bs_buffer s) = log /\ ByteCount s = zlen log.
Proof.
  intros fs. destruct (buffer_stream_appends ZlibSample.empty_output fs ZlibSample.empty_output_wf) as (s & log & H1 & H2 & H3).
  - constructor; [|constructor; [|constructor]]; intros size Hs; cbn [fst snd]; unfold ztake, zlen; rewrite length_take.
    + rewrite length_replicate. lia.
    + change (length (lit "end")) with 3%nat. lia.
  - vm_compute. reflexivity.
  - vm_compute. reflexivity.
  - exists s, log. split; [exact H1|]. split; [rewrite H2; reflexivity|exact H3].
Defined.
