(* ===== verification/Singletons.v ===== *)
(** * Singletons: base/Singleton, base/ThreadLocal, base/ThreadLocalSingleton,
    base/WeakCallback

    - [Singleton]: threads call instance() over pthread_once; the steps of the
      initialiser are separate actions, so that other threads see it unfinished.
    - [ThreadLocal], [ThreadLocalSingleton]: objects behind pthread keys; the
      kernel's side (the values of a key in each thread, the destructors run when a
      thread exits) is written out.
    - [WeakCallback]: shared and weak pointers with their counts.

    Objects are addresses in a set of live ones.  Theorems: a Singleton is
    constructed once, every caller gets the same live object and no caller waits
    for ever; a thread-local object belongs to one thread and one variable, stays
    the same, and is deleted exactly when its thread exits, unless its ThreadLocal
    was destroyed before; a WeakCallback runs its function exactly when the object
    is alive, and the object lives until the function has returned. *)

From S2P Require Import Prelude.

Module Singleton.
Inductive once := Never | Initialising (t : Z) | Done.

(** A thread inside instance(). *)
Inductive phase := Idle | AtOnce | InitNew | InitAtexit | AfterOnce.

#[export] Instance once_eq_dec : EqDecision once.
Proof. solve_decision. Defined.
#[export] Instance phase_eq_dec : EqDecision phase.
Proof. solve_decision. Defined.

Record State := mkState {
  ponce_ : once;
  value_ : option Z;
  alive : gset Z;
  handlers : nat;               (* registrations of destroy with atexit *)
  phases : gmap Z phase;
  returned : list (Z * Z);      (* history: thread, object it got *)
  created : list Z;             (* history *)
}.

Definition newState : State := mkState Never None ∅ 0 ∅ [] [].

Definition phase_of (s : State) (t : Z) : phase := default Idle (phases s !! t).

Definition set_phase (t : Z) (p : phase) (s : State) : State :=
  mkState (ponce_ s) (value_ s) (alive s) (handlers s) (<[t := p]> (phases s)) (returned s) (created s).

Section singleton.
(** detail::has_no_destroy<T>::value *)
Context (has_no_destroy : bool).

(** init(), in two steps; [addr] is the address [new] answers. *)
Definition init_new (t addr : Z) (s : State) : outcome State :=
  if bool_decide (addr ∈ alive s) then Fault BadAlloc
  else Ok (mkState (ponce_ s) (Some addr) ({[addr]} ∪ alive s) (handlers s) (<[t := InitAtexit]> (phases s))
             (returned s) (created s ++ [addr])).

Definition init_atexit (t : Z) (s : State) : State :=
  mkState Done (value_ s) (alive s) (if has_no_destroy then handlers s else S (handlers s))
    (<[t := AfterOnce]> (phases s)) (returned s) (created s).

Definition destroy (s : State) : outcome State :=
  match value_ s with
  | Some a =>
      if bool_decide (a ∈ alive s) then
        Ok (mkState (ponce_ s) None (alive s ∖ {[a]}) (handlers s) (phases s) (returned s) (created s))
      else Fault UndefinedBehaviour
  | None => Ok s
  end.

(** A step of thread [t] inside instance(): pthread_once lets one thread run init,
    and the others wait until it is done. *)
Definition instance_step (t addr : Z) (s : State) : outcome State :=
  match phase_of s t with
  | Idle => Ok s
  | AtOnce =>
      match ponce_ s with
      | Never => Ok (mkState (Initialising t) (value_ s) (alive s) (handlers s) (<[t := InitNew]> (phases s)) (returned s) (created s))
      | Initialising _ => Ok s
      | Done => Ok (set_phase t AfterOnce s)
      end
  | InitNew => init_new t addr s
  | InitAtexit => Ok (init_atexit t s)
  | AfterOnce =>
      match value_ s with
      | None => Fault AssertFailed
      | Some a => Ok (mkState (ponce_ s) (value_ s) (alive s) (handlers s) (<[t := Idle]> (phases s)) (returned s ++ [(t, a)]) (created s))
      end
  end.

Inductive action := Call (t : Z) | Step (t addr : Z).

Definition step (s : State) (a : action) : outcome State :=
  match a with
  | Call t => if bool_decide (phase_of s t = Idle) then Ok (set_phase t AtOnce s) else Ok s
  | Step t addr => instance_step t addr s
  end.

(** The end of the program runs the handlers. *)
Definition exit_program (s : State) : outcome State := Nat.iter (handlers s) (fun o => s ← o; destroy s) (Ok s).

Record inv (s : State) : Prop := {
  iv_never : ponce_ s = Never -> value_ s = None /\ created s = [] /\ handlers s = O /\ (forall t, phase_of s t = Idle \/ phase_of s t = AtOnce);
  iv_running : forall t, ponce_ s = Initialising t -> handlers s = O /\
    (phase_of s t = InitNew /\ value_ s = None /\ created s = [] \/
     phase_of s t = InitAtexit /\ exists a, value_ s = Some a /\ created s = [a]) /\
    (forall u, u <> t -> phase_of s u = Idle \/ phase_of s u = AtOnce);
  iv_done : ponce_ s = Done -> (exists a, value_ s = Some a /\ created s = [a]) /\ handlers s = (if has_no_destroy then O else 1%nat) /\
    (forall u, phase_of s u <> InitNew /\ phase_of s u <> InitAtexit);
  iv_alive : forall a, a ∈ alive s <-> a ∈ created s;
  iv_returned : forall t a, (t, a) ∈ returned s -> value_ s = Some a /\ ponce_ s = Done;
}.

Lemma phase_after s s' t p u : phases s' = <[t := p]> (phases s) ->
  phase_of s' u = if decide (u = t) then p else phase_of s u.
Proof.
  intros E. unfold phase_of. rewrite E.
  destruct (decide (u = t)) as [->|]; [by rewrite lookup_insert_eq|by rewrite lookup_insert_ne].
Qed.

(** Cases on whether a thread is the one that moved. *)
Ltac moved s :=
  repeat match goal with
  | |- context [phase_of ?x ?u] =>
      lazymatch x with s => fail | _ => rewrite (phase_after s x _ _ u eq_refl) end
  end;
  repeat case_decide; subst; try done.

Lemma singleton_step_keeps s a : inv s -> post inv (fun _ => False) (step s a).
Proof.
  intros [In Ir Id Ia Iret]. destruct a as [t|t addr]; simpl.
  - case_bool_decide as Hi; [|by constructor].
    constructor; simpl; try done.
    + intros E. destruct (In E) as (? & ? & ? & Hp). split_and!; try done. intros u. moved s; auto.
    + intros u E. destruct (Ir u E) as (? & Hu & Hp). split_and!; try done.
      * moved s. destruct Hu as [[? _]|[? _]]; congruence.
      * intros v Hv. moved s; auto.
    + intros E. destruct (Id E) as (? & ? & Hp). split_and!; try done. intros u. moved s; auto.
  - unfold instance_step. destruct (phase_of s t) eqn:Ht; [by constructor| | | |].
    + destruct (ponce_ s) as [|t'|] eqn:Eo; [|by constructor; rewrite ?Eo|].
      * destruct (In eq_refl) as (Hv & Hc & Hh & Hp). constructor; simpl; try done.
        -- intros u [= <-]. split_and!; [done| |]; [left; by moved s|]. intros u Hu. moved s; auto.
        -- intros u a Hin. by destruct (Iret u a Hin).
      * destruct (Id eq_refl) as (? & ? & Hp). constructor; simpl; rewrite ?Eo; try done.
        intros _. split_and!; try done. intros u. moved s; auto.
    + unfold init_new. destruct (ponce_ s) as [|t'|] eqn:Eo.
      * destruct (In eq_refl) as (_ & _ & _ & Hp). destruct (Hp t); congruence.
      * destruct (Ir t' eq_refl) as (Hh & Hu & Hp). destruct (decide (t = t')) as [->|Hne]; [|destruct (Hp t Hne); congruence].
        destruct Hu as [(_ & Hv & Hc)|[? _]]; [|congruence]. rewrite bool_decide_false by (rewrite Ia, Hc; apply not_elem_of_nil).
        constructor; simpl; rewrite ?Eo; try done.
        -- intros u [= <-]. split_and!; [done| |]; [right; moved s; split; [done|]; exists addr; by rewrite Hc|].
           intros u Hu. moved s; auto.
        -- intros a. rewrite Hc. cbn [app]. rewrite list_elem_of_singleton, elem_of_union, elem_of_singleton. rewrite Ia, Hc, elem_of_nil. naive_solver.
        -- intros u a Hin. by destruct (Iret u a Hin).
      * destruct (Id eq_refl) as (_ & _ & Hp). by destruct (Hp t).
    + destruct (ponce_ s) as [|t'|] eqn:Eo.
      * destruct (In eq_refl) as (_ & _ & _ & Hp). destruct (Hp t); congruence.
      * destruct (Ir t' eq_refl) as (Hh & Hu & Hp). destruct (decide (t = t')) as [->|Hne]; [|destruct (Hp t Hne); congruence].
        destruct Hu as [[? _]|(_ & Hv)]; [congruence|]. constructor; simpl; try done.
        -- intros _. rewrite Hh. split_and!; [done|done|]. intros u. moved s. destruct (Hp u) as [->| ->]; done.
        -- intros u a Hin. by destruct (Iret u a Hin).
      * destruct (Id eq_refl) as (_ & _ & Hp). by destruct (Hp t).
    + assert (Ed : ponce_ s = Done).
      { destruct (ponce_ s) as [|t'|] eqn:Eo; [destruct (In eq_refl) as (_ & _ & _ & Hp); destruct (Hp t); congruence| |done].
        destruct (Ir t' eq_refl) as (_ & Hu & Hp). destruct (decide (t = t')) as [->|Hne]; [|destruct (Hp t Hne); congruence].
        destruct Hu as [[? _]|[? _]]; congruence. }
      destruct (Id Ed) as ((a & Hv & Hc) & Hh & Hp). rewrite Hv. constructor; simpl; rewrite ?Ed; try done.
      * intros _. split_and!; [by exists a|done|]. intros u. moved s; auto.
      * intros u b Hin. apply elem_of_app in Hin as [Hin|Hin].
        -- destruct (Iret u b Hin). split; [congruence|done].
        -- apply list_elem_of_singleton in Hin as [= -> ->]. done.
Qed.

Lemma singleton_run_keeps l : post inv (fun _ => False) (foldM step newState l).
Proof.
  apply (foldM_post (fun _ => inv)); [intros; by apply singleton_step_keeps|].
  constructor; simpl; try done; set_solver.
Qed.

(** In every interleaving of calls of instance(): no assertion fails, the object is
    constructed at most once, every call returned that object and it is alive; the
    end of the program deletes it, unless its class says otherwise. *)
Theorem singleton_once l :
  post (fun s =>
      (length (created s) <= 1)%nat /\
      (forall t a, (t, a) ∈ returned s -> created s = [a] /\ a ∈ alive s) /\
      (ponce_ s = Done -> post (fun s' => alive s' = if has_no_destroy then alive s else ∅) (fun _ => False) (exit_program s)))
    (fun _ => False) (foldM step newState l).
Proof.
  eapply post_mono; [apply singleton_run_keeps|]. intros s Hinv. pose proof Hinv as [In Ir Id Ia Iret]. split_and!.
  - destruct (ponce_ s) as [|t|]; [destruct (In eq_refl) as (_ & -> & _); simpl; lia| |destruct (Id eq_refl) as ((a & _ & ->) & _); simpl; lia].
    destruct (Ir t eq_refl) as (_ & [(_ & _ & ->)|(_ & a & _ & ->)] & _); simpl; lia.
  - intros t a Hin. destruct (Iret t a Hin) as [Hv Hd]. destruct (Id Hd) as ((b & Hb & Hc) & _).
    assert (b = a) as -> by congruence. split; [done|]. rewrite Ia, Hc. by apply list_elem_of_singleton.
  - intros Hd. destruct (Id Hd) as ((a & Hv & Hc) & Hh & _). unfold exit_program. rewrite Hh.
    destruct has_no_destroy; simpl; [done|]. unfold destroy. rewrite Hv.
    assert (Ha : forall b, b ∈ alive s <-> b = a) by (intros b; rewrite Ia, Hc; apply list_elem_of_singleton).
    rewrite bool_decide_true by (by apply Ha). simpl. set_solver.
Qed.

(** Nobody waits for ever: from any state a caller has its object after at most six
    steps of its own or of the thread that runs the initialiser. *)
Definition run_steps (l : list (Z * Z)) (s : State) : outcome State :=
  foldM step s (map (fun x => Step (fst x) (snd x)) l).

Lemma after_once s t : inv s -> phase_of s t = AfterOnce ->
  exists s' a, run_steps [(t, 0)] s = Ok s' /\ (t, a) ∈ returned s'.
Proof.
  intros Hi Ht. pose proof (singleton_step_keeps s (Step t 0) Hi) as Hk. unfold run_steps. simpl in *. unfold instance_step in *.
  rewrite Ht in *. destruct (value_ s) as [a|]; [|done]. eexists _, a. split; [done|]. simpl. apply elem_of_app. right.
  by apply list_elem_of_singleton.
Qed.

Lemma run_steps_cons x l s : run_steps (x :: l) s = (s' ← step s (Step (fst x) (snd x)); run_steps l s').
Proof. done. Qed.

Lemma once_done s t : inv s -> ponce_ s = Done -> phase_of s t <> Idle ->
  exists l s' a, (length l <= 2)%nat /\ run_steps l s = Ok s' /\ (t, a) ∈ returned s'.
Proof.
  intros Hi Hd Ht. destruct (iv_done _ Hi Hd) as (_ & _ & Hp). destruct (Hp t) as [H1 H2].
  destruct (phase_of s t) eqn:E; try done.
  - pose proof (singleton_step_keeps s (Step t 0) Hi) as Hk. simpl in Hk. unfold instance_step in Hk. rewrite E, Hd in Hk. simpl in Hk.
    destruct (after_once _ t Hk) as (s' & a & Hr & Hin); [by moved s|]. exists [(t, 0); (t, 0)], s', a. split; [simpl; lia|]. split; [|done].
    rewrite run_steps_cons. simpl. unfold instance_step. rewrite E, Hd. exact Hr.
  - destruct (after_once s t Hi E) as (s' & a & Hr & Hin). exists [(t, 0)], s', a. split; [simpl; lia|done].
Qed.

Lemma once_running s t u : inv s -> ponce_ s = Initialising u -> phase_of s t <> Idle ->
  exists l s' a, (length l <= 4)%nat /\ run_steps l s = Ok s' /\ (t, a) ∈ returned s'.
Proof.
  intros Hi Ho Ht. destruct (iv_running _ Hi u Ho) as (_ & Hu & Hp).
  assert (Hlate : forall s, inv s -> phase_of s t <> Idle -> phase_of s u = InitAtexit ->
    exists l s' a, (length l <= 3)%nat /\ run_steps l s = Ok s' /\ (t, a) ∈ returned s').
  { clear s Hi Ho Ht Hu Hp. intros s Hi Ht Hu. pose proof (singleton_step_keeps s (Step u 0) Hi) as Hk. simpl in Hk. unfold instance_step in Hk.
    rewrite Hu in Hk. simpl in Hk. destruct (once_done (init_atexit u s) t Hk) as (l & s' & a & Hl & Hr & Hin); [done| |].
    { by moved s. }
    exists ((u, 0) :: l), s', a. split; [simpl; lia|]. split; [|done]. rewrite run_steps_cons. simpl. unfold instance_step. by rewrite Hu. }
  destruct Hu as [(Hu & Hv & Hc)|[Hu _]].
  - assert (Hf : step s (Step u 0) = init_new u 0 s) by (simpl; unfold instance_step; by rewrite Hu).
    pose proof (singleton_step_keeps s (Step u 0) Hi) as Hk. rewrite Hf in Hk. unfold init_new in Hf, Hk.
    rewrite bool_decide_false in Hf, Hk by (rewrite (iv_alive _ Hi), Hc; apply not_elem_of_nil). simpl in Hk.
    destruct (Hlate _ Hk) as (l & s' & a & Hl & Hr & Hin); [by moved s|by moved s|].
    exists ((u, 0) :: l), s', a. split; [simpl; lia|]. split; [|done]. rewrite run_steps_cons. cbn [fst snd]. rewrite Hf. exact Hr.
  - destruct (Hlate s Hi Ht Hu) as (l & s' & a & Hl & Hr & Hin). exists l, s', a. split; [lia|done].
Qed.

Theorem instance_returns l s t (Hrun : foldM step newState l = Ok s) (Hin : phase_of s t <> Idle) :
  exists l' s' a, (length l' <= 6)%nat /\ run_steps l' s = Ok s' /\ (t, a) ∈ returned s'.
Proof.
  pose proof (singleton_run_keeps l) as Hi. rewrite Hrun in Hi. simpl in Hi. destruct (ponce_ s) as [|u|] eqn:Ho.
  - pose proof (singleton_step_keeps s (Step t 0) Hi) as Hk. destruct (iv_never _ Hi Ho) as (_ & _ & _ & Hp).
    destruct (Hp t) as [?|Ht]; [done|]. simpl in Hk. unfold instance_step in Hk. rewrite Ht, Ho in Hk. simpl in Hk.
    edestruct (once_running _ t t Hk eq_refl) as (l' & s' & a & Hl & Hr & Hret); [by moved s|].
    exists ((t, 0) :: l'), s', a. split; [simpl; lia|]. split; [|done]. rewrite run_steps_cons. simpl. unfold instance_step.
    rewrite Ht, Ho. exact Hr.
  - destruct (once_running s t u Hi Ho Hin) as (l' & s' & a & Hl & Hr & Hret). exists l', s', a. split; [lia|done].
  - destruct (once_done s t Hi Ho Hin) as (l' & s' & a & Hl & Hr & Hret). exists l', s', a. split; [lia|done].
Qed.
End singleton.

(** Two threads: the second arrives while the first constructs. *)
Lemma instance_returns_witness :
  let l := [Call 1; Step 1 0; Call 2; Step 2 0; Step 1 500] in
  exists s l' s' a, foldM (step false) newState l = Ok s /\ (length l' <= 6)%nat /\ run_steps false l' s = Ok s' /\ (2, a) ∈ returned s'.
Proof.
  intros l. destruct (foldM (step false) newState l) as [s|] eqn:E; [|vm_compute in E; discriminate].
  destruct (instance_returns false l s 2 E) as (l' & s' & a & H).
  - vm_compute in E. injection E as <-. vm_compute. discriminate.
  - by exists s, l', s', a.
Defined.

(** After the end of the program's main function the object is gone, and instance()
    fails its assertion. *)
Example instance_after_exit :
  (s ← foldM (step false) newState [Call 1; Step 1 0; Step 1 500; Step 1 0; Step 1 0];
   s ← exit_program s; foldM (step false) s [Call 1; Step 1 0; Step 1 0]) = Fault AssertFailed.
Proof. vm_compute. reflexivity. Qed.
End Singleton.

(** ** Thread-specific data: the non-null values, by thread and key *)
Abbreviation tsd := (gmap (Z * Z) Z).

Definition entries (t : Z) (m : tsd) : list Z :=
  omap (fun x : Z * Z * Z => if decide (fst (fst x) = t) then Some (snd x) else None) (map_to_list m).
Definition forget_thread (t : Z) (m : tsd) : tsd := filter (fun x : Z * Z * Z => fst (fst x) <> t) m.
Definition forget_key (k : Z) (m : tsd) : tsd := filter (fun x : Z * Z * Z => snd (fst x) <> k) m.

Definition of_key (k : Z) (m : tsd) : gset Z :=
  list_to_set (omap (fun x : Z * Z * Z => if decide (snd (fst x) = k) then Some (snd x) else None) (map_to_list m)).

Lemma elem_of_entries t m o : o ∈ entries t m <-> exists k, m !! (t, k) = Some o.
Proof.
  unfold entries. rewrite list_elem_of_omap. split.
  - intros ([[u k] v] & Hin & Hv). simpl in Hv. case_decide; simplify_eq. exists k. by apply elem_of_map_to_list in Hin.
  - intros (k & Hk). exists (t, k, o). split; [by apply elem_of_map_to_list|]. simpl. by rewrite decide_True.
Qed.

Lemma elem_of_key k m o : o ∈ of_key k m <-> exists t, m !! (t, k) = Some o.
Proof.
  unfold of_key. rewrite elem_of_list_to_set, list_elem_of_omap. split.
  - intros ([[t u] v] & Hin & Hv). simpl in Hv. case_decide; simplify_eq. exists t. by apply elem_of_map_to_list in Hin.
  - intros (t & Hk). exists (t, k, o). split; [by apply elem_of_map_to_list|]. simpl. by rewrite decide_True.
Qed.

Lemma lookup_forget_thread t m u k o : forget_thread t m !! (u, k) = Some o <-> m !! (u, k) = Some o /\ u <> t.
Proof. unfold forget_thread. by rewrite map_lookup_filter_Some. Qed.

Lemma lookup_forget_key k m t u o : forget_key k m !! (t, u) = Some o <-> m !! (t, u) = Some o /\ u <> k.
Proof. unfold forget_key. by rewrite map_lookup_filter_Some. Qed.

Lemma entries_nodup t m :
  (forall x y o, m !! x = Some o -> m !! y = Some o -> x = y) -> NoDup (entries t m).
Proof.
  intros Hinj. unfold entries.
  assert (Hl : forall l : list (Z * Z * Z), NoDup l.*1 -> (forall x, x ∈ l -> m !! fst x = Some (snd x)) ->
    NoDup (omap (fun x : Z * Z * Z => if decide (fst (fst x) = t) then Some (snd x) else None) l)).
  { induction l as [|[x v] l IH]; intros Hn Hin; [constructor|]. rewrite fmap_cons in Hn. apply NoDup_cons in Hn as [Hx Hn].
    assert (IH' := IH Hn ltac:(intros; apply Hin; by right)). simpl. case_decide; [|done]. constructor; [|done].
    intros Hv. apply list_elem_of_omap in Hv as ([y w] & Hy & Hw). simpl in Hw. case_decide; simplify_eq.
    apply Hx. rewrite (Hinj x y v); [by apply (list_elem_of_fmap_2 fst) in Hy|apply (Hin (x, v)); by left|apply (Hin (y, v)); by right]. }
  apply Hl; [apply NoDup_fst_map_to_list|]. intros [x v] Hx. by apply elem_of_map_to_list.
Qed.

Module ThreadLocal.
(** [leaked]: history, the objects whose key was deleted under them. *)
Record State := mkState {
  keys : gset Z;
  values : tsd;
  alive : gset Z;
  leaked : gset Z;
}.

Definition newState : State := mkState ∅ ∅ ∅ ∅.

(** [k] is the key pthread_key_create answers. *)
Definition newThreadLocal (k : Z) (s : State) : State := mkState ({[k]} ∪ keys s) (values s) (alive s) (leaked s).

(** pthread_key_delete runs no destructor. *)
Definition destroyThreadLocal (k : Z) (s : State) : outcome State :=
  c_assert (bool_decide (k ∈ keys s));;
  Ok (mkState (keys s ∖ {[k]}) (forget_key k (values s)) (alive s) (leaked s ∪ of_key k (values s))).

(** value() in thread [t]; [addr] is what [new T()] answers. *)
Definition value (t k addr : Z) (s : State) : outcome (Z * State) :=
  match values s !! (t, k) with
  | Some perThreadValue => Ok (perThreadValue, s)
  | None =>
      if bool_decide (addr ∈ alive s) then Fault BadAlloc
      else
        c_assert (bool_decide (k ∈ keys s));;
        Ok (addr, mkState (keys s) (<[(t, k) := addr]> (values s)) ({[addr]} ∪ alive s) (leaked s))
  end.

Definition destructor (a : gset Z) (obj : Z) : outcome (gset Z) :=
  if bool_decide (obj ∈ a) then Ok (a ∖ {[obj]}) else Fault UndefinedBehaviour.

(** The exit of thread [t]: the destructor of each key with a value. *)
Definition exit_thread (t : Z) (s : State) : outcome State :=
  a ← foldM destructor (alive s) (entries t (values s));
  Ok (mkState (keys s) (forget_thread t (values s)) a (leaked s)).

Inductive action := Create (k : Z) | Delete (k : Z) | Value (t k addr : Z) | Exit (t : Z).

Definition step (s : State) (a : action) : outcome State :=
  match a with
  | Create k => Ok (newThreadLocal k s)
  | Delete k => destroyThreadLocal k s
  | Value t k addr => snd <$> value t k addr s
  | Exit t => exit_thread t s
  end.

(** The system answers unused keys and addresses; a variable is used while it
    exists. *)
Definition allowed (s : State) (a : action) : bool :=
  match a with
  | Create k => negb (bool_decide (k ∈ keys s))
  | Delete k => bool_decide (k ∈ keys s)
  | Value t k addr => bool_decide (k ∈ keys s) && negb (bool_decide (addr ∈ alive s))
  | Exit _ => true
  end.

Fixpoint proper (s : State) (l : list action) : bool :=
  match l with
  | [] => true
  | a :: l' => allowed s a && match step s a with Ok s' => proper s' l' | Fault _ => true end
  end.

Record inv (s : State) : Prop := {
  iv_key : forall t k o, values s !! (t, k) = Some o -> k ∈ keys s /\ o ∈ alive s /\ o ∉ leaked s;
  iv_own : forall x y o, values s !! x = Some o -> values s !! y = Some o -> x = y;
  iv_alive : forall o, o ∈ alive s -> o ∈ leaked s \/ exists t k, values s !! (t, k) = Some o;
  iv_leaked : leaked s ⊆ alive s;
}.

Lemma destructors_ok l a : NoDup l -> (forall o, o ∈ l -> o ∈ a) -> foldM destructor a l = Ok (a ∖ list_to_set l).
Proof.
  revert a. induction l as [|o l IH]; intros a Hn Hin; simpl; [f_equal; set_solver|]. apply NoDup_cons in Hn as [Ho Hn].
  unfold destructor at 2. rewrite bool_decide_true by (apply Hin; by left). simpl. rewrite IH; [f_equal; set_solver|done|].
  intros o' Ho'. assert (o' ∈ a) by (apply Hin; by right). set_solver.
Qed.

Lemma exit_thread_effect t s : inv s ->
  exists s', exit_thread t s = Ok s' /\ keys s' = keys s /\ values s' = forget_thread t (values s) /\ leaked s' = leaked s /\
    forall o, o ∈ alive s' <-> o ∈ alive s /\ forall k, values s !! (t, k) <> Some o.
Proof.
  intros [Ik Io Ia Il]. unfold exit_thread. rewrite destructors_ok.
  - eexists. simpl. split_and!; try done. intros o. simpl. rewrite elem_of_difference, elem_of_list_to_set, elem_of_entries. naive_solver.
  - by apply entries_nodup.
  - intros o [k Hk]%elem_of_entries. by destruct (Ik t k o Hk) as (_ & ? & _).
Qed.

Lemma local_step_keeps s a : inv s -> allowed s a = true -> post inv (fun _ => False) (step s a).
Proof.
  intros Hi Ha. pose proof Hi as [Ik Io Ia Il]. destruct a as [k|k|t k addr|t]; simpl in Ha; simpl.
  - constructor; simpl; try done. intros t k' o Ho. destruct (Ik t k' o Ho) as (? & ? & ?). set_solver.
  - unfold destroyThreadLocal. rewrite Ha. simpl. constructor; simpl.
    + intros t k' o [Ho Hn]%lookup_forget_key. destruct (Ik t k' o Ho) as (H1 & H2 & H3). split_and!; [set_solver|done|].
      rewrite elem_of_union, elem_of_key. intros [?|[u Hu]]; [done|]. assert ((t, k') = (u, k)) by (by apply (Io _ _ o)). congruence.
    + intros [t1 k1] [t2 k2] o [H1 _]%lookup_forget_key [H2 _]%lookup_forget_key. by apply (Io _ _ o).
    + intros o Ho. rewrite elem_of_union, elem_of_key. destruct (Ia o Ho) as [?|(t & k' & Hv)]; [by left; left|].
      destruct (decide (k' = k)) as [->|Hn]; [left; right; by exists t|]. right. exists t, k'. by apply lookup_forget_key.
    + intros o [Ho|Ho]%elem_of_union; [by apply Il|]. apply elem_of_key in Ho as [t Ht]. by destruct (Ik t k o Ht) as (_ & ? & _).
  - apply andb_prop in Ha as [Hk Hn]. apply bool_decide_eq_true in Hk. apply negb_true_iff, bool_decide_eq_false in Hn.
    unfold value. destruct (values s !! (t, k)) as [o|] eqn:E; [done|]. rewrite bool_decide_false by done. rewrite bool_decide_true by done.
    simpl. constructor; simpl.
    + intros t' k' o Ho. destruct (decide ((t', k') = (t, k))) as [[= -> ->]|Hne].
      * rewrite lookup_insert_eq in Ho. injection Ho as <-. split_and!; [done|set_solver|]. intros Hl. by apply Hn, Il.
      * rewrite lookup_insert_ne in Ho by done. destruct (Ik t' k' o Ho) as (? & ? & ?). set_solver.
    + intros x y o Hx Hy. destruct (decide (x = (t, k))) as [->|Nx], (decide (y = (t, k))) as [->|Ny];
        rewrite ?lookup_insert_eq in *; rewrite ?lookup_insert_ne in * by done; try done.
      * injection Hx as <-. destruct y as [t' k']. by destruct (Ik t' k' addr Hy) as (_ & ? & _).
      * injection Hy as <-. destruct x as [t' k']. by destruct (Ik t' k' addr Hx) as (_ & ? & _).
      * by apply (Io x y o).
    + intros o [->%elem_of_singleton|Ho]%elem_of_union; [right; exists t, k; by rewrite lookup_insert_eq|].
      destruct (Ia o Ho) as [?|(t' & k' & Hv)]; [by left|]. right. exists t', k'. rewrite lookup_insert_ne; [done|]. congruence.
    + set_solver.
  - destruct (exit_thread_effect t s Hi) as (s' & -> & E1 & E2 & E3 & E4). simpl.
    constructor; rewrite ?E1, ?E2, ?E3.
    + intros u k o [Ho Hn]%lookup_forget_thread. destruct (Ik u k o Ho) as (? & ? & ?). split_and!; try done.
      apply E4. split; [done|]. intros k' Hk'. assert ((u, k) = (t, k')) by (by apply (Io _ _ o)). congruence.
    + intros [t1 k1] [t2 k2] o [H1 _]%lookup_forget_thread [H2 _]%lookup_forget_thread. by apply (Io _ _ o).
    + intros o Ho. apply E4 in Ho as [Ho Hk]. destruct (Ia o Ho) as [?|(u & k & Hv)]; [by left|]. right. exists u, k.
      apply lookup_forget_thread. split; [done|]. intros ->. by apply (Hk k).
    + intros o Ho. apply E4. split; [by apply Il|]. intros k Hk. by destruct (Ik t k o Hk) as (_ & _ & ?).
Qed.

Lemma local_run_keeps s l : inv s -> proper s l = true -> post inv (fun _ => False) (foldM step s l).
Proof.
  revert s. induction l as [|a l IH]; intros s Hi Hp; simpl; [done|]. simpl in Hp. apply andb_prop in Hp as [Ha Hp].
  pose proof (local_step_keeps s a Hi Ha) as Hk. destruct (step s a) as [s'|]; [|done]. by apply IH.
Qed.

(** Thread-local variables in any interleaving of threads: every object belongs to
    one thread and one variable; value() keeps answering the object of the calling
    thread; the exit of a thread deletes exactly its objects; what outlives all the
    values are the objects of variables destroyed before the threads that used
    them. *)
Theorem thread_local_correct l (Hproper : proper newState l = true) :
  post (fun s =>
      (forall x y o, values s !! x = Some o -> values s !! y = Some o -> x = y) /\
      (forall t k addr o s', value t k addr s = Ok (o, s') ->
         values s' !! (t, k) = Some o /\ o ∈ alive s' /\ (forall addr', value t k addr' s' = Ok (o, s')) /\
         forall x, x <> (t, k) -> values s' !! x = values s !! x) /\
      (forall t, exists s', exit_thread t s = Ok s' /\
         forall o, o ∈ alive s' <-> o ∈ alive s /\ forall k, values s !! (t, k) <> Some o) /\
      (values s = ∅ -> alive s = leaked s))
    (fun _ => False) (foldM step newState l).
Proof.
  eapply post_mono; [apply local_run_keeps; [|done]|].
  { constructor; simpl; try done; intros *; rewrite ?lookup_empty; set_solver. }
  intros s Hi. pose proof Hi as [Ik Io Ia Il]. split_and!; [done| | |].
  - intros t k addr o s'. unfold value. destruct (values s !! (t, k)) as [o1|] eqn:E.
    + intros [= <- <-]. split_and!; try done; [by destruct (Ik t k o1 E) as (_ & ? & _)|]. intros addr'. by rewrite E.
    + case_bool_decide; [done|]. destruct (c_assert _); simpl; [|done]. intros [= <- <-]. simpl. rewrite lookup_insert_eq.
      split_and!; [done|set_solver|done|]. intros x Hx. by rewrite lookup_insert_ne.
  - intros t. destruct (exit_thread_effect t s Hi) as (s' & E & _ & _ & _ & H). by exists s'.
  - intros E. apply set_eq. intros o. split; [|apply Il]. intros Ho. destruct (Ia o Ho) as [?|(t & k & Hv)]; [done|].
    by rewrite E, lookup_empty in Hv.
Qed.

(** Two variables and two threads; then a variable destroyed too early. *)
Lemma thread_local_correct_witness :
  exists s, foldM step newState [Create 1; Create 2; Value 7 1 100; Value 8 1 101; Value 7 2 102; Value 7 1 103; Exit 7; Delete 1; Exit 8] = Ok s /\
    alive s = leaked s /\ leaked s = {[101]}.
Proof.
  pose proof (thread_local_correct [Create 1; Create 2; Value 7 1 100; Value 8 1 101; Value 7 2 102; Value 7 1 103; Exit 7; Delete 1; Exit 8]
    ltac:(vm_compute; reflexivity)) as H.
  destruct (foldM _ _ _) as [s|] eqn:E; [|done]. exists s. split; [done|]. destruct H as (_ & _ & _ & H).
  vm_compute in E. injection E as <-. split; [by apply H|]. vm_compute. done.
Defined.
End ThreadLocal.

Module ThreadLocalSingleton.
(** [t_value_] by thread; [pkey]: the values of the key of [deleter_], by thread. *)
Record State := mkState {
  t_value_ : gmap Z Z;
  pkey : gmap Z Z;
  alive : gset Z;
}.

Definition newState : State := mkState ∅ ∅ ∅.

Definition deleter_set (t obj : Z) (s : State) : outcome State :=
  c_assert (bool_decide (pkey s !! t = None));;
  Ok (mkState (t_value_ s) (<[t := obj]> (pkey s)) (alive s)).

(** instance() in thread [t]; the result is dereferenced. *)
Definition instance (t addr : Z) (s : State) : outcome (Z * State) :=
  s ← (match t_value_ s !! t with
       | Some _ => Ok s
       | None =>
           if bool_decide (addr ∈ alive s) then Fault BadAlloc
           else deleter_set t addr (mkState (<[t := addr]> (t_value_ s)) (pkey s) ({[addr]} ∪ alive s))
       end);
  match t_value_ s !! t with
  | Some o => if bool_decide (o ∈ alive s) then Ok (o, s) else Fault UndefinedBehaviour
  | None => Fault UndefinedBehaviour
  end.

Definition pointer (t : Z) (s : State) : option Z := t_value_ s !! t.

Definition destructor (t obj : Z) (s : State) : outcome State :=
  c_assert (bool_decide (t_value_ s !! t = Some obj));;
  if bool_decide (obj ∈ alive s) then Ok (mkState (delete t (t_value_ s)) (pkey s) (alive s ∖ {[obj]}))
  else Fault UndefinedBehaviour.

(** One round of destructors in the exit of thread [t]: the value is reset and the
    destructor called.  The destructor of another key may call instance() again,
    after which the system makes another round. *)
Definition exit_round (t : Z) (s : State) : outcome State :=
  match pkey s !! t with
  | None => Ok s
  | Some obj => destructor t obj (mkState (t_value_ s) (delete t (pkey s)) (alive s))
  end.

Inductive action := Instance (t addr : Z) | ExitRound (t : Z).

Definition step (s : State) (a : action) : outcome State :=
  match a with
  | Instance t addr => snd <$> instance t addr s
  | ExitRound t => exit_round t s
  end.

Record inv (s : State) : Prop := {
  iv_key : pkey s = t_value_ s;
  iv_own : forall t u o, t_value_ s !! t = Some o -> t_value_ s !! u = Some o -> t = u;
  iv_alive : forall o, o ∈ alive s <-> exists t, t_value_ s !! t = Some o;
}.

Lemma instance_effect s t addr : inv s -> addr ∉ alive s ->
  exists o s', instance t addr s = Ok (o, s') /\ inv s' /\ pointer t s' = Some o /\ o = default addr (pointer t s) /\
    forall u, u <> t -> pointer u s' = pointer u s.
Proof.
  intros [Ik Io Ia] Hn. unfold instance, pointer. destruct (t_value_ s !! t) as [o|] eqn:E; simpl.
  - rewrite E, bool_decide_true by (apply Ia; by exists t). exists o, s. by split_and!.
  - rewrite bool_decide_false by done. unfold deleter_set. simpl. rewrite Ik, E. simpl. rewrite lookup_insert_eq.
    rewrite bool_decide_true by set_solver. eexists addr, _. split_and!; [done| |simpl; by rewrite lookup_insert_eq|done|].
    + constructor; simpl; [done| |].
      * intros u v o Hu Hv. destruct (decide (u = t)) as [->|Nu], (decide (v = t)) as [->|Nv];
          rewrite ?lookup_insert_eq in *; rewrite ?lookup_insert_ne in * by done; try done.
        -- injection Hu as <-. destruct Hn. apply Ia. by exists v.
        -- injection Hv as <-. destruct Hn. apply Ia. by exists u.
        -- by apply (Io u v o).
      * intros o. rewrite elem_of_union, elem_of_singleton, Ia. split.
        -- intros [->|[u Hu]]; [exists t; by rewrite lookup_insert_eq|]. exists u. rewrite lookup_insert_ne; [done|]. congruence.
        -- intros [u Hu]. destruct (decide (u = t)) as [->|]; [rewrite lookup_insert_eq in Hu; injection Hu as <-; by left|].
           rewrite lookup_insert_ne in Hu by done. right. by exists u.
    + intros u Hu. simpl. by rewrite lookup_insert_ne.
Qed.

Lemma exit_round_effect s t : inv s ->
  exists s', exit_round t s = Ok s' /\ inv s' /\ pointer t s' = None /\ (forall u, u <> t -> pointer u s' = pointer u s) /\
    forall o, o ∈ alive s' <-> o ∈ alive s /\ pointer t s <> Some o.
Proof.
  intros Hi. pose proof Hi as [Ik Io Ia]. unfold exit_round, pointer. rewrite Ik. destruct (t_value_ s !! t) as [o|] eqn:E.
  - unfold destructor. simpl. rewrite E, (bool_decide_true (Some o = Some o)) by done. simpl. rewrite bool_decide_true by (apply Ia; by exists t).
    eexists. split; [done|]. simpl.
    assert (Hal : forall o', o' ∈ alive s ∖ {[o]} <-> exists u, delete t (t_value_ s) !! u = Some o').
    { intros o'. rewrite elem_of_difference, elem_of_singleton, Ia. split.
      - intros [[u Hu] Hne]. exists u. rewrite lookup_delete_ne; [done|]. congruence.
      - intros [u Hu]. apply lookup_delete_Some in Hu as [Hne Hu]. split; [by exists u|]. intros ->. by apply Hne, (Io t u o). }
    split_and!; [|by rewrite lookup_delete_eq|intros u Hu; by rewrite lookup_delete_ne|].
    + constructor; simpl; [by rewrite ?Ik| |done]. intros u v o' Hu Hv. apply lookup_delete_Some in Hu as [_ Hu].
      apply lookup_delete_Some in Hv as [_ Hv]. by apply (Io u v o').
    + intros o'. rewrite elem_of_difference, elem_of_singleton. split; intros [? Hne]; split; try done; congruence.
  - exists s. split_and!; try done. naive_solver.
Qed.

(** Calls of instance() and exits of threads in any order: no assertion fails; a
    thread gets the same object until it exits, and no other thread gets it; the
    live objects are those of the threads that have not exited. *)
Theorem thread_local_singleton_correct l
  (Hnew : forall i t addr s, l !! i = Some (Instance t addr) -> foldM step newState (take i l) = Ok s -> addr ∉ alive s) :
  post (fun s =>
      (forall t u o, pointer t s = Some o -> pointer u s = Some o -> t = u) /\
      (forall o, o ∈ alive s <-> exists t, pointer t s = Some o) /\
      (forall t addr, addr ∉ alive s -> exists o s', instance t addr s = Ok (o, s') /\ o = default addr (pointer t s) /\ pointer t s' = Some o) /\
      (forall t, exists s', exit_round t s = Ok s' /\ pointer t s' = None /\
         forall o, o ∈ alive s' <-> o ∈ alive s /\ pointer t s <> Some o))
    (fun _ => False) (foldM step newState l).
Proof.
  assert (Hrun : post inv (fun _ => False) (foldM step newState l)).
  { induction l as [|a l IH] using rev_ind.
    - simpl. constructor; simpl; try done; intros *; rewrite ?lookup_empty; set_solver.
    - rewrite foldM_app.
      assert (Hl : post inv (fun _ => False) (foldM step newState l)).
      { apply IH. intros i t addr s Hi Hs. apply (Hnew i t addr); [by apply lookup_app_l_Some|].
        rewrite take_app_le; [done|]. apply lookup_lt_Some in Hi. lia. }
      destruct (foldM step newState l) as [s|] eqn:Es; [|done]. simpl in *. destruct a as [t addr|t]; simpl.
      + destruct (instance_effect s t addr Hl) as (o & s' & -> & Hi' & _); [|done].
        apply (Hnew (length l) t addr s); [by rewrite lookup_app_r, Nat.sub_diag by lia|]. by rewrite take_app_length.
      + by destruct (exit_round_effect s t Hl) as (s' & -> & Hi' & _). }
  eapply post_mono; [exact Hrun|]. intros s Hi. pose proof Hi as [Ik Io Ia]. split_and!; [done|done| |].
  - intros t addr Ha. destruct (instance_effect s t addr Hi Ha) as (o & s' & E & _ & H1 & H2 & _). by exists o, s'.
  - intros t. destruct (exit_round_effect s t Hi) as (s' & E & _ & H1 & _ & H2). by exists s'.
Qed.

Lemma thread_local_singleton_correct_witness :
  exists s, foldM step newState [Instance 1 100; Instance 2 200; Instance 1 300; ExitRound 1] = Ok s /\
    pointer 2 s = Some 200 /\ forall o, o ∈ alive s <-> exists t, pointer t s = Some o.
Proof.
  set (l := [Instance 1 100; Instance 2 200; Instance 1 300; ExitRound 1]).
  assert (H : forall i t addr s, l !! i = Some (Instance t addr) -> foldM step newState (take i l) = Ok s -> addr ∉ alive s).
  { intros i t addr s Hi Hs. destruct i as [|[|[|[|i]]]]; [| | |vm_compute in Hi; discriminate..];
      injection Hi as <- <-; vm_compute in Hs; injection Hs as <-; vm_compute; tauto || (intros H; discriminate H). }
  pose proof (thread_local_singleton_correct l H) as Hp.
  destruct (foldM step newState l) as [s|] eqn:E; [|done]. exists s. split; [done|]. destruct Hp as (_ & Ha & _).
  split; [|exact Ha]. vm_compute in E. injection E as <-. reflexivity.
Defined.
End ThreadLocalSingleton.

Module WeakCallback.
(** Control blocks of shared pointers by number; an object is alive while its count
    is positive.  [owners]: how many of the counted pointers belong to somebody else
    than a running callback (kept by the client). *)
Record WeakCallback := mkWeak { object_ : Z; function_ : Z }.

Inductive event := Ran (obj f : Z) | Ended (obj f : Z) | Destroyed (obj : Z).

Record World := mkWorld {
  use_count : gmap Z nat;
  owners : gmap Z nat;
  events : list event;
}.

Definition count (w : World) (obj : Z) : nat := default O (use_count w !! obj).
Definition owned (w : World) (obj : Z) : nat := default O (owners w !! obj).
Definition log (e : event) (w : World) : World := mkWorld (use_count w) (owners w) (events w ++ [e]).

(** weak_ptr::lock, the destruction of a shared_ptr, and an access to the object. *)
Definition lock (obj : Z) (w : World) : option World :=
  match count w obj with
  | O => None
  | S n => Some (mkWorld (<[obj := S (S n)]> (use_count w)) (owners w) (events w))
  end.

Definition release (obj : Z) (w : World) : outcome World :=
  match count w obj with
  | O => Fault UndefinedBehaviour
  | S n =>
      let w := mkWorld (<[obj := n]> (use_count w)) (owners w) (events w) in
      Ok (match n with O => log (Destroyed obj) w | _ => w end)
  end.

Definition touch (obj : Z) (w : World) : outcome unit :=
  match count w obj with O => Fault UndefinedBehaviour | _ => Ok tt end.

(** makeWeakCallback(shared_ptr, function) *)
Definition makeWeakCallback (obj f : Z) : WeakCallback := mkWeak obj f.

(** What happens in the program: owners of an object come and go, and callbacks are
    called, whose functions do such things in turn. *)
Inductive act :=
| Drop (obj : Z)
| Share (obj : Z)
| Invoke (cb : WeakCallback) (body : list act).

Definition drop (obj : Z) (w : World) : outcome World :=
  match owned w obj with
  | O => Ok w
  | S n => release obj (mkWorld (use_count w) (<[obj := n]> (owners w)) (events w))
  end.

Definition share (obj : Z) (w : World) : World :=
  match owned w obj with
  | O => w
  | S n => mkWorld (<[obj := S (count w obj)]> (use_count w)) (<[obj := S (S n)]> (owners w)) (events w)
  end.

(** operator(): the function works on the object before and after [body]. *)
Definition call (cb : WeakCallback) (run : World -> outcome World) (w : World) : outcome World :=
  match lock (object_ cb) w with
  | None => Ok w
  | Some w =>
      let w := log (Ran (object_ cb) (function_ cb)) w in
      touch (object_ cb) w;;
      w ← run w;
      touch (object_ cb) w;;
      release (object_ cb) (log (Ended (object_ cb) (function_ cb)) w)
  end.

Fixpoint perform (a : act) (w : World) : outcome World :=
  match a with
  | Drop obj => drop obj w
  | Share obj => Ok (share obj w)
  | Invoke cb body =>
      call cb ((fix run (l : list act) (w : World) : outcome World :=
                  match l with [] => Ok w | a :: l => w ← perform a w; run l w end) body) w
  end.

Fixpoint performs (l : list act) (w : World) : outcome World :=
  match l with [] => Ok w | a :: l => w ← perform a w; performs l w end.

Lemma perform_invoke cb body w : perform (Invoke cb body) w = call cb (performs body) w.
Proof. done. Qed.

Lemma act_nested_ind (P : act -> Prop) :
  (forall o, P (Drop o)) -> (forall o, P (Share o)) -> (forall cb body, Forall P body -> P (Invoke cb body)) -> forall a, P a.
Proof.
  intros Hd Hs Hi. refine (fix IH a := match a with Drop o => Hd o | Share o => Hs o | Invoke cb body => Hi cb body _ end).
  induction body as [|b body IHb]; constructor; [apply IH|apply IHb].
Qed.

Definition about (e : event) : Z := match e with Ran o _ | Ended o _ | Destroyed o => o end.

(** Nothing of an object happens after its destruction. *)
Definition quiet (evs : list event) : Prop :=
  forall pre o rest, evs = pre ++ Destroyed o :: rest -> forall e, e ∈ rest -> about e <> o.

Lemma quiet_snoc evs e : quiet evs -> Destroyed (about e) ∉ evs -> quiet (evs ++ [e]).
Proof.
  intros Hq Hn pre o rest E x Hx. destruct rest as [|y rest] using rev_ind; [by apply elem_of_nil in Hx|]. clear IHrest.
  rewrite app_comm_cons, app_assoc in E. apply app_inj_tail in E as [E ->].
  apply elem_of_app in Hx as [Hx|Hx]; [by apply (Hq pre o rest E)|]. apply list_elem_of_singleton in Hx as ->.
  intros <-. apply Hn. rewrite E. apply elem_of_app. right. by left.
Qed.

(** [held]: the locks of the callbacks at work. *)
Record inv (held : Z -> nat) (w : World) : Prop := {
  iv_count : forall o, count w o = (owned w o + held o)%nat;
  iv_quiet : quiet (events w);
  iv_dead : forall o, Destroyed o ∈ events w -> count w o = O;
}.

Lemma use_count_insert w o n x : count (mkWorld (<[o := n]> (use_count w)) (owners w) (events w)) x = if decide (x = o) then n else count w x.
Proof. unfold count. simpl. destruct (decide (x = o)) as [->|]; [by rewrite lookup_insert_eq|by rewrite lookup_insert_ne]. Qed.

Lemma inv_log held w e : inv held w -> Destroyed (about e) ∉ events w -> (forall o, e <> Destroyed o) -> inv held (log e w).
Proof.
  intros [H1 H2 H3] Hn He. constructor; simpl; [done|by apply quiet_snoc|].
  intros o Ho. apply elem_of_app in Ho as [Ho|Ho]; [by apply H3|]. apply list_elem_of_singleton in Ho. by destruct (He o).
Qed.

Lemma alive_not_destroyed held w o : inv held w -> count w o <> O -> Destroyed o ∉ events w.
Proof. intros Hi Hc Hd. by apply Hc, (iv_dead _ _ Hi). Qed.

(** Giving up a pointer that is counted as held. *)
Lemma release_keeps held w o : inv held w -> held o <> O ->
  exists w', release o w = Ok w' /\ inv (fun x => if decide (x = o) then pred (held x) else held x) w' /\ events w `prefix_of` events w'.
Proof.
  intros Hi Hh. pose proof Hi as [H1 H2 H3]. unfold release. pose proof (H1 o) as Ho. destruct (count w o) as [|n] eqn:Ec; [lia|].
  assert (Hnd : Destroyed o ∉ events w) by (apply (alive_not_destroyed held); [done|lia]).
  eexists. split; [done|]. set (w1 := mkWorld _ _ _).
  assert (Hc1 : forall x, count w1 x = if decide (x = o) then n else count w x) by (intros x; apply use_count_insert).
  assert (Hinv : inv (fun x => if decide (x = o) then pred (held x) else held x) w1).
  { constructor; simpl; [|done|].
    - intros x. rewrite Hc1. change (owned w1 x) with (owned w x). case_decide as Hx; [subst x; lia|apply H1].
    - intros x Hx. rewrite Hc1. case_decide; [subst x; done|by apply H3]. }
  destruct n; [|by split].
  split; [|by exists [Destroyed o]]. destruct Hinv as [I1 I2 I3]. constructor; simpl; [done|by apply quiet_snoc|].
  intros x Hx. apply elem_of_app in Hx as [Hx|Hx]; [by apply I3|]. apply list_elem_of_singleton in Hx as [= ->].
  change (count w1 o = O). rewrite Hc1. by rewrite decide_True.
Qed.

Definition acts_fine (a : act) : Prop := forall held w, inv held w ->
  exists w', perform a w = Ok w' /\ inv held w' /\ events w `prefix_of` events w'.

Lemma inv_ext held held' w : (forall x, held x = held' x) -> inv held w -> inv held' w.
Proof. intros E [H1 H2 H3]. constructor; try done. intros o. by rewrite <- E. Qed.

Lemma performs_fine l : Forall acts_fine l -> forall held w, inv held w ->
  exists w', performs l w = Ok w' /\ inv held w' /\ events w `prefix_of` events w'.
Proof.
  induction 1 as [|a l Ha _ IH]; intros held w Hi; simpl; [by exists w|].
  destruct (Ha held w Hi) as (w1 & -> & Hi1 & Hp1). simpl. destruct (IH held w1 Hi1) as (w2 & -> & Hi2 & Hp2).
  exists w2. split_and!; try done. by etrans.
Qed.

Lemma drop_fine o : acts_fine (Drop o).
Proof.
  intros held w Hi. simpl. unfold drop. destruct (owned w o) as [|n] eqn:Eo; [by exists w|].
  set (w1 := mkWorld _ _ _). pose proof Hi as [H1 H2 H3].
  assert (Hi1 : inv (fun x => if decide (x = o) then S (held x) else held x) w1).
  { constructor; simpl; [|done|done]. intros x. change (count w1 x) with (count w x). rewrite H1. unfold owned in *. simpl.
    case_decide as Hx; [subst x; rewrite lookup_insert_eq; simpl; rewrite Eo; lia|by rewrite lookup_insert_ne]. }
  destruct (release_keeps _ w1 o Hi1) as (w2 & -> & Hi2 & Hp); [by rewrite decide_True|]. exists w2. split_and!; [done| |done].
  eapply inv_ext; [|done]. intros x. simpl. by case_decide.
Qed.

Lemma share_fine o : acts_fine (Share o).
Proof.
  intros held w Hi. simpl. exists (share o w). split; [done|]. unfold share. destruct (owned w o) as [|n] eqn:Eo; [done|].
  split; [|done]. pose proof Hi as [H1 H2 H3]. pose proof (H1 o) as Ho. constructor; simpl; [|done|].
  - intros x. pose proof (H1 x). unfold count, owned in *. simpl.
    destruct (decide (x = o)) as [->|]; [rewrite !lookup_insert_eq; simpl; lia|by rewrite !lookup_insert_ne].
  - intros x Hx. pose proof (H3 x Hx) as H0. unfold count in *. simpl. rewrite lookup_insert_ne; [done|]. intros <-. lia.
Qed.

Lemma invoke_runs cb body held w : Forall acts_fine body -> inv held w -> count w (object_ cb) <> O ->
  exists w', perform (Invoke cb body) w = Ok w' /\ inv held w' /\
    events w ++ [Ran (object_ cb) (function_ cb)] `prefix_of` events w'.
Proof.
  intros Hb Hi Hne. rewrite perform_invoke. unfold call, lock. set (o := object_ cb) in *.
  destruct (count w o) as [|n] eqn:Ec; [done|]. clear Hne. pose proof Hi as [H1 H2 H3].
  set (w1 := mkWorld _ _ _). set (held1 := fun x => if decide (x = o) then S (held x) else held x).
  assert (Hnd : Destroyed o ∉ events w) by (apply (alive_not_destroyed held); [done|lia]).
  assert (Hi1 : inv held1 w1).
  { constructor; simpl; [|done|].
    - intros x. unfold w1, held1. rewrite use_count_insert. change (owned _ x) with (owned w x). pose proof (H1 x).
      case_decide; [subst x; lia|done].
    - intros x Hx. unfold w1. rewrite use_count_insert. case_decide; [subst x; done|by apply H3]. }
  assert (Htouch : forall w', inv held1 w' -> touch o w' = Ok tt).
  { intros w' [E _ _]. unfold touch. rewrite E. unfold held1. rewrite decide_True by done. by rewrite Nat.add_succ_r. }
  assert (Hi2 : inv held1 (log (Ran o (function_ cb)) w1)) by (by apply inv_log).
  rewrite (Htouch _ Hi2). cbn [mbind outcome_bind].
  destruct (performs_fine body Hb held1 _ Hi2) as (w3 & -> & Hi3 & Hp3). cbn [mbind outcome_bind].
  rewrite (Htouch _ Hi3). cbn [mbind outcome_bind].
  assert (Hi4 : inv held1 (log (Ended o (function_ cb)) w3)).
  { apply inv_log; [done| |done]. apply (alive_not_destroyed held1); [done|]. rewrite (iv_count _ _ Hi3). unfold held1. rewrite decide_True by done. lia. }
  destruct (release_keeps held1 _ o Hi4) as (w5 & E5 & Hi5 & Hp5); [unfold held1; by rewrite decide_True|].
  exists w5. split; [done|]. split.
  - eapply inv_ext; [|exact Hi5]. intros x. unfold held1. by case_decide.
  - etrans; [|exact Hp5]. etrans; [|by exists [Ended o (function_ cb)]]. exact Hp3.
Qed.

Lemma invoke_fine cb body : Forall acts_fine body -> acts_fine (Invoke cb body).
Proof.
  intros Hb held w Hi. destruct (decide (count w (object_ cb) = O)) as [E|E].
  - exists w. rewrite perform_invoke. unfold call, lock. by rewrite E.
  - destruct (invoke_runs cb body held w Hb Hi E) as (w' & -> & Hi' & Hp). exists w'. split_and!; try done.
    etrans; [|exact Hp]. by eexists.
Qed.

Lemma all_fine a : acts_fine a.
Proof. revert a. apply act_nested_ind; [apply drop_fine|apply share_fine|apply invoke_fine]. Qed.

(** Owners of objects come and go and callbacks are called, nested in any way: no
    object is used after its destruction; an object is destroyed exactly when its
    last owner is gone and no callback works on it, and nothing of it happens
    afterwards; a callback whose object is gone does nothing, any other runs its
    function. *)
Theorem weak_callback_safe l w0
  (Hcount : forall o, count w0 o = owned w0 o) (Hevents : events w0 = []) :
  exists w, performs l w0 = Ok w /\ (forall o, count w o = owned w o) /\ quiet (events w) /\
    (forall o, Destroyed o ∈ events w -> count w o = O) /\
    (forall cb body, count w (object_ cb) = O -> perform (Invoke cb body) w = Ok w) /\
    (forall cb body, count w (object_ cb) <> O -> exists w' rest, perform (Invoke cb body) w = Ok w' /\
       events w' = events w ++ Ran (object_ cb) (function_ cb) :: rest).
Proof.
  assert (Hi : inv (fun _ => O) w0).
  { constructor; [intros o; rewrite Hcount; lia|rewrite Hevents; by intros [] ? ?|rewrite Hevents; by intros ? ?%elem_of_nil]. }
  destruct (performs_fine l ltac:(apply Forall_forall; intros; apply all_fine) _ w0 Hi) as (w & E & Hw & _). exists w.
  split; [done|]. pose proof Hw as [H1 H2 H3]. split_and!; [intros o; rewrite H1; lia|done|done| |].
  - intros cb body Hc. rewrite perform_invoke. unfold call, lock. by rewrite Hc.
  - intros cb body Hc. destruct (invoke_runs cb body _ w ltac:(apply Forall_forall; intros; apply all_fine) Hw Hc) as (w' & E' & _ & [k Hk]).
    exists w', k. split; [done|]. by rewrite Hk, <- app_assoc.
Qed.

(** The function of a callback drops the last owner of its own object: the object
    is destroyed when the function has returned; the next call does nothing. *)
Lemma weak_callback_safe_witness :
  let cb := makeWeakCallback 1 7 in
  exists w, performs [Invoke cb [Drop 1]; Invoke cb []] (mkWorld {[1 := 1%nat]} {[1 := 1%nat]} []) = Ok w /\ quiet (events w) /\
    events w = [Ran 1 7; Ended 1 7; Destroyed 1].
Proof.
  intros cb. destruct (weak_callback_safe [Invoke cb [Drop 1]; Invoke cb []] (mkWorld {[1 := 1%nat]} {[1 := 1%nat]} []))
    as (w & E & _ & Hq & _); [done|done|].
  exists w. split; [exact E|]. split; [exact Hq|]. vm_compute in E. injection E as <-. reflexivity.
Defined.
End WeakCallback.
