(* ===== verification/LoopLife.v ===== *)
(** * LoopLife: the life of an EventLoop, and its timer interface

    The constructor and destructor of net/EventLoop with those of its TimerQueue:
    the channels of the timerfd and of the eventfd on the loop of EventLoop.v
    (module [Loop], any poller), the timers of TimerQueue.v, and
    [t_loopInThisThread], by thread.  runAt, runAfter, runEvery and cancel are the
    calls into the timer queue, from the loop's thread or from another.

    Theorems: a loop can be constructed, used by any program over channels that
    cleans up after itself, and destroyed, without a failed assertion, and leaves
    nothing registered; a second loop in the same thread is refused; a callback
    given to runAfter runs in the first turn at or after its time and only then,
    once; one given to runEvery is armed again each time it has run. *)

From S2P Require Import Prelude StdContainers Format Calendar Timestamp TimerQueue Channel Poller EventLoop.

Module LoopLife.
Section life.
Context {P : Type} `{PL : PollerLaws P}.

(** ** Construction and destruction *)
Record LoopObject := mkObject {
  channels : Loop.EventLoop P;
  timers : TimerQueue;
  threadId_ : Z;
  timerfdChannel_ : Z;
  wakeupChannel_ : Z;
}.

(** Descriptors as the system answers them; negative for an error. *)
Definition createTimerfd (timerfd : Z) : outcome Z := if timerfd <? 0 then Fault FatalLog else Ok timerfd.
Definition createEventfd (evtfd : Z) : outcome Z := if evtfd <? 0 then Fault Aborted else Ok evtfd.

Definition isInLoopThread (threadId tid : Z) : bool := threadId =? tid.
Definition assertInLoopThread (threadId tid : Z) : outcome unit := log_fatal_unless (isInLoopThread threadId tid).

(** TimerQueue::TimerQueue: its channel. *)
Definition constructTimerQueue (ch timerfd : Z) (l : Loop.EventLoop P) : outcome (Loop.EventLoop P) :=
  timerfd ← createTimerfd timerfd;
  l ← Loop.construct ch timerfd l;
  Loop.enableReading ch l.

(** EventLoop::EventLoop in thread [tid]; [current] is [t_loopInThisThread]. *)
Definition constructEventLoop (tid self tch timerfd wch evtfd : Z) (current : gmap Z Z)
  : outcome (LoopObject * gmap Z Z) :=
  l ← constructTimerQueue tch timerfd Loop.newEventLoop;
  evtfd ← createEventfd evtfd;
  l ← Loop.construct wch evtfd l;
  match current !! tid with
  | Some _ => Fault FatalLog
  | None =>
      l ← Loop.enableReading wch l;
      Ok (mkObject l newTimerQueue tid tch wch, <[tid := self]> current)
  end.

(** The number of functors waiting. *)
Definition functorQueueSize (s : Functors.State) : Z := zlen (Functors.pendingFunctors_ s).

Definition getEventLoopOfCurrentThread (tid : Z) (current : gmap Z Z) : option Z := current !! tid.

(** TimerQueue::~TimerQueue and the destruction of its channel; the Timer objects
    left. *)
Definition destroyTimerQueue (ch : Z) (q : TimerQueue) (l : Loop.EventLoop P) : outcome (Loop.EventLoop P * gmap Z Timer) :=
  l ← Loop.disableAll ch l;
  l ← Loop.remove ch l;
  l ← Loop.destroy ch l;
  Ok (l, TimerQueue.destroy q).

(** EventLoop::~EventLoop, then its members in the reverse order. *)
Definition destroyEventLoop (tid : Z) (o : LoopObject) (current : gmap Z Z)
  : outcome (Loop.EventLoop P * gmap Z Timer * gmap Z Z) :=
  assertInLoopThread (threadId_ o) tid;;
  l ← Loop.disableAll (wakeupChannel_ o) (channels o);
  l ← Loop.remove (wakeupChannel_ o) l;
  l ← Loop.destroy (wakeupChannel_ o) l;
  '(l, rest) ← destroyTimerQueue (timerfdChannel_ o) (timers o) l;
  Ok (l, rest, delete tid current).

(** The channels of the loop itself. *)
Definition service (tch timerfd wch evtfd : Z) : Spec :=
  <[wch := mkSpec evtfd 3 Watched]> {[tch := mkSpec timerfd 3 Watched]}.

Lemma watched_mask : event_mask 3.
Proof. right. by left. Qed.

Lemma construct_watched S l ch fd :
  Loop.linv S l -> S !! ch = None -> 0 <= fd < fd_limit -> fd_free S fd ->
  exists l1 l2, Loop.construct ch fd l = Ok l1 /\ Loop.enableReading ch l1 = Ok l2 /\
    Loop.linv (<[ch := mkSpec fd 3 Watched]> S) l2.
Proof.
  intros Hl Hn Hfd Hfree. destruct (Loop.linv_construct S l ch fd Hl Hn Hfd) as (l1 & E1 & H1).
  destruct (Loop.linv_update (<[ch := mkSpec fd 0 Fresh]> S) l1 ch (mkSpec fd 0 Fresh) 3 read_enabled H1) as (l2 & E2 & H2).
  - by rewrite lookup_insert_eq.
  - done.
  - split; [apply watched_mask|]. simpl. split; [done|]. intros q s. destruct (decide (q = ch)) as [->|Hne].
    + rewrite lookup_insert_eq. intros [= <-] [?|?]; done.
    + rewrite lookup_insert_ne by done. apply Hfree.
  - exists l1, l2. split_and!; [done|done|]. by rewrite insert_insert_eq in H2.
Qed.

Lemma destroy_watched S l ch fd :
  Loop.linv S l -> S !! ch = Some (mkSpec fd 3 Watched) ->
  exists l1 l2 l3, Loop.disableAll ch l = Ok l1 /\ Loop.remove ch l1 = Ok l2 /\ Loop.destroy ch l2 = Ok l3 /\
    Loop.linv (delete ch S) l3.
Proof.
  intros Hl Hs. destruct (Loop.linv_update S l ch _ 0 (fun _ => kNoneEvent) Hl Hs eq_refl) as (l1 & E1 & H1).
  { split; [by left|done]. }
  destruct (Loop.linv_remove _ l1 ch (mkSpec fd 0 Idle) H1) as (l2 & E2 & H2); [by rewrite lookup_insert_eq|done|].
  rewrite insert_insert_eq in H2.
  destruct (Loop.linv_destroy _ l2 ch (mkSpec fd 0 Removed) H2) as (l3 & E3 & H3); [by rewrite lookup_insert_eq|by intros [?|?]|].
  exists l1, l2, l3. split_and!; try done. by rewrite delete_insert_eq in H3.
Qed.

(** With no channel left nothing is registered. *)
Lemma linv_empty l : Loop.linv ∅ l -> Loop.heap l = ∅ /\ channels_of (Loop.poller_ l) = ∅.
Proof.
  intros [Hi _ _]. pose proof (inv_common _ _ _ Hi) as Hc. split; apply map_eq; intros x; rewrite lookup_empty.
  - pose proof (co_heap _ _ _ Hc x) as Hh. rewrite lookup_empty in Hh. by inversion Hh.
  - destruct (channels_of (Loop.poller_ l) !! x) as [p|] eqn:E; [|done].
    apply (co_chan _ _ _ Hc) in E as (s & Hs & _). by rewrite lookup_empty in Hs.
Qed.

(** ~TimerQueue deletes the queued timers; those whose addTimerInLoop another thread
    has queued and that has not run are left. *)
Lemma destroy_leaves q a : TimerQueue.inv [] q -> is_Some (TimerQueue.destroy q !! a) <-> a ∈ pendingAdds_ q.
Proof.
  intros [Hs [O1 O2 O3]]. simpl in *. unfold TimerQueue.destroy.
  assert (Hf : forall l h, fold_left (fun h (e : Z * Z) => delete (snd e) h) l h !! a = if decide (a ∈ map snd l) then None else (h : gmap Z Timer) !! a).
  { induction l as [|e l IH]; intros h; simpl; [done|]. rewrite IH. destruct (decide (a ∈ map snd l)) as [Hi|Hi].
    - rewrite decide_True by (by right). done.
    - destruct (decide (snd e = a)) as [<-|Hne]; [rewrite decide_True by (by left); by rewrite lookup_delete_eq|].
      rewrite lookup_delete_ne, decide_False by (done || by intros [?|?]%elem_of_cons). done. }
  rewrite Hf. split.
  - destruct (decide (a ∈ map snd (timers_ q))) as [Hi|Hi]; [by intros [? [=]]|]. intros [t Ht].
    destruct (O3 a t Ht) as [(s & Hact)|?]; [|done]. destruct Hi. apply list_elem_of_fmap. exists (expiration_ t, a). split; [done|].
    apply (sy_entry q Hs). exists t. destruct (sy_act q Hs a s Hact) as (t' & Ht' & <-).
    assert (t' = t) as -> by congruence. done.
  - intros Hp. destruct (O2 a Hp) as [Hl Hna]. rewrite decide_False; [done|]. intros Hi.
    apply list_elem_of_fmap in Hi as ([w b] & -> & Hin). apply (sy_entry q Hs) in Hin as (t & _ & _ & Hact). apply Hna. by eexists.
Qed.

Lemma construct_service tid self tch tfd wch wfd current :
  tch <> wch -> tfd <> wfd -> 0 <= tfd < fd_limit -> 0 <= wfd < fd_limit ->
  match current !! tid with
  | Some _ => constructEventLoop tid self tch tfd wch wfd current = Fault FatalLog
  | None => exists o, constructEventLoop tid self tch tfd wch wfd current = Ok (o, <[tid := self]> current) /\
      threadId_ o = tid /\ timerfdChannel_ o = tch /\ wakeupChannel_ o = wch /\ Loop.linv (service tch tfd wch wfd) (channels o)
  end.
Proof.
  intros Hc Hf Ht Hw. unfold constructEventLoop, constructTimerQueue, createTimerfd, createEventfd.
  rewrite (proj2 (Z.ltb_ge tfd 0)), (proj2 (Z.ltb_ge wfd 0)) by lia.
  destruct (construct_watched ∅ Loop.newEventLoop tch tfd Loop.linv_init) as (l1 & l2 & E1 & E2 & H2); [done|done|done|].
  cbn [mbind outcome_bind]. rewrite E1. cbn [mbind outcome_bind]. rewrite E2. cbn [mbind outcome_bind].
  destruct (construct_watched _ l2 wch wfd H2) as (l3 & l4 & E3 & E4 & H4); [by rewrite lookup_insert_ne|done| |].
  { intros q s. destruct (decide (q = tch)) as [->|]; [rewrite lookup_insert_eq; intros [= <-] _; simpl; done|by rewrite lookup_insert_ne]. }
  rewrite E3. cbn [mbind outcome_bind]. destruct (current !! tid); [done|]. rewrite E4. cbn [mbind outcome_bind].
  eexists. split; [done|]. by split_and!.
Qed.

(** C35: Whatever poller is used: a loop is constructed in a thread that has none; a
    second one in that thread is refused; any program over channels that in the end
    has removed and destroyed its own runs without a failed assertion; and then
    the loop's thread can destroy the loop, which unregisters everything and leaves
    no Channel, and of the timers only those that another thread has asked for and
    the loop has not yet taken over. *)
Theorem event_loop_life tid self tch tfd wch wfd current ops tops q
  (Hnone : current !! tid = None) (Hch : tch <> wch) (Hfd : tfd <> wfd)
  (Ht : 0 <= tfd < fd_limit) (Hw : 0 <= wfd < fd_limit)
  (Htrace : Loop.allowed_trace (service tch tfd wch wfd) ops (service tch tfd wch wfd))
  (Htimers : foldM TimerQueue.step newTimerQueue tops = Ok q) :
  exists o current', constructEventLoop tid self tch tfd wch wfd current = Ok (o, current') /\
    getEventLoopOfCurrentThread tid current' = Some self /\
    constructEventLoop tid self tch tfd wch wfd current' = Fault FatalLog /\
    exists l, foldM Loop.perform (channels o) ops = Ok l /\
    exists l' rest, destroyEventLoop tid (mkObject l q (threadId_ o) (timerfdChannel_ o) (wakeupChannel_ o)) current' = Ok (l', rest, current) /\
      Loop.heap l' = ∅ /\ channels_of (Loop.poller_ l') = ∅ /\ forall a, is_Some (rest !! a) <-> a ∈ pendingAdds_ q.
Proof.
  pose proof (construct_service tid self tch tfd wch wfd current Hch Hfd Ht Hw) as Hc. rewrite Hnone in Hc.
  destruct Hc as (o & E & Eo1 & Eo2 & Eo3 & Hl).
  pose proof (construct_service tid self tch tfd wch wfd (<[tid := self]> current) Hch Hfd Ht Hw) as Hc2.
  rewrite lookup_insert_eq in Hc2. exists o, (<[tid := self]> current). split; [exact E|]. unfold getEventLoopOfCurrentThread. rewrite lookup_insert_eq.
  split; [done|]. split; [done|].
  destruct (Loop.linv_run _ _ _ _ Hl Htrace) as (l & Er & Hl'). exists l. split; [done|].
  destruct (destroy_watched _ l wch wfd Hl') as (l1 & l2 & l3 & E1 & E2 & E3 & H3); [unfold service; by rewrite lookup_insert_eq|].
  unfold service in H3. rewrite delete_insert_id in H3 by (by rewrite lookup_singleton_ne).
  destruct (destroy_watched _ l3 tch tfd H3) as (l4 & l5 & l6 & E4 & E5 & E6 & H6); [by rewrite lookup_singleton_eq|].
  rewrite delete_singleton_eq in H6. exists l6, (TimerQueue.destroy q).
  unfold destroyEventLoop, assertInLoopThread, isInLoopThread, destroyTimerQueue.
  rewrite Eo1, Eo2, Eo3. cbn [channels threadId_ timerfdChannel_ wakeupChannel_ timers]. rewrite Z.eqb_refl. cbn [log_fatal_unless mbind outcome_bind].
  rewrite E1. cbn [mbind outcome_bind]. rewrite E2. cbn [mbind outcome_bind]. rewrite E3. cbn [mbind outcome_bind].
  rewrite E4. cbn [mbind outcome_bind]. rewrite E5. cbn [mbind outcome_bind]. rewrite E6. cbn [mbind outcome_bind].
  rewrite delete_insert_id by done. split; [done|]. destruct (linv_empty l6 H6) as [-> ->]. split; [done|]. split; [done|].
  intros a. apply destroy_leaves. exact (run_inv tops q Htimers).
Qed.

(** Called by another thread, the destructor stops the process. *)
Lemma destroy_elsewhere tid o current : threadId_ o <> tid -> destroyEventLoop tid o current = Fault FatalLog.
Proof.
  intros Hne. unfold destroyEventLoop, assertInLoopThread, isInLoopThread. by rewrite (proj2 (Z.eqb_neq _ _)).
Qed.
End life.

(** ** Timers *)

(** Who calls: the loop's thread, or another one, with what happens before addTimer()
    returns there. *)
Inductive caller := LoopThread | OtherThread (meanwhile : list op).

Definition addTimerFrom (from : caller) (cb : nat) (time : Z) (interval : double) (addr now : Z) (q : TimerQueue)
  : outcome (TimerId * TimerQueue) :=
  match from with
  | LoopThread => addTimer cb time interval addr now q
  | OtherThread meanwhile => addTimer_other_thread cb time interval addr meanwhile q
  end.

Definition runAt (from : caller) (time : Z) (cb : nat) (addr now : Z) (q : TimerQueue) : outcome (TimerId * TimerQueue) :=
  addTimerFrom from cb time double_zero addr now q.

Definition runAfter (from : caller) (delay : double) (cb : nat) (addr now : Z) (q : TimerQueue) : outcome (TimerId * TimerQueue) :=
  time ← addTime now delay;
  runAt from time cb addr now q.

Definition runEvery (from : caller) (interval : double) (cb : nat) (addr now : Z) (q : TimerQueue) : outcome (TimerId * TimerQueue) :=
  time ← addTime now interval;
  addTimerFrom from cb time interval addr now q.

Definition cancel (timerId : TimerId) (q : TimerQueue) : outcome TimerQueue := cancelInLoop timerId q.

Lemma addTimer_queued cb w interval addr now q id q' :
  TimerQueue.inv [] q -> addTimer cb w interval addr now q = Ok (id, q') ->
  TimerQueue.inv [] q' /\ (w, addr) ∈ timers_ q' /\ fst id = addr /\
  exists t, TimerQueue.heap q' !! addr = Some t /\ t = newTimer cb w interval (snd id).
Proof.
  intros Hi Ha. destruct (addTimer_ok _ _ _ _ _ [] _ _ _ Hi Ha) as (_ & Hid & Hh & Ht & _).
  pose proof (perform_inv [] q (AddTimer cb w interval addr now) Hi) as Hp. cbn [perform] in Hp. rewrite Ha in Hp.
  destruct (set_insert_spec (w, addr) (timers_ q) (sy_timers _ (proj1 Hi))) as (_ & Hin & _).
  split; [exact Hp|]. split; [rewrite Ht; apply Hin; by left|]. split; [by rewrite Hid|].
  eexists. rewrite Hh, lookup_insert_eq. by split.
Qed.

Lemma due_entry now q w a : (w, a) ∈ timers_ q -> (w, a) ∈ due now q <-> w <= now.
Proof. intros Hin. unfold due. rewrite list_elem_of_filter. simpl. naive_solver. Qed.

(** The turns of handleRead after a timer was added: its callback runs exactly in a
    turn whose clock has reached its time. *)
Lemma added_due cb w interval addr now q id q' now2 clock acts trace q'' :
  TimerQueue.inv [] q -> addTimer cb w interval addr now q = Ok (id, q') ->
  handleRead now2 clock acts q' = Ok (trace, q'') ->
  (w, addr) ∈ timers_ q' /\ (w <= now2 -> exists i, due now2 q' !! i = Some (w, addr) /\ trace !! i = Some cb) /\
  (w <= now2 -> let t := newTimer cb w interval (snd id) in
     if repeat_ t && negb (bool_decide (Cancel id ∈ performed (due now2 q') acts))
     then exists t', restart now2 t = Ok t' /\ TimerQueue.heap q'' !! addr = Some t' /\ (expiration_ t', addr) ∈ timers_ q''
     else TimerQueue.heap q'' !! addr = None).
Proof.
  intros Hi Ha Hh. destruct (addTimer_queued _ _ _ _ _ _ _ _ Hi Ha) as (Hi' & Hin & Hid & t & Ht & ->).
  destruct (handleRead_due_facts now2 clock acts q' trace q'' Hi' Hh) as [Htr Hafter]. split; [done|]. split.
  - intros Hw. pose proof (proj2 (due_entry now2 q' w addr Hin) Hw) as Hd. apply list_elem_of_lookup in Hd as [i Hi2]. exists i.
    split; [done|]. rewrite Htr. change (map (callback_of q') (due now2 q')) with (callback_of q' <$> due now2 q').
    rewrite list_lookup_fmap, Hi2. simpl. unfold callback_of. simpl. by rewrite Ht.
  - intros Hw. pose proof (proj2 (due_entry now2 q' w addr Hin) Hw) as Hd. specialize (Hafter w addr _ Hd Ht).
    simpl in *. destruct id as [a s]. simpl in *. by subst a.
Qed.

(** runAfter, in the loop's thread, on any queue the loop can have: the callback
    belongs to the turn whose clock has reached now + delay, runs there at the place
    of its expiration, and its timer is then deleted. *)
Theorem run_after_once tops q delay cb addr now id q' now2 clock acts trace q''
  (Hq : foldM TimerQueue.step newTimerQueue tops = Ok q)
  (Hadd : runAfter LoopThread delay cb addr now q = Ok (id, q'))
  (Hturn : handleRead now2 clock acts q' = Ok (trace, q'')) :
  exists w, addTime now delay = Ok w /\ ((w, addr) ∈ due now2 q' <-> w <= now2) /\
    (w <= now2 -> (exists i, due now2 q' !! i = Some (w, addr) /\ trace !! i = Some cb) /\ TimerQueue.heap q'' !! addr = None).
Proof.
  pose proof (run_inv tops q Hq) as Hi. unfold runAfter in Hadd. apply outcome_bind_ok in Hadd as (w & Hw & Hadd).
  exists w. split; [done|]. unfold runAt in Hadd.
  destruct (added_due _ _ _ _ _ _ _ _ _ _ _ _ _ Hi Hadd Hturn) as (Hin & Hrun & Hafter). split; [by apply due_entry|].
  intros Hle. split; [by apply Hrun|]. by apply Hafter.
Qed.

(** runEvery with a positive interval: in the turn that reaches its time the
    callback runs, and unless a callback of that turn cancelled it the timer waits
    for the turn's clock plus the interval. *)
Theorem run_every_repeats tops q interval cb addr now id q' now2 clock acts trace q'' w
  (Hpos : SFltb double_zero interval = true)
  (Hq : foldM TimerQueue.step newTimerQueue tops = Ok q)
  (Hadd : runEvery LoopThread interval cb addr now q = Ok (id, q'))
  (Hw : addTime now interval = Ok w) (Hle : w <= now2)
  (Hturn : handleRead now2 clock acts q' = Ok (trace, q'')) :
  (exists i, due now2 q' !! i = Some (w, addr) /\ trace !! i = Some cb) /\
  if bool_decide (Cancel id ∈ performed (due now2 q') acts) then TimerQueue.heap q'' !! addr = None
  else exists w' t', addTime now2 interval = Ok w' /\ (w', addr) ∈ timers_ q'' /\ TimerQueue.heap q'' !! addr = Some t' /\ callback_ t' = cb.
Proof.
  pose proof (run_inv tops q Hq) as Hi. unfold runEvery in Hadd. rewrite Hw in Hadd. cbn [mbind outcome_bind] in Hadd.
  destruct (added_due _ _ _ _ _ _ _ _ _ _ _ _ _ Hi Hadd Hturn) as (Hin & Hrun & Hafter). split; [by apply Hrun|].
  specialize (Hafter Hle). cbv zeta in Hafter. unfold newTimer, repeat_ in Hafter. rewrite Hpos in Hafter.
  destruct (bool_decide (Cancel id ∈ _)); [done|]. simpl in Hafter. destruct Hafter as (t' & Hres & Hh & Ht).
  unfold restart in Hres. simpl in Hres. destruct (addTime now2 interval) as [w'|]; [|done]. simpl in Hres. injection Hres as <-.
  exists w'. eexists. split_and!; [done|exact Ht|exact Hh|done].
Qed.
End LoopLife.

Module LoopLifeSample.
Import LoopLife.

Definition tops : list op := [OAction (AddTimer 1 5000 double_zero 64 1000); OAddElsewhere 2 9000 double_zero 72].
Definition queue : TimerQueue := match foldM TimerQueue.step newTimerQueue tops with Ok q => q | Fault _ => newTimerQueue end.
Lemma queue_run : foldM TimerQueue.step newTimerQueue tops = Ok queue.
Proof. vm_compute. reflexivity. Qed.

Definition ops : list Loop.chan_op :=
  [Loop.Construct 3000 7; Loop.EnableReading 3000; Loop.DisableAll 3000; Loop.Remove 3000; Loop.Destroy 3000].

Lemma ops_trace : Loop.allowed_trace (service 1000 5 2000 6) ops (service 1000 5 2000 6).
Proof.
  set (S := service 1000 5 2000 6).
  assert (E : S = delete 3000 (<[3000 := mkSpec 7 0 Removed]> (<[3000 := mkSpec 7 0 Idle]> (<[3000 := mkSpec 7 3 Watched]> (<[3000 := mkSpec 7 0 Fresh]> S))))).
  { rewrite !insert_insert_eq, delete_insert_id; done. }
  rewrite E at 2. unfold ops.
  eapply Loop.trace_cons; [apply (Loop.allow_construct S); [done|unfold fd_limit; lia]|].
  eapply Loop.trace_cons; [eapply (Loop.allow_update _ (Loop.EnableReading 3000) 3000 (mkSpec 7 0 Fresh) 3); [done|by rewrite lookup_insert_eq|]|].
  { split; [right; by left|]. split; [done|]. intros p s. unfold S, service. rewrite !lookup_insert_Some, lookup_singleton_Some.
    intros [[_ <-]|[_ [[_ <-]|[_ [_ <-]]]]]; simpl; [by intros [?|?]|lia..]. }
  eapply Loop.trace_cons; [eapply (Loop.allow_update _ (Loop.DisableAll 3000) 3000 (mkSpec 7 3 Watched) 0); [done|by rewrite lookup_insert_eq|split; [by left|done]]|].
  eapply Loop.trace_cons; [apply (Loop.allow_remove _ 3000 (mkSpec 7 0 Idle)); [by rewrite lookup_insert_eq|done]|].
  eapply Loop.trace_cons; [apply (Loop.allow_destroy _ 3000 (mkSpec 7 0 Removed)); [by rewrite lookup_insert_eq|by intros [?|?]]|].
  apply Loop.trace_nil.
Qed.

Lemma event_loop_life_witness :
  exists (o : LoopObject (P := EPollPoller.EPollPoller)) current' l l' rest,
    constructEventLoop 1 42 1000 5 2000 6 ∅ = Ok (o, current') /\ foldM Loop.perform (channels o) ops = Ok l /\
    destroyEventLoop 1 (mkObject l queue (threadId_ o) (timerfdChannel_ o) (wakeupChannel_ o)) current' = Ok (l', rest, ∅) /\
    Loop.heap l' = ∅ /\ is_Some (rest !! 72).
Proof.
  destruct (event_loop_life (P := EPollPoller.EPollPoller) 1 42 1000 5 2000 6 ∅ ops tops queue)
    as (o & cur & E1 & _ & _ & l & E2 & l' & rest & E3 & E4 & _ & E5).
  - reflexivity.
  - lia.
  - lia.
  - unfold fd_limit. lia.
  - unfold fd_limit. lia.
  - exact ops_trace.
  - exact queue_run.
  - exists o, cur, l, l', rest. split; [exact E1|]. split; [exact E2|]. split; [exact E3|]. split; [exact E4|].
    apply E5. vm_compute. apply list_elem_of_here.
Defined.

(** A delay of half a second, on a queue with a timer before and one after it. *)
Definition half : double := S754_finite false 1 (-1).

Lemma run_after_once_witness :
  exists id q' trace q'' w, runAfter LoopThread half 3 80 1000 queue = Ok (id, q') /\ handleRead 600000 600100 [] q' = Ok (trace, q'') /\
    addTime 1000 half = Ok w /\ w <= 600000 /\ (exists i, due 600000 q' !! i = Some (w, 80) /\ trace !! i = Some 3%nat) /\
    TimerQueue.heap q'' !! 80 = None.
Proof.
  destruct (runAfter LoopThread half 3 80 1000 queue) as [[id q']|] eqn:E1; [|vm_compute in E1; discriminate].
  destruct (handleRead 600000 600100 [] q') as [[trace q'']|] eqn:E2; [|vm_compute in E1; injection E1 as <- <-; vm_compute in E2; discriminate].
  destruct (run_after_once tops queue half 3 80 1000 id q' 600000 600100 [] trace q'' queue_run E1 E2) as (w & Hw & _ & Hrun).
  exists id, q', trace, q'', w. split; [done|]. split; [done|]. split; [exact Hw|]. assert (Hle : w <= 600000) by (vm_compute in Hw; injection Hw as <-; lia).
  split; [exact Hle|]. exact (Hrun Hle).
Defined.
End LoopLifeSample.
