(* ===== verification/SystemInspector.v ===== *)
(** * SystemInspector: net/inspect/SystemInspector.cc, the commands of
      net/inspect/ProcessInspector.cc, the rest of base/ProcessInfo.cc and the
      constructor and destructor of net/inspect/Inspector.cc

    The pages of a running process.  What the system answers is the record
    [System]: the clock, uname, the files (how open and read answer, and the
    text), the links and names; pages read the files with FileUtil::readFile of
    LogFile.v, search them with the readers of ProcessInfo.v, print doubles as
    LogStream.v and answer requests through Inspector.v.  A page can fault: the
    signed arithmetic on numbers read from a file is checked.

    Theorems: a number of a /proc text is found under the first name that ends in
    its key; with the files of a Linux system the overview returns and shows the
    boot time, the processes and the memory the first 64 KiB of those files hold;
    every page is served over the wire under its module and command; there is at
    most one inspector. *)

From S2P Require Import Prelude Buffer StdContainers Format Calendar Timestamp Http LogStream LogFile StringPiece.
From S2P Require Import ProcessInfo TimerQueue LoopLife Inspector.
Import HttpRequest HttpContext HttpResponse HttpServer HttpParser HttpService.

(** ** The system *)
Record File := mkFile { f_errno : Z; f_reads : nat -> read_answer; f_text : bytes }.

Record Utsname := mkUname { sysname : bytes; nodename : bytes; release : bytes; version_text : bytes; machine : bytes }.

Record System := mkSystem {
  s_now : Z;
  s_uname : option Utsname;
  s_file : bytes -> File;
  s_pid : Z;
  s_tid : Z;
  s_start : Z;
  s_user : option bytes;          (* getpwuid_r *)
  s_host : option bytes;          (* gethostname: the name and its NUL, cut to the buffer *)
  s_exe : option bytes;           (* readlink /proc/self/exe: the target *)
  s_fds : option (list bytes);    (* /proc/self/fd *)
  s_tasks : option (list bytes);  (* /proc/self/task *)
  s_limit : option Z;             (* getrlimit *)
  s_times : option (Z * Z);       (* times *)
  s_ticks : Z;                    (* sysconf(_SC_CLK_TCK) *)
}.

(** A C string: up to the first NUL. *)
Definition c_text (s : bytes) : bytes := ztake (find_char nul s) s.

(** [FileUtil::readFile(path, 65536, &text)] into an empty string. *)
Definition read_file (s : System) (path : bytes) : outcome (bytes * Z) :=
  let f := s_file s path in
  '(content, _, err) ← readFile (f_errno f) (f_reads f) 65536 None (f_text f);
  Ok (from_option id [] content, err).

Definition file_text (s : System) (path : bytes) : outcome bytes :=
  '(text, _) ← read_file s path; Ok text.

(** [long] arithmetic: signed overflow is a fault. *)
Definition long (z : Z) : outcome Z := if (LONG_MIN <=? z) && (z <=? LONG_MAX) then Ok z else Fault Overflow.

(** ** ProcessInfo *)
Definition username (s : System) : bytes :=
  match s_user s with Some name => name | None => lit "unknownuser" end.

Definition hostname (s : System) : bytes :=
  match s_host s with Some buf => c_text (ztake 255 buf) | None => lit "unknownhost" end.

Definition procStatus (s : System) : outcome bytes := file_text s (lit "/proc/self/status").
Definition procStat (s : System) : outcome bytes := file_text s (lit "/proc/self/stat").

Definition threadStat (s : System) : outcome bytes :=
  file_text s (snprintf 64 (lit "/proc/self/task/" ++ dec (s_tid s) ++ lit "/stat")).

Definition ownProcname (s : System) : outcome bytes :=
  stat ← procStat s; Ok (text (procname stat)).

Definition exePath (s : System) : bytes :=
  match s_exe s with Some target => ztake 1024 target | None => [] end.

(** User and system seconds, as doubles; zero when times fails. *)
Definition seconds_of (ticks hz : Z) : double := double_div (double_of_int ticks) (double_of_int hz).

Definition cpuTime (s : System) : double * double :=
  match s_times s with
  | Some (utime, stime) => (seconds_of utime (s_ticks s), seconds_of stime (s_ticks s))
  | None => (double_zero, double_zero)
  end.

(** ** Printing *)
Definition stringPrintf (out text : bytes) : bytes * Z := (out ++ snprintf 256 text, zlen text).

(** %<width>.<k>f *)
Definition fmt_float (width k : Z) (f : double) : bytes :=
  let body := match f with
              | S754_finite true m e => minus :: fmt_fixed k (S754_finite false m e)
              | S754_zero true => minus :: fmt_fixed k (S754_zero false)
              | S754_infinity sign => lit (if sign then "-inf" else "inf")
              | S754_nan => lit "nan"
              | _ => fmt_fixed k f
              end in
  replicate (Z.to_nat (width - zlen body)) space ++ body.

(** %-<width>s *)
Definition fmt_left (width : Z) (s : bytes) : bytes := s ++ replicate (Z.to_nat (width - zlen s)) space.

(** ** SystemInspector *)
Module SystemInspector.
Definition loadavg (s : System) : outcome bytes := file_text s (lit "/proc/loadavg").
Definition version (s : System) : outcome bytes := file_text s (lit "/proc/version").
Definition cpuinfo (s : System) : outcome bytes := file_text s (lit "/proc/cpuinfo").
Definition meminfo (s : System) : outcome bytes := file_text s (lit "/proc/meminfo").
Definition stat (s : System) : outcome bytes := file_text s (lit "/proc/stat").

Definition hardware (s : System) (result : bytes) : bytes :=
  match s_uname s with
  | Some un =>
      let result := fst (stringPrintf result (lit "Hostname: " ++ nodename un ++ [lf])) in
      let result := fst (stringPrintf result (lit "Machine: " ++ machine un ++ [lf])) in
      fst (stringPrintf result (lit "OS: " ++ sysname un ++ lit " " ++ release un ++ lit " " ++ version_text un ++ [lf]))
  | None => result
  end.

Definition mib_line (label : bytes) (kb : Z) (result : bytes) : bytes :=
  fst (stringPrintf result (label ++ fmt_int false 6 (Z.quot kb 1024) ++ lit " MiB" ++ [lf])).

Definition memory (meminfo result : bytes) : outcome bytes :=
  let total_kb := getLong meminfo (lit "MemTotal:") in
  let free_kb := getLong meminfo (lit "MemFree:") in
  let buffers_kb := getLong meminfo (lit "Buffers:") in
  let cached_kb := getLong meminfo (lit "Cached:") in
  let result := mib_line (lit "Total Memory: ") total_kb result in
  let result := mib_line (lit "Free Memory:  ") free_kb result in
  let result := mib_line (lit "Buffers:      ") buffers_kb result in
  let result := mib_line (lit "Cached:       ") cached_kb result in
  used ← long (total_kb - free_kb);
  used ← long (used - buffers_kb);
  used ← long (used - cached_kb);
  let result := mib_line (lit "Real Used:    ") used result in
  avail ← long (free_kb + buffers_kb);
  avail ← long (avail + cached_kb);
  Ok (mib_line (lit "Real Free:    ") avail result).

Definition overview (s : System) : outcome bytes :=
  let now := s_now s in
  let result := lit "Page generated at " ++ toFormattedString true now ++ lit " (UTC)" ++ [lf] in
  let result := hardware s result in
  stat ← file_text s (lit "/proc/stat");
  bootTime ← long (kMicroSecondsPerSecond * getLong stat (lit "btime "));
  let result := result ++ lit "Boot time: " ++ toFormattedString false bootTime ++ lit " (UTC)" ++ [lf] in
  let result := result ++ lit "Up time: " ++ uptime now bootTime false ++ [lf] in
  loadavg ← file_text s (lit "/proc/loadavg");
  let result := fst (stringPrintf result (lit "Processes created: " ++ dec (getLong stat (lit "processes ")) ++ [lf])) in
  let result := fst (stringPrintf result (lit "Loadavg: " ++ c_text loadavg ++ [lf])) in
  meminfo ← file_text s (lit "/proc/meminfo");
  memory meminfo result.

End SystemInspector.

(** ** ProcessInspector *)
Module ProcessInspector.
Section build.
(** Whether NDEBUG is undefined. *)
Context (isDebugBuild : bool).

Definition mib (kb : Z) : double := double_div (double_of_int kb) (double_of_int 1024).

Definition overview (s : System) : outcome bytes :=
  let now := s_now s in
  let result := lit "Page generated at " ++ toFormattedString true now ++ lit " (UTC)" ++ [lf] ++
    lit "Started at " ++ toFormattedString true (s_start s) ++ lit " (UTC), up for " ++ uptime now (s_start s) true ++ [lf] in
  procStatus ← procStatus s;
  name ← getProcessName procStatus;
  let result := result ++ name ++ lit " (" ++ exePath s ++ lit ") running as " ++ username s ++ lit " on " ++
    hostname s ++ [lf] in
  let result := if isDebugBuild then result ++ lit "WARNING: debug build!" ++ [lf] else result in
  let result := fst (stringPrintf result (lit "pid " ++ dec (s_pid s) ++ lit ", num of threads " ++
    dec (getLong procStatus (lit "Threads:")) ++ lit ", bits " ++ dec (8 * 8) ++ [lf])) in
  let result := result ++ lit "Virtual memory: " in
  let result := fst (stringPrintf result (fmt_float 0 3 (mib (getLong procStatus (lit "VmSize:"))) ++ lit " MiB, ")) in
  let result := result ++ lit "RSS memory: " in
  let result := fst (stringPrintf result (fmt_float 0 3 (mib (getLong procStatus (lit "VmRSS:"))) ++ lit " MiB" ++ [lf])) in
  limit ← maxOpenFiles (s_limit s) (s_fds s);
  opened ← openedFiles (s_fds s);
  let result := fst (stringPrintf result (lit "Opened files: " ++ dec opened ++ lit ", limit: " ++ dec limit ++ [lf])) in
  let '(user, system) := cpuTime s in
  Ok (fst (stringPrintf result (lit "User time: " ++ fmt_float 12 3 user ++ lit "s" ++ [lf] ++
    lit "Sys time:  " ++ fmt_float 12 3 system ++ lit "s" ++ [lf]))).

Definition pid (s : System) : bytes := snprintf 32 (dec (s_pid s)).

Definition openedFilesPage (s : System) : outcome bytes :=
  n ← openedFiles (s_fds s); Ok (snprintf 32 (dec n)).

(** The stat file of a thread, when it can be read without an error. *)
Definition read_stat (s : System) (tid : Z) : option bytes :=
  match read_file s (snprintf 256 (lit "/proc/" ++ dec (s_pid s) ++ lit "/task/" ++ dec tid ++ lit "/stat")) with
  | Ok (text, 0) => Some text
  | _ => None
  end.

Definition row_line (hz : Z) (r : Z * row) : bytes :=
  c_text (snprintf 256 (fmt_int false 5 (fst r) ++ lit " " ++ fmt_left 16 (r_name (snd r)) ++ lit " " ++ [r_state (snd r)] ++
    lit " " ++ fmt_float 12 3 (seconds_of (r_user (snd r)) hz) ++ lit " " ++
    fmt_float 12 3 (seconds_of (r_system (snd r)) hz) ++ [lf])).

Definition table_header : bytes := lit "  TID NAME             S    User Time  System Time" ++ [lf].

Definition threads (s : System) : outcome bytes :=
  rows ← thread_table (s_tasks s) (read_stat s);
  Ok (table_header ++ concat (map (row_line (s_ticks s)) rows)).
End build.
End ProcessInspector.

(** ** The commands, and the life of an Inspector *)

(** A page as a callback; its text is what it returns while the system is in
    state [s]. *)
Definition page (o : outcome bytes) : Callback := Some (fun _ _ => match o with Ok t => t | Fault _ => [] end).

Definition process_commands (debug : bool) (s : System) : list op :=
  [Add (lit "proc") (lit "overview") (page (ProcessInspector.overview debug s)) (lit "print basic overview");
   Add (lit "proc") (lit "pid") (page (Ok (ProcessInspector.pid s))) (lit "print pid");
   Add (lit "proc") (lit "status") (page (procStatus s)) (lit "print /proc/self/status");
   Add (lit "proc") (lit "threads") (page (ProcessInspector.threads s)) (lit "list /proc/self/task")].

Definition system_commands (s : System) : list op :=
  [Add (lit "sys") (lit "overview") (page (SystemInspector.overview s)) (lit "print system overview");
   Add (lit "sys") (lit "loadavg") (page (SystemInspector.loadavg s)) (lit "print /proc/loadavg");
   Add (lit "sys") (lit "version") (page (SystemInspector.version s)) (lit "print /proc/version");
   Add (lit "sys") (lit "cpuinfo") (page (SystemInspector.cpuinfo s)) (lit "print /proc/cpuinfo");
   Add (lit "sys") (lit "meminfo") (page (SystemInspector.meminfo s)) (lit "print /proc/meminfo");
   Add (lit "sys") (lit "stat") (page (SystemInspector.stat s)) (lit "print /proc/stat")].

Definition registerCommands (debug : bool) (s : System) : list op := process_commands debug s ++ system_commands s.

(** The constructor: [g_globalInspector] holds the address of the inspector, or
    nothing; [start] is the callback of the timer, and [pprof] the commands of
    PerformanceInspector.v in a program built with HAVE_TCMALLOC (none without). *)
Definition constructInspector (isMainThread : bool) (this : Z) (debug : bool) (pprof : list op) (s : System) (caller_ : LoopLife.caller) (start : nat)
  (addr : Z) (q : TimerQueue) (g_globalInspector : option Z) : outcome (option Z * Inspector * TimerQueue) :=
  _ ← c_assert isMainThread;
  _ ← c_assert (bool_decide (g_globalInspector = None));
  let i := fold_left perform (registerCommands debug s ++ pprof) newInspector in
  '(_, q) ← LoopLife.runAfter caller_ double_zero start addr (s_now s) q;
  Ok (Some this, i, q).

Definition destroyInspector (isMainThread : bool) (g_globalInspector : option Z) : outcome (option Z) :=
  _ ← c_assert isMainThread; Ok None.

(** A closed decidable fact, by evaluation. *)
Ltac decided := by apply (bool_decide_unpack _).

(** ** Numbers found by their key *)
Lemma find_str_nonneg key l p : find_str key l = Some p -> 0 <= p.
Proof.
  revert p. induction l as [|x l IH]; intros p; cbn [find_str]; destruct (bytes_eqb _ _); try (intros [= <-]; lia); try done.
  destruct (find_str key l) as [q|]; [|done]. intros [= <-]. specialize (IH q eq_refl). lia.
Qed.

Section search.
Context (sep : ascii) (K : bytes) (HK : sep ∉ K).

Lemma key_here A B : sep ∉ A -> take (length (K ++ [sep])) (A ++ sep :: B) = K ++ [sep] <-> A = K.
Proof.
  intros HA. split.
  - intros H. pose proof (take_drop (length (K ++ [sep])) (A ++ sep :: B)) as E. rewrite H in E.
    rewrite <- app_assoc in E. change ([sep] ++ ?r) with (sep :: r) in E.
    assert (Hl : zlen A = zlen K) by (rewrite <- (find_char_app sep A B), <- E by done; by rewrite find_char_app).
    unfold zlen in Hl. apply Nat2Z.inj in Hl. by destruct (app_inj_1 _ _ _ _ (eq_sym Hl) E).
  - intros ->. change (sep :: B) with ([sep] ++ B). by rewrite app_assoc, take_app_length.
Qed.

(** The first occurrence of the key is in the first word that ends in it. *)
Lemma find_str_sep A B :
  sep ∉ A ->
  find_str (K ++ [sep]) (A ++ sep :: B) =
    if decide (K `suffix_of` A) then Some (zlen A - zlen K)
    else Z.add (zlen A + 1) <$> find_str (K ++ [sep]) B.
Proof.
  induction A as [|a A IH]; intros HA.
  - pose proof (key_here [] B HA) as Hk. cbn [app find_str] in *. unfold bytes_eqb. destruct (decide _) as [Hs|Hs].
    + apply suffix_nil_inv in Hs as ->. rewrite bool_decide_eq_true_2 by (by apply Hk). done.
    + rewrite bool_decide_eq_false_2; [by destruct (find_str _ B)|]. intros H%Hk. subst. by apply Hs.
  - pose proof (key_here (a :: A) B HA) as Hk. apply not_elem_of_cons in HA as [Ha HA]. cbn [app find_str] in *.
    unfold bytes_eqb. destruct (decide (K = a :: A)) as [->|Hne].
    + rewrite bool_decide_eq_true_2, decide_True by (done || by apply Hk). f_equal. lia.
    + rewrite bool_decide_eq_false_2 by (by intros E%Hk). rewrite IH, zlen_cons by done.
      destruct (decide (K `suffix_of` A)) as [Hs|Hs].
      * rewrite decide_True by (by apply suffix_cons_r). cbn. f_equal. lia.
      * rewrite decide_False by (intros [[|x k] E]; [by destruct Hne|injection E as -> ->; apply Hs; by exists k]).
        destruct (find_str _ B); cbn; [|done]. f_equal. lia.
Qed.

Lemma getLong_sep A B :
  sep ∉ A ->
  getLong (A ++ sep :: B) (K ++ [sep]) = if decide (K `suffix_of` A) then strtol B else getLong B (K ++ [sep]).
Proof.
  intros HA. unfold getLong. rewrite find_str_sep by done. destruct (decide _) as [Hs|Hs].
  - f_equal. rewrite zlen_app. change (zlen [sep]) with 1.
    replace (zlen A - zlen K + (zlen K + 1)) with (zlen A + 1) by lia. by rewrite zdrop_app_cons.
  - destruct (find_str _ B) as [p|] eqn:E; cbn; [|done]. f_equal.
    assert (0 <= p) by (by eapply find_str_nonneg). pose proof (zlen_nonneg (K ++ [sep])).
    replace (zlen A + 1 + p + zlen (K ++ [sep])) with (zlen (A ++ [sep]) + (p + zlen (K ++ [sep])))
      by (rewrite (zlen_app A); change (zlen [sep]) with 1; lia).
    change (sep :: B) with ([sep] ++ B). rewrite app_assoc.
    unfold zdrop, zlen in *. rewrite Z2Nat.inj_add, Nat2Z.id by lia. by rewrite drop_app_add.
Qed.

Lemma getLong_none A : sep ∉ A -> getLong A (K ++ [sep]) = 0.
Proof.
  intros HA. unfold getLong. enough (find_str (K ++ [sep]) A = None) as -> by done.
  assert (Hn : forall l, sep ∉ l -> take (length (K ++ [sep])) l <> K ++ [sep]).
  { intros l Hl E. apply Hl. rewrite <- (take_drop (length (K ++ [sep])) l), E. set_solver. }
  induction A as [|a A IH]; cbn [find_str]; unfold bytes_eqb; rewrite bool_decide_eq_false_2 by (by apply Hn); [done|].
  rewrite IH; [done|set_solver].
Qed.

(** A key with a letter that has not occurred before. *)
Lemma getLong_after c pre rest :
  c ∈ K -> c ∉ pre -> getLong (pre ++ K ++ sep :: rest) (K ++ [sep]) = strtol rest.
Proof.
  intros Hc. remember (length pre) as n eqn:Hn. revert pre Hn. induction n as [n IH] using lt_wf_ind. intros pre -> Hp.
  destruct (decide (sep ∈ pre)) as [Hs|Hs].
  - apply list_elem_of_split_l in Hs as (A & B & -> & HA). rewrite <- app_assoc. cbn [app].
    rewrite getLong_sep, decide_False by (done || (intros [k ->]; set_solver)).
    apply (IH (length B)); [rewrite length_app; simpl; lia|done|set_solver].
  - rewrite app_assoc, getLong_sep, decide_True by (set_solver || by exists pre). done.
Qed.
End search.

(** ** Texts of lines "name: body" *)
Definition colon : ascii := code_char 58.

Record line := mkLine { l_name : bytes; l_body : bytes }.

Definition line_text (l : line) : bytes := l_name l ++ colon :: l_body l ++ [lf].

Record line_ok (l : line) : Prop := {
  lo_name : colon ∉ l_name l;
  lo_body : colon ∉ l_body l;
}.

(** A line whose body is a number: blanks, its digits and what follows them. *)
Definition numeric (l : line) (v : Z) : Prop :=
  exists blanks tail, l_body l = blanks ++ dec v ++ tail /\ Forall (fun c => isspace c = true) blanks /\
    (forall c r, tail = c :: r -> is_digit c = false) /\ 0 <= v <= LONG_MAX.

(** The first line whose name ends in [K]. *)
Definition line_of (K : bytes) (ls : list line) : option line :=
  head (filter (fun l => K `suffix_of` l_name l) ls).

Lemma strtol_blanks blanks l : Forall (fun c => isspace c = true) blanks -> strtol (blanks ++ l) = strtol l.
Proof.
  intros H. unfold strtol, atol. replace (skip_spaces (blanks ++ l)) with (skip_spaces l); [done|].
  induction H as [|c r Hc _ IH]; [done|]. cbn. by rewrite Hc.
Qed.

Lemma numeric_read l v rest : numeric l v -> strtol (l_body l ++ lf :: rest) = v.
Proof.
  intros (blanks & tail & -> & Hb & Ht & Hv). rewrite <- !app_assoc, strtol_blanks, strtol_dec; try done.
  intros c r. destruct tail as [|x tail]; [by intros [= <- _]|intros [= -> _]; by eapply Ht].
Qed.

Lemma suffix_line (c : ascii) (K p name : bytes) : c ∉ K -> K `suffix_of` (p ++ c :: name) <-> K `suffix_of` name.
Proof.
  intros HK. split; [|intros [k ->]; exists (p ++ c :: k); by rewrite <- app_assoc].
  intros [k E]. apply app_eq_app in E as (r & [[-> ->]|[-> E]]); [set_solver|].
  destruct r as [|x r]; [cbn in E; subst K; set_solver|]. injection E as _ ->. by exists r.
Qed.

(** The number under a key of a text of lines. *)
Lemma getLong_lines K ls l v p :
  colon ∉ K -> lf ∉ K -> Forall line_ok ls -> line_of K ls = Some l -> numeric l v ->
  colon ∉ p -> (forall name, K `suffix_of` (p ++ name) <-> K `suffix_of` name) ->
  getLong (p ++ concat (map line_text ls)) (K ++ [colon]) = v.
Proof.
  intros HK HK' Hls Hl Hv. revert p. induction Hls as [|x ls Hx _ IH]; intros p Hp Hsuf; [done|].
  unfold line_of in *. cbn [map concat]. unfold line_text at 1. rewrite <- !app_assoc. cbn [app].
  rewrite <- app_assoc, app_assoc. destruct Hx as [Hx1 Hx2].
  rewrite (getLong_sep colon K HK) by set_solver. rewrite filter_cons in Hl.
  destruct (decide (K `suffix_of` l_name x)) as [Hs|Hs].
  - rewrite decide_True by (by apply Hsuf). injection Hl as ->. by apply numeric_read.
  - rewrite decide_False by (by rewrite Hsuf). rewrite app_assoc. apply IH; [done|set_solver|].
    intros name. rewrite <- app_assoc. by apply suffix_line.
Qed.

Lemma getLong_line K ls l v :
  colon ∉ K -> lf ∉ K -> Forall line_ok ls -> line_of K ls = Some l -> numeric l v ->
  getLong (concat (map line_text ls)) (K ++ [colon]) = v.
Proof. intros. by eapply (getLong_lines K ls l v []); [..|apply not_elem_of_nil|]. Qed.

(** ** The files of a Linux system *)

(** The file can be opened and read. *)
Record opens (s : System) (path : bytes) : Prop := {
  op_open : f_errno (s_file s path) = 0;
  op_reads : forall j, exists k, f_reads (s_file s path) j = Moves k;
}.

(** What the program sees of a file: its first 64 KiB. *)
Definition first_64K (s : System) (path : bytes) : bytes := ztake 65536 (f_text (s_file s path)).

Record readable (s : System) (path text : bytes) : Prop := {
  rd_opens : opens s path;
  rd_text : first_64K s path = text;
}.

Lemma zlen_first_64K s path : zlen (first_64K s path) <= 65536.
Proof. unfold first_64K, ztake, zlen. rewrite length_take. lia. Qed.

Lemma read_file_readable s path text : readable s path text -> read_file s path = Ok (text, 0).
Proof.
  intros [[H1 H2] <-]. unfold read_file, readFile, readToString. rewrite H1. cbn [newReadSmallFile fd_open Z.eqb err_].
  rewrite read_loop_ok; [|unfold zlen; lia|by intros; apply H2|done].
  change (zlen (@nil ascii)) with 0. change (u64 65536) with 65536. cbn. unfold first_64K. reflexivity.
Qed.

Lemma file_text_readable s path text : readable s path text -> file_text s path = Ok text.
Proof. intros H. unfold file_text. by rewrite (read_file_readable _ _ _ H). Qed.

(** What the first 64 KiB of the files say: the machine, /proc/stat with the boot time (seconds) and
    the number of processes after a part [pre] of counters, /proc/loadavg, and
    /proc/meminfo with four of its sizes. *)
Record Facts := mkFacts {
  fc_uname : Utsname;
  fc_pre : bytes; fc_boot : Z; fc_processes : Z; fc_post : bytes;
  fc_load : bytes;
  fc_mem : list line; fc_total : Z; fc_free : Z; fc_buffers : Z; fc_cached : Z;
}.

Definition stat_file (x : Facts) : bytes :=
  fc_pre x ++ lit "btime " ++ dec (fc_boot x) ++ lf :: lit "processes " ++ dec (fc_processes x) ++ lf :: fc_post x.

Definition sized (K : bytes) (v : Z) (ls : list line) : Prop := exists l, line_of K ls = Some l /\ numeric l v.

Record linux (s : System) (x : Facts) : Prop := {
  lx_uname : s_uname s = Some (fc_uname x);
  lx_names : Forall (fun n => zlen n <= 64) [sysname (fc_uname x); nodename (fc_uname x); release (fc_uname x);
    version_text (fc_uname x); machine (fc_uname x)];
  lx_stat : readable s (lit "/proc/stat") (stat_file x);
  lx_pre : code_char 98 ∉ fc_pre x /\ code_char 115 ∉ fc_pre x;
  lx_boot : 0 <= fc_boot x < 2 ^ 40;
  lx_processes : 0 <= fc_processes x <= LONG_MAX;
  lx_load : readable s (lit "/proc/loadavg") (fc_load x);
  lx_load_text : nul ∉ fc_load x /\ zlen (fc_load x) <= 200;
  lx_mem : readable s (lit "/proc/meminfo") (concat (map line_text (fc_mem x)));
  lx_lines : Forall line_ok (fc_mem x);
  lx_total : sized (lit "MemTotal") (fc_total x) (fc_mem x);
  lx_free : sized (lit "MemFree") (fc_free x) (fc_mem x);
  lx_buffers : sized (lit "Buffers") (fc_buffers x) (fc_mem x);
  lx_cached : sized (lit "Cached") (fc_cached x) (fc_mem x);
  lx_sum : fc_free x + fc_buffers x + fc_cached x <= fc_total x;
}.

Definition mib_text (kb : Z) : bytes := fmt_int false 6 (kb / 1024) ++ lit " MiB" ++ [lf].

(** The page those facts make. *)
Definition overview_text (now : Z) (x : Facts) : bytes :=
  let un := fc_uname x in
  let boot := fc_boot x * kMicroSecondsPerSecond in
  lit "Page generated at " ++ toFormattedString true now ++ lit " (UTC)" ++ [lf] ++
  lit "Hostname: " ++ nodename un ++ [lf] ++
  lit "Machine: " ++ machine un ++ [lf] ++
  lit "OS: " ++ sysname un ++ lit " " ++ release un ++ lit " " ++ version_text un ++ [lf] ++
  lit "Boot time: " ++ toFormattedString false boot ++ lit " (UTC)" ++ [lf] ++
  lit "Up time: " ++ uptime now boot false ++ [lf] ++
  lit "Processes created: " ++ dec (fc_processes x) ++ [lf] ++
  lit "Loadavg: " ++ fc_load x ++ [lf] ++
  lit "Total Memory: " ++ mib_text (fc_total x) ++
  lit "Free Memory:  " ++ mib_text (fc_free x) ++
  lit "Buffers:      " ++ mib_text (fc_buffers x) ++
  lit "Cached:       " ++ mib_text (fc_cached x) ++
  lit "Real Used:    " ++ mib_text (fc_total x - (fc_free x + fc_buffers x + fc_cached x)) ++
  lit "Real Free:    " ++ mib_text (fc_free x + fc_buffers x + fc_cached x).

Lemma snprintf_fits t : zlen t <= 255 -> snprintf 256 t = t.
Proof. intros H. unfold snprintf. apply ztake_all. lia. Qed.

Lemma sized_read K v ls :
  colon ∉ K -> lf ∉ K -> Forall line_ok ls -> sized K v ls ->
  getLong (concat (map line_text ls)) (K ++ [colon]) = v /\ 0 <= v <= LONG_MAX.
Proof.
  intros HK HK' Hls (l & Hl & Hv). split; [by apply (getLong_line K ls l)|]. by destruct Hv as (? & ? & _ & _ & _ & ?).
Qed.

Lemma stat_numbers s x :
  linux s x -> getLong (stat_file x) (lit "btime ") = fc_boot x /\ getLong (stat_file x) (lit "processes ") = fc_processes x.
Proof.
  intros H. destruct (lx_pre _ _ H) as [Hb Hs]. pose proof (lx_boot _ _ H). pose proof (lx_processes _ _ H). unfold stat_file. split.
  - change (lit "btime " ++ ?r) with (lit "btime" ++ space :: r). change (lit "btime ") with (lit "btime" ++ [space]).
    rewrite (getLong_after space (lit "btime") ltac:(decided) (code_char 98)); [|by left|done].
    apply strtol_dec; [unfold LONG_MAX; lia|by intros ? ? [= <- _]].
  - rewrite !(app_assoc (fc_pre x)), (app_assoc _ (dec _)).
    change (?a ++ lf :: lit "processes " ++ ?r) with (a ++ [lf] ++ lit "processes" ++ space :: r).
    change (lit "processes ") with (lit "processes" ++ [space]). rewrite app_assoc.
    rewrite (getLong_after space (lit "processes") ltac:(decided) (code_char 115));
      [|decided|].
    + apply strtol_dec; [done|by intros ? ? [= <- _]].
    + pose proof (not_digit_dec (code_char 115) (fc_boot x) ltac:(lia) ltac:(done)).
      assert (code_char 115 ∉ lit "btime ") by decided.
      assert (code_char 115 <> lf) by done. set_solver.
Qed.

Lemma zlen_fmt6 n : 0 <= n < 2 ^ 63 -> zlen (fmt_int false 6 n) <= 20.
Proof.
  intros H. unfold fmt_int. rewrite (proj2 (Z.ltb_ge n 0)), Z.abs_eq by lia.
  pose proof (dec_length64 n ltac:(lia)). rewrite !zlen_app. unfold zlen at 1. rewrite length_replicate. change (zlen (@nil ascii)) with 0. lia.
Qed.

Lemma mib_line_text label kb result :
  zlen label = 14 -> 0 <= kb <= LONG_MAX -> SystemInspector.mib_line label kb result = result ++ label ++ mib_text kb.
Proof.
  intros Hl Hk. unfold SystemInspector.mib_line, stringPrintf, mib_text. cbn [fst]. unfold LONG_MAX in Hk.
  rewrite Z.quot_div_nonneg by lia. rewrite snprintf_fits; [done|].
  pose proof (zlen_fmt6 (kb / 1024) ltac:(split; [apply Z.div_pos; lia|apply Z.div_lt_upper_bound; lia])).
  rewrite !zlen_app. change (zlen (lit " MiB")) with 4. change (zlen [lf]) with 1. lia.
Qed.

Lemma long_ok z : LONG_MIN <= z <= LONG_MAX -> long z = Ok z.
Proof. intros [H1 H2]. unfold long. by rewrite (proj2 (Z.leb_le _ _) H1), (proj2 (Z.leb_le _ _) H2). Qed.

Lemma memory_text s x result :
  linux s x ->
  SystemInspector.memory (concat (map line_text (fc_mem x))) result = Ok (result ++
    lit "Total Memory: " ++ mib_text (fc_total x) ++
    lit "Free Memory:  " ++ mib_text (fc_free x) ++
    lit "Buffers:      " ++ mib_text (fc_buffers x) ++
    lit "Cached:       " ++ mib_text (fc_cached x) ++
    lit "Real Used:    " ++ mib_text (fc_total x - (fc_free x + fc_buffers x + fc_cached x)) ++
    lit "Real Free:    " ++ mib_text (fc_free x + fc_buffers x + fc_cached x)).
Proof.
  intros H. unfold SystemInspector.memory.
  change (lit "MemTotal:") with (lit "MemTotal" ++ [colon]). change (lit "MemFree:") with (lit "MemFree" ++ [colon]).
  change (getLong ?t (lit "Buffers:")) with (getLong t (lit "Buffers" ++ [colon])).
  change (lit "Cached:") with (lit "Cached" ++ [colon]).
  pose proof (fun K v Hc Hf => sized_read K v (fc_mem x) Hc Hf (lx_lines _ _ H)) as R.
  destruct (R (lit "MemTotal") _ ltac:(decided) ltac:(decided) (lx_total _ _ H)) as [-> Ht].
  destruct (R (lit "MemFree") _ ltac:(decided) ltac:(decided) (lx_free _ _ H)) as [-> Hf].
  destruct (R (lit "Buffers") _ ltac:(decided) ltac:(decided) (lx_buffers _ _ H)) as [-> Hb].
  destruct (R (lit "Cached") _ ltac:(decided) ltac:(decided) (lx_cached _ _ H)) as [-> Hc].
  pose proof (lx_sum _ _ H). assert (LONG_MIN <= 0) by done.
  repeat (rewrite long_ok by lia; cbn [mbind outcome_bind]). rewrite !mib_line_text by (done || lia).
  rewrite <- !app_assoc.
  replace (fc_total x - (fc_free x + fc_buffers x + fc_cached x)) with (fc_total x - fc_free x - fc_buffers x - fc_cached x) by lia.
  done.
Qed.

Lemma hardware_text s x result :
  linux s x ->
  SystemInspector.hardware s result = result ++ lit "Hostname: " ++ nodename (fc_uname x) ++ [lf] ++
    lit "Machine: " ++ machine (fc_uname x) ++ [lf] ++
    lit "OS: " ++ sysname (fc_uname x) ++ lit " " ++ release (fc_uname x) ++ lit " " ++ version_text (fc_uname x) ++ [lf].
Proof.
  intros H. unfold SystemInspector.hardware, stringPrintf. rewrite (lx_uname _ _ H). cbn [fst].
  pose proof (lx_names _ _ H) as Hn. rewrite !Forall_cons in Hn. destruct Hn as (? & ? & ? & ? & ? & _).
  assert (zlen (lit "Hostname: ") = 10 /\ zlen (lit "Machine: ") = 9 /\ zlen (lit "OS: ") = 4 /\ zlen (lit " ") = 1 /\
    zlen [lf] = 1) as (? & ? & ? & ? & ?) by done.
  rewrite !snprintf_fits by (rewrite !zlen_app; lia). by rewrite <- !app_assoc.
Qed.

Lemma c_text_id l : nul ∉ l -> c_text l = l.
Proof. intros H. unfold c_text. rewrite find_char_none by done. by apply ztake_all. Qed.

Lemma overview_ok s x : linux s x -> SystemInspector.overview s = Ok (overview_text (s_now s) x).
Proof.
  intros H. unfold SystemInspector.overview. rewrite (hardware_text _ _ _ H).
  rewrite (file_text_readable _ _ _ (lx_stat _ _ H)), (file_text_readable _ _ _ (lx_load _ _ H)),
    (file_text_readable _ _ _ (lx_mem _ _ H)). cbn [mbind outcome_bind].
  destruct (stat_numbers _ _ H) as [-> ->]. pose proof (lx_boot _ _ H). pose proof (lx_processes _ _ H).
  destruct (lx_load_text _ _ H) as [Hn Hz].
  rewrite long_ok by (unfold LONG_MIN, LONG_MAX, kMicroSecondsPerSecond; lia). cbn [mbind outcome_bind].
  rewrite (memory_text _ _ _ H), (Z.mul_comm kMicroSecondsPerSecond). unfold stringPrintf. cbn [fst].
  rewrite (c_text_id _ Hn).
  assert (zlen (lit "Processes created: ") = 19 /\ zlen (lit "Loadavg: ") = 9 /\ zlen [lf] = 1) as (? & ? & ?) by done.
  pose proof (dec_length64 (fc_processes x) ltac:(unfold LONG_MAX in *; lia)).
  rewrite !snprintf_fits by (rewrite !zlen_app; lia). unfold overview_text. by rewrite <- !app_assoc.
Qed.

(** ** Pages over the wire *)

(** The request [t] on a connection is answered with one 200 response whose body is
    [body], and what follows it stays in the buffer. *)
Definition served (i : Inspector) (rt : Z) (t : request_text) (buf : Buffer) (rest body : bytes) : Prop :=
  let req := with_headers (mkRequest (t_method t) (t_version t) (t_path t) (t_query t) rt []) (t_headers t) in
  let resp := ok_response (lit "text/plain") body (newResponse (wantsClose req)) in
  exists buf', onMessage (http_callback i) rt newContext buf =
      Ok (Send (response_text resp) :: (if closeConnection_ resp then [Shutdown] else []), newContext, buf') /\
    wf buf' /\ content buf' = rest.

Lemma page_response_ok close body :
  zlen body <= 2 ^ 30 -> response_ok (ok_response (lit "text/plain") body (newResponse close)).
Proof.
  intros H. pose proof (zlen_nonneg body). pose proof (dec_length64 (zlen body) ltac:(lia)).
  split; [done|]. unfold response_text, ok_response. cbn [statusCode_ statusMessage_ closeConnection_ body_ setBody setContentType
    setStatusMessage setStatusCode HttpResponse.addHeader HttpResponse.headers_ newResponse].
  rewrite !zlen_app. set (hs := mjoin _). assert (zlen hs = 26) by (by vm_compute).
  assert (zlen (lit "HTTP/1.1 ") = 9 /\ zlen (dec k200Ok) = 3 /\ zlen (lit " ") = 1 /\ zlen (lit "OK") = 2 /\ zlen kCRLF = 2)
    as (? & ? & ? & ? & ?) by (by vm_compute).
  destruct close; rewrite ?zlen_app.
  - assert (zlen (lit "Connection: close") = 17) by done. lia.
  - assert (zlen (lit "Content-Length: ") = 16 /\ zlen (lit "Connection: Keep-Alive") = 22) as [? ?] by done. lia.
Qed.

Lemma page_served ops module command help o body rt t buf rest :
  registry ops !! (module, command) = Some (page o, help) -> o = Ok body -> zlen body <= 2 ^ 30 ->
  part_ok module -> part_ok command -> t_path t = path_of [module; command] ->
  wf buf -> text_ok t -> content buf = print_request t ++ rest ->
  served (fold_left perform ops newInspector) rt t buf rest body.
Proof.
  intros Hr Ho Hb Hm Hc Hpath Hbuf Ht Hcont. unfold served.
  set (req := with_headers _ _). set (resp := ok_response _ _ _).
  destruct (onMessage_request (http_callback (fold_left perform ops newInspector)) rt t buf rest Hbuf Ht Hcont) as (buf' & E & Hw & Hrest).
  fold req in E.
  assert (Hresp : http_callback (fold_left perform ops newInspector) req (newResponse (wantsClose req)) = resp).
  { unfold http_callback. rewrite (onRequest_answer (registry ops) _ req _ module command []); [|apply iinv_run, iinv_new|..].
    - unfold answer, Callback in *. rewrite Hr. unfold page. by rewrite Ho.
    - by rewrite !Forall_cons, Forall_nil.
    - done. }
  rewrite (onRequest_sends _ req) in E by (rewrite Hresp; by apply page_response_ok). rewrite Hresp in E. by exists buf'.
Qed.

(** The pages, by module and command. *)
Definition pages (debug : bool) (s : System) : list (string * string * outcome bytes) :=
  [("proc", "overview", ProcessInspector.overview debug s); ("proc", "pid", Ok (ProcessInspector.pid s));
   ("proc", "status", procStatus s); ("proc", "threads", ProcessInspector.threads s);
   ("sys", "overview", SystemInspector.overview s); ("sys", "loadavg", SystemInspector.loadavg s);
   ("sys", "version", SystemInspector.version s); ("sys", "cpuinfo", SystemInspector.cpuinfo s);
   ("sys", "meminfo", SystemInspector.meminfo s); ("sys", "stat", SystemInspector.stat s)]%string.

Definition op_module (o : op) : bytes := match o with Add module _ _ _ => module | Remove module _ => module end.
(** Commands of the module pprof only. *)
Definition pprof_only (l : list op) : Prop := Forall (fun o => op_module o = lit "pprof") l.

Lemma registry_other l1 l2 m c : Forall (fun o => op_module o <> m) l2 -> registry (l1 ++ l2) !! (m, c) = registry l1 !! (m, c).
Proof.
  intros H. unfold registry. rewrite fold_left_app. generalize (fold_left register l1 ∅). induction H as [|o l2 Ho _ IH]; intros r; [done|].
  cbn [fold_left]. rewrite IH. destruct o; cbn [register op_module] in *; [apply lookup_insert_ne|apply lookup_delete_ne]; congruence.
Qed.

(** The entry of a command, looked up among the commands added after it. *)
Ltac find_command := eexists; cbn [app fold_left register]; repeat (rewrite lookup_insert_ne by done); by rewrite lookup_insert_eq.

Lemma registered debug pprof s m c o :
  pprof_only pprof -> (m, c, o) ∈ pages debug s ->
  (exists help, registry (registerCommands debug s ++ pprof) !! (lit m, lit c) = Some (page o, help)) /\ part_ok (lit m) /\ part_ok (lit c).
Proof.
  intros Hpp H. unfold pages in H.
  repeat (apply elem_of_cons in H as [H|H]; [injection H as -> -> ->; split;
    [rewrite registry_other by (by eapply Forall_impl; [exact Hpp|intros ? ->]);
     unfold registry, registerCommands, process_commands, system_commands; find_command
    |split; (split; [done|decided])]|]).
  by apply not_elem_of_nil in H.
Qed.

Definition file_pages : list (string * string * string) :=
  [("proc", "status", "/proc/self/status"); ("sys", "loadavg", "/proc/loadavg"); ("sys", "version", "/proc/version");
   ("sys", "cpuinfo", "/proc/cpuinfo"); ("sys", "meminfo", "/proc/meminfo"); ("sys", "stat", "/proc/stat")]%string.

Lemma file_pages_registered debug s m c path :
  (m, c, path) ∈ file_pages -> (m, c, file_text s (lit path)) ∈ pages debug s.
Proof.
  intros H. unfold file_pages in H.
  repeat (apply elem_of_cons in H as [H|H]; [injection H as -> -> ->|]); [..|by apply not_elem_of_nil in H].
  - by apply (list_elem_of_lookup_2 _ 2).
  - by apply (list_elem_of_lookup_2 _ 5).
  - by apply (list_elem_of_lookup_2 _ 6).
  - by apply (list_elem_of_lookup_2 _ 7).
  - by apply (list_elem_of_lookup_2 _ 8).
  - by apply (list_elem_of_lookup_2 _ 9).
Qed.

Lemma zlen_snprintf n t : 0 <= n -> zlen (snprintf n t) <= n.
Proof. intros H. unfold snprintf, ztake, zlen. rewrite length_take. lia. Qed.

Lemma zlen_toFormattedString show t : zlen (toFormattedString show t) <= 64.
Proof. unfold toFormattedString. destruct show; by apply zlen_snprintf. Qed.

Lemma zlen_mib_text kb : 0 <= kb <= LONG_MAX -> zlen (mib_text kb) <= 25.
Proof.
  unfold LONG_MAX. intros H. unfold mib_text. rewrite !zlen_app. change (zlen (lit " MiB")) with 4. change (zlen [lf]) with 1.
  pose proof (zlen_fmt6 (kb / 1024) ltac:(split; [apply Z.div_pos; lia|apply Z.div_lt_upper_bound; lia])). lia.
Qed.

(** The page is short. *)
Lemma overview_size s x : linux s x -> zlen (overview_text (s_now s) x) <= 2 ^ 30.
Proof.
  intros H. pose proof (lx_names _ _ H) as Hn. rewrite !Forall_cons in Hn. destruct Hn as (? & ? & ? & ? & ? & _).
  destruct (lx_load_text _ _ H) as [_ ?]. pose proof (lx_sum _ _ H).
  pose proof (dec_length64 (fc_processes x) ltac:(pose proof (lx_processes _ _ H); unfold LONG_MAX in *; lia)).
  assert (Hs : forall K v, sized K v (fc_mem x) -> 0 <= v <= LONG_MAX) by (by intros K v (l & _ & ? & ? & _ & _ & _ & ?)).
  pose proof (Hs _ _ (lx_total _ _ H)). pose proof (Hs _ _ (lx_free _ _ H)). pose proof (Hs _ _ (lx_buffers _ _ H)).
  pose proof (Hs _ _ (lx_cached _ _ H)).
  assert (Hm : forall kb, 0 <= kb <= fc_total x -> zlen (mib_text kb) <= 25) by (intros; apply zlen_mib_text; lia).
  assert (Hu : forall a b, zlen (uptime a b false) <= 256) by (intros; unfold uptime; by apply zlen_snprintf).
  pose proof (Hm (fc_total x) ltac:(lia)). pose proof (Hm (fc_free x) ltac:(lia)). pose proof (Hm (fc_buffers x) ltac:(lia)).
  pose proof (Hm (fc_cached x) ltac:(lia)). pose proof (Hm (fc_free x + fc_buffers x + fc_cached x) ltac:(lia)).
  pose proof (Hm (fc_total x - (fc_free x + fc_buffers x + fc_cached x)) ltac:(lia)).
  unfold overview_text. rewrite !zlen_app. pose proof (Hu (s_now s) (fc_boot x * kMicroSecondsPerSecond)).
  pose proof (zlen_toFormattedString true (s_now s)). pose proof (zlen_toFormattedString false (fc_boot x * kMicroSecondsPerSecond)).
  repeat match goal with |- context [zlen (lit ?t)] => let n := eval vm_compute in (zlen (lit t)) in change (zlen (lit t)) with n end.
  change (zlen [lf]) with 1. lia.
Qed.

Lemma construct_ok debug pprof s isMain this caller_ start addr q g g' i q' :
  constructInspector isMain this debug pprof s caller_ start addr q g = Ok (g', i, q') ->
  isMain = true /\ g = None /\ g' = Some this /\ i = fold_left perform (registerCommands debug s ++ pprof) newInspector.
Proof.
  unfold constructInspector. set (i0 := fold_left _ _ _). clearbody i0. destruct isMain; [|done]. destruct g as [p|]; [done|].
  cbn. destruct (LoopLife.runAfter _ _ _ _ _ _) as [[id q1]|]; [|done]. by intros [= <- <- _].
Qed.

(** The page of the process returns unless the name in the status text has no end
    of line (or /proc/self/fd cannot be scanned, as openedFiles requires). *)
Lemma process_overview_returns debug s status name opened limit :
  readable s (lit "/proc/self/status") status -> getProcessName status = Ok name ->
  openedFiles (s_fds s) = Ok opened -> maxOpenFiles (s_limit s) (s_fds s) = Ok limit ->
  exists text, ProcessInspector.overview debug s = Ok text.
Proof.
  intros Hr Hn Ho Hm. unfold ProcessInspector.overview, procStatus. rewrite (file_text_readable _ _ _ Hr). cbn [mbind outcome_bind].
  rewrite Hn, Hm, Ho. cbn [mbind outcome_bind]. destruct (cpuTime s) as [u sys]. unfold stringPrintf. cbn [fst].
  by eexists.
Qed.

(** C38: An inspector that its constructor made is the only one: it was made in the
    main thread when there was none, it is the global one, and every attempt to make
    another fails an assertion while it lives.  On a system with the files of Linux,
    a request over a connection for /sys/overview is answered with the page of the
    facts in those files - the machine, the boot and up time, the processes, the
    load and the memory in MiB, whatever other lines the first 64 KiB of the files
    have - and a request for a file page with the first 64 KiB of its file, which is
    all the code reads. *)
Theorem inspector_pages debug pprof s x isMain this caller_ start addr q g g' i q'
  (Hc : constructInspector isMain this debug pprof s caller_ start addr q g = Ok (g', i, q'))
  (Hpp : pprof_only pprof) (Hl : linux s x) :
  (isMain = true /\ g = None /\ g' = Some this) /\
  (forall isMain this debug pprof s caller_ start addr q,
     constructInspector isMain this debug pprof s caller_ start addr q g' = Fault AssertFailed) /\
  forall rt t buf rest, wf buf -> text_ok t -> content buf = print_request t ++ rest ->
    (t_path t = lit "/sys/overview" -> served i rt t buf rest (overview_text (s_now s) x)) /\
    (forall m c path, (m, c, path) ∈ file_pages -> opens s (lit path) ->
       t_path t = path_of [lit m; lit c] -> served i rt t buf rest (first_64K s (lit path))).
Proof.
  apply construct_ok in Hc as (-> & -> & -> & ->). split; [done|]. split.
  { intros isMain *. unfold constructInspector. by destruct isMain. }
  intros rt t buf rest Hbuf Ht Hcont. split.
  - intros Hp. destruct (registered debug pprof s "sys" "overview" (SystemInspector.overview s)) as ((h & Hr) & Hm & Hc);
      [done|by apply (list_elem_of_lookup_2 _ 4)|].
    exact (page_served _ _ _ _ _ _ rt t buf rest Hr (overview_ok s x Hl) (overview_size s x Hl) Hm Hc Hp Hbuf Ht Hcont).
  - intros m c path Hin Hopen Hp.
    destruct (registered debug pprof s m c _ Hpp (file_pages_registered debug s m c path Hin)) as ((h & Hr) & Hm & Hc).
    assert (Hz : zlen (first_64K s (lit path)) <= 2 ^ 30) by (pose proof (zlen_first_64K s (lit path)); lia).
    exact (page_served _ _ _ _ _ _ rt t buf rest Hr (file_text_readable s _ _ (Build_readable _ _ _ Hopen eq_refl)) Hz Hm Hc Hp Hbuf Ht Hcont).
Qed.

(** ** Sample *)
Module SystemSample.
Definition machine_name : Utsname := mkUname (lit "Linux") (lit "host") (lit "6.1.0") (lit "#1 SMP") (lit "x86_64").
Definition kb_line (name : string) (v : Z) : line := mkLine (lit name) (lit "        " ++ dec v ++ lit " kB").
Definition mem_lines : list line :=
  [kb_line "MemTotal" 2048000; kb_line "MemFree" 1024000; kb_line "MemAvailable" 1500000; kb_line "Buffers" 10240;
   kb_line "Cached" 204800; kb_line "SwapCached" 77].
Definition facts : Facts :=
  mkFacts machine_name (lit "cpu  12 3" ++ [lf] ++ lit "ctxt 5" ++ [lf]) 1700000000 4242 (lit "procs_running 1" ++ [lf])
    (lit "0.10 0.20 0.30 1/99 4242" ++ [lf]) mem_lines 2048000 1024000 10240 204800.
Definition file_at (path : bytes) : File :=
  if bytes_eqb path (lit "/proc/stat") then mkFile 0 (fun _ => Moves 1000) (stat_file facts)
  else if bytes_eqb path (lit "/proc/loadavg") then mkFile 0 (fun _ => Moves 3) (fc_load facts)
  else if bytes_eqb path (lit "/proc/meminfo") then mkFile 0 (fun _ => Moves 1000) (concat (map line_text mem_lines))
  else if bytes_eqb path (lit "/proc/self/status") then
    mkFile 0 (fun _ => Moves 1000) (lit "Name:" ++ tab :: lit "echo" ++ [lf] ++ lit "VmSize:" ++ tab :: lit "   10001 kB" ++ [lf] ++
      lit "VmRSS:" ++ tab :: lit "    1536 kB" ++ [lf] ++ lit "Threads:" ++ tab :: lit "3" ++ [lf])
  else mkFile 2 (fun _ => Moves 0) [].
Definition system : System :=
  mkSystem 1700000100000005 (Some machine_name) file_at 4242 4242 1700000050000000 None (Some (lit "host" ++ [nul]))
    (Some (lit "/bin/echo")) (Some (map lit ["."; ".."; "0"; "1"; "12"])) (Some []) (Some 1024) (Some (345, 7)) 100.
Definition request : request_text := mkText kGet (lit "/sys/overview") [] kHttp11 [].

Lemma request_ok : text_ok request.
Proof.
  split; try discriminate; cbn.
  - split_and!; apply (bool_decide_unpack _); vm_compute; exact I.
  - split_and!; [apply (bool_decide_unpack _); vm_compute; exact I..|by left].
  - constructor.
Qed.

Lemma kb_line_numeric name v : 0 <= v <= LONG_MAX -> numeric (kb_line name v) v.
Proof.
  intros H. exists (lit "        "), (lit " kB"). split_and!; [done| |by intros c r [= <- _]|lia|lia]. by repeat constructor.
Qed.

Lemma system_linux : linux system facts.
Proof.
  assert (Hread : forall path n text, s_file system path = mkFile 0 (fun _ => Moves n) text -> zlen text <= 65536 -> readable system path text).
  { intros path n text E Hz. split; [split|unfold first_64K]; rewrite E; eauto. by apply ztake_all. }
  split; try done.
  - repeat constructor; by vm_compute.
  - by apply (Hread _ 1000); [|vm_compute].
  - split; decided.
  - by apply (Hread _ 3); [|vm_compute].
  - split; [decided|by vm_compute].
  - by apply (Hread _ 1000); [|vm_compute].
  - repeat constructor; apply (bool_decide_unpack _); by vm_compute.
  - exists (kb_line "MemTotal" 2048000). by split; [vm_compute|apply kb_line_numeric].
  - exists (kb_line "MemFree" 1024000). by split; [vm_compute|apply kb_line_numeric].
  - exists (kb_line "Buffers" 10240). by split; [vm_compute|apply kb_line_numeric].
  - exists (kb_line "Cached" 204800). by split; [vm_compute|apply kb_line_numeric].
Qed.

(** The sample page ends in the memory of the machine, and its up time is 100 s. *)
Example sample_overview :
  SystemInspector.overview system = Ok (lit "Page generated at 20231114 22:15:00.000005 (UTC)" ++ [lf] ++
    lit "Hostname: host" ++ [lf] ++ lit "Machine: x86_64" ++ [lf] ++ lit "OS: Linux 6.1.0 #1 SMP" ++ [lf] ++
    lit "Boot time: 20231114 22:13:20 (UTC)" ++ [lf] ++ lit "Up time: 0 days 00:01:40" ++ [lf] ++
    lit "Processes created: 4242" ++ [lf] ++ lit "Loadavg: 0.10 0.20 0.30 1/99 4242" ++ [lf] ++ [lf] ++
    lit "Total Memory:   2000 MiB" ++ [lf] ++ lit "Free Memory:    1000 MiB" ++ [lf] ++
    lit "Buffers:          10 MiB" ++ [lf] ++ lit "Cached:          200 MiB" ++ [lf] ++
    lit "Real Used:       790 MiB" ++ [lf] ++ lit "Real Free:      1210 MiB" ++ [lf]).
Proof. by vm_compute. Qed.

(** The page of the process; its sizes and times are the doubles printed by %.3f. *)
Example sample_process :
  ProcessInspector.overview false system = Ok (lit "Page generated at 20231114 22:15:00.000005 (UTC)" ++ [lf] ++
    lit "Started at 20231114 22:14:10.000000 (UTC), up for 0 days 00:00:50.000005" ++ [lf] ++
    lit "echo (/bin/echo) running as unknownuser on host" ++ [lf] ++ lit "pid 4242, num of threads 3, bits 64" ++ [lf] ++
    lit "Virtual memory: 9.767 MiB, RSS memory: 1.500 MiB" ++ [lf] ++ lit "Opened files: 3, limit: 1024" ++ [lf] ++
    lit "User time:        3.450s" ++ [lf] ++ lit "Sys time:         0.070s" ++ [lf]).
Proof. by vm_compute. Qed.

Lemma inspector_pages_witness :
  exists i q', constructInspector true 4096 true [] system LoopLife.LoopThread 1 64 newTimerQueue None = Ok (Some 4096, i, q') /\
    served i 7 request (buffer_of (print_request request ++ lit "GET /")) (lit "GET /") (overview_text 1700000100000005 facts).
Proof.
  destruct (buffer_of_spec (print_request request ++ lit "GET /")) as [Hw Hc]; [vm_compute; discriminate|].
  assert (Hrun : exists id q', LoopLife.runAfter LoopLife.LoopThread double_zero 1 64 (s_now system) newTimerQueue = Ok (id, q'))
    by (vm_compute; eauto).
  destruct Hrun as (id & q' & Hrun).
  assert (E : constructInspector true 4096 true [] system LoopLife.LoopThread 1 64 newTimerQueue None =
    Ok (Some 4096, fold_left perform (registerCommands true system ++ []) newInspector, q'))
    by (unfold constructInspector; rewrite Hrun; reflexivity).
  eexists _, q'. split; [exact E|].
  destruct (inspector_pages true [] system facts true 4096 LoopLife.LoopThread 1 64 newTimerQueue None (Some 4096) _ q' E (Forall_nil_2 _) system_linux) as (_ & _ & H).
  destruct (H 7 request _ (lit "GET /") Hw request_ok Hc) as [Hov _]. exact (Hov eq_refl).
Defined.
End SystemSample.
