(* ===== verification/Sockets.v ===== *)
(** * Sockets: net/Socket.h, net/Socket.cc, net/SocketsOps.cc

    The sockets of the process are a map from descriptors to their states, with
    errno beside it.  A system call takes what the kernel answers as an argument: a
    fresh descriptor or an errno.  [Build] has the macros of the build: with
    VALGRIND the flags of a new socket are set by fcntl after the call, otherwise by
    the call; those of an accepted one also with NO_ACCEPT4.

    Theorems: all builds make the same sockets; a listening socket is bound,
    non-blocking, closed on exec and reuses its address, or the program ends; the
    builds differ when accept fails: without accept4 errno is overwritten before
    it is looked at, and every error is fatal; the text of tcp_info is never cut
    and gives back every field. *)

From S2P Require Import Prelude StdContainers Format StringPiece Timestamp ProcessInfo Acceptor InetAddress SystemInspector.

(** ** The kernel *)
Definition O_RDWR : Z := 2.
Definition O_NONBLOCK : Z := 2048.
Definition FD_CLOEXEC : Z := 1.
Definition EBADF : Z := 9.
Definition ENOPROTOOPT : Z := 92.

Inductive option_name := TCP_NODELAY | SO_REUSEADDR | SO_REUSEPORT | SO_KEEPALIVE.
#[export] Instance option_name_eq_dec : EqDecision option_name.
Proof. solve_decision. Defined.

Record sock := mkSock {
  k_family : Z;
  k_status : Z;                (* F_GETFL *)
  k_flags : Z;                 (* F_GETFD *)
  k_local : option bytes;
  k_peer : option bytes;
  k_listening : bool;
  k_shut : bool;
  k_options : list option_name;
}.

Record Net := mkNet { socks : gmap Z sock; errno : Z }.

Definition fail (e : Z) (k : Net) : Z * Net := (-1, mkNet (socks k) e).

(** A call on an open descriptor that succeeds, or EBADF. *)
Definition on_sock (fd : Z) (f : sock -> Z * sock) (k : Net) : Z * Net :=
  match socks k !! fd with
  | Some s => let '(r, s) := f s in (r, mkNet (<[fd := s]> (socks k)) (errno k))
  | None => fail EBADF k
  end.

(** [answer]: the descriptor, or the errno. *)
Definition sys_socket (answer : Z + Z) (family : Z) (nonblock cloexec : bool) (k : Net) : Z * Net :=
  match answer with
  | inl fd => (fd, mkNet (<[fd := mkSock family (if nonblock then Z.lor O_RDWR O_NONBLOCK else O_RDWR)
                                    (if cloexec then FD_CLOEXEC else 0) None None false false []]> (socks k)) (errno k))
  | inr e => fail e k
  end.

(** [answer]: the descriptor of the connection and the address of its peer. *)
Definition sys_accept (answer : Z * bytes + Z) (family : Z) (nonblock cloexec : bool) (k : Net) : Z * option bytes * Net :=
  match answer with
  | inl (fd, peer) =>
      (fd, Some peer, mkNet (<[fd := mkSock family (if nonblock then Z.lor O_RDWR O_NONBLOCK else O_RDWR)
                                       (if cloexec then FD_CLOEXEC else 0) None (Some peer) false false []]> (socks k)) (errno k))
  | inr e => let '(r, k) := fail e k in (r, None, k)
  end.

Definition sys_fcntl_getfl (fd : Z) (k : Net) : Z * Net := on_sock fd (fun s => (k_status s, s)) k.
Definition sys_fcntl_getfd (fd : Z) (k : Net) : Z * Net := on_sock fd (fun s => (k_flags s, s)) k.
Definition sys_fcntl_setfl (fd flags : Z) (k : Net) : Z * Net :=
  on_sock fd (fun s => (0, mkSock (k_family s) flags (k_flags s) (k_local s) (k_peer s) (k_listening s) (k_shut s) (k_options s))) k.
Definition sys_fcntl_setfd (fd flags : Z) (k : Net) : Z * Net :=
  on_sock fd (fun s => (0, mkSock (k_family s) (k_status s) flags (k_local s) (k_peer s) (k_listening s) (k_shut s) (k_options s))) k.

(** [err]: the errno the kernel answers; 0 for success. *)
Definition sys_bind (err fd : Z) (addr : bytes) (k : Net) : Z * Net :=
  if err =? 0 then on_sock fd (fun s => (0, mkSock (k_family s) (k_status s) (k_flags s) (Some addr) (k_peer s) (k_listening s)
    (k_shut s) (k_options s))) k else fail err k.
Definition sys_listen (err fd : Z) (k : Net) : Z * Net :=
  if err =? 0 then on_sock fd (fun s => (0, mkSock (k_family s) (k_status s) (k_flags s) (k_local s) (k_peer s) true
    (k_shut s) (k_options s))) k else fail err k.
Definition sys_shutdown (err fd : Z) (k : Net) : Z * Net :=
  if err =? 0 then on_sock fd (fun s => (0, mkSock (k_family s) (k_status s) (k_flags s) (k_local s) (k_peer s) (k_listening s)
    true (k_options s))) k else fail err k.
Definition sys_setsockopt (err fd : Z) (o : option_name) (optval : Z) (k : Net) : Z * Net :=
  if err =? 0 then on_sock fd (fun s => (0, mkSock (k_family s) (k_status s) (k_flags s) (k_local s) (k_peer s) (k_listening s)
    (k_shut s) (if optval =? 0 then filter (.≠ o) (k_options s) else o :: filter (.≠ o) (k_options s)))) k else fail err k.
Definition sys_close (fd : Z) (k : Net) : Z * Net :=
  match socks k !! fd with
  | Some _ => (0, mkNet (delete fd (socks k)) (errno k))
  | None => fail EBADF k
  end.

(** ** SocketsOps *)
Definition setNonBlockAndCloseOnExec (sockfd : Z) (k : Net) : Net :=
  let '(flags, k) := sys_fcntl_getfl sockfd k in
  let '(_, k) := sys_fcntl_setfl sockfd (Z.lor flags O_NONBLOCK) k in
  let '(flags, k) := sys_fcntl_getfd sockfd k in
  let '(_, k) := sys_fcntl_setfd sockfd (Z.lor flags FD_CLOEXEC) k in
  k.

(** The macros of the build. *)
Record Build := mkBuild { VALGRIND : bool; NO_ACCEPT4 : bool }.

Definition createNonblockingOrDie (b : Build) (answer : Z + Z) (family : Z) (k : Net) : outcome (Z * Net) :=
  if VALGRIND b then
    let '(sockfd, k) := sys_socket answer family false false k in
    _ ← log_fatal_unless (0 <=? sockfd);
    Ok (sockfd, setNonBlockAndCloseOnExec sockfd k)
  else
    let '(sockfd, k) := sys_socket answer family true true k in
    _ ← log_fatal_unless (0 <=? sockfd);
    Ok (sockfd, k).

Definition bindOrDie (err sockfd : Z) (addr : bytes) (k : Net) : outcome Net :=
  let '(ret, k) := sys_bind err sockfd addr k in
  _ ← log_fatal_unless (0 <=? ret); Ok k.

Definition listenOrDie (err sockfd : Z) (k : Net) : outcome Net :=
  let '(ret, k) := sys_listen err sockfd k in
  _ ← log_fatal_unless (0 <=? ret); Ok k.

(** The errors that are expected of accept; LOG_FATAL for the others. *)
Definition accept_error (savedErrno : Z) : outcome unit :=
  log_fatal_unless (bool_decide (savedErrno ∈ [Acceptor.EAGAIN; Acceptor.ECONNABORTED; Acceptor.EINTR; Acceptor.EPROTO; Acceptor.EPERM; Acceptor.EMFILE])).

(** The descriptor, and what the kernel wrote to the address. *)
Definition accept (b : Build) (answer : Z * bytes + Z) (family : Z) (k : Net) : outcome (Z * option bytes * Net) :=
  let '(connfd, addr, k) :=
    if VALGRIND b || NO_ACCEPT4 b then
      let '(connfd, addr, k) := sys_accept answer family false false k in
      (connfd, addr, setNonBlockAndCloseOnExec connfd k)
    else sys_accept answer family true true k in
  if connfd <? 0 then
    let savedErrno := errno k in
    _ ← accept_error savedErrno;
    Ok (connfd, addr, mkNet (socks k) savedErrno)
  else Ok (connfd, addr, k).

(** LOG_SYSERR on failure. *)
Definition close (sockfd : Z) (k : Net) : bool * Net :=
  let '(ret, k) := sys_close sockfd k in (ret <? 0, k).

Definition shutdownWrite (err sockfd : Z) (k : Net) : bool * Net :=
  let '(ret, k) := sys_shutdown err sockfd k in (ret <? 0, k).

(** [answer]: SO_ERROR, or the errno of getsockopt. *)
Definition getSocketError (answer : Z + Z) : Z := match answer with inl optval => optval | inr e => e end.

(** [answer]: the bytes getsockname or getpeername writes; zeros when it fails. *)
Definition getLocalAddr (answer : option bytes) : bytes :=
  let localaddr := replicate 28 nul in
  match answer with Some a => zwrite 0 a localaddr | None => localaddr end.
Definition getPeerAddr (answer : option bytes) : bytes :=
  let peeraddr := replicate 28 nul in
  match answer with Some a => zwrite 0 a peeraddr | None => peeraddr end.

(** ** Socket *)
Definition Socket := Z.
Definition destroySocket (s : Socket) (k : Net) : Net := snd (close s k).

Definition bindAddress (err : Z) (addr : bytes) (s : Socket) (k : Net) : outcome Net := bindOrDie err s addr k.
Definition socket_listen (err : Z) (s : Socket) (k : Net) : outcome Net := listenOrDie err s k.

(** [peeraddr] is assigned on success only. *)
Definition socket_accept (b : Build) (answer : Z * bytes + Z) (family : Z) (peeraddr : bytes) (s : Socket) (k : Net)
  : outcome (Z * bytes * Net) :=
  '(connfd, addr, k) ← accept b answer family k;
  Ok (connfd, (if 0 <=? connfd then zwrite 0 (from_option id [] addr) (replicate 28 nul) else peeraddr), k).

Definition optval_of (on : bool) : Z := if on then 1 else 0.
Definition setTcpNoDelay (err : Z) (on : bool) (s : Socket) (k : Net) : Net := snd (sys_setsockopt err s TCP_NODELAY (optval_of on) k).
Definition setReuseAddr (err : Z) (on : bool) (s : Socket) (k : Net) : Net := snd (sys_setsockopt err s SO_REUSEADDR (optval_of on) k).
Definition setKeepAlive (err : Z) (on : bool) (s : Socket) (k : Net) : Net := snd (sys_setsockopt err s SO_KEEPALIVE (optval_of on) k).

(** The bool: an error is logged. *)
Definition setReusePort (has_reuseport : bool) (err : Z) (on : bool) (s : Socket) (k : Net) : bool * Net :=
  if has_reuseport then
    let '(ret, k) := sys_setsockopt err s SO_REUSEPORT (optval_of on) k in ((ret <? 0) && on, k)
  else (on, k).

Record tcp_info := mkInfo {
  tcpi_retransmits : Z; tcpi_rto : Z; tcpi_ato : Z; tcpi_snd_mss : Z; tcpi_rcv_mss : Z; tcpi_lost : Z;
  tcpi_retrans : Z; tcpi_rtt : Z; tcpi_rttvar : Z; tcpi_snd_ssthresh : Z; tcpi_snd_cwnd : Z; tcpi_total_retrans : Z;
}.

Definition no_info : tcp_info := mkInfo 0 0 0 0 0 0 0 0 0 0 0 0.

(** [answer]: what getsockopt fills in. *)
Definition getTcpInfo (answer : option tcp_info) : bool * tcp_info :=
  match answer with Some i => (true, i) | None => (false, no_info) end.

Definition tcp_fields (i : tcp_info) : list (string * Z) :=
  [("unrecovered", tcpi_retransmits i); ("rto", tcpi_rto i); ("ato", tcpi_ato i); ("snd_mss", tcpi_snd_mss i);
   ("rcv_mss", tcpi_rcv_mss i); ("lost", tcpi_lost i); ("retrans", tcpi_retrans i); ("rtt", tcpi_rtt i);
   ("rttvar", tcpi_rttvar i); ("sshthresh", tcpi_snd_ssthresh i); ("cwnd", tcpi_snd_cwnd i);
   ("total_retrans", tcpi_total_retrans i)]%string.

(** "a=1 b=2 ..." *)
Definition field_text (f : string * Z) : bytes := lit (fst f) ++ lit "=" ++ dec (snd f).
Definition fields_text (l : list (string * Z)) : bytes :=
  match l with
  | [] => []
  | f :: l => field_text f ++ concat (map (fun g => space :: field_text g) l)
  end.

(** Whether it succeeded, and what the array [buf] of [len] bytes holds. *)
Definition getTcpInfoString (answer : option tcp_info) (buf : bytes) (len : Z) : bool * bytes :=
  let '(ok, tcpi) := getTcpInfo answer in
  (ok, if ok then snprintf len (fields_text (tcp_fields tcpi)) else buf).

(** TcpConnection::getTcpInfoString *)
Definition connectionTcpInfoString (answer : option tcp_info) : bytes := snd (getTcpInfoString answer [] 1024).

(** ** The builds *)
Lemma set_flags fd family local peer shut listening options k :
  let s status flags := mkSock family status flags local peer listening shut options in
  setNonBlockAndCloseOnExec fd (mkNet (<[fd := s O_RDWR 0]> (socks k)) (errno k)) =
    mkNet (<[fd := s (Z.lor O_RDWR O_NONBLOCK) FD_CLOEXEC]> (socks k)) (errno k).
Proof.
  intros s. unfold setNonBlockAndCloseOnExec, sys_fcntl_getfl, sys_fcntl_setfl, sys_fcntl_getfd, sys_fcntl_setfd, on_sock.
  repeat (cbn [socks errno]; rewrite ?insert_insert_eq, lookup_insert_eq). cbn [socks errno]. by rewrite !insert_insert_eq.
Qed.

Lemma set_flags_bad k : socks k !! (-1) = None -> setNonBlockAndCloseOnExec (-1) k = mkNet (socks k) EBADF.
Proof.
  intros H. unfold setNonBlockAndCloseOnExec, sys_fcntl_getfl, sys_fcntl_setfl, sys_fcntl_getfd, sys_fcntl_setfd, on_sock, fail.
  repeat (cbn [socks errno]; rewrite H). done.
Qed.

(** Whether the flags are set by fcntl or passed to the system calls, all builds
    create the same sockets and accept the same connections, in every state: the
    descriptor, its status and descriptor flags, errno and all other sockets agree,
    and they end the program when socket() fails. *)
Theorem builds_agree b b' family k :
  (forall answer, (forall fd, answer = inl fd -> 0 <= fd) ->
     createNonblockingOrDie b answer family k = createNonblockingOrDie b' answer family k) /\
  (forall fd peer, 0 <= fd -> accept b (inl (fd, peer)) family k = accept b' (inl (fd, peer)) family k) /\
  (forall fd k', 0 <= fd -> createNonblockingOrDie b (inl fd) family k = Ok (fd, k') ->
     exists s, socks k' !! fd = Some s /\ Z.testbit (k_status s) 11 = true /\ Z.testbit (k_flags s) 0 = true).
Proof.
  assert (Hc : forall b answer, (forall fd, answer = inl fd -> 0 <= fd) ->
     createNonblockingOrDie b answer family k = createNonblockingOrDie (mkBuild false false) answer family k).
  { intros [[] n] [fd|e] H; unfold createNonblockingOrDie, sys_socket; cbn [VALGRIND]; try done. specialize (H fd eq_refl).
    rewrite (proj2 (Z.leb_le 0 fd) H). cbn [log_fatal_unless mbind outcome_bind]. by rewrite set_flags. }
  split_and!.
  - intros answer H. by rewrite (Hc b), (Hc b').
  - intros fd peer H. unfold accept, sys_accept. destruct (VALGRIND b || NO_ACCEPT4 b), (VALGRIND b' || NO_ACCEPT4 b'); by rewrite ?set_flags.
  - intros fd k' H. rewrite Hc by (by intros ? [= <-]). unfold createNonblockingOrDie, sys_socket. cbn [VALGRIND].
    rewrite (proj2 (Z.leb_le 0 fd) H). intros [= <-]. cbn [socks]. rewrite lookup_insert_eq. eauto.
Qed.

(** They differ when accept fails: the fcntl calls on -1 overwrite errno with EBADF
    before it is saved, so every error ends the program, EAGAIN and EMFILE too. *)
Lemma accept_errors_differ b family k e :
  socks k !! (-1) = None ->
  accept b (inr e) family k =
    if VALGRIND b || NO_ACCEPT4 b then Fault FatalLog
    else if bool_decide (e ∈ [Acceptor.EAGAIN; Acceptor.ECONNABORTED; Acceptor.EINTR;
      Acceptor.EPROTO; Acceptor.EPERM; Acceptor.EMFILE]) then Ok (-1, None, mkNet (socks k) e) else Fault FatalLog.
Proof.
  intros H. unfold accept, sys_accept, fail. destruct (VALGRIND b || NO_ACCEPT4 b).
  - by rewrite set_flags_bad by done.
  - cbn. unfold accept_error. by destruct (bool_decide _).
Qed.

(** Socket::accept keeps its promise in the build with accept4: a new socket that is
    non-blocking and closed on exec with the peer's address assigned, or -1 with the
    address untouched. *)
Lemma socket_accept_promise answer family peeraddr s k connfd addr k' :
  (forall fd peer, answer = inl (fd, peer) -> 0 <= fd /\ zlen peer = 28) ->
  socket_accept (mkBuild false false) answer family peeraddr s k = Ok (connfd, addr, k') ->
  match answer with
  | inl (fd, peer) => connfd = fd /\ addr = peer /\ exists x, socks k' = <[fd := x]> (socks k) /\
      k_peer x = Some peer /\ Z.testbit (k_status x) 11 = true /\ Z.testbit (k_flags x) 0 = true
  | inr e => connfd = -1 /\ addr = peeraddr /\ socks k' = socks k /\ errno k' = e
  end.
Proof.
  intros Ha. unfold socket_accept, accept. cbn [VALGRIND NO_ACCEPT4 orb]. destruct answer as [[fd peer]|e]; cbn [sys_accept fail].
  - destruct (Ha fd peer eq_refl) as [H1 H2]. rewrite (proj2 (Z.ltb_ge fd 0)) by lia. cbn [mbind outcome_bind].
    rewrite (proj2 (Z.leb_le 0 fd)) by lia. intros [= <- <- <-]. split; [done|]. split; [|by eexists].
    cbn [from_option id]. unfold zwrite. rewrite H2, ztake_0. cbn [app].
    by rewrite zdrop_all, app_nil_r by (by vm_compute).
  - unfold accept_error, log_fatal_unless. cbn. destruct (bool_decide _); [|done]. cbn. by intros [= <- <- <-].
Qed.

(** ** A listening socket, as the Acceptor makes it *)

(** The constructor of the Acceptor. *)
Definition acceptor_socket (b : Build) (has_reuseport reuseport : bool) (answer : Z + Z) (eaddr eport ebind : Z)
  (addr : bytes) (k : Net) : outcome (Z * Net) :=
  '(fd, k) ← createNonblockingOrDie b answer (family addr) k;
  let k := setReuseAddr eaddr true fd k in
  let '(_, k) := setReusePort has_reuseport eport reuseport fd k in
  k ← bindAddress ebind addr fd k;
  Ok (fd, k).

(** Its listen() after that. *)
Definition open_listener (b : Build) (has_reuseport reuseport : bool) (answer : Z + Z) (eaddr eport ebind elisten : Z)
  (addr : bytes) (k : Net) : outcome (Z * Net) :=
  '(fd, k) ← acceptor_socket b has_reuseport reuseport answer eaddr eport ebind addr k;
  k ← socket_listen elisten fd k;
  Ok (fd, k).

Definition listener_options (has_reuseport reuseport : bool) (eaddr eport : Z) : list option_name :=
  (if has_reuseport && reuseport && (eport =? 0) then [SO_REUSEPORT] else []) ++ (if eaddr =? 0 then [SO_REUSEADDR] else []).

Lemma on_sock_new fd s f m e :
  on_sock fd f (mkNet (<[fd := s]> m) e) = (fst (f s), mkNet (<[fd := snd (f s)]> m) e).
Proof.
  unfold on_sock. cbn [socks]. rewrite lookup_insert_eq. destruct (f s). cbn [socks errno fst snd]. by rewrite insert_insert_eq.
Qed.

Lemma reuse_options has_reuseport reuseport eaddr eport (fd family : Z) m e :
  let s options := mkSock family (Z.lor O_RDWR O_NONBLOCK) FD_CLOEXEC None None false false options in
  exists logged e', setReusePort has_reuseport eport reuseport fd (setReuseAddr eaddr true fd (mkNet (<[fd := s []]> m) e)) =
    (logged, mkNet (<[fd := s (listener_options has_reuseport reuseport eaddr eport)]> m) e').
Proof.
  intros s. unfold setReusePort, setReuseAddr, sys_setsockopt, listener_options, fail.
  destruct (eaddr =? 0), has_reuseport, reuseport, (eport =? 0); cbn [optval_of andb];
    repeat (cbn [fst snd socks errno]; rewrite on_sock_new); cbn [fst snd socks errno]; eexists _, _; reflexivity.
Qed.

(** C40: In every build: when the kernel grants socket, bind and listen, the listener is
    bound to its address, listening, non-blocking, closed on exec, with the options
    that could be set; otherwise the program ends.  The destructor closes it, and the
    process has the sockets it had. *)
Theorem listener_ready b has_reuseport reuseport answer eaddr eport ebind elisten addr k
  (Hfd : forall fd, answer = inl fd -> 0 <= fd /\ socks k !! fd = None) :
  match answer, open_listener b has_reuseport reuseport answer eaddr eport ebind elisten addr k with
  | inl fd, Ok (fd', k') =>
      ebind = 0 /\ elisten = 0 /\ fd' = fd /\
      socks k' = <[fd := mkSock (family addr) (Z.lor O_RDWR O_NONBLOCK) FD_CLOEXEC (Some addr) None true false
                           (listener_options has_reuseport reuseport eaddr eport)]> (socks k) /\
      socks (destroySocket fd' k') = socks k
  | inl _, Fault e => e = FatalLog /\ (ebind <> 0 \/ elisten <> 0)
  | inr _, r => r = Fault FatalLog
  end.
Proof.
  unfold open_listener, acceptor_socket. destruct answer as [fd|e]; [|by destruct b as [[] ?]]. destruct (Hfd fd eq_refl) as [H0 Hn].
  replace (createNonblockingOrDie b (inl fd) (family addr) k) with (createNonblockingOrDie (mkBuild false false) (inl fd) (family addr) k).
  2: { destruct b as [[] ?]; [|done]. symmetry. unfold createNonblockingOrDie, sys_socket.
       rewrite (proj2 (Z.leb_le 0 fd) H0). cbn [log_fatal_unless mbind outcome_bind]. by rewrite set_flags. }
  unfold createNonblockingOrDie, sys_socket. cbn [VALGRIND]. rewrite (proj2 (Z.leb_le 0 fd) H0). cbn [log_fatal_unless mbind outcome_bind].
  destruct (reuse_options has_reuseport reuseport eaddr eport fd (family addr) (socks k) (errno k)) as (logged & e' & ->).
  unfold bindAddress, bindOrDie, sys_bind, socket_listen, listenOrDie, sys_listen, fail.
  destruct (Z.eqb_spec ebind 0) as [Hb|Hb]; [|cbn; by auto]. rewrite on_sock_new. cbn [fst snd log_fatal_unless mbind outcome_bind Z.leb Z.compare].
  destruct (Z.eqb_spec elisten 0) as [Hl|Hl]; [|cbn; by auto]. rewrite on_sock_new. cbn [fst snd log_fatal_unless mbind outcome_bind Z.leb Z.compare].
  split_and!; try done. unfold destroySocket, close, sys_close. cbn [socks]. rewrite lookup_insert_eq. cbn [snd socks].
  by rewrite delete_insert_id.
Qed.

(** ** tcp_info *)
Definition equals : ascii := code_char 61.

Definition tcp_info_ok (i : tcp_info) : Prop := Forall (fun f => in_u 32 (snd f)) (tcp_fields i).

Definition field_of (K : bytes) (l : list (string * Z)) : option (string * Z) :=
  head (filter (fun f => K `suffix_of` lit (fst f)) l).

Lemma getLong_fields K l f v p :
  equals ∉ K -> space ∉ K -> Forall (fun f => equals ∉ lit (fst f)) (f :: l) -> Forall (fun f => 0 <= snd f <= LONG_MAX) (f :: l) ->
  snd <$> field_of K (f :: l) = Some v ->
  equals ∉ p -> (forall name, K `suffix_of` (p ++ name) <-> K `suffix_of` name) ->
  getLong (p ++ fields_text (f :: l)) (K ++ [equals]) = v.
Proof.
  intros HK HK'. revert f p. induction l as [|g l IH]; intros f p Hn Hv Hf Hp Hs; unfold fields_text, field_text at 1;
    apply Forall_cons in Hn as [Hn1 Hn], Hv as [Hv1 Hv]; rewrite <- !app_assoc;
    change (lit "=" ++ ?r) with (equals :: r); rewrite (app_assoc p), (getLong_sep equals K HK) by set_solver;
    unfold field_of in Hf; rewrite filter_cons in Hf; destruct (decide (K `suffix_of` lit (fst f))) as [Hk|Hk].
  - rewrite decide_True by (by apply Hs). injection Hf as <-. by apply strtol_dec.
  - done.
  - rewrite decide_True by (by apply Hs). injection Hf as <-. apply strtol_dec; [done|by intros c r [= <- _]].
  - rewrite decide_False by (by rewrite Hs). cbn [map concat]. rewrite <- app_comm_cons.
    change (dec (snd f) ++ space :: ?r) with (dec (snd f) ++ [space] ++ r). rewrite app_assoc. apply (IH g); try done.
    + pose proof (not_digit_dec equals (snd f) ltac:(lia) ltac:(done)). assert (equals <> space) by done. set_solver.
    + intros name. rewrite <- app_assoc. by apply suffix_line.
Qed.

Lemma zlen_fields l :
  Forall (fun f => zlen (lit (fst f)) <= 13 /\ in_u 32 (snd f)) l -> zlen (concat (map (fun g => space :: field_text g) l)) <= 35 * zlen l.
Proof.
  induction 1 as [|f l [Hf Hv] _ IH]; [done|]. cbn [map concat]. unfold field_text at 1.
  pose proof (dec_length64 (snd f) ltac:(unfold in_u in Hv; lia)). rewrite !zlen_app, !zlen_cons, !zlen_app.
  change (zlen (lit "=")) with 1. lia.
Qed.

Lemma tcp_text_fits i : tcp_info_ok i -> zlen (fields_text (tcp_fields i)) <= 1023.
Proof.
  intros H. assert (Hle : zlen (concat (map (fun g => space :: field_text g) (tcp_fields i))) <= 35 * 12).
  { change 12 with (zlen (tcp_fields i)). apply zlen_fields. unfold tcp_info_ok in H. rewrite Forall_forall in *.
    intros f Hf. split; [|by apply H]. revert f Hf. apply Forall_forall. repeat constructor; by vm_compute. }
  change (concat (map (fun g => space :: field_text g) (tcp_fields i))) with (space :: fields_text (tcp_fields i)) in Hle.
  rewrite zlen_cons in Hle. lia.
Qed.

(** The text a connection gives of its tcp_info is the whole text, never cut by
    the array of 1024 bytes, and it gives back every field: for each of the twelve
    names, the number behind the first "name=" is the field of that name, though one
    name ends in another.  When getsockopt fails the text is empty. *)
Theorem tcp_info_roundtrip i (Hi : tcp_info_ok i) :
  connectionTcpInfoString (Some i) = fields_text (tcp_fields i) /\
  (forall name v, (name, v) ∈ tcp_fields i -> getLong (connectionTcpInfoString (Some i)) (lit name ++ [equals]) = v) /\
  connectionTcpInfoString None = [].
Proof.
  assert (E : connectionTcpInfoString (Some i) = fields_text (tcp_fields i)).
  { unfold connectionTcpInfoString, getTcpInfoString. cbn [getTcpInfo snd]. unfold snprintf. apply ztake_all. by apply tcp_text_fits. }
  split; [done|]. split; [|done]. rewrite E. intros name v Hin.
  assert (Hv : Forall (fun f => 0 <= snd f <= LONG_MAX) (tcp_fields i)).
  { eapply Forall_impl; [exact Hi|]. intros f Hf. unfold in_u, LONG_MAX in *. lia. }
  assert (Hn : Forall (fun f => equals ∉ lit (fst f) /\ space ∉ lit (fst f) /\ snd <$> field_of (lit (fst f)) (tcp_fields i) = Some (snd f))
    (tcp_fields i)).
  { repeat constructor; solve [apply (bool_decide_unpack _); by vm_compute | reflexivity]. }
  pose proof (proj1 (Forall_forall _ _) Hn _ Hin) as (H1 & H2 & H3).
  apply (getLong_fields (lit name) _ _ v []); try done; [|apply not_elem_of_nil].
  eapply Forall_impl; [exact Hn|]. by intros f (? & _).
Qed.

(** ** Samples *)
Module SocketSample.
Definition net : Net := mkNet {[0 := mkSock 2 O_RDWR 0 None None false false []]} 7.
Definition address : bytes := newInetAddress 80 false false (replicate 28 (code_char 255)).
Definition info : tcp_info := mkInfo 1 204000 40000 1448 536 0 2 1500 300 2147483647 10 4294967295.

Definition valgrind_build : Build := mkBuild true false.
Definition old_build : Build := mkBuild false true.
Definition usual_build : Build := mkBuild false false.

Lemma builds_agree_witness :
  createNonblockingOrDie valgrind_build (inl 3) 2 net = createNonblockingOrDie usual_build (inl 3) 2 net /\
  accept valgrind_build (inl (5, address)) 2 net = accept usual_build (inl (5, address)) 2 net.
Proof.
  destruct (builds_agree valgrind_build usual_build 2 net) as (H1 & H2 & _).
  split; [apply H1; intros fd [= <-]; lia|apply H2; lia].
Defined.

Lemma listener_ready_witness :
  exists k', open_listener valgrind_build true true (inl 3) 0 0 0 0 address net = Ok (3, k') /\
    socks (destroySocket 3 k') = socks net.
Proof.
  pose proof (listener_ready valgrind_build true true (inl 3) 0 0 0 0 address net) as H. cbv beta iota in H.
  destruct (open_listener valgrind_build true true (inl 3) 0 0 0 0 address net) as [[fd k']|e].
  - destruct H as (_ & _ & -> & _ & H); [intros fd0 [= <-]; split; [lia|reflexivity]|]. by exists k'.
  - destruct H as (_ & [H|H]); [intros fd0 [= <-]; split; [lia|reflexivity]|lia..].
Defined.

Lemma tcp_info_roundtrip_witness :
  getLong (connectionTcpInfoString (Some info)) (lit "retrans" ++ [equals]) = 2 /\
  connectionTcpInfoString (Some info) =
    lit "unrecovered=1 rto=204000 ato=40000 snd_mss=1448 rcv_mss=536 lost=0 retrans=2 rtt=1500 rttvar=300 sshthresh=2147483647 cwnd=10 total_retrans=4294967295".
Proof.
  assert (Hi : tcp_info_ok info) by (repeat constructor; by vm_compute).
  destruct (tcp_info_roundtrip info Hi) as (E & H & _). split; [apply H, (list_elem_of_lookup_2 _ 6); reflexivity|]. rewrite E. by vm_compute.
Defined.

(** Without accept4 a spurious wakeup ends the program. *)
Example accept_again_fatal :
  accept old_build (inr Acceptor.EAGAIN) 2 net = Fault FatalLog /\
  accept usual_build (inr Acceptor.EAGAIN) 2 net = Ok (-1, None, mkNet (socks net) Acceptor.EAGAIN).
Proof. split; by vm_compute. Qed.
End SocketSample.
