(* ===== verification/Logger.v ===== *)
(** * Logger: the LOG_ macros and the globals of base/Logging.h, base/Logging.cc

    The process as its log statements see it: the level, the output and flush
    functions (by number; 0 is stdout, the default of both), the time zone, the time
    cache and the living Logger objects of every thread, and what has been handed to
    the outputs.  A statement is a macro with its source position, made by a thread
    at a time; its text is that of Logging.v.  Its actions interleave with those of
    other threads: the level is read and the Logger filled, then the destructor calls
    [g_output], and for a fatal line [g_flush], and then abort().  A thread's Loggers
    form a stack, an argument of a statement being able to log itself.  After abort()
    nothing happens any more.

    Theorem: in any interleaving of statements by any threads, mixed with changes of
    level, output and flush function, no assertion fails, and each enabled line is
    handed, whole and once, to the output set when its Logger is destroyed; a fatal
    one is then flushed and ends the process, and lines of other threads may come in
    between.  The lines are those with 32 bytes to spare in the 4000 of a stream, and
    no time zone is set. *)

From S2P Require Import Prelude StdContainers Format Calendar Timestamp TimeZone LogStream Logging.

Inductive macro :=
| LOG_TRACE | LOG_DEBUG | LOG_INFO | LOG_WARN | LOG_ERROR | LOG_FATAL | LOG_SYSERR | LOG_SYSFATAL.

Definition macro_level (m : macro) : LogLevel :=
  match m with
  | LOG_TRACE => TRACE | LOG_DEBUG => DEBUG | LOG_INFO => INFO | LOG_WARN => WARN | LOG_ERROR => ERROR | LOG_FATAL => FATAL
  | LOG_SYSERR => fst (log_sys false 0) | LOG_SYSFATAL => fst (log_sys true 0)
  end.

(** Only the constructors of the lower levels print the function, only those of the
    system errors errno. *)
Definition macro_func (m : macro) (func : bytes) : option bytes :=
  match m with LOG_TRACE | LOG_DEBUG => Some func | _ => None end.
Definition macro_errno (m : macro) (errno : Z) : Z :=
  match m with LOG_SYSERR | LOG_SYSFATAL => errno | _ => 0 end.

Record statement := mkStatement {
  st_tid : Z; st_macro : macro; st_file : bytes; st_line : Z; st_func : bytes; st_errno : Z; st_items : list item; st_time : Z;
}.

(** What the destructor of a thread's innermost Logger does next. *)
Inductive stage :=
| Filled (text : bytes) (fatal : bool)
| Flushing
| Aborting.

Record Process := mkProcess {
  g_logLevel : LogLevel;
  g_output : nat;
  g_flush : nat;
  g_logTimeZone : option Data;
  t_caches : gmap Z TimeCache;
  t_loggers : gmap Z (list stage);
  written : list (nat * bytes);
  flushed : list nat;
  aborted : bool;
}.

Definition newProcess (getenv : bytes -> bool) : Process := mkProcess (initLogLevel getenv) 0 0 None ∅ ∅ [] [] false.

Definition setLogLevel (level : LogLevel) (p : Process) : Process :=
  mkProcess level (g_output p) (g_flush p) (g_logTimeZone p) (t_caches p) (t_loggers p) (written p) (flushed p) (aborted p).
Definition setOutput (out : nat) (p : Process) : Process :=
  mkProcess (g_logLevel p) out (g_flush p) (g_logTimeZone p) (t_caches p) (t_loggers p) (written p) (flushed p) (aborted p).
Definition setFlush (flush : nat) (p : Process) : Process :=
  mkProcess (g_logLevel p) (g_output p) flush (g_logTimeZone p) (t_caches p) (t_loggers p) (written p) (flushed p) (aborted p).
Definition setTimeZone (tz : option Data) (p : Process) : Process :=
  mkProcess (g_logLevel p) (g_output p) (g_flush p) tz (t_caches p) (t_loggers p) (written p) (flushed p) (aborted p).

Definition cache_of (tid : Z) (p : Process) : TimeCache := default newTimeCache (t_caches p !! tid).
Definition loggers_of (tid : Z) (m : gmap Z (list stage)) : list stage := default [] (m !! tid).

(** A thread in the destructor of a fatal Logger, past the output, does nothing else. *)
Definition dying (l : list stage) : bool :=
  match l with Flushing :: _ | Aborting :: _ => true | _ => false end.

Section process.
Context (strerror : Z -> bytes) (tidString : Z -> bytes) (format_g : double -> bytes).

(** The guard of the macro, the constructor of the Logger, and what is put into its
    stream, [finish] included. *)
Definition construct (s : statement) (p : Process) : outcome Process :=
  let level := macro_level (st_macro s) in
  if log_enabled (g_logLevel p) level then
    '(cache, text, fatal) ← log strerror (tidString (st_tid s)) format_g level (macro_func (st_macro s) (st_func s))
       (macro_errno (st_macro s) (st_errno s)) (st_file s) (st_line s) (st_items s) (g_logTimeZone p) (st_time s)
       (cache_of (st_tid s) p);
    Ok (mkProcess (g_logLevel p) (g_output p) (g_flush p) (g_logTimeZone p) (<[st_tid s := cache]> (t_caches p))
         (<[st_tid s := Filled text fatal :: loggers_of (st_tid s) (t_loggers p)]> (t_loggers p))
         (written p) (flushed p) (aborted p))
  else Ok p.

(** The next call of the destructor of the thread's innermost Logger: [g_output],
    and for a fatal one [g_flush], then abort(). *)
Definition destroy (tid : Z) (p : Process) : Process :=
  let next l w f a :=
    mkProcess (g_logLevel p) (g_output p) (g_flush p) (g_logTimeZone p) (t_caches p) (<[tid := l]> (t_loggers p)) w f a in
  match loggers_of tid (t_loggers p) with
  | [] => p
  | Filled text fatal :: l =>
      next (if fatal then Flushing :: l else l) (written p ++ [(g_output p, text)]) (flushed p) (aborted p)
  | Flushing :: l => next (Aborting :: l) (written p) (flushed p ++ [g_flush p]) (aborted p)
  | Aborting :: l => next (Aborting :: l) (written p) (flushed p) true
  end.

(** CHECK_NOTNULL *)
Definition CheckNotNull (tid : Z) (file : bytes) (line : Z) (names : bytes) (time : Z) (ptr : Z) (p : Process) : outcome Process :=
  if ptr =? 0 then construct (mkStatement tid LOG_FATAL file line [] 0 [ICstr (Some names)] time) p else Ok p.

Inductive op :=
| Level (level : LogLevel)
| Output (out : nat)
| Flush (flush : nat)
| Statement (s : statement)
| NotNull (tid : Z) (file : bytes) (line : Z) (names : bytes) (time : Z) (ptr : Z)
| Destroy (tid : Z).

Definition step (p : Process) (o : op) : outcome Process :=
  if aborted p then Ok p
  else match o with
       | Level level => Ok (setLogLevel level p)
       | Output out => Ok (setOutput out p)
       | Flush flush => Ok (setFlush flush p)
       | Statement s => if dying (loggers_of (st_tid s) (t_loggers p)) then Ok p else construct s p
       | NotNull tid file line names time ptr =>
           if dying (loggers_of tid (t_loggers p)) then Ok p else CheckNotNull tid file line names time ptr p
       | Destroy tid => Ok (destroy tid p)
       end.

(** ** The lines a program writes *)
Definition line_of (s : statement) : bytes :=
  log_line strerror (tidString (st_tid s)) format_g (macro_level (st_macro s)) (macro_func (st_macro s) (st_func s))
    (macro_errno (st_macro s) (st_errno s)) (st_file s) (st_line s) (st_items s) (st_time s).

Definition as_statement (o : op) : option statement :=
  match o with
  | Statement s => Some s
  | NotNull tid file line names time ptr =>
      if ptr =? 0 then Some (mkStatement tid LOG_FATAL file line [] 0 [ICstr (Some names)] time) else None
  | _ => None
  end.

(** What a program does, by its statements alone: the lines in order, each for the
    output set when it is written; the flush functions called; whether it ended. *)
Record effects := mkEffects { ef_lines : list (nat * bytes); ef_flushes : list nat; ef_abort : bool }.

Definition and_then (e1 e2 : effects) : effects :=
  mkEffects (ef_lines e1 ++ ef_lines e2) (ef_flushes e1 ++ ef_flushes e2) (ef_abort e2).

Lemma and_then_nil e : and_then (mkEffects [] [] false) e = e.
Proof. by destruct e. Qed.

Definition fatal_macro (s : statement) : bool := bool_decide (macro_level (st_macro s) = FATAL).

Fixpoint expected (level : LogLevel) (out flush : nat) (open : gmap Z (list stage)) (ops : list op) : effects :=
  match ops with
  | [] => mkEffects [] [] false
  | Level level :: ops => expected level out flush open ops
  | Output out :: ops => expected level out flush open ops
  | Flush flush :: ops => expected level out flush open ops
  | Destroy tid :: ops =>
      match loggers_of tid open with
      | [] => expected level out flush open ops
      | Filled text fatal :: l =>
          and_then (mkEffects [(out, text)] [] false)
            (expected level out flush (<[tid := if fatal then Flushing :: l else l]> open) ops)
      | Flushing :: l => and_then (mkEffects [] [flush] false) (expected level out flush (<[tid := Aborting :: l]> open) ops)
      | Aborting :: _ => mkEffects [] [] true
      end
  | o :: ops =>
      match as_statement o with
      | Some s =>
          let l := loggers_of (st_tid s) open in
          if negb (dying l) && log_enabled level (macro_level (st_macro s)) then
            expected level out flush (<[st_tid s := Filled (line_of s) (fatal_macro s) :: l]> open) ops
          else expected level out flush open ops
      | None => expected level out flush open ops
      end
  end.

Definition expected_of (p : Process) (ops : list op) : effects :=
  expected (g_logLevel p) (g_output p) (g_flush p) (t_loggers p) ops.

Record statement_ok (s : statement) : Prop := {
  so_time : log_time_ok (st_time s);
  so_errno : in_s 32 (st_errno s);
  so_line : in_s 32 (st_line s);
  so_items : Forall item_ok (st_items s);
  so_size : zlen (line_of s) + kMaxNumericSize <= kSmallBuffer;
}.

Definition op_ok (o : op) : Prop := match as_statement o with Some s => statement_ok s | None => True end.

Definition short (text : bytes) : Prop := zlen text + kMaxNumericSize <= kSmallBuffer.
Definition stage_ok (x : stage) : Prop := match x with Filled text _ => short text | _ => True end.

Record process_ok (p : Process) : Prop := {
  po_zone : g_logTimeZone p = None;
  po_caches : forall tid, cache_ok None (cache_of tid p);
  po_loggers : forall tid, Forall stage_ok (loggers_of tid (t_loggers p));
}.

Hypothesis format_g_short : forall v, zlen (format_g v) < kMaxNumericSize.

Lemma line_of_eq s :
  line_of s = log_line strerror (tidString (st_tid s)) format_g (macro_level (st_macro s)) (macro_func (st_macro s) (st_func s))
    (macro_errno (st_macro s) (st_errno s)) (st_file s) (st_line s) (st_items s) (st_time s).
Proof. reflexivity. Qed.

Lemma loggers_of_insert tid t l m :
  loggers_of tid (<[t := l]> m) = if decide (tid = t) then l else loggers_of tid m.
Proof.
  unfold loggers_of. destruct (decide (tid = t)) as [->|Hne]; [by rewrite lookup_insert_eq|by rewrite lookup_insert_ne].
Qed.

Lemma construct_fills s p :
  statement_ok s -> process_ok p -> log_enabled (g_logLevel p) (macro_level (st_macro s)) = true ->
  exists caches, let p' := mkProcess (g_logLevel p) (g_output p) (g_flush p) (g_logTimeZone p) caches
      (<[st_tid s := Filled (line_of s) (fatal_macro s) :: loggers_of (st_tid s) (t_loggers p)]> (t_loggers p))
      (written p) (flushed p) (aborted p) in
    construct s p = Ok p' /\ process_ok p'.
Proof.
  intros [H1 H2 H3 H4 H5] [Hz Hc Hl] Hen. rewrite line_of_eq in *. unfold construct. rewrite Hen, Hz.
  destruct (log_line_utc strerror (tidString (st_tid s)) format_g format_g_short (macro_level (st_macro s))
    (macro_func (st_macro s) (st_func s)) (macro_errno (st_macro s) (st_errno s)) (st_file s) (st_line s) (st_items s)
    (st_time s) (cache_of (st_tid s) p)) as (cache' & Hc' & E);
    [exact (Hc _)|exact H1|by destruct (st_macro s)|exact H3|exact H4|exact H5|].
  exists (<[st_tid s := cache']> (t_caches p)). rewrite E. split; [reflexivity|]. constructor; [reflexivity| |]; intros tid; cbn [t_loggers].
  - unfold cache_of. cbn [t_caches]. destruct (decide (tid = st_tid s)) as [->|Hne].
    + by rewrite lookup_insert_eq.
    + rewrite lookup_insert_ne by done. apply Hc.
  - rewrite loggers_of_insert. destruct (decide _); [|apply Hl]. constructor; [exact H5|apply Hl].
Qed.

(** One call of a destructor, and what it makes of the expected effects. *)
Lemma destroy_expected tid p :
  process_ok p -> aborted p = false ->
  exists lines fl, let p' := destroy tid p in
    process_ok p' /\ written p' = written p ++ lines /\ Forall (fun x => short (snd x)) lines /\ flushed p' = flushed p ++ fl /\
    forall ops, expected_of p (Destroy tid :: ops) =
      and_then (mkEffects lines fl false) (if aborted p' then mkEffects [] [] true else expected_of p' ops).
Proof.
  intros [Hz Hc Hl] Ha. pose proof (Hl tid) as Ht. unfold destroy, expected_of.
  assert (Hnext : forall l w f a, Forall stage_ok l ->
    process_ok (mkProcess (g_logLevel p) (g_output p) (g_flush p) (g_logTimeZone p) (t_caches p) (<[tid := l]> (t_loggers p)) w f a)).
  { intros l w f a H. constructor; [done|exact Hc|]. intros t. cbn [t_loggers]. rewrite loggers_of_insert. by destruct (decide _). }
  destruct (loggers_of tid (t_loggers p)) as [|[text fatal| |] l] eqn:E; cbn [expected]; rewrite ?E.
  - exists [], []. rewrite !app_nil_r. split_and!; [by constructor|done|constructor|done|]. intros ops. by rewrite Ha, and_then_nil.
  - apply Forall_cons in Ht as [Hx Ht]. exists [(g_output p, text)], []. cbn [written flushed aborted]. rewrite app_nil_r.
    split_and!; [apply Hnext; destruct fatal; repeat constructor; done|done|by repeat constructor|done|]. intros ops. by rewrite Ha.
  - apply Forall_cons in Ht as [_ Ht]. exists [], [g_flush p]. cbn [written flushed aborted]. rewrite app_nil_r.
    split_and!; [apply Hnext; by constructor|done|constructor|done|]. intros ops. by rewrite Ha.
  - apply Forall_cons in Ht as [_ Ht]. exists [], []. cbn [written flushed aborted]. rewrite !app_nil_r.
    split_and!; [apply Hnext; by constructor|done|constructor|done|done].
Qed.

Lemma run_aborted ops p : aborted p = true -> foldM step p ops = Ok p.
Proof. intros H. induction ops as [|o ops IH]; [done|]. cbn [foldM]. by replace (step p o) with (Ok p) by (unfold step; by rewrite H). Qed.

(** A statement, or CHECK_NOTNULL of a null pointer, as the construction of a Logger. *)
Lemma step_statement p o s :
  aborted p = false -> as_statement o = Some s ->
  step p o = (if dying (loggers_of (st_tid s) (t_loggers p)) then Ok p else construct s p) /\
  forall ops, expected_of p (o :: ops) =
    (let l := loggers_of (st_tid s) (t_loggers p) in
     if negb (dying l) && log_enabled (g_logLevel p) (macro_level (st_macro s)) then
       expected (g_logLevel p) (g_output p) (g_flush p) (<[st_tid s := Filled (line_of s) (fatal_macro s) :: l]> (t_loggers p)) ops
     else expected_of p ops).
Proof.
  intros Ha Ho. unfold step, expected_of. rewrite Ha. destruct o as [| | |s'|tid file line names time ptr|]; cbn in Ho; try discriminate.
  - by injection Ho as ->.
  - unfold CheckNotNull. destruct (ptr =? 0) eqn:E; [|discriminate]. injection Ho as <-. split; [done|]. intros ops.
    cbn [expected as_statement]. by rewrite E.
Qed.

(** The other operations: the settings, and CHECK_NOTNULL of a pointer. *)
Lemma step_setting p o :
  process_ok p -> aborted p = false -> as_statement o = None -> (forall tid, o <> Destroy tid) ->
  exists p', step p o = Ok p' /\ process_ok p' /\ written p' = written p /\ flushed p' = flushed p /\ aborted p' = false /\
    forall ops, expected_of p (o :: ops) = expected_of p' ops.
Proof.
  intros [Hz Hc Hl] Ha Ho Hd. unfold step. rewrite Ha. destruct o as [lv|x|x|s|tid file line names time ptr|tid]; try discriminate.
  1-3: eexists; split; [done|]; split; [by constructor|done].
  - cbn in Ho. unfold CheckNotNull, expected_of. cbn [expected as_statement]. destruct (ptr =? 0); [discriminate|].
    exists p. destruct (dying _); split_and!; done || by constructor.
  - by destruct (Hd tid).
Qed.

(** What one operation writes, and how the effects of a program follow from it. *)
Lemma step_expected p o :
  aborted p = false -> process_ok p -> op_ok o ->
  exists p' lines fl, step p o = Ok p' /\ process_ok p' /\ written p' = written p ++ lines /\
    Forall (fun x => short (snd x)) lines /\ flushed p' = flushed p ++ fl /\
    forall ops, expected_of p (o :: ops) =
      and_then (mkEffects lines fl false) (if aborted p' then mkEffects [] [] true else expected_of p' ops).
Proof.
  intros Ha Hp Ho.
  destruct (as_statement o) as [s|] eqn:Es.
  - unfold op_ok in Ho. rewrite Es in Ho. destruct (step_statement p o s Ha Es) as [Hs Hexp]. rewrite Hs. cbn zeta in Hexp.
    destruct (dying _); cbn [negb andb] in Hexp;
      [exists p, [], []; rewrite Ha, !app_nil_r; split_and!; try done; intros ops; by rewrite Hexp, and_then_nil|].
    destruct (log_enabled _ _) eqn:Hen.
    + destruct (construct_fills s p Ho Hp Hen) as (caches & -> & Hp'). eexists _, [], []. split; [done|]. split; [exact Hp'|].
      cbn [written flushed aborted]. rewrite Ha, !app_nil_r. split_and!; try done. intros ops. by rewrite Hexp, and_then_nil.
    + exists p, [], []. unfold construct. rewrite Hen, Ha, !app_nil_r. split_and!; try done. intros ops. by rewrite Hexp, and_then_nil.
  - assert (Hd : (exists tid, o = Destroy tid) \/ forall tid, o <> Destroy tid) by (destruct o; (by right) || (left; by eexists)).
    destruct Hd as [[tid ->]|Hd].
    + destruct (destroy_expected tid p Hp Ha) as (lines & fl & H). exists (destroy tid p), lines, fl.
      split; [unfold step; by rewrite Ha|exact H].
    + destruct (step_setting p o Hp Ha Es) as (p' & E & Hp' & H1 & H2 & H3 & Hexp); [done|].
      exists p', [], []. rewrite H1, H2, H3, !app_nil_r. split_and!; try done. intros ops. by rewrite Hexp, and_then_nil.
Qed.

(** C36: Any interleaving of log statements by any threads, with changes of the level
    and of the output and flush functions; each line has 32 bytes to spare in the 4000
    of a stream, and no log time zone is set.  No assertion fails, and what has been
    written at the end is exactly the lines of the enabled statements, each whole,
    once, and handed to the output set when its Logger was destroyed - the per-thread
    time caches never show.  A fatal statement or failed CHECK_NOTNULL writes its
    line, then calls the flush function set at that time, then ends the process;
    until then other threads go on writing. *)
Theorem log_program_lines ops p
  (Hrun : aborted p = false) (Hok : process_ok p) (Hops : Forall op_ok ops) :
  exists p', foldM step p ops = Ok p' /\
    written p' = written p ++ ef_lines (expected_of p ops) /\
    flushed p' = flushed p ++ ef_flushes (expected_of p ops) /\
    aborted p' = ef_abort (expected_of p ops).
Proof.
  revert p Hrun Hok. induction Hops as [|o ops Ho Hops IH]; intros p Ha Hp.
  { exists p. cbn. by rewrite !app_nil_r. }
  destruct (step_expected p o Ha Hp Ho) as (p1 & lines & fl & E & Hp1 & Hw & _ & Hf & Hexp). cbn [foldM]. rewrite E, Hexp.
  cbn [mbind outcome_bind]. destruct (aborted p1) eqn:Ha1.
  - exists p1. rewrite run_aborted by done. cbn. by rewrite !app_nil_r.
  - destruct (IH p1 Ha1 Hp1) as (p2 & -> & H1 & H2 & H3). exists p2. cbn [and_then ef_lines ef_flushes ef_abort].
    by rewrite H1, H2, Hw, Hf, <- !app_assoc.
Qed.

End process.

(** ** Sample *)
Module LoggerSample.
Definition say (tid : Z) (m : macro) (text : string) (time : Z) : op :=
  Statement (mkStatement tid m (lit "net/a.cc") 7 (lit "f") 2 [IString (lit text)] time).
Definition strerror (e : Z) : bytes := lit "No such file".
Definition tidString (tid : Z) : bytes := dec tid ++ lit " ".
(** Thread 2 logs while thread 1 is dying. *)
Definition program : list op :=
  [say 1 LOG_INFO "up" 1709210096000789; say 2 LOG_DEBUG "hidden" 1709210096000790; Destroy 1; Level DEBUG; Output 3; Flush 5;
   say 2 LOG_DEBUG "shown" 1709210097000001; NotNull 1 (lit "a.cc") 9 (lit "p") 1709210097000002 64;
   say 1 LOG_SYSFATAL "bye" 1709210097000003; Destroy 1; Destroy 2; Destroy 1; say 2 LOG_WARN "late" 1709210097000004; Destroy 2;
   Destroy 1; say 2 LOG_WARN "never" 1709210097000005; Destroy 2].

Lemma newProcess_ok getenv : process_ok (newProcess getenv).
Proof. split; [done|by left|constructor]. Qed.

Lemma log_program_lines_witness :
  exists p', foldM (step strerror tidString sample_format_g) (newProcess (fun _ => false)) program = Ok p' /\
    written p' = [(0%nat, lit "20240229 12:34:56.000789Z 1 INFO  up - a.cc:7" ++ [lf]);
                  (3%nat, lit "20240229 12:34:57.000003Z 1 FATAL No such file (errno=2) bye - a.cc:7" ++ [lf]);
                  (3%nat, lit "20240229 12:34:57.000001Z 2 DEBUG f shown - a.cc:7" ++ [lf]);
                  (3%nat, lit "20240229 12:34:57.000004Z 2 WARN  late - a.cc:7" ++ [lf])] /\
    flushed p' = [5%nat] /\ aborted p' = true.
Proof.
  destruct (log_program_lines strerror tidString sample_format_g ltac:(intros v; vm_compute; reflexivity) program
    (newProcess (fun _ => false))) as (p' & E & H).
  - reflexivity.
  - apply newProcess_ok.
  - repeat constructor; vm_compute; intuition discriminate.
  - exists p'. split; [exact E|]. vm_compute in H. exact H.
Defined.
End LoggerSample.
