(* ===== verification/Condition.v ===== *)
(** * Condition: the timed wait of base/Condition.cc

    The deadline of waitForSeconds is computed from the real-time clock and a
    double; pthread_cond_timedwait refuses a time whose nanoseconds are out of
    range.  Waking and locking are those of Monitor.v.

    Theorems: for a delay that is not negative the deadline is the clock plus the
    delay in whole nanoseconds, in normal form, so the wait is never refused; a
    negative delay that borrows from the seconds is refused and reported as a
    wakeup. *)

From S2P Require Import Prelude StdContainers Format Timestamp.

Definition kNanoSecondsPerSecond : Z := 1000000000.
Definition ETIMEDOUT : Z := 110.
Definition EINVAL : Z := 22.

Definition int64_check (z : Z) : outcome Z := if (- 2 ^ 63 <=? z) && (z <? 2 ^ 63) then Ok z else Fault Overflow.

(** The absolute time, from what clock_gettime answers. *)
Definition deadline (seconds : double) (now : Z * Z) : outcome (Z * Z) :=
  let '(tv_sec, tv_nsec) := now in
  nanoseconds ← int64_of_double (double_mul seconds (double_of_int kNanoSecondsPerSecond));
  sum ← int64_check (tv_nsec + nanoseconds);
  tv_sec ← int64_check (tv_sec + Z.quot sum kNanoSecondsPerSecond);
  Ok (tv_sec, Z.rem sum kNanoSecondsPerSecond).

(** [pthread_cond_timedwait]: EINVAL at once for an invalid time; otherwise 0 when
    [woken], and ETIMEDOUT when the time has come. *)
Definition timedwait (abstime : Z * Z) (woken : bool) : Z :=
  if (snd abstime <? 0) || (kNanoSecondsPerSecond <=? snd abstime) then EINVAL
  else if woken then 0 else ETIMEDOUT.

Definition waitForSeconds (seconds : double) (now : Z * Z) (woken : bool) : outcome bool :=
  abstime ← deadline seconds now;
  Ok (ETIMEDOUT =? timedwait abstime woken).

Definition total (t : Z * Z) : Z := fst t * kNanoSecondsPerSecond + snd t.

(** The deadline of a delay of [n] >= 0 nanoseconds is exact, in normal form, and
    waitForSeconds says whether the time came; it cannot overflow while the clock and
    the delay are below 2^62. *)
Theorem wait_deadline_exact seconds sec nsec n woken
  (Hn : int64_of_double (double_mul seconds (double_of_int kNanoSecondsPerSecond)) = Ok n)
  (Hpos : 0 <= n < 2 ^ 62) (Hsec : 0 <= sec < 2 ^ 62) (Hnsec : 0 <= nsec < kNanoSecondsPerSecond) :
  exists d, deadline seconds (sec, nsec) = Ok d /\ total d = total (sec, nsec) + n /\
    0 <= snd d < kNanoSecondsPerSecond /\ waitForSeconds seconds (sec, nsec) woken = Ok (negb woken).
Proof.
  unfold waitForSeconds, deadline. rewrite Hn. cbn [mbind outcome_bind]. unfold kNanoSecondsPerSecond in *.
  assert (Hck : forall z, 0 <= z < 2 ^ 63 -> int64_check z = Ok z).
  { intros z Hz. unfold int64_check. rewrite (proj2 (Z.leb_le _ _)), (proj2 (Z.ltb_lt _ _)) by lia. done. }
  rewrite (Hck (nsec + n)) by lia. cbn [mbind outcome_bind].
  rewrite Z.quot_div_nonneg, Z.rem_mod_nonneg by lia.
  assert (Hd : nsec + n = 1000000000 * ((nsec + n) / 1000000000) + (nsec + n) mod 1000000000) by (apply Z.div_mod; lia).
  assert (0 <= (nsec + n) / 1000000000 <= nsec + n) by (split; [apply Z.div_pos; lia|apply Z.div_le_upper_bound; lia]).
  pose proof (Z.mod_pos_bound (nsec + n) 1000000000 ltac:(lia)).
  assert ((nsec + n) / 1000000000 < 2 ^ 61) by (apply Z.div_lt_upper_bound; lia).
  rewrite Hck by lia. cbn [mbind outcome_bind]. eexists. split; [done|]. unfold total, kNanoSecondsPerSecond. cbn [fst snd].
  split; [lia|]. split; [done|]. unfold timedwait, kNanoSecondsPerSecond. cbn [snd].
  rewrite (proj2 (Z.ltb_ge _ _)), (proj2 (Z.leb_gt _ _)) by lia. by destruct woken.
Qed.

Lemma wait_deadline_exact_witness :
  exists d, deadline (double_div (double_of_int 3) (double_of_int 2)) (1709210096, 700000000) = Ok d /\ d = (1709210098, 200000000) /\
    waitForSeconds (double_div (double_of_int 3) (double_of_int 2)) (1709210096, 700000000) false = Ok true.
Proof.
  destruct (wait_deadline_exact (double_div (double_of_int 3) (double_of_int 2)) 1709210096 700000000 1500000000 false) as (d & E & _ & _ & H);
    [by vm_compute|lia|lia|unfold kNanoSecondsPerSecond; lia|].
  exists d. split; [exact E|]. split; [|exact H]. vm_compute in E. by injection E as <-.
Defined.

(** A delay of minus one second: the time has passed, but the nanoseconds are
    negative, the call is refused, and the caller is told it was woken. *)
Example negative_wait_refused :
  deadline (double_of_int (-1)) (1709210096, 700000000) = Ok (1709210096, -300000000) /\
  waitForSeconds (double_of_int (-1)) (1709210096, 700000000) false = Ok false.
Proof. split; by vm_compute. Qed.
