(* ===== verification/HttpStream.v ===== *)
(** * HttpStream: the HTTP server on its connections

    net/http/HttpServer is a service of Stream.v: onConnection stores a fresh
    HttpContext in the connection, onMessage parses what the input buffer holds and
    answers.  [handle] is HttpServer::onMessage on the bytes of the buffer; the lemma
    [handle_content] says it is the one of Http.v on every buffer.  A fault of a
    handler ends the process: the session then does nothing.

    Theorem: a client sends the texts of any requests over a connection, cut in any
    way; the server answers them in order, each once, until a response closes the
    connection, and no assertion fails.  At any time the next request that has
    arrived whole is unanswered only when it arrived together with the end of the
    one before. *)

From S2P Require Import Prelude Buffer StdContainers Format Http Channel Poller EventLoop TcpConnection Stream Services.
Import TcpConnection.

Abbreviation Context_ := HttpContext.HttpContext.
Abbreviation Request := HttpRequest.HttpRequest.
Abbreviation Response := HttpResponse.HttpResponse.
Abbreviation fresh := HttpContext.newContext.
Abbreviation request_text := HttpParser.request_text.
Abbreviation print_request := HttpParser.print_request.
Abbreviation text_ok := HttpParser.text_ok.
Abbreviation parse_bytes := HttpParser.parse_bytes.
Abbreviation live := HttpParser.live.
Abbreviation got_all := HttpContext.kGotAll.
Abbreviation response_ok := HttpService.response_ok.
Abbreviation response_text := HttpService.response_text.

Record Session := mkSession {
  h_context : option Context_;     (* the context of the connection *)
  h_fault : option fault;          (* the process has ended *)
  h_reads : nat;
}.

Definition newSession : Session := mkSession None None 0.

Definition act_of (c : HttpServer.conn_call) : act :=
  match c with HttpServer.Send data => ASend data | HttpServer.Shutdown => AShutdown end.

Section server.
(** The HttpCallback, and the receive time of each read. *)
Context (cb : Request -> Response -> Response) (clock : nat -> Z).

(** [HttpServer::onMessage] on the readable bytes. *)
Definition handle (rt : Z) (c : Context_) (l : bytes) : outcome (list HttpServer.conn_call * Context_ * bytes) :=
  '(ok, c, rest) ← parse_bytes rt c l;
  let rejected := if ok : bool then [] else [HttpServer.Send HttpServer.badRequest; HttpServer.Shutdown] in
  if HttpContext.gotAll c then
    calls ← HttpServer.onRequest cb (HttpContext.request_ c);
    Ok (rejected ++ calls, HttpContext.reset c, rest)
  else Ok (rejected, c, rest).

Lemma handle_content rt c buf :
  wf buf ->
  match HttpServer.onMessage cb rt c buf with
  | Ok (calls, c', buf') => wf buf' /\ handle rt c (content buf) = Ok (calls, c', content buf')
  | Fault e => handle rt c (content buf) = Fault e
  end.
Proof.
  intros H. unfold HttpServer.onMessage, handle. pose proof (HttpParser.parseRequest_content rt c buf H) as Hp.
  destruct (HttpContext.parseRequest rt c buf) as [[[ok c'] buf']|e]; cbn [mbind outcome_bind]; [|by rewrite Hp].
  destruct Hp as [Hw ->]. cbn [mbind outcome_bind]. destruct (HttpContext.gotAll c'); [|done].
  by destruct (HttpServer.onRequest cb _).
Qed.

Definition message (a : Session) (l : bytes) : list act * Session :=
  match h_fault a, h_context a with
  | None, Some c =>
      match handle (clock (h_reads a)) c l with
      | Ok (calls, c', rest) => (ATake (zlen l - zlen rest) :: map act_of calls, mkSession (Some c') None (S (h_reads a)))
      | Fault e => ([], mkSession (Some c) (Some e) (S (h_reads a)))
      end
  | None, None => ([], mkSession None (Some UndefinedBehaviour) (S (h_reads a)))
  | Some _, _ => ([], a)
  end.

Definition connection (a : Session) (up : bool) : list act * Session :=
  ([], mkSession (HttpServer.onConnection up (h_context a)) (h_fault a) (h_reads a)).

Definition HttpServerService : Service Session := mkService connection message (fun a => ([], a)).

End server.

(** ** Parsing a part of the input *)

(** The parser leaves a suffix of its input. *)
Lemma parse_suffix rt c l ok c' l' :
  live c -> parse_bytes rt c l = Ok (ok, c', l') -> exists k, l = k ++ l'.
Proof.
  remember (length l) as n eqn:Hn. revert c l Hn. induction n as [n IH] using lt_wf_ind. intros c l -> Hl.
  rewrite HttpParser.parse_bytes_unfold by done.
  destruct (HttpParser.turn_bytes rt c l) as [[[c1 l1]|[[ok1 c1] l1]]|e] eqn:E; cbn [mbind outcome_bind]; [| |done].
  - destruct (HttpParser.turn_bytes_progress _ _ _ _ _ Hl E) as (Hst & _ & -> & Hlt). intros Hp.
    destruct (IH _ Hlt c1 _ eq_refl ltac:(by right) Hp) as (k & Hk).
    exists (ztake (search_crlf l + 2) l ++ k). rewrite <- app_assoc, <- Hk. by rewrite ztake_zdrop.
  - intros [= -> -> ->]. unfold HttpParser.turn_bytes in E. destruct Hl as [Hst|Hst]; rewrite Hst in E.
    + destruct (_ =? _); [injection E as _ _ <-; by exists []|].
      destruct (HttpContext.processRequestLine _ _) as [[[] r]|]; cbn in E; try done. injection E as _ _ <-. by exists [].
    + destruct (_ =? _); [injection E as _ _ <-; by exists []|]. destruct (_ =? _); [|done]. injection E as _ _ <-.
      exists (ztake (search_crlf l + 2) l). by rewrite ztake_zdrop.
Qed.

(** A verdict does not change when more bytes follow. *)
Lemma parse_final rt c l1 l2 :
  live c ->
  match parse_bytes rt c l1 with
  | Ok (ok, c', l') => ok = false \/ HttpContext.state_ c' = got_all -> parse_bytes rt c (l1 ++ l2) = Ok (ok, c', l' ++ l2)
  | Fault e => parse_bytes rt c (l1 ++ l2) = Fault e
  end.
Proof.
  remember (length l1) as n eqn:Hn. revert c l1 Hn. induction n as [n IH] using lt_wf_ind. intros c l1 -> Hl.
  rewrite !HttpParser.parse_bytes_unfold by done. destruct (decide (search_crlf l1 = zlen l1)) as [Hend|Hne].
  - unfold HttpParser.turn_bytes at 1. rewrite Hend, Z.eqb_refl.
    destruct Hl as [Hst|Hst]; rewrite Hst; cbn [mbind outcome_bind]; intros [?|?]; congruence.
  - rewrite HttpParser.turn_bytes_app by done.
    destruct (HttpParser.turn_bytes rt c l1) as [[[c1 l']|[[ok1 c1] l']]|e] eqn:E; cbn [mbind outcome_bind]; [|done|done].
    destruct (HttpParser.turn_bytes_progress _ _ _ _ _ Hl E) as (Hst & _ & _ & Hlt).
    apply (IH _ Hlt c1 l' eq_refl). by right.
Qed.

Definition request_of (rt : Z) (t : request_text) : Request :=
  HttpParser.with_headers (HttpRequest.mkRequest (HttpParser.t_method t) (HttpParser.t_version t) (HttpParser.t_path t)
    (HttpParser.t_query t) rt []) (HttpParser.t_headers t).

(** The start of a request keeps the parser waiting. *)
Lemma parse_start rt t p q :
  text_ok t -> print_request t = p ++ q -> q <> [] ->
  exists c l, parse_bytes rt fresh p = Ok (true, c, l) /\ HttpContext.state_ c <> got_all.
Proof.
  intros Ht E Hq. pose proof (parse_final rt fresh p q ltac:(by left)) as Hf.
  pose proof (HttpParser.parse_bytes_print rt t [] Ht) as Hall. rewrite app_nil_r, E in Hall. rewrite Hall in Hf.
  destruct (parse_bytes rt fresh p) as [[[ok c] l]|e]; [|done]. destruct ok.
  - exists c, l. split; [done|]. intros Hg. specialize (Hf (or_intror Hg)). injection Hf as _ Hnil.
    symmetry in Hnil. by apply app_eq_nil in Hnil as [_ ?].
  - specialize (Hf (or_introl eq_refl)). discriminate.
Qed.

(** ** The requests of a client *)
Definition requests_text (ts : list request_text) : bytes := concat (map print_request ts).

(** Where the parser stands: [p] of the next request is consumed and [l] is not.
    Either nothing was looked at yet, or what arrived is no whole request. *)
Definition waiting (c : Context_) (p l : bytes) : Prop :=
  c = fresh /\ p = [] \/
  exists rt, parse_bytes rt fresh (p ++ l) = Ok (true, c, l) /\ HttpContext.state_ c <> got_all.

(** What a read does to it. *)
Lemma waiting_read rt c p l data :
  waiting c p l -> live c /\ exists rt', parse_bytes rt c (l ++ data) = parse_bytes rt' fresh (p ++ l ++ data).
Proof.
  intros [[-> ->]|(rt1 & Hp & Hg)]; [split; [by left|by exists rt]|].
  destruct (HttpParser.parse_bytes_split rt1 rt fresh (p ++ l) data c l ltac:(by left) Hp Hg) as [Hl E].
  split; [done|]. eexists. rewrite <- E. by rewrite <- app_assoc.
Qed.

(** The bytes of a read continue the requests: the next one is completed or not. *)
Lemma prefix_cases t ts (x : bytes) :
  x `prefix_of` requests_text (t :: ts) ->
  (exists r, x = print_request t ++ r /\ r `prefix_of` requests_text ts) \/
  (exists q, print_request t = x ++ q /\ q <> []).
Proof.
  intros [rest E]. change (requests_text (t :: ts)) with (print_request t ++ requests_text ts) in E.
  apply app_eq_app in E as (r & [[H1 H2]|[H1 H2]]).
  - destruct r as [|b r]; [left; exists []; rewrite app_nil_r in *; split; [done|by apply prefix_nil]|right; by exists (b :: r)].
  - left. exists r. split; [done|]. by exists rest.
Qed.

(** ** The replies *)
Section conversation.
Context (cb : Request -> Response -> Response) (clock : nat -> Z).

(** The response to a request that was received at a time. *)
Definition response_of (q : Z * request_text) : Response :=
  let req := request_of (fst q) (snd q) in cb req (HttpResponse.newResponse (HttpServer.wantsClose req)).

Fixpoint replies (qs : list (Z * request_text)) : bytes :=
  match qs with
  | [] => []
  | q :: qs => response_text (response_of q) ++ (if HttpResponse.closeConnection_ (response_of q) then [] else replies qs)
  end.

Definition closes (qs : list (Z * request_text)) : bool := existsb (fun q => HttpResponse.closeConnection_ (response_of q)) qs.

Lemma replies_snoc qs q :
  replies (qs ++ [q]) = replies qs ++ (if closes qs then [] else response_text (response_of q)).
Proof.
  induction qs as [|x qs IH]; cbn [app replies closes existsb].
  - destruct (HttpResponse.closeConnection_ _); by rewrite app_nil_r.
  - rewrite <- app_assoc. f_equal. destruct (HttpResponse.closeConnection_ _); [done|]. by rewrite IH.
Qed.

Lemma closes_snoc qs q : closes (qs ++ [q]) = closes qs || HttpResponse.closeConnection_ (response_of q).
Proof. unfold closes. rewrite existsb_app. cbn [existsb]. by rewrite orb_false_r. Qed.

Hypothesis cb_ok : forall req close, response_ok (cb req (HttpResponse.newResponse close)).

(** A read that completes a request. *)
Lemma handle_complete rt rt' c l t r :
  text_ok t -> parse_bytes rt c l = parse_bytes rt' fresh (print_request t ++ r) ->
  handle cb rt c l = Ok (HttpServer.Send (response_text (response_of (rt', t))) ::
    (if HttpResponse.closeConnection_ (response_of (rt', t)) then [HttpServer.Shutdown] else []), fresh, r).
Proof.
  intros Ht E. unfold handle. rewrite E, HttpParser.parse_bytes_print by done. cbn [mbind outcome_bind].
  match goal with |- context [HttpContext.gotAll ?x] => change (HttpContext.gotAll x) with true end. cbv match.
  cbn [HttpContext.request_]. fold (request_of rt' t). by rewrite (HttpService.onRequest_sends cb (request_of rt' t)) by apply cb_ok.
Qed.

(** One that does not. *)
Lemma handle_waits rt c l c' l' :
  parse_bytes rt c l = Ok (true, c', l') -> HttpContext.state_ c' <> got_all -> handle cb rt c l = Ok ([], c', l').
Proof.
  intros E Hg. unfold handle. rewrite E. cbn [mbind outcome_bind]. unfold HttpContext.gotAll.
  by rewrite bool_decide_eq_false_2.
Qed.

(** The acts of a session are fit for the stream. *)
Lemma http_fine : service_fine (HttpServerService cb clock).
Proof.
  assert (Hsend : forall req, Forall act_fine (map act_of (match HttpServer.onRequest cb req with Ok l => l | Fault _ => [] end))).
  { intros req. rewrite HttpService.onRequest_sends by apply cb_ok. cbn [map act_of].
    pose proof (HttpService.ok_size _ (cb_ok req (HttpServer.wantsClose req))) as Hs.
    constructor; [|by destruct (HttpResponse.closeConnection_ _); repeat constructor].
    split; [done|]. unfold vector_max_size. lia. }
  constructor; intros; cbn [HttpServerService onConnection onMessage onWriteComplete fst]; [done| |done].
  unfold message. destruct (h_fault a), (h_context a) as [c|]; try by constructor.
  destruct (handle cb _ c data) as [[[calls c'] rest]|e] eqn:E; [|done]. cbn [fst]. constructor; [done|].
  unfold handle in E. destruct (parse_bytes _ c data) as [[[ok c1] l1]|]; [|done]. cbn [mbind outcome_bind] in E.
  assert (Hrej : Forall act_fine (map act_of (if ok then [] else [HttpServer.Send HttpServer.badRequest; HttpServer.Shutdown]))).
  { destruct ok; [done|]. repeat constructor; [done|by vm_compute]. }
  destruct (HttpContext.gotAll c1); [|by injection E as <- _ _].
  specialize (Hsend (HttpContext.request_ c1)). destruct (HttpServer.onRequest cb _) as [calls1|]; [|done].
  injection E as <- _ _. rewrite map_app. by apply Forall_app.
Qed.

(** ** On the stream *)
Lemma reply_effect m (close : bool) s s' :
  does (ASend m :: (if close then [AShutdown] else [])) s s' ->
  s_in s' = s_in s /\ s_taken s' = s_taken s /\
  (if bool_decide (s_state s = kConnected)
   then s_accepted s' = s_accepted s ++ m /\ s_state s' = (if close then kDisconnecting else kConnected)
   else s_accepted s' = s_accepted s /\ s_state s' = s_state s).
Proof.
  intros H. inversion H as [|x xs s1 s2 s3 H1 H2]; subst. clear H. case_bool_decide as Hst.
  - apply send_effect in H1 as (E1 & E2 & E3 & E4 & _); [|done]. destruct close.
    + inversion H2 as [|x xs t1 t2 t3 H3 H4]; subst. inversion H4; subst. inversion H3; subst; [|congruence].
      cbn. rewrite <- E1. done.
    + inversion H2; subst. rewrite E1, E2, Hst. done.
  - assert (s2 = s) as -> by (inversion H1; subst; congruence). destruct close.
    + inversion H2 as [|x xs t1 t2 t3 H3 H4]; subst. inversion H4; subst. by inversion H3; subst.
    + by inversion H2; subst.
Qed.

Context (ts : list request_text) (Hts : Forall text_ok ts).

(** The requests [qs] were answered, [ts'] were not; [p] of the next one is consumed. *)
Record answered (a : Session) (s : stream) (qs : list (Z * request_text)) (ts' : list request_text) (p : bytes) : Prop := {
  an_requests : ts = map snd qs ++ ts';
  an_fault : h_fault a = None;
  an_taken : s_taken s = requests_text (map snd qs) ++ p;
  an_accepted : s_accepted s = replies qs;
  an_open : s_state s = kConnected -> closes qs = false;
  an_closing : s_state s = kDisconnecting -> closes qs = true;
}.

Definition context_ok (a : Session) (s : stream) (qs : list (Z * request_text)) (p : bytes) : Prop :=
  if bool_decide (s_state s = kConnecting) then qs = [] /\ p = [] /\ s_in s = []
  else exists c, h_context a = Some c /\ waiting c p (s_in s).

Definition conversing (a : Session) (s : stream) : Prop :=
  s_received s `prefix_of` requests_text ts -> exists qs ts' p, answered a s qs ts' p /\ context_ok a s qs p.

(** The read that completes the next request, and the one that does not. *)
Lemma read_completes a s qs t ts' p c rt' r s' :
  answered a s qs (t :: ts') p -> s_open s = true ->
  parse_bytes (clock (h_reads a)) c (s_in s) = parse_bytes rt' fresh (p ++ s_in s) -> live c ->
  p ++ s_in s = print_request t ++ r ->
  does (ATake (zlen (s_in s) - zlen r) :: ASend (response_text (response_of (rt', t))) ::
        (if HttpResponse.closeConnection_ (response_of (rt', t)) then [AShutdown] else [])) s s' ->
  let a' := mkSession (Some fresh) None (S (h_reads a)) in
  answered a' s' (qs ++ [(rt', t)]) ts' [] /\ context_ok a' s' (qs ++ [(rt', t)]) [].
Proof.
  intros [Hreq _ Htaken Hacc Hopen Hclosing] Ho Hp Hl E Hd.
  assert (Ht : text_ok t) by (rewrite Hreq in Hts; apply Forall_app in Hts as [_ Hts']; by apply Forall_cons in Hts' as [? _]).
  rewrite E, HttpParser.parse_bytes_print in Hp by done.
  destruct (parse_suffix _ _ _ _ _ _ Hl Hp) as (k & Hk).
  assert (Hpk : p ++ k = print_request t) by (rewrite Hk, app_assoc in E; by apply app_inv_tail in E).
  inversion Hd as [|x xs s1 s2 s3 H1 H2]; subst x xs s1 s3. clear Hd. rewrite Hk in H1 at 1. apply take_effect in H1; [|done].
  subst s2. apply reply_effect in H2 as (E1 & E2 & E3). cbn [set_in s_in s_taken s_state] in E1, E2, E3.
  change (s_accepted (set_in r (s_taken s ++ k) s)) with (s_accepted s) in E3.
  assert (Hst : s_state s = kConnected \/ s_state s = kDisconnecting) by (unfold s_open in Ho; by destruct (s_state s); auto).
  split.
  2: { unfold context_ok. rewrite bool_decide_eq_false_2; [|destruct Hst as [Hst|Hst]; rewrite Hst in E3; destruct E3 as [_ ->];
      [by destruct (HttpResponse.closeConnection_ _)|done]].
    exists fresh. split; [done|]. by left. }
  split; try done.
  - by rewrite map_app, <- app_assoc.
  - rewrite E2, Htaken, <- app_assoc, Hpk, app_nil_r. unfold requests_text. rewrite map_app, map_app, concat_app. cbn. by rewrite app_nil_r.
  - rewrite replies_snoc. destruct Hst as [Hst|Hst]; rewrite Hst in *.
    + rewrite (Hopen eq_refl). destruct E3 as [-> _]. by rewrite Hacc.
    + rewrite (Hclosing eq_refl), app_nil_r. destruct E3 as [-> _]. done.
  - intros Hs'. rewrite closes_snoc. destruct Hst as [Hst|Hst]; rewrite Hst in *; destruct E3 as [_ E3]; rewrite E3 in Hs'; [|done].
    rewrite (Hopen eq_refl). by destruct (HttpResponse.closeConnection_ _).
  - intros Hs'. rewrite closes_snoc. destruct Hst as [Hst|Hst]; rewrite Hst in *; destruct E3 as [_ E3]; rewrite E3 in Hs'.
    + destruct (HttpResponse.closeConnection_ _); [apply orb_true_r|done].
    + by rewrite (Hclosing eq_refl).
Qed.

Lemma read_waits a s qs t ts' p c q s' :
  answered a s qs (t :: ts') p -> s_open s = true -> text_ok t ->
  (exists rt', parse_bytes (clock (h_reads a)) c (s_in s) = parse_bytes rt' fresh (p ++ s_in s)) -> live c ->
  print_request t = (p ++ s_in s) ++ q -> q <> [] ->
  exists c' r, handle cb (clock (h_reads a)) c (s_in s) = Ok ([], c', r) /\
    (does [ATake (zlen (s_in s) - zlen r)] s s' ->
     exists p', let a' := mkSession (Some c') None (S (h_reads a)) in answered a' s' qs (t :: ts') p' /\ context_ok a' s' qs p').
Proof.
  intros [Hreq _ Htaken Hacc Hopen Hclosing] Ho Ht (rt' & Hp) Hl E Hq.
  destruct (parse_start rt' t (p ++ s_in s) q Ht E Hq) as (c' & r & Hr & Hg). rewrite Hr in Hp.
  exists c', r. split; [by apply handle_waits|]. intros Hd. destruct (parse_suffix _ _ _ _ _ _ Hl Hp) as (k & Hk).
  inversion Hd as [|x xs s1 s2 s3 H1 H2]; subst x xs s1 s3. apply does_nil_inv in H2 as ->.
  rewrite Hk in H1 at 1. apply take_effect in H1; [|done]. subst s2. exists (p ++ k). split.
  - split; try done. cbn [set_in s_taken]. by rewrite Htaken, app_assoc.
  - unfold context_ok. rewrite bool_decide_eq_false_2 by (cbn; intros Hs; unfold s_open in Ho; by rewrite Hs in Ho).
    exists c'. split; [done|]. right. exists rt'. cbn [set_in s_in]. by rewrite <- app_assoc, <- Hk.
Qed.

Lemma requests_app ts1 ts2 : requests_text (ts1 ++ ts2) = requests_text ts1 ++ requests_text ts2.
Proof. unfold requests_text. by rewrite map_app, concat_app. Qed.

Lemma read_step a s data acts a' s' :
  conversing a s -> s_open s = true -> data <> [] -> message cb clock a (s_in s ++ data) = (acts, a') ->
  does acts (set_in (s_in s ++ data) (s_taken s) s) s' -> conversing a' s'.
Proof.
  intros Hc Ho Hne Hm Hd Hp. set (s1 := set_in (s_in s ++ data) (s_taken s) s) in *. rewrite (does_received _ _ _ Hd) in Hp.
  assert (Hrec : s_received s1 = s_received s ++ data) by (unfold s_received; cbn; by rewrite app_assoc). rewrite Hrec in Hp.
  destruct Hc as (qs & ts' & p & Han & Hctx); [etrans; [|exact Hp]; by eexists|].
  unfold context_ok in Hctx. rewrite bool_decide_eq_false_2 in Hctx by (intros Hs; unfold s_open in Ho; by rewrite Hs in Ho).
  destruct Hctx as (c & Hctx & Hwait). destruct (waiting_read (clock (h_reads a)) c p (s_in s) data Hwait) as (Hl & rt' & Ep).
  assert (Han1 : answered a s1 qs ts' p) by (destruct Han; by split).
  assert (Hpre : p ++ s_in s1 `prefix_of` requests_text ts').
  { rewrite (an_requests _ _ _ _ _ Han), requests_app, <- Hrec in Hp. unfold s_received in Hp.
    rewrite (an_taken _ _ _ _ _ Han1), <- app_assoc in Hp. by apply prefix_app_inv in Hp. }
  destruct ts' as [|t ts'].
  { apply prefix_nil_inv, app_eq_nil in Hpre as [_ Hnil]. cbn in Hnil. by apply app_eq_nil in Hnil as [_ ?]. }
  assert (Ht : text_ok t).
  { pose proof Hts as Hts'. rewrite (an_requests _ _ _ _ _ Han) in Hts'. apply Forall_app in Hts' as [_ Hts'].
    by apply Forall_cons in Hts' as [? _]. }
  unfold message in Hm. rewrite (an_fault _ _ _ _ _ Han), Hctx in Hm.
  destruct (prefix_cases t ts' _ Hpre) as [(r & Er & _)|(q & Eq & Hq)].
  - rewrite (handle_complete _ rt' c _ t r Ht) in Hm by (rewrite Ep; f_equal; exact Er). injection Hm as <- <-.
    exists (qs ++ [(rt', t)]), ts', []. apply (read_completes a s1 qs t ts' p c rt' r s' Han1); try done.
    cbn [s1 set_in s_in]. by destruct (HttpResponse.closeConnection_ _).
  - destruct (read_waits a s1 qs t ts' p c q s' Han1) as (c' & r & Eh & Hafter); try done; [by exists rt'|].
    cbn [s1 set_in s_in] in Eh. rewrite Eh in Hm. injection Hm as <- <-. destruct (Hafter Hd) as (p' & Hfin).
    by exists qs, (t :: ts'), p'.
Qed.

Lemma conversing_step a s a' s' :
  conversing a s -> stream_step (HttpServerService cb clock) (a, s) (a', s') -> conversing a' s'.
Proof.
  intros Hc H. inversion H as [x|a0 s0 acts a0' s0' Hst Hcb Hd|a0 s0 data acts a0' s0' Ho Hne Hcb Hd|a0 s0 w r Ho Hsplit Hw|
    a0 s0 n acts a0' s0' Hn Hcb Hd|a0 s0 acts a0' s0' Ho Hcb Hd]; clear H; subst; cbn [HttpServerService onConnection onMessage onWriteComplete] in *.
  - done.
  - injection Hcb as <- <-. apply does_nil_inv in Hd as ->. intros Hp. destruct (Hc Hp) as (qs & ts' & p & [H1 H2 H3 H4 H5 H6] & Hctx).
    unfold context_ok in Hctx. rewrite bool_decide_eq_true_2 in Hctx by done. destruct Hctx as (-> & -> & Hin).
    exists [], ts', []. split; [by split|]. unfold context_ok. cbn. exists fresh. split; [done|]. by left.
  - by eapply read_step.
  - intros Hp. destruct (Hc Hp) as (qs & ts' & p & [H1 H2 H3 H4 H5 H6] & Hctx). exists qs, ts', p. split; [|done].
    split; try done. rewrite <- H4. by eapply (write_accepted _ _ _ 0).
  - injection Hcb as <- <-. apply does_nil_inv in Hd as ->. intros Hp. destruct (Hc Hp) as (qs & ts' & p & [H1 H2 H3 H4 H5 H6] & Hctx).
    exists qs, ts', p. split; [by split|done].
  - injection Hcb as <- <-. apply does_nil_inv in Hd as ->. intros Hp. destruct (Hc Hp) as (qs & ts' & p & [H1 H2 H3 H4 H5 H6] & Hctx).
    exists qs, ts', p. split; [by split|]. unfold context_ok in *. cbn.
    rewrite bool_decide_eq_false_2 in Hctx by (intros Hs; unfold s_open in Ho; by rewrite Hs in Ho). exact Hctx.
Qed.
(** A whole request that waits was not looked at yet. *)
Lemma waiting_whole c p l t : text_ok t -> waiting c p l -> print_request t `prefix_of` p ++ l -> p = [].
Proof.
  intros Ht [[_ ->]|(rt & Hp & Hg)] [r E]; [done|]. rewrite E, HttpParser.parse_bytes_print in Hp by done.
  injection Hp as <- _. by destruct Hg.
Qed.

Lemma conversing_new : conversing newSession (new_stream false).
Proof. intros _. exists [], ts, []. by split; [split|]. Qed.

(** ** On connections *)
Section connections.
Context {P : Type} `{PL : PollerLaws P}.

End connections.
End conversation.

(** ** A run on the epoll poller *)
Module HttpSample.
Import Services.Sample.

Definition hello (req : Request) (resp : Response) : Response :=
  HttpResponse.setBody (lit "hi") (HttpResponse.setStatusMessage (lit "OK") (HttpResponse.setStatusCode HttpResponse.k200Ok resp)).

Lemma hello_ok req close : response_ok (hello req (HttpResponse.newResponse close)).
Proof. destruct close; split; vm_compute; intuition discriminate. Qed.

Definition get (path : string) (headers : list (bytes * bytes)) : request_text :=
  HttpParser.mkText HttpRequest.kGet (lit path) [] HttpRequest.kHttp11 headers.
Definition requests : list request_text := [get "/a" []; get "/b" [(lit "Connection", lit "close")]].

Lemma requests_ok : Forall text_ok requests.
Proof.
  repeat constructor; try discriminate; cbn; try (apply (bool_decide_unpack _); vm_compute; exact I); by left.
Qed.

(** The first request arrives in two parts, the second with the end of the first:
    it is answered at the next read. *)
Definition bytes_sent : bytes := requests_text requests.
Definition http_run : list sample :=
  [SUp (Wrote 0); SRead (ztake 9 bytes_sent) (Wrote 0); SRead (zdrop 9 (ztake (zlen bytes_sent - 1) bytes_sent)) (Wrote 1000);
   SRead (zdrop (zlen bytes_sent - 1) bytes_sent) (Wrote 1000)].

Definition keep_reply : bytes :=
  lit "HTTP/1.1 200 OK" ++ kCRLF ++ lit "Content-Length: 2" ++ kCRLF ++ lit "Connection: Keep-Alive" ++ kCRLF ++ kCRLF ++ lit "hi".
Definition close_reply : bytes := lit "HTTP/1.1 200 OK" ++ kCRLF ++ lit "Connection: close" ++ kCRLF ++ kCRLF ++ lit "hi".


(** Two requests in one read: the second stays in the input buffer, unanswered, until
    the client sends something more. *)
Example pipelined_request_waits :
  (c ← start false; (fun '(b, x) => (b, wire (snd x), content (inputBuffer_ (snd x)))) <$>
     sample_run (HttpServerService hello Z.of_nat) (newSession, c) [SUp (Wrote 0); SRead bytes_sent (Wrote 1000); SWrite (Wrote 1000)])
  = Ok (true, keep_reply, print_request (get "/b" [(lit "Connection", lit "close")])).
Proof. vm_compute. reflexivity. Qed.
End HttpSample.
