(* ===== verification/LogPipeline.v ===== *)
(** * LogPipeline: log statements, the asynchronous logger and its files together

    A program that calls Logger::setOutput with the append of an AsyncLogging: the
    statements of Logger.v hand their lines to the front end of AsyncLogging.v, whose
    back end writes the files of LogFile.v.  Statements of any threads and turns of
    the back end interleave freely; abort() stops them all.

    Theorem: unless a turn of the back end found more than 25 buffers, what the files
    hold followed by what the buffers hold is exactly the enabled lines, in the order
    their Loggers were destroyed, while the asynchronous logger was the output.  A
    run shows where the line of a fatal statement may stay. *)

From S2P Require Import Prelude StdContainers Format Timestamp LogStream Logging LogFile AsyncLogging Logger.

(** The number of the output function that appends to the AsyncLogging. *)
Definition async_output : nat := 1.

Record Program := mkProgram { pr_process : Logger.Process; pr_async : AsyncLogging }.

Inductive event :=
| Log (o : Logger.op)
| Back (p : LogFile.Process) (answers : nat -> Z) (now : Z)
| StopLogging.

Section pipeline.
(** The size of a buffer of the asynchronous logger: that of a stream at least
    (kLargeBuffer in the program). *)
Context (SIZE : Z) (Hsize : kSmallBuffer <= SIZE).
Context (strerror : Z -> bytes) (tidString : Z -> bytes) (format_g : double -> bytes).

(** The call of [g_output]: lines for the asynchronous logger are appended. *)
Definition output_line (a : AsyncLogging) (x : nat * bytes) : outcome AsyncLogging :=
  if bool_decide (fst x = async_output) then async_append SIZE (snd x) a else Ok a.

Definition pipeline_step (s : Program) (e : event) : outcome Program :=
  if aborted (pr_process s) then Ok s
  else match e with
       | Log o =>
           p ← Logger.step strerror tidString format_g (pr_process s) o;
           a ← foldM output_line (pr_async s) (drop (length (written (pr_process s))) (written p));
           Ok (mkProgram p a)
       | Back p answers now => a ← async_step SIZE (pr_async s) (BackEnd p answers now); Ok (mkProgram (pr_process s) a)
       | StopLogging => a ← async_step SIZE (pr_async s) Stop; Ok (mkProgram (pr_process s) a)
       end.

Definition event_ok (e : event) : Prop :=
  match e with
  | Log o => op_ok strerror tidString format_g o
  | Back p answers _ => can_open p = true /\ forall j, 0 < answers j
  | StopLogging => True
  end.

Definition statements (l : list event) : list Logger.op := omap (fun e => match e with Log o => Some o | _ => None end) l.

(** Of the lines of the statements ([expected_of] of Logger.v), those for the
    asynchronous logger. *)
Definition async_lines (l : list (nat * bytes)) : list bytes := map snd (filter (fun x => fst x = async_output) l).

Lemma async_lines_app l1 l2 : async_lines (l1 ++ l2) = async_lines l1 ++ async_lines l2.
Proof. unfold async_lines. by rewrite filter_app, map_app. Qed.

Lemma SIZE_pos : 0 < SIZE.
Proof using Hsize. unfold kSmallBuffer in Hsize. lia. Qed.

Lemma output_line_appends x a :
  ainv SIZE a -> exists a', output_line a x = Ok a' /\ ainv SIZE a' /\ appended a' = appended a ++ async_lines [x].
Proof using Hsize.
  intros Ha. unfold output_line, async_lines. rewrite filter_cons. destruct (decide (fst x = async_output)) as [E|E].
  - rewrite bool_decide_eq_true_2 by done. destruct (ainv_append SIZE SIZE_pos (snd x) a Ha) as (a' & E' & Ha').
    exists a'. split; [done|]. split; [done|]. exact (step_appended SIZE a (Append (snd x)) a' E').
  - rewrite bool_decide_eq_false_2 by done. exists a. split; [done|]. split; [done|]. by rewrite app_nil_r.
Qed.

Lemma output_lines lines a :
  ainv SIZE a -> exists a', foldM output_line a lines = Ok a' /\ ainv SIZE a' /\ appended a' = appended a ++ async_lines lines.
Proof using Hsize.
  revert a. induction lines as [|x lines IH]; intros a Ha; [exists a; by rewrite app_nil_r|].
  cbn [foldM]. destruct (output_line_appends x a Ha) as (a1 & -> & Ha1 & H1). cbn [mbind outcome_bind].
  destruct (IH a1 Ha1) as (a2 & -> & Ha2 & H2). exists a2. split; [done|]. split; [done|].
  by rewrite H2, H1, <- app_assoc, <- async_lines_app.
Qed.

Lemma pipeline_aborted l s : aborted (pr_process s) = true -> foldM pipeline_step s l = Ok s.
Proof.
  intros H. induction l as [|e l IH]; [done|]. cbn [foldM]. by replace (pipeline_step s e) with (Ok s) by (unfold pipeline_step; by rewrite H).
Qed.

Hypothesis format_g_short : forall v, zlen (format_g v) < kMaxNumericSize.

(** A turn of the back end, or the call of stop(), appends nothing. *)
Lemma back_step a act :
  ainv SIZE a -> action_ok act -> lines_of [act] = [] ->
  exists a1, async_step SIZE a act = Ok a1 /\ ainv SIZE a1 /\ appended a1 = appended a.
Proof using Hsize.
  intros Hi Hact Hno. destruct (ainv_step SIZE SIZE_pos a act Hi Hact) as (a1 & E & Hi1).
  exists a1. split; [done|]. split; [done|]. by rewrite (step_appended SIZE _ _ _ E), Hno, app_nil_r.
Qed.

(** What one event appends, and how the lines of a program follow from it. *)
Lemma pipeline_step_lines s e :
  aborted (pr_process s) = false -> process_ok (pr_process s) -> ainv SIZE (pr_async s) -> event_ok e ->
  exists s' lines fl, pipeline_step s e = Ok s' /\ ainv SIZE (pr_async s') /\ process_ok (pr_process s') /\
    appended (pr_async s') = appended (pr_async s) ++ async_lines lines /\
    Forall (fun x => short (snd x)) lines /\
    forall l, expected_of strerror tidString format_g (pr_process s) (statements (e :: l)) =
      and_then (mkEffects lines fl false) (if aborted (pr_process s') then mkEffects [] [] true
        else expected_of strerror tidString format_g (pr_process s') (statements l)).
Proof using Hsize format_g_short.
  intros Ha Hc Hi He.
  destruct e as [o|p answers now|].
  - destruct (step_expected strerror tidString format_g format_g_short (pr_process s) o Ha Hc He)
      as (p1 & lines & fl & E & Hc1 & Hw & Hz & _ & Hexp).
    destruct (output_lines lines (pr_async s) Hi) as (a1 & E1 & Hi1 & Happ). exists (mkProgram p1 a1), lines, fl.
    split_and!; try done; [unfold pipeline_step; rewrite Ha, E; cbn [mbind outcome_bind]; by rewrite Hw, drop_app_length, E1|].
    intros l. exact (Hexp (statements l)).
  - destruct (back_step (pr_async s) (BackEnd p answers now) Hi He eq_refl) as (a1 & E & Hi1 & Happ).
    exists (mkProgram (pr_process s) a1), [], []. cbn [pr_process pr_async].
    rewrite Ha, Happ, app_nil_r. split_and!; try done; [unfold pipeline_step; by rewrite Ha, E|]. intros l. by rewrite and_then_nil.
  - destruct (back_step (pr_async s) Stop Hi I eq_refl) as (a1 & E & Hi1 & Happ).
    exists (mkProgram (pr_process s) a1), [], []. cbn [pr_process pr_async].
    rewrite Ha, Happ, app_nil_r. split_and!; try done; [unfold pipeline_step; by rewrite Ha, E|]. intros l. by rewrite and_then_nil.
Qed.

Lemma pipeline_run l : forall s,
  aborted (pr_process s) = false -> process_ok (pr_process s) -> ainv SIZE (pr_async s) -> Forall event_ok l ->
  exists s', foldM pipeline_step s l = Ok s' /\ ainv SIZE (pr_async s') /\
    let e := expected_of strerror tidString format_g (pr_process s) (statements l) in
    appended (pr_async s') = appended (pr_async s) ++ async_lines (ef_lines e) /\
    Forall (fun x => short (snd x)) (ef_lines e) /\ aborted (pr_process s') = ef_abort e.
Proof using Hsize format_g_short.
  induction l as [|e l IH]; intros s Ha Hc Hi Hl.
  { exists s. cbn. by rewrite app_nil_r. }
  apply Forall_cons in Hl as [He Hl]. cbn [foldM].
  destruct (pipeline_step_lines s e Ha Hc Hi He) as (s1 & lines & fl & -> & Hi1 & Hc1 & Happ & Hz & Hexp). cbn [mbind outcome_bind].
  rewrite Hexp. cbn [and_then ef_lines ef_abort]. destruct (aborted (pr_process s1)) eqn:Ha1.
  - exists s1. rewrite pipeline_aborted by done. cbn. by rewrite Ha1, Happ, app_nil_r.
  - destruct (IH s1 Ha1 Hc1 Hi1 Hl) as (s2 & -> & Hi2 & H1 & H2 & H3). exists s2. split; [done|]. split; [done|].
    rewrite H1, Happ, async_lines_app, <- app_assoc. split; [done|]. split; [|done]. by apply Forall_app.
Qed.

(** C37: A program that logs through an asynchronous logger: statements of any threads
    with changes of level and output, interleaved with the turns of the back end in
    any way; each line has 32 bytes to spare in the 4000 of a stream, no log time zone
    is set, and files can be opened and written.  No assertion fails and no moved-from
    buffer is used; and unless a turn found more than 25 buffers (it then discards all
    but two), the log files followed by the buffers hold exactly the enabled lines
    written while the asynchronous logger was the output, whole and in the order their
    Loggers were destroyed; with the abort() of a fatal statement everything ends. *)
Theorem log_pipeline_keeps_lines l p out
  (Hrun : aborted p = false) (Hok : process_ok p) (Hout : LogFile.holds [] out) (Hl : Forall event_ok l) :
  exists s, foldM pipeline_step (mkProgram p (started SIZE out)) l = Ok s /\
    (dropped (pr_async s) = false ->
     logged (output (pr_async s)) ++ unwritten (pr_async s) =
       concat (async_lines (ef_lines (expected_of strerror tidString format_g p (statements l))))) /\
    aborted (pr_process s) = ef_abort (expected_of strerror tidString format_g p (statements l)).
Proof.
  destruct (pipeline_run l (mkProgram p (started SIZE out)) Hrun Hok (ainv_started SIZE SIZE_pos out Hout) Hl) as (s & Hr & Hi & H).
  exists s. split; [done|]. cbn [pr_process pr_async] in H.
  destruct H as (Happ & Hz & Hab). split; [|done]. intros Hd. destruct (ai_lines _ _ Hi) as (ls & Hh & Hcat).
  rewrite (holds_logged _ _ Hh), (Hcat Hd), Happ. cbn [started appended app]. f_equal. apply filter_all.
  intros x Hx. unfold async_lines in Hx. apply list_elem_of_In, in_map_iff in Hx as ([n y] & <- & Hy).
  apply list_elem_of_In, list_elem_of_filter in Hy as [_ Hy]. rewrite Forall_forall in Hz. specialize (Hz _ Hy). cbn [snd] in *.
  unfold short, fits, kMaxNumericSize in *. apply Z.ltb_lt. lia.
Qed.
End pipeline.

(** ** Sample *)
Module PipelineSample.
Definition turn (now : Z) : event := Back sample_process (fun _ => 1) now.
(** The output is set, one line logged and written, then a fatal statement; another
    thread logs before abort(). *)
Definition program : list event :=
  [Log (Output async_output); Log (LoggerSample.say 1 LOG_INFO "up" 1709210096000789); Log (Destroy 1); turn 99; turn 99; turn 100;
   Log (LoggerSample.say 2 LOG_FATAL "bye" 1709210097000003); Log (Destroy 2); Log (Destroy 2);
   Log (LoggerSample.say 1 LOG_WARN "late" 1709210097000004); Log (Destroy 1); Log (Destroy 2); turn 101].

Definition up : bytes := lit "20240229 12:34:56.000789Z 1 INFO  up - a.cc:7" ++ [lf].
Definition bye : bytes := lit "20240229 12:34:57.000003Z 2 FATAL bye - a.cc:7" ++ [lf].
Definition late : bytes := lit "20240229 12:34:57.000004Z 1 WARN  late - a.cc:7" ++ [lf].

Definition result : outcome (bool * bytes * bytes) :=
  out ← newLogFile sample_process (lit "app") 1000 false 3 1024 99;
  s ← foldM (pipeline_step 4000 LoggerSample.strerror LoggerSample.tidString sample_format_g)
        (mkProgram (newProcess (fun _ => false)) (started 4000 out)) program;
  Ok (aborted (pr_process s), logged (output (pr_async s)), unwritten (pr_async s)).

(** The line of a fatal statement is in the buffer when abort() ends the process, if the
    back end gets no turn in between, and the flush function has nothing to call, an
    AsyncLogging having no flush.  The reason the program died is not in its log. *)
Theorem fatal_line_is_lost : result = Ok (true, up, bye ++ late).
Proof. by vm_compute. Qed.

Lemma log_pipeline_keeps_lines_witness :
  exists out s, newLogFile sample_process (lit "app") 1000 false 3 1024 99 = Ok out /\
    foldM (pipeline_step 4000 LoggerSample.strerror LoggerSample.tidString sample_format_g)
      (mkProgram (newProcess (fun _ => false)) (started 4000 out)) program = Ok s /\
    (dropped (pr_async s) = false -> logged (output (pr_async s)) ++ unwritten (pr_async s) = up ++ bye ++ late) /\
    aborted (pr_process s) = true.
Proof.
  destruct (newLogFile sample_process (lit "app") 1000 false 3 1024 99) as [out|] eqn:E; [|vm_compute in E; discriminate].
  destruct (log_pipeline_keeps_lines 4000 ltac:(unfold kSmallBuffer; lia) LoggerSample.strerror LoggerSample.tidString sample_format_g
    ltac:(intros v; vm_compute; reflexivity) program (newProcess (fun _ => false)) out) as (s & Hr & Hd).
  - reflexivity.
  - apply LoggerSample.newProcess_ok.
  - vm_compute in E. injection E as <-. split; [by eexists|]. by exists [[]].
  - repeat constructor; vm_compute; intuition discriminate.
  - exists out, s. split; [exact eq_refl|]. split; [exact Hr|].
    replace (expected_of _ _ _ _ _) with (mkEffects [(async_output, up); (async_output, bye); (async_output, late)] [0%nat] true) in Hd
      by (vm_compute; reflexivity).
    cbn [ef_lines ef_abort] in Hd. exact Hd.
Defined.
End PipelineSample.
