(* ===== verification/PerformanceInspector.v ===== *)
(** * PerformanceInspector: net/inspect/PerformanceInspector.cc

    The commands of the module pprof, in programs built with HAVE_TCMALLOC.  What
    gperftools answers is the record [Tcmalloc]; the calls that change something
    outside the program - the profiler, the wait, the removal of its file, the
    release of memory - are a trace.  Pages are registered with Inspector.v beside
    those of SystemInspector.v, and read the profile with FileUtil::readFile.

    Theorem: with answers as gperftools documents them every command is served over
    the wire with its page, nothing cut off; the histogram fits the stream it is
    printed to; the profile is the first MiB of the file that the profiler was given,
    whose name is removed again whenever the profiler started. *)

From S2P Require Import Prelude Buffer StdContainers Format Timestamp Http LogStream LogFile.
From S2P Require Import ProcessInfo TimerQueue LoopLife Inspector SystemInspector.
Import HttpRequest HttpContext HttpResponse HttpServer HttpParser HttpService.

(** ** What gperftools answers *)
Record Tcmalloc := mkTcmalloc {
  GetHeapSample : bytes;
  GetHeapGrowthStacks : bytes;
  GetStats : Z -> bytes;              (* what it stores in a buffer of that size *)
  MallocMemoryStats : Z * Z * list Z; (* blocks, total, histogram *)
  GetMemoryReleaseRate : double;
  ProfilerStarts : bytes -> bool;
}.

Inductive call :=
| ProfilerStart (filename : bytes)
| SleepUsec (usec : Z)
| ProfilerStop
| Unlink (filename : bytes)
| ReleaseFreeMemory.

(** The C string that starts a buffer; without a terminator its end is not read. *)
Definition buffer_string (buf : bytes) : outcome bytes :=
  if bool_decide (nul ∈ buf) then Ok (c_text buf) else Fault UndefinedBehaviour.

Section pages.
(** [kMallocHistogramSize] of malloc_extension.h, the %.12g of LogStream. *)
Context (kMallocHistogramSize : Z) (format_g : double -> bytes).

Definition heap (t : Tcmalloc) : bytes := GetHeapSample t.
Definition growth (t : Tcmalloc) : bytes := GetHeapGrowthStacks t.

Definition profile_name (s : System) : outcome bytes :=
  name ← ownProcname s;
  Ok (lit "/tmp/" ++ name ++ lit "." ++ pidString (s_pid s) ++ lit "." ++ toString (s_now s) ++ lit ".profile").

(** The page and the calls made.  The readers of the name stop at a NUL. *)
Definition profile (s : System) (t : Tcmalloc) : outcome (bytes * list call) :=
  filename ← profile_name s;
  let path := c_text filename in
  if ProfilerStarts t path then
    let f := s_file s path in
    '(content, _, _) ← readFile (f_errno f) (f_reads f) (1024 * 1024) None (f_text f);
    Ok (from_option id [] content,
        [ProfilerStart path; SleepUsec (30 * 1000 * 1000); ProfilerStop; Unlink path])
  else Ok ([], [ProfilerStart path]).

Definition cmdline : bytes := [].

Definition memstats (t : Tcmalloc) : outcome bytes := buffer_string (GetStats t (1024 * 64)).

(** The loop over the histogram; it is indexed below [kMallocHistogramSize]. *)
Fixpoint histogram_loop (fuel : nat) (i : Z) (histogram : list Z) (s : FixedBuffer) : outcome FixedBuffer :=
  if i <? kMallocHistogramSize then
    match fuel with
    | O => Fault OutOfFuel
    | S fuel =>
        n ← get_or UndefinedBehaviour (zget histogram i);
        s ← foldM (insert_item format_g) s [IInt i; ICstr (Some (lit " ")); IInt n; ICstr (Some [lf])];
        histogram_loop fuel (i + 1) histogram s
    end
  else Ok s.

Definition memhistogram (t : Tcmalloc) : outcome bytes :=
  let '(blocks, total, histogram) := MallocMemoryStats t in
  s ← foldM (insert_item format_g) (newFixedBuffer kSmallBuffer)
        [ICstr (Some (lit "blocks ")); IInt blocks; ICstr (Some (lf :: lit "total ")); IInt total; ICstr (Some [lf])];
  s ← histogram_loop (Z.to_nat kMallocHistogramSize) 0 histogram s;
  Ok (fb_text s).

Definition release_text (t : Tcmalloc) : bytes :=
  lit "memory release rate: " ++ fmt_float 0 6 (GetMemoryReleaseRate t) ++ [lf] ++ lit "All free memory released." ++ [lf].

Definition releaseFreeMemory (t : Tcmalloc) : bytes * list call := (snprintf 256 (release_text t), [ReleaseFreeMemory]).

(** The pages, while the system is in state [s] and gperftools in state [t]. *)
Definition performance_commands (s : System) (t : Tcmalloc) : list op :=
  [Add (lit "pprof") (lit "heap") (page (Ok (heap t))) (lit "get heap information");
   Add (lit "pprof") (lit "growth") (page (Ok (growth t))) (lit "get heap growth information");
   Add (lit "pprof") (lit "profile") (page (fst <$> profile s t))
     (lit "get cpu profiling information. CAUTION: blocking thread for 30 seconds!");
   Add (lit "pprof") (lit "cmdline") (page (Ok cmdline)) (lit "get command line");
   Add (lit "pprof") (lit "memstats") (page (memstats t)) (lit "get memory stats");
   Add (lit "pprof") (lit "memhistogram") (page (memhistogram t)) (lit "get memory histogram");
   Add (lit "pprof") (lit "releasefreememory") (page (Ok (fst (releaseFreeMemory t)))) (lit "release free memory")].

(** ** The pages as texts *)
Definition histogram_row (i : nat) (n : Z) : list item := [IInt (Z.of_nat i); ICstr (Some (lit " ")); IInt n; ICstr (Some [lf])].
Definition row_text (i : nat) (n : Z) : bytes := dec (Z.of_nat i) ++ lit " " ++ dec n ++ [lf].

Definition histogram_text (t : Tcmalloc) : bytes :=
  let '(blocks, total, histogram) := MallocMemoryStats t in
  lit "blocks " ++ dec blocks ++ [lf] ++ lit "total " ++ dec total ++ [lf] ++ concat (imap row_text histogram).

(** The file of the profile opens, and reads of it return bytes. *)
Definition opens (f : File) : Prop := f_errno f = 0 /\ forall j, exists k, f_reads f j = Moves k.

(** Answers as documented: the statistics are a terminated string in the buffer, the
    histogram has an entry per slot, 64 at most, with counts of type int; the rate is
    a number below 10^18; /proc/self/stat and the profile can be read. *)
Record tcmalloc_ok (s : System) (t : Tcmalloc) (stats path : bytes) : Prop := {
  tk_heap : zlen (GetHeapSample t) <= 2 ^ 30;
  tk_growth : zlen (GetHeapGrowthStacks t) <= 2 ^ 30;
  tk_stats : nul ∉ stats /\ zlen stats < 1024 * 64 /\ exists rest, GetStats t (1024 * 64) = stats ++ nul :: rest;
  tk_slots : zlen (snd (MallocMemoryStats t)) = kMallocHistogramSize;
  tk_few : kMallocHistogramSize <= 64;
  tk_counts : Forall (in_s 32) (fst (fst (MallocMemoryStats t)) :: snd (MallocMemoryStats t));
  tk_total : in_u 64 (snd (fst (MallocMemoryStats t)));
  tk_rate : match GetMemoryReleaseRate t with S754_finite false _ _ | S754_zero false => True | _ => False end /\
            fixed_value 6 (GetMemoryReleaseRate t) < 10 ^ 24;
  tk_path : c_text <$> profile_name s = Ok path;
  tk_profile : ProfilerStarts t path = true -> opens (s_file s path);
}.

Definition profile_text (s : System) (t : Tcmalloc) (path : bytes) : bytes :=
  if ProfilerStarts t path then ztake (1024 * 1024) (f_text (s_file s path)) else [].

Definition profile_calls (t : Tcmalloc) (path : bytes) : list call :=
  ProfilerStart path ::
  if ProfilerStarts t path then [SleepUsec 30000000; ProfilerStop; Unlink path] else [].

(** Each command with its page. *)
Definition performance_pages_of (s : System) (t : Tcmalloc) (stats path : bytes) : list (string * bytes) :=
  [("heap", GetHeapSample t); ("growth", GetHeapGrowthStacks t); ("profile", profile_text s t path); ("cmdline", []);
   ("memstats", stats); ("memhistogram", histogram_text t); ("releasefreememory", release_text t)]%string.

(** ** The histogram *)
Hypothesis format_g_short : forall v, zlen (format_g v) < kMaxNumericSize.

Definition rows (i : nat) (l : list Z) : list item := concat (imap (fun j n => histogram_row (i + j) n) l).

Lemma rows_cons i n l : rows i (n :: l) = histogram_row i n ++ rows (S i) l.
Proof.
  unfold rows. cbn [imap concat]. rewrite Nat.add_0_r. f_equal. f_equal. apply imap_ext. intros j x _. unfold compose. f_equal. lia.
Qed.

(** The loop inserts a row per slot. *)
Lemma histogram_loop_rows histogram l : forall i fuel s,
  drop i histogram = l -> zlen histogram = kMallocHistogramSize -> (i <= length histogram)%nat -> (length l <= fuel)%nat ->
  histogram_loop fuel (Z.of_nat i) histogram s = foldM (insert_item format_g) s (rows i l).
Proof.
  induction l as [|n l IH]; intros i fuel s Hd Hk Hi Hf; pose proof (length_drop histogram i) as Hl; rewrite Hd in Hl; cbn [length] in *.
  - destruct fuel; cbn [histogram_loop]; by rewrite (proj2 (Z.ltb_ge _ _)) by (unfold zlen in Hk; lia).
  - destruct fuel as [|fuel]; [lia|]. cbn [histogram_loop]. rewrite (proj2 (Z.ltb_lt _ _)) by (unfold zlen in Hk; lia).
    assert (Hn : histogram !! i = Some n) by (by rewrite <- (Nat.add_0_r i), <- lookup_drop, Hd).
    assert (zget histogram (Z.of_nat i) = Some n) as -> by
      (rewrite <- (take_drop_middle _ _ _ Hn), <- (zget_app_first (take i histogram) (drop (S i) histogram) n) at 1;
       unfold zlen; rewrite length_take; do 2 f_equal; lia).
    cbn [get_or mbind outcome_bind]. rewrite rows_cons, foldM_app. unfold histogram_row at 1. destruct (foldM _ s _) as [s1|]; [|done].
    cbn [mbind outcome_bind]. replace (Z.of_nat i + 1) with (Z.of_nat (S i)) by lia. apply IH; [|done|lia|lia].
    by rewrite <- (drop_drop histogram i 1), Hd || by rewrite (drop_S _ _ _ Hn) in Hd; injection Hd.
Qed.

Lemma rows_text l : forall i, mjoin (map (item_text format_g) (rows i l)) = concat (imap (fun j n => row_text (i + j) n) l).
Proof.
  induction l as [|n l IH]; intros i; [done|]. rewrite rows_cons, map_app. cbn [imap concat]. rewrite Nat.add_0_r.
  rewrite join_app, IH. f_equal. f_equal. apply imap_ext. intros j x _. unfold compose. f_equal. lia.
Qed.

Lemma rows_ok l : forall i, Z.of_nat i + zlen l <= 2 ^ 31 -> Forall (in_s 32) l -> Forall item_ok (rows i l).
Proof.
  induction l as [|n l IH]; intros i Hi Hl; [constructor|]. apply Forall_cons in Hl as [Hn Hl]. rewrite rows_cons, zlen_cons in *.
  apply Forall_app. split; [|apply IH; [lia|done]]. pose proof (zlen_nonneg l). unfold in_s in Hn.
  repeat constructor; cbn [item_ok]; lia.
Qed.

Lemma rows_size l : forall i, Z.of_nat i + zlen l <= 2 ^ 31 -> Forall (in_s 32) l ->
  zlen (concat (imap (fun j n => row_text (i + j) n) l)) <= 42 * zlen l.
Proof.
  induction l as [|n l IH]; intros i Hi Hl; [by vm_compute|]. apply Forall_cons in Hl as [Hn Hl]. cbn [imap concat].
  rewrite zlen_cons in *. rewrite zlen_app, Nat.add_0_r. pose proof (zlen_nonneg l). unfold in_s in Hn.
  replace (concat _) with (concat (imap (fun j n => row_text (S i + j) n) l))
    by (f_equal; apply imap_ext; intros j x _; unfold compose; f_equal; lia).
  specialize (IH (S i) ltac:(lia) Hl). unfold row_text at 1. rewrite !zlen_app.
  pose proof (dec_length64 (Z.of_nat i) ltac:(lia)). pose proof (dec_length64 n ltac:(lia)).
  change (zlen (lit " ")) with 1. change (zlen [lf]) with 1. lia.
Qed.

Definition heading (blocks total : Z) : list item :=
  [ICstr (Some (lit "blocks ")); IInt blocks; ICstr (Some (lf :: lit "total ")); IInt total; ICstr (Some [lf])].

Lemma histogram_size s t stats path : tcmalloc_ok s t stats path -> zlen (histogram_text t) <= 2800.
Proof.
  intros H. pose proof (tk_slots _ _ _ _ H) as Hk. pose proof (tk_few _ _ _ _ H). pose proof (tk_counts _ _ _ _ H) as Hc.
  pose proof (tk_total _ _ _ _ H) as Ht. unfold histogram_text. destruct (MallocMemoryStats t) as [[blocks total] histogram]. cbn [fst snd] in *.
  apply Forall_cons in Hc as [Hb Hc]. unfold in_s, in_u in Hb, Ht.
  pose proof (rows_size histogram 0 ltac:(lia) Hc) as Hr. change (fun j n => row_text (0 + j) n) with row_text in Hr. rewrite !zlen_app.
  pose proof (dec_length64 blocks ltac:(lia)). pose proof (dec_length64 total ltac:(lia)).
  change (zlen (lit "blocks ")) with 7. change (zlen (lit "total ")) with 6. change (zlen [lf]) with 1. lia.
Qed.

(** All of the histogram is printed. *)
Lemma memhistogram_text s t stats path : tcmalloc_ok s t stats path -> memhistogram t = Ok (histogram_text t).
Proof using format_g_short.
  intros H. pose proof (histogram_size _ _ _ _ H) as Hz. pose proof (tk_slots _ _ _ _ H) as Hk. pose proof (tk_few _ _ _ _ H).
  pose proof (tk_counts _ _ _ _ H) as Hc. pose proof (tk_total _ _ _ _ H) as Ht.
  unfold memhistogram, histogram_text in *. destruct (MallocMemoryStats t) as [[blocks total] histogram]. cbn [fst snd] in *.
  apply Forall_cons in Hc as [Hb Hc]. unfold in_s, in_u in Hb, Ht. change ([ICstr _; _; _; _; _]) with (heading blocks total).
  assert (Htext : mjoin (map (item_text format_g) (heading blocks total ++ rows 0 histogram)) =
    lit "blocks " ++ dec blocks ++ [lf] ++ lit "total " ++ dec total ++ [lf] ++ concat (imap row_text histogram))
    by (rewrite map_app, join_app, rows_text;
        change (mjoin (map (item_text format_g) (heading blocks total)))
          with (lit "blocks " ++ dec blocks ++ ([lf] ++ lit "total ") ++ dec total ++ [lf]); by rewrite <- !app_assoc).
  destruct (log_stream_concat format_g format_g_short (heading blocks total ++ rows 0 histogram) kSmallBuffer)
    as (b & Hrun & _ & _ & Hall); [done| |].
  { apply Forall_app. split; [repeat constructor; cbn [item_ok]; lia|apply rows_ok; [lia|done]]. }
  rewrite foldM_app in Hrun. destruct (foldM _ _ (heading blocks total)) as [s1|]; [|done]. cbn [mbind outcome_bind] in *.
  rewrite (histogram_loop_rows histogram histogram 0) by (done || lia || (unfold zlen in Hk; lia)). rewrite Hrun. cbn [mbind outcome_bind].
  rewrite Hall; [by rewrite Htext|]. rewrite Htext. unfold kMaxNumericSize, kSmallBuffer. lia.
Qed.

(** ** The other pages *)
Lemma memstats_text s t stats path : tcmalloc_ok s t stats path -> memstats t = Ok stats.
Proof.
  intros H. destruct (tk_stats _ _ _ _ H) as (Hn & _ & rest & E). unfold memstats, buffer_string. rewrite E.
  rewrite bool_decide_eq_true_2 by (apply elem_of_app; right; by left). f_equal. unfold c_text. rewrite find_char_app by done. by apply ztake_app_exact.
Qed.

Lemma release_size s t stats path : tcmalloc_ok s t stats path -> zlen (release_text t) <= 255.
Proof.
  intros H. destruct (tk_rate _ _ _ _ H) as [Hs Hv]. unfold release_text. rewrite !zlen_app.
  assert (Hf : zlen (fmt_float 0 6 (GetMemoryReleaseRate t)) <= 27).
  { set (r := GetMemoryReleaseRate t) in *. assert (E : fmt_float 0 6 r = fmt_fixed 6 r /\ 0 <= fixed_value 6 r).
    { unfold fmt_float. pose proof (fun f => zlen_nonneg (fmt_fixed 6 f)) as Hn. destruct r as [[]|[]| |[] m e]; try done.
      split; [by replace (Z.to_nat _) with 0%nat by (specialize (Hn (S754_finite false m e)); lia)|].
      cbn [fixed_value]. destruct (0 <=? e) eqn:He; [apply Z.leb_le in He; pose proof (Z.pow_nonneg 2 e); lia|]. unfold round_half_even.
      apply Z.leb_gt in He. pose proof (Z.pow_pos_nonneg 2 (- e) ltac:(lia) ltac:(lia)).
      pose proof (Z.div_pos (Z.pos m * 10 ^ 6) (2 ^ (- e)) ltac:(lia) ltac:(lia)). destruct (_ || _); lia. }
    destruct E as [-> H0]. unfold fmt_fixed. cbn [Z.eqb]. rewrite !zlen_app. set (v := fixed_value 6 r) in *. clearbody v.
    pose proof (Z.mod_pos_bound v (10 ^ 6) ltac:(lia)). pose proof (Z.div_pos v (10 ^ 6) H0 ltac:(lia)).
    pose proof (Z.div_lt_upper_bound v (10 ^ 6) (10 ^ 18) ltac:(lia) ltac:(lia)).
    destruct (fmt_int_zero_small 6 (v mod 10 ^ 6)) as [-> _]; [lia..|]. pose proof (dec_length64 (v / 10 ^ 6) ltac:(lia)).
    change (zlen (lit ".")) with 1. lia. }
  change (zlen (lit "memory release rate: ")) with 21. change (zlen (lit "All free memory released.")) with 25. change (zlen [lf]) with 1. lia.
Qed.

Lemma profile_ok s t stats path :
  tcmalloc_ok s t stats path -> profile s t = Ok (profile_text s t path, profile_calls t path).
Proof.
  intros H. destruct (proj1 (outcome_fmap_ok _ _ _) (tk_path _ _ _ _ H)) as (filename & E & Hp).
  unfold profile, profile_text, profile_calls. rewrite E. cbn [mbind outcome_bind]. rewrite <- Hp.
  destruct (ProfilerStarts t path) eqn:Es; [|done]. destruct (tk_profile _ _ _ _ H Es) as [H1 H2].
  unfold readFile, readToString. rewrite H1. cbn [newReadSmallFile fd_open Z.eqb err_].
  rewrite read_loop_ok; [|unfold zlen; lia|by intros; apply H2|done]. change (zlen (@nil ascii)) with 0.
  change (u64 (1024 * 1024)) with (1024 * 1024). by rewrite Z.sub_0_r.
Qed.

(** ** The commands *)
Lemma performance_pprof s t : pprof_only (performance_commands s t).
Proof. by repeat constructor. Qed.

Lemma performance_registered debug s t stats path c body :
  tcmalloc_ok s t stats path -> (c, body) ∈ performance_pages_of s t stats path ->
  exists o, (exists help, registry (registerCommands debug s ++ performance_commands s t) !! (lit "pprof", lit c) = Some (page o, help)) /\
    o = Ok body /\ zlen body <= 2 ^ 30 /\ part_ok (lit c).
Proof using format_g_short.
  intros H Hin. unfold registry. rewrite fold_left_app. generalize (fold_left register (registerCommands debug s) ∅). intros r.
  unfold performance_pages_of in Hin. unfold performance_commands.
  repeat (apply elem_of_cons in Hin as [Hin|Hin]; [injection Hin as -> ->; eexists; split; [find_command|]|]);
    [..|by apply not_elem_of_nil in Hin]; (split; [|split; [|split; [done|decided]]]).
  - done.
  - exact (tk_heap _ _ _ _ H).
  - done.
  - exact (tk_growth _ _ _ _ H).
  - by rewrite (profile_ok _ _ _ _ H).
  - unfold profile_text, ztake, zlen. destruct (ProfilerStarts t path); [rewrite length_take|cbn]; lia.
  - done.
  - by vm_compute.
  - exact (memstats_text _ _ _ _ H).
  - destruct (tk_stats _ _ _ _ H) as (_ & ? & _). lia.
  - exact (memhistogram_text _ _ _ _ H).
  - pose proof (histogram_size _ _ _ _ H). lia.
  - f_equal. apply snprintf_fits. exact (release_size _ _ _ _ H).
  - pose proof (release_size _ _ _ _ H). lia.
Qed.

(** C39: In a program built with the profiling allocator, an inspector made by its
    constructor serves every command of the module pprof over the wire with its
    page, nothing cut off: the heap and growth samples, the statistics up to their
    terminator, the histogram with a line for each slot, the release rate, and as
    profile the first MiB of the file the profiler was given.  The profile is taken
    for thirty seconds and its file removed under the same name, or, when the
    profiler does not start, the page is empty and no other call is made. *)
Theorem performance_pages debug s t stats path isMain this caller_ start addr q g g' i q'
  (Hc : constructInspector isMain this debug (performance_commands s t) s caller_ start addr q g = Ok (g', i, q'))
  (Ht : tcmalloc_ok s t stats path) :
  (forall rt tx buf rest c body, wf buf -> text_ok tx -> content buf = print_request tx ++ rest ->
     (c, body) ∈ performance_pages_of s t stats path -> t_path tx = path_of [lit "pprof"; lit c] -> served i rt tx buf rest body) /\
  profile s t = Ok (profile_text s t path, profile_calls t path).
Proof.
  apply construct_ok in Hc as (_ & _ & _ & ->). split; [|by eapply profile_ok].
  intros rt tx buf rest c body Hbuf Htx Hcont Hin Hp.
  destruct (performance_registered debug s t stats path c body Ht Hin) as (o & (h & Hr) & Ho & Hz & Hpart).
  assert (Hm : part_ok (lit "pprof")) by (split; [done|decided]).
  exact (page_served _ _ _ _ _ _ rt tx buf rest Hr Ho Hz Hm Hpart Hp Hbuf Htx Hcont).
Qed.
End pages.

(** ** Sample *)
Module PerformanceSample.
Definition profile_path : bytes := lit "/tmp/echo.4242.1700000100.000005.profile".
Definition file_at (path : bytes) : File :=
  if bytes_eqb path (lit "/proc/self/stat") then mkFile 0 (fun _ => Moves 1000) (lit "4242 (echo) S 1 4242")
  else if bytes_eqb path profile_path then mkFile 0 (fun _ => Moves 5) (lit "samples of the profile")
  else mkFile 2 (fun _ => Moves 0) [].
Definition system : System :=
  mkSystem 1700000100000005 None file_at 4242 4242 1700000050000000 None None None None None None None 100.
(** Four slots; a rate of 10. *)
Definition tcmalloc (starts : bool) : Tcmalloc :=
  mkTcmalloc (lit "heap profile: 1") (lit "heap growth: 2") (fun size => lit "MALLOC: 77" ++ [nul] ++ lit "noise")
    (9, 4096, [0; 2; 0; 7]) (double_of_int 10) (fun _ => starts).
Definition request : request_text := mkText kGet (lit "/pprof/memhistogram") [] kHttp11 [].

Lemma histogram_request_ok : text_ok request.
Proof.
  split; try discriminate; cbn.
  - split_and!; apply (bool_decide_unpack _); vm_compute; exact I.
  - split_and!; [apply (bool_decide_unpack _); vm_compute; exact I..|by left].
  - constructor.
Qed.

Example sample_pages :
  memhistogram 4 sample_format_g (tcmalloc true) = Ok (lit "blocks 9" ++ [lf] ++ lit "total 4096" ++ [lf] ++ lit "0 0" ++ [lf] ++
    lit "1 2" ++ [lf] ++ lit "2 0" ++ [lf] ++ lit "3 7" ++ [lf]) /\
  fst (releaseFreeMemory (tcmalloc true)) =
    lit "memory release rate: 10.000000" ++ [lf] ++ lit "All free memory released." ++ [lf] /\
  profile system (tcmalloc false) = Ok ([], [ProfilerStart profile_path]).
Proof. by vm_compute. Qed.

Lemma tcmalloc_sample_ok : tcmalloc_ok 4 system (tcmalloc true) (lit "MALLOC: 77") profile_path.
Proof.
  split.
  - by vm_compute.
  - by vm_compute.
  - split; [decided|]. split; [by vm_compute|]. by exists (lit "noise").
  - by vm_compute.
  - by vm_compute.
  - repeat (apply Forall_cons; split; [unfold in_s; cbn; lia|]). apply Forall_nil_2.
  - unfold in_u. cbn. lia.
  - split; [exact I|by vm_compute].
  - by vm_compute.
  - intros _. split; [by vm_compute|]. intros j. exists 5. by vm_compute.
Qed.

Lemma performance_pages_witness :
  exists i q', constructInspector true 4096 true (performance_commands 4 sample_format_g system (tcmalloc true)) system LoopLife.LoopThread 1 64
      newTimerQueue None = Ok (Some 4096, i, q') /\
    served i 7 request (buffer_of (print_request request ++ lit "GET /")) (lit "GET /") (histogram_text (tcmalloc true)) /\
    profile system (tcmalloc true) = Ok (lit "samples of the profile",
      [ProfilerStart profile_path; SleepUsec 30000000; ProfilerStop; Unlink profile_path]).
Proof.
  destruct (buffer_of_spec (print_request request ++ lit "GET /")) as [Hw Hc]; [vm_compute; discriminate|].
  assert (Hrun : exists id q', LoopLife.runAfter LoopLife.LoopThread double_zero 1 64 (s_now system) newTimerQueue = Ok (id, q'))
    by (vm_compute; eauto).
  destruct Hrun as (id & q' & Hrun).
  assert (E : constructInspector true 4096 true (performance_commands 4 sample_format_g system (tcmalloc true)) system LoopLife.LoopThread 1 64
      newTimerQueue None = Ok (Some 4096, fold_left perform (registerCommands true system ++
        performance_commands 4 sample_format_g system (tcmalloc true)) newInspector, q'))
    by (unfold constructInspector; rewrite Hrun; reflexivity).
  eexists _, q'. split; [exact E|].
  destruct (performance_pages 4 sample_format_g ltac:(intros v; vm_compute; reflexivity) true system (tcmalloc true) (lit "MALLOC: 77")
    profile_path true 4096 LoopLife.LoopThread 1 64 newTimerQueue None (Some 4096) _ q' E) as [H Hprof].
  - exact tcmalloc_sample_ok.
  - split; [|exact Hprof]. refine (H 7 request _ (lit "GET /") "memhistogram"%string _ Hw histogram_request_ok Hc _ eq_refl).
    by apply (list_elem_of_lookup_2 _ 5).
Defined.
End PerformanceSample.
