(* ===== verification/CodecStream.v ===== *)
(** * CodecStream: the codec on its connections

    net/protobuf/ProtobufCodecLite (send, onMessage, defaultErrorCallback), its typed
    wrapper ProtobufCodecLiteT and net/protorpc/RpcCodec as a service of Stream.v: a
    connection whose message callback is the codec's onMessage, whose messages are
    handed to a callback that may send messages back, and whose error callback is
    the default one.  [handle] is onMessage on the bytes of the input; the lemma
    [codec_handle_content] says it is the one of Codec.v on every buffer.

    Theorem: the frames of any messages, cut in any way, are handed over in order,
    each once, as soon as they are complete, and the replies go back in the same
    order as whole frames; an error shuts the connection down. *)

From S2P Require Import Prelude Endian Buffer Http Codec Channel Poller EventLoop TcpConnection Stream Services.
Import TcpConnection.
Abbreviation buffer_of := HttpParser.buffer_of.
Abbreviation buffer_of_spec := HttpParser.buffer_of_spec.

(** net/protorpc/RpcCodec.cc: the tag of the RPC protocol. *)
Definition rpctag : bytes := lit "RPC0".

Section codec.
Context {M A : Type}.
Context (IsInitialized : M -> bool) (ByteSize : M -> Z) (SerializeToArray : M -> bytes)
  (ParseFromArray : bytes -> option M) (adler32 : bytes -> Z) (tag_ : bytes) (rawCb_ : option (bytes -> bool)).
(** The message callback: the messages it sends back, and the state it keeps. *)
Context (messageCallback : A -> M -> list M * A).

Abbreviation loopC := (Codec.codec_loop ParseFromArray adler32 tag_ rawCb_).
Abbreviation turnC := (Codec.codec_turn ParseFromArray adler32 tag_ rawCb_).
Abbreviation codec_onMessage := (Codec.onMessage ParseFromArray adler32 tag_ rawCb_).
Abbreviation encodeC := (Codec.encode IsInitialized ByteSize SerializeToArray adler32 tag_).
Abbreviation frameC := (Codec.frame SerializeToArray adler32 tag_).
Abbreviation sendableC := (Codec.sendable IsInitialized ByteSize SerializeToArray ParseFromArray tag_).
Abbreviation passesC := (Codec.passes SerializeToArray adler32 tag_ rawCb_).
Abbreviation tagC := (Codec.tag_ok tag_).

Record Session := mkSession {
  c_app : A;                       (* the state of the message callback *)
  c_messages : list M;             (* the messages it was given *)
  c_errors : list ErrorCode;       (* the errors reported (LOG_ERROR) *)
  c_fault : option fault;          (* the process has ended *)
}.

Definition newSession (app : A) : Session := mkSession app [] [] None.

(** [ProtobufCodecLite::send]: the frame of a message, to the connection. *)
Definition codec_send (m : M) : outcome act := data ← encodeC m; Ok (ASend data).

(** [defaultErrorCallback]; shutdown() does nothing unless connected. *)
Definition defaultErrorCallback (e : ErrorCode) (a : Session) : list act * Session :=
  ([AShutdown], mkSession (c_app a) (c_messages a) (c_errors a ++ [e]) (c_fault a)).

(** [ProtobufCodecLiteT::onRpcMessage]: the callback, and what it sends. *)
Definition codec_onRpcMessage (m : M) (a : Session) : outcome (list act * Session) :=
  let '(replies, app) := messageCallback (c_app a) m in
  acts ← mapM codec_send replies;
  Ok (acts, mkSession app (c_messages a ++ [m]) (c_errors a) (c_fault a)).

(** The calls of onMessage, in order. *)
Fixpoint dispatch (evs : list (Codec.event M)) (a : Session) : outcome (list act * Session) :=
  match evs with
  | [] => Ok ([], a)
  | EMessage m :: evs =>
      '(acts, a) ← codec_onRpcMessage m a;
      '(acts', a) ← dispatch evs a;
      Ok (acts ++ acts', a)
  | EError e :: evs =>
      let '(acts, a) := defaultErrorCallback e a in
      '(acts', a) ← dispatch evs a;
      Ok (acts ++ acts', a)
  end.

(** [onMessage] on the readable bytes: the events, and the bytes it leaves. *)
Definition handle (l : bytes) : outcome (list (Codec.event M) * bytes) :=
  '(evs, b) ← codec_onMessage (buffer_of l); Ok (evs, content b).

(** The message callback of the connection.  The callbacks of the codec do not look
    at the input, so the frames are taken in one step. *)
Definition message (a : Session) (l : bytes) : list act * Session :=
  match c_fault a with
  | Some _ => ([], a)
  | None =>
      match ('(evs, rest) ← handle l; '(acts, a') ← dispatch evs a; Ok (rest, acts, a')) with
      | Ok (rest, acts, a') => (ATake (zlen l - zlen rest) :: acts, a')
      | Fault e => ([], mkSession (c_app a) (c_messages a) (c_errors a) (Some e))
      end
  end.

Definition CodecService : Service Session := mkService (fun a _ => ([], a)) message (fun a => ([], a)).

(** ** onMessage depends on the bytes only *)
Lemma min_message : tagC -> kMinMessageLen tag_ = zlen tag_ + 4.
Proof.
  unfold Codec.tag_ok, kMinMessageLen, kChecksumLen. assert (E : kMaxMessageLen = 67108864) by reflexivity.
  pose proof (zlen_nonneg tag_). intros Ht. apply (wrapS_id 32); [lia|unfold in_s; lia].
Qed.

Lemma turn_content b1 b2 :
  tagC -> wf b1 -> wf b2 -> content b1 = content b2 -> 4 <= readableBytes b1 ->
  exists evs b1' b2' again, turnC b1 = Ok (evs, b1', again) /\ turnC b2 = Ok (evs, b2', again) /\
    wf b1' /\ wf b2' /\ content b1' = content b2'.
Proof.
  intros Ht H1 H2 Hc Hlen. pose proof (content_length b1 H1) as L1. pose proof (content_length b2 H2) as L2.
  assert (Hr : readableBytes b2 = readableBytes b1) by congruence. pose proof (zlen_nonneg tag_). unfold Codec.codec_turn.
  assert (Hz4 : zlen (ztake 4 (content b1)) = 4) by (apply zlen_ztake; lia).
  assert (Hpeek : forall b, wf b -> content b = content b1 -> peekInt32 b = Ok (decode_int 4 (ztake 4 (content b1)))).
  { intros b Hb E. apply (peekInt32_prefix b _ (zdrop 4 (content b1)) Hb); [by rewrite ztake_zdrop|done]. }
  rewrite (Hpeek b1), (Hpeek b2), Hr, <- Hc, (min_message Ht) by done. cbn [mbind outcome_bind]. set (len := decode_int 4 _).
  destruct (_ || _) eqn:Hrange; [by eauto 10|]. destruct (Z.leb_spec (kHeaderLen + len) (readableBytes b1)) as [Hle|]; [|by eauto 10].
  assert (Hpos : 0 <= kHeaderLen + len) by (unfold kHeaderLen; lia).
  destruct (retrieve_spec (kHeaderLen + len) b1 H1) as (b1' & R1 & W1 & C1 & _); [lia|].
  destruct (retrieve_spec (kHeaderLen + len) b2 H2) as (b2' & R2 & W2 & C2 & _); [lia|].
  assert (Hc' : content b1' = content b2') by (by rewrite C1, C2, Hc).
  rewrite R1, R2. cbn [mbind outcome_bind]. destruct (negb _); [by eauto 10|]. destruct (parse _ _ _ _) as [[] [m|]]; eauto 10.
Qed.

Lemma loop_content fuel : forall b1 b2,
  tagC -> wf b1 -> wf b2 -> content b1 = content b2 ->
  match loopC fuel b1 with
  | Ok (evs, b1') => exists b2', loopC fuel b2 = Ok (evs, b2') /\ wf b1' /\ wf b2' /\ content b1' = content b2'
  | Fault e => loopC fuel b2 = Fault e
  end.
Proof.
  induction fuel as [|fuel IH]; intros b1 b2 Ht H1 H2 Hc; cbn [Codec.codec_loop];
    rewrite <- (content_length b2 H2), <- Hc, (content_length b1 H1), (min_length tag_ Ht); pose proof (zlen_nonneg tag_).
  - destruct (_ <=? _); [done|by exists b2].
  - destruct (Z.leb_spec (zlen tag_ + 8) (readableBytes b1)) as [Hle|]; [|by exists b2].
    destruct (turn_content b1 b2 Ht H1 H2 Hc ltac:(lia)) as (evs & b1' & b2' & again & -> & -> & W1 & W2 & Hc').
    cbn [mbind outcome_bind]. destruct again; [|by exists b2']. specialize (IH b1' b2' Ht W1 W2 Hc').
    destruct (loopC fuel b1') as [[evs1 b3]|e]; cbn [mbind outcome_bind].
    + destruct IH as (b4 & -> & IH). by exists b4.
    + by rewrite IH.
Qed.

(** [handle] is onMessage on every buffer. *)
Lemma codec_handle_content b :
  tagC -> wf b -> zlen (content b) <= vector_max_size - 16 ->
  match codec_onMessage b with
  | Ok (evs, b') => wf b' /\ handle (content b) = Ok (evs, content b')
  | Fault e => handle (content b) = Fault e
  end.
Proof.
  intros Ht Hb Hz. destruct (buffer_of_spec (content b) Hz) as [Hw Hc]. unfold handle, Codec.onMessage. rewrite Hc.
  pose proof (loop_content (length (content b)) b (buffer_of (content b)) Ht Hb Hw (eq_sym Hc)) as H.
  destruct (loopC _ b) as [[evs b1]|e]; [|by rewrite H]. destruct H as (b2 & -> & H1 & H2 & H3). cbn. by rewrite H3.
Qed.

(** ** The messages and their replies *)
Fixpoint conversation (app : A) (l : list M) : list M * A :=
  match l with
  | [] => ([], app)
  | m :: l =>
      let '(r, app) := messageCallback app m in
      let '(rs, app) := conversation app l in
      (r ++ rs, app)
  end.

Lemma conversation_app l1 : forall st l2,
  conversation st (l1 ++ l2) =
    let '(r1, st1) := conversation st l1 in let '(r2, st2) := conversation st1 l2 in (r1 ++ r2, st2).
Proof.
  induction l1 as [|m l1 IH]; intros st l2; cbn [app conversation]; [by destruct (conversation _ _)|].
  destruct (messageCallback st m) as [r st0]. rewrite IH. destruct (conversation st0 l1) as [r1 st1].
  destruct (conversation st1 l2) as [r2 st2]. by rewrite app_assoc.
Qed.

Context (Htag : tagC) (reply_ok : forall app m, Forall sendableC (fst (messageCallback app m))).

Lemma send_all l : Forall sendableC l -> mapM codec_send l = Ok (map (fun m => ASend (frameC m)) l).
Proof.
  induction 1 as [|m l Hm _ IH]; [done|]. change (mapM codec_send (m :: l)) with (y ← codec_send m; k ← mapM codec_send l; Ok (y :: k)). rewrite IH. unfold codec_send.
  by rewrite (encode_frame _ _ _ _ _ _ m Hm).
Qed.

Lemma dispatch_messages l : forall a,
  dispatch (EMessage <$> l) a =
    Ok (map (fun m => ASend (frameC m)) (fst (conversation (c_app a) l)),
        mkSession (snd (conversation (c_app a) l)) (c_messages a ++ l) (c_errors a) (c_fault a)).
Proof using reply_ok.
  induction l as [|m l IH]; intros a; cbn [fmap list_fmap dispatch conversation].
  - rewrite app_nil_r. by destruct a.
  - unfold codec_onRpcMessage. pose proof (reply_ok (c_app a) m) as Hr. destruct (messageCallback (c_app a) m) as [r app]. cbn [fst] in Hr.
    rewrite (send_all r Hr). cbn [mbind outcome_bind]. change (list_fmap _ _ EMessage l) with (EMessage <$> l). rewrite IH.
    cbn [mbind outcome_bind c_app c_messages c_errors c_fault]. destruct (conversation app l) as [rs app2]. cbn [fst snd].
    by rewrite map_app, <- app_assoc.
Qed.

(** Any calls: frames are sent, and an error shuts down. *)
Lemma frame_fine m : sendableC m -> act_fine (ASend (frameC m)).
Proof.
  intros Hm. pose proof (tag_bounds _ _ _ _ _ m Hm) as (? & ? & Hb & Hmax & _ & Ek).
  pose proof (zlen_frame SerializeToArray adler32 tag_ m) as Hz. split.
  - intros E. rewrite E in Hz. change (zlen (@nil ascii)) with 0 in Hz. lia.
  - rewrite Hz. unfold vector_max_size. lia.
Qed.

Lemma dispatch_acts evs : forall a acts a',
  dispatch evs a = Ok (acts, a') -> Forall act_fine acts /\ (c_errors a' = c_errors a \/ AShutdown ∈ acts).
Proof using reply_ok.
  induction evs as [|[m|e] evs IH]; intros a acts a'; cbn [dispatch].
  - intros [= <- <-]. split; [constructor|by left].
  - unfold codec_onRpcMessage. pose proof (reply_ok (c_app a) m) as Hr. destruct (messageCallback (c_app a) m) as [r app]. cbn [fst] in Hr.
    rewrite (send_all r Hr). cbn [mbind outcome_bind]. destruct (dispatch evs _) as [[acts2 a2]|] eqn:E; [|done]. intros [= <- <-].
    destruct (IH _ _ _ E) as [Hf He]. split; [|rewrite elem_of_app; by destruct He; auto].
    apply Forall_app. split; [|done]. rewrite Forall_map. eapply Forall_impl; [exact Hr|]. apply frame_fine.
  - unfold defaultErrorCallback. destruct (dispatch evs _) as [[acts2 a2]|] eqn:E; [|done]. intros [= <- <-].
    destruct (IH _ _ _ E) as [Hf _]. split; [by constructor|right; by left].
Qed.

Lemma codec_fine : service_fine CodecService.
Proof using reply_ok.
  constructor; intros; cbn [CodecService onConnection onMessage onWriteComplete fst]; try constructor.
  unfold message. destruct (c_fault a); [constructor|]. destruct (handle data) as [[evs rest]|]; [|constructor]. cbn [mbind outcome_bind].
  destruct (dispatch evs a) as [[acts a']|] eqn:E; [|constructor]. apply dispatch_acts in E as [? _]. by constructor.
Qed.

(** ** On the stream *)
Lemma sends_effect l : forall s s',
  does (map ASend l) s s' -> s_state s = kConnected ->
  s_accepted s' = s_accepted s ++ concat l /\ s_state s' = kConnected /\ s_in s' = s_in s /\ s_taken s' = s_taken s.
Proof.
  induction l as [|x l IH]; intros s s' H Hst; cbn [map concat] in *.
  - apply does_nil_inv in H as ->. by rewrite app_nil_r.
  - inversion H as [|y ys s1 s2 s3 H1 H2]; subst. apply send_effect in H1 as (E1 & E2 & E3 & E4 & _); [|done].
    destruct (IH s2 s' H2 ltac:(congruence)) as (F1 & F2 & F3 & F4). rewrite F1, E1, <- app_assoc. split_and!; congruence.
Qed.

(** After a shutdown no state is kConnected again. *)
Lemma acts_state acts s s' :
  does acts s s' ->
  (s_state s' = kConnecting -> s_state s = kConnecting) /\
  (s_state s' = kConnected -> s_state s = kConnected /\ AShutdown ∉ acts).
Proof.
  induction 1 as [s|x acts s1 s2 s3 H1 _ [IH1 IH2]]; [split; [done|]; by intros ->; split; [|apply not_elem_of_nil]|].
  rewrite not_elem_of_cons. split.
  - intros H. specialize (IH1 H). by destruct H1; cbn in IH1; congruence.
  - intros H. specialize (IH2 H) as [E Hn]. destruct H1; cbn in E; try congruence; split_and!; done.
Qed.

Context (app0 : A) (ms : list M) (Hms : Forall sendableC ms) (Hsize : zlen (concat (frameC <$> ms)) <= 2 ^ 60).

(** The messages [ms1] were handed over, [ms2] were not; no whole frame is left. *)
Record delivered (a : Session) (s : stream) (ms1 ms2 rs : list M) : Prop := {
  dl_messages : ms = ms1 ++ ms2;
  dl_fault : c_fault a = None;
  dl_errors : c_errors a = [];
  dl_given : c_messages a = filter passesC ms1;
  dl_replies : conversation app0 (filter passesC ms1) = (rs, c_app a);
  dl_taken : s_taken s = concat (frameC <$> ms1);
  dl_accepted : s_accepted s = concat (frameC <$> rs);
  dl_part : forall m ms', ms2 = m :: ms' -> zlen (s_in s) < zlen (frameC m);
  dl_state : s_state s <> kDisconnecting;
}.

Definition in_order (a : Session) (s : stream) : Prop :=
  s_received s `prefix_of` concat (frameC <$> ms) -> exists ms1 ms2 rs, delivered a s ms1 ms2 rs.

Definition errors_close (a : Session) (s : stream) : Prop :=
  c_errors a <> [] -> s_state s <> kConnecting /\ s_state s <> kConnected.

(** [handle] on the start of a sequence of frames. *)
Lemma handle_frames l q l2 :
  Forall sendableC l2 -> l ++ q = concat (frameC <$> l2) -> zlen l <= 2 ^ 60 ->
  exists la lb rest, l2 = la ++ lb /\ handle l = Ok (EMessage <$> filter passesC la, rest) /\
    l = concat (frameC <$> la) ++ rest /\ forall m lb', lb = m :: lb' -> zlen rest < zlen (frameC m).
Proof using Htag.
  intros Hall Hq Hz. destruct (buffer_of_spec l) as [Hw Hc]; [unfold vector_max_size; lia|].
  destruct (loop_stream IsInitialized ByteSize SerializeToArray ParseFromArray adler32 tag_ rawCb_ l2 (length l) (buffer_of l) q Htag Hall Hw)
    as (la & lb & b' & -> & Hloop & _ & Hrest & _ & _ & Hpart); [by rewrite Hc|by rewrite Hc|].
  exists la, lb, (content b'). split; [done|]. unfold handle, Codec.onMessage. rewrite Hc, Hloop. split; [done|]. split; [|done].
  rewrite fmap_app, concat_app, <- Hrest, app_assoc in Hq. by apply app_inv_tail in Hq.
Qed.

Lemma read_in_order a s data acts a' s' :
  in_order a s -> s_open s = true -> message a (s_in s ++ data) = (acts, a') ->
  does acts (set_in (s_in s ++ data) (s_taken s) s) s' -> in_order a' s'.
Proof using Htag reply_ok Hms Hsize.
  intros Hi Ho Hm Hd Hp. set (s1 := set_in (s_in s ++ data) (s_taken s) s) in *. rewrite (does_received _ _ _ Hd) in Hp.
  assert (Hrec : s_received s1 = s_received s ++ data) by (unfold s_received; cbn; by rewrite app_assoc).
  destruct Hi as (ms1 & ms2 & rs & H); [etrans; [|exact Hp]; rewrite Hrec; by eexists|].
  assert (Hst : s_state s = kConnected) by (pose proof (dl_state _ _ _ _ _ H); unfold s_open in Ho; by destruct (s_state s)).
  destruct Hp as [q Hq]. pose proof Hq as Hlen. apply (f_equal zlen) in Hlen. rewrite zlen_app in Hlen.
  rewrite (dl_messages _ _ _ _ _ H), fmap_app, concat_app in Hq. unfold s_received in Hq. cbn [s1 set_in s_taken s_in] in Hq.
  rewrite (dl_taken _ _ _ _ _ H), <- app_assoc in Hq. apply app_inv_head in Hq. symmetry in Hq.
  assert (Hms2 : Forall sendableC ms2) by (rewrite (dl_messages _ _ _ _ _ H) in Hms; by apply Forall_app in Hms as [_ ?]).
  destruct (handle_frames (s_in s ++ data) q ms2 Hms2 Hq) as (la & lb & rest & -> & Hh & Hsplit & Hpart).
  { unfold s_received in Hlen. cbn [s1 set_in s_taken s_in] in Hlen. rewrite zlen_app in Hlen.
    pose proof (zlen_nonneg (s_taken s)). pose proof (zlen_nonneg q). lia. }
  unfold message in Hm. rewrite (dl_fault _ _ _ _ _ H), Hh in Hm. cbn [mbind outcome_bind] in Hm. rewrite dispatch_messages in Hm.
  cbn [mbind outcome_bind] in Hm. injection Hm as <- <-. inversion Hd as [|x xs t1 t2 t3 H1 H2]; subst x xs t1 t3. clear Hd.
  rewrite Hsplit in H1 at 1. apply take_effect in H1; [|exact Hsplit]. subst t2.
  rewrite <- (map_map frameC ASend) in H2. apply sends_effect in H2 as (E1 & E2 & E3 & E4); [|exact Hst].
  destruct (conversation (c_app a) (filter passesC la)) as [r2 st2] eqn:Ec. cbn [fst snd] in *.
  exists (ms1 ++ la), lb, (rs ++ r2). split; cbn [c_fault c_errors c_messages c_app]; try apply H.
  - by rewrite (dl_messages _ _ _ _ _ H), app_assoc.
  - by rewrite (dl_given _ _ _ _ _ H), filter_app.
  - by rewrite filter_app, conversation_app, (dl_replies _ _ _ _ _ H), Ec.
  - rewrite E4. cbn. by rewrite (dl_taken _ _ _ _ _ H), fmap_app, concat_app.
  - rewrite E1. change (s_accepted _) with (s_accepted s). by rewrite (dl_accepted _ _ _ _ _ H), fmap_app, concat_app.
  - rewrite E3. exact Hpart.
  - congruence.
Qed.

Lemma read_errors a s data acts a' s' :
  errors_close a s -> s_open s = true -> message a (s_in s ++ data) = (acts, a') ->
  does acts (set_in (s_in s ++ data) (s_taken s) s) s' -> errors_close a' s'.
Proof using reply_ok.
  intros He Ho Hm Hd Hne. apply acts_state in Hd as [Hc1 Hc2]. cbn [set_in s_state] in Hc1, Hc2.
  split; [intros E; unfold s_open in Ho; by rewrite (Hc1 E) in Ho|]. intros E. destruct (Hc2 E) as [Hst Hn].
  assert (Ha : c_errors a = []) by (destruct (decide (c_errors a = [])) as [?|Hb]; [done|by destruct (He Hb)]).
  unfold message in Hm. destruct (c_fault a); [by injection Hm as <- <-|]. destruct (handle _) as [[evs rest]|]; cbn [mbind outcome_bind] in Hm;
    [|injection Hm as <- <-; done].
  destruct (dispatch evs a) as [[acts1 a1]|] eqn:Ed; cbn [mbind outcome_bind] in Hm; [|injection Hm as <- <-; done].
  injection Hm as <- <-. apply dispatch_acts in Ed as [_ [Ed|Ed]]; [congruence|]. apply Hn. by right.
Qed.

Lemma codec_step a s a' s' :
  in_order a s /\ errors_close a s -> stream_step CodecService (a, s) (a', s') -> in_order a' s' /\ errors_close a' s'.
Proof using Htag reply_ok Hms Hsize.
  intros [Hi He] H. inversion H as [x|a0 s0 acts a0' s0' Hst Hcb Hd|a0 s0 data acts a0' s0' Ho Hne Hcb Hd|a0 s0 w r Ho Hsplit Hw|
    a0 s0 n acts a0' s0' Hn Hcb Hd|a0 s0 acts a0' s0' Ho Hcb Hd]; clear H; subst; cbn [CodecService onConnection onMessage onWriteComplete] in *.
  - done.
  - injection Hcb as <- <-. apply does_nil_inv in Hd as ->. split.
    + intros Hp. destruct (Hi Hp) as (ms1 & ms2 & rs & []). exists ms1, ms2, rs. by split.
    + intros Hb. by destruct (He Hb).
  - by split; [eapply read_in_order|eapply read_errors].
  - split; [|exact He]. intros Hp. destruct (Hi Hp) as (ms1 & ms2 & rs & []). exists ms1, ms2, rs. split; try done.
    rewrite <- dl_accepted0. by eapply (write_accepted _ _ _ 0).
  - injection Hcb as <- <-. apply does_nil_inv in Hd as ->. split; [|exact He].
    intros Hp. destruct (Hi Hp) as (ms1 & ms2 & rs & []). exists ms1, ms2, rs. by split.
  - injection Hcb as <- <-. apply does_nil_inv in Hd as ->. split; [|by intros _].
    intros Hp. destruct (Hi Hp) as (ms1 & ms2 & rs & []). exists ms1, ms2, rs. by split.
Qed.

Lemma codec_new : in_order (newSession app0) (new_stream false) /\ errors_close (newSession app0) (new_stream false).
Proof.
  split; [|done]. intros _. by exists [], ms, [].
Qed.

(** ** On connections *)
Section connections.
Context {P : Type} `{PL : PollerLaws P}.

(** C31: A peer sends the frames of any messages over a connection whose message
    callback is the codec.  However the network cuts them, whatever the kernel takes
    of the output and with either poller: no assertion fails; the messages handed to
    the callback are exactly those of the frames that have arrived whole, in order
    and each once, less the ones the raw callback keeps; no error is reported; and
    what goes back is the frames of the replies, in order.  On any other input, once
    an error has been reported the connection is shut down. *)
Theorem codec_conversation (c : TcpConnection P) ws
  (Hmade : made false c) (Hrun : world_run CodecService (newSession app0, c) ws) :
  post (fun x => let '(a, c') := x in
      (received c' `prefix_of` concat (frameC <$> ms) ->
       exists ms1 ms2 rs, ms = ms1 ++ ms2 /\ c_fault a = None /\ c_errors a = [] /\
         c_messages a = filter passesC ms1 /\ conversation app0 (filter passesC ms1) = (rs, c_app a) /\
         received c' = concat (frameC <$> ms1) ++ content (inputBuffer_ c') /\
         (forall m ms', ms2 = m :: ms' -> zlen (content (inputBuffer_ c')) < zlen (frameC m)) /\
         wire c' ++ content (outputBuffer_ c') = concat (frameC <$> rs)) /\
      (c_errors a <> [] -> state_ c' <> kConnected))
    (eq LengthError) (foldM (service_step CodecService) (newSession app0, c) ws).
Proof.
  eapply post_mono; [apply (service_invariant false c _ (newSession app0) ws (fun a s => in_order a s /\ errors_close a s)
    Hmade codec_fine Hrun codec_new codec_step)|].
  intros [a c'] (s & [Hi He] & Hs & Hr & Ha). cbn [fst snd] in *. subst s. split; [|intros Hb; by destruct (He Hb)].
  intros Hp. rewrite <- Hr in Hp. destruct (Hi Hp) as (ms1 & ms2 & rs & []). exists ms1, ms2, rs. split_and!; try done.
  rewrite <- Hr. unfold s_received. by rewrite dl_taken0.
Qed.
End connections.
End codec.

(** ** A run on the epoll poller *)
Module CodecStreamSample.
Import Services.Sample.

(** Messages are byte strings, replies their first bytes; the state counts. *)
Definition echo (n : nat) (m : bytes) : list bytes * nat := ([ztake 8 m], S n).

Abbreviation frame_of := (frame id CodecSample.sum rpctag).
Abbreviation service := (CodecService (fun _ => true) zlen id Some CodecSample.sum rpctag None echo).

Lemma echo_ok n m : Forall (sendable (fun _ => true) zlen id Some rpctag) (fst (echo n m)).
Proof.
  repeat constructor. unfold id, kMaxMessageLen. change (zlen rpctag) with 4.
  assert (zlen (ztake 8 m) <= 8) by (unfold ztake, zlen; rewrite length_take; lia). lia.
Qed.

Definition messages : list bytes := [lit "ab"; lit "a longer message"].
Definition bytes_sent : bytes := concat (frame_of <$> messages).

(** The second frame is complete with the last read. *)
Definition codec_run : list sample :=
  [SUp (Wrote 0); SRead (ztake 20 bytes_sent) (Wrote 5); SWrite (Wrote 100); SRead (zdrop 20 bytes_sent) (Wrote 100)].

Lemma codec_conversation_witness :
  exists (c : EConn) a c' ms1, start false = Ok c /\
    foldM (service_step service) (newSession 0%nat, c) (map world_of codec_run) = Ok (a, c') /\
    c_messages a = messages /\ wire c' = concat (frame_of <$> [lit "ab"; lit "a longer"]) /\
    c_messages a = filter (passes id CodecSample.sum rpctag None) ms1.
Proof.
  assert (Hp : (c ← start false; (fun '(b, (a, c')) => (b, c_messages a, wire c', received c')) <$>
      sample_run service (newSession 0%nat, c) codec_run)
    = Ok (true, messages, concat (frame_of <$> [lit "ab"; lit "a longer"]), bytes_sent)) by (vm_compute; reflexivity).
  destruct (start false) as [c|] eqn:E0; [|discriminate Hp]. cbn [mbind outcome_bind] in Hp.
  destruct (sample_run _ (newSession 0%nat, c) codec_run) as [[b [a c']]|] eqn:E; [|discriminate Hp].
  cbn [fmap outcome_fmap] in Hp. injection Hp as -> H1 H2 H3. apply sample_run_ok in E as [Hr Hf].
  pose proof (codec_conversation (fun _ => true) zlen id Some CodecSample.sum rpctag None echo ltac:(vm_compute; congruence) echo_ok 0%nat
    messages ltac:(repeat constructor; vm_compute; congruence) ltac:(vm_compute; congruence) c _ (start_made _ _ E0) Hr) as H.
  rewrite Hf in H. cbn [post] in H. destruct H as [H _]. destruct H as (ms1 & ms2 & rs & _ & _ & _ & H & _); [by rewrite H3|].
  by exists c, a, c', ms1.
Defined.

(** A frame with a wrong checksum: nothing is handed over and the connection is shut
    down; but the frame stays in the buffer, and each further read reports it again. *)
Definition bad_frame : bytes := ztake (zlen (frame_of (lit "ab")) - 1) (frame_of (lit "ab")) ++ lit "?".
Example error_is_reported_again :
  ((c ← start false; (fun '(b, (a, c')) => (b, c_messages a, c_errors a, state_ c', content (inputBuffer_ c'))) <$>
     sample_run service (newSession 0%nat, c) [SUp (Wrote 0); SRead bad_frame (Wrote 0); SRead bytes_sent (Wrote 0)]))
  = Ok (true, [], [kCheckSumError; kCheckSumError], kDisconnecting, bad_frame ++ bytes_sent).
Proof. vm_compute. reflexivity. Qed.
End CodecStreamSample.
